(* ===== verification/_CoqProject ===== *)
-Q . S2P
Prelude.v
Threads.v
Bytes.v
Hashes.v
Types.v
Signatures.v
Transactions.v
Blocks.v
Packets.v
TxPool.v
Storage.v
BatchWriter.v
StorageEnv.v
Validators.v
Consensus.v
StateThreads.v
ConsensusThreads.v
GraphStore.v
Ledger.v
MemGraph.v
Genesis.v
Chain.v
Sharding.v
StateManager.v
ValidatorNode.v
NodeThreads.v
Cluster.v
Sequencer.v
ForgeThreads.v
Accounts.v
KeyGen.v
Runtime.v
PeerNode.v
Topology.v
TopologyMetrics.v
Routing.v
StateStore.v
Config.v
Network.v
Streams.v
Discovery.v
Ebpf.v
Privacy.v
Monitor.v
Dns.v
Keystore.v
Telemetry.v
Services.v
Program.v
