(* ===== verification/Prelude.v ===== *)
(** * PeerDNS, verified

    PeerDNS (the Go program under [src/]) is a node of a proof-of-authority
    blockchain: nodes find each other through libp2p, exchange packets over a
    gossip topic, agree on blocks by collecting approvals of validators, keep
    the blocks in an MDBX database, and run as a set of services of one process.
    This development models the program file by file as functions and step
    relations and proves what makes its parts correct, and, where the code falls
    short of what it means to do, what it does instead.

    ** The parts and where they are modelled

    Shared: this file, and [Threads.v], threads over a state and mutexes.

    Data.
    - [Bytes.v], [Hashes.v]: the parts of the Go library the codecs call
      ([encoding/binary], [bytes], [io], [encoding/hex], SHA-256, FNV-1a).
    - [Types.v], [Transactions.v], [Blocks.v]: [pkg/types]: hashes, addresses,
      transactions, blocks, Merkle roots, their identifiers and encodings.
    - [Packets.v]: [pkg/packets], the wire formats.
    - [Signatures.v]: [pkg/signatures], the three signers over their libraries;
      [KeyGen.v]: the keys they generate and the accounts made of them.

    Storage.
    - [Storage.v]: [pkg/storage/mdbx.go] and the interface [Provider];
      [BatchWriter.v]: [manager.go] and [writer.go], the workers as steps;
      [StorageEnv.v]: the environments that opening and closing leave behind.
    - [GraphStore.v]: [pkg/graphmdbx], a graph in a key-value database;
      [MemGraph.v] is an instance of the graph library for concrete runs.
    - [StateStore.v]: [pkg/state], records of the consensus in a database.
    - [Accounts.v]: [pkg/accounts], identities in files; [Keystore.v]:
      [cmd/keygen.go], the commands over them.

    Chain.
    - [TxPool.v]: [pkg/txpool].  [Ledger.v]: [pkg/ledger], balances, nonces and
      the graph of blocks.  [Genesis.v]: [pkg/genesis].  [Chain.v]:
      [pkg/chain].  [Sequencer.v]: [pkg/sequencer], which forges blocks from the
      pool and adds them to the chain; [ForgeThreads.v]: while others use both.
    - [Sharding.v]: [pkg/sharding].

    Consensus.
    - [Validators.v]: the metrics collector, the validator set and the message
      pool.  [Consensus.v]: [pkg/consensus], the state and the protocol;
      [StateThreads.v]: the writers of that state as threads, each a critical
      section and a write to the database; [ConsensusThreads.v]: the goroutines
      and locks of the protocol.
      [ValidatorNode.v]: [pkg/validator], the module a node runs, which does not
      use the protocol of [pkg/consensus] but its maps and its packets;
      [NodeThreads.v]: its goroutines.
      [Cluster.v]: several of these modules over one topic.

    Network.
    - [Network.v], [Streams.v], [Discovery.v]: [pkg/networking].  [Topology.v]:
      [pkg/topology]; [TopologyMetrics.v]: its collector.  [Routing.v]:
      [pkg/routing]; [Ebpf.v]: [pkg/ebpf].  [Privacy.v]: [pkg/privacy].
      [Monitor.v]: [pkg/metrics/monitor.go].  [Dns.v]: [pkg/dns/resolvers].

    Process.
    - [Config.v]: [pkg/config].  [StateManager.v]: the four managers of service
      states ([state.go] of four packages), one Section and a Module for each.
    - [Runtime.v]: [pkg/runtime], [pkg/shutdown], [pkg/resources].
      [PeerNode.v]: [pkg/node].  [Telemetry.v]: [pkg/logger] and
      [pkg/observability].  [Services.v]: [services/*] and the [run] command of
      [cmd/runtime.go].  [Program.v]: [pkg/certs], [cmd/certs.go] and [main.go].

    They meet at interfaces, each a class with its laws: [Signer] and
    [SignerCorrect] between the signers and everything that signs; [Provider]
    and [ProviderLaws] between the databases and their clients, discharged by
    [Db] from the laws of MDBX; [HoldsState] between the state of the consensus
    and the two components that keep one; [GraphLib] between the graph library and the
    ledger; [PairLib] and [PairLaws] between key pairs and accounts; [NodeLib]
    and [NodeLaws] between the node and the services, discharged by
    [Services.peer_node_laws].  [PeerNode.v] puts the ledger, the chain, the
    shards and the validator together, [Services.v] the node and the runtime.

    ** Conventions

    - A call that may fail returns [res]: a value, an error or a panic.  A call
      that changes a state is an [io].  Of an error the constant text and the
      wrapped cause are kept, not the values formatted into it.
    - Integers are [Z] within their width; arithmetic that may wrap says so
      ([u32], [u64], [i32], [i64]); [int] has 64 bits.  A float64 is a
      [spec_float] of 53 bits.
    - A method that holds its lock throughout is one step.  Where a method gives
      up its lock, blocks or runs in a goroutine it is a machine with a step
      relation, and the machines interleave freely ([BatchWriter.v],
      [StateManager.v], [Runtime.v], [Monitor.v], [ForgeThreads.v]).  The
      handlers of [Consensus.v] and [ValidatorNode.v] are single steps;
      [ConsensusThreads.v] and [NodeThreads.v] have them as threads of
      [Threads.v], whose critical sections and calls interleave, and show that
      a thread that is not disturbed does what the handler does.
    - The order in which a loop visits a Go map is an argument ([is_order]), and
      theorems hold for all orders.  The clock and random sources are arguments.
    - A pointer is modelled as an address into a store where the sharing can be
      seen ([PeersManager] of [Network.v], the handles of [Ebpf.v]), and as a
      value where the object is not changed once it is shared.
    - A nil and an empty slice are identified except where the code tells them
      apart.  Logging and spans are left out; the counters that are part of the
      code's books are kept.
    - Libraries are parameters with their documented laws as hypotheses, each
      with a concrete instance, at which the witnesses evaluate.  Hash
      collisions are never assumed away: a statement that depends on there being
      none has the collision as an alternative or as an explicit hypothesis.

    ** What the theorems show

    - Agreement.  [Consensus.consensus_safety], [approvals_finalize] and
      [finalized_blocks_share_approvers]: what counts as an approval, that a
      quorum of them finalizes, at once or, when the database fails on the last,
      as soon as one is handled again, and that the recorded approvers of two
      blocks finalized by two nodes overlap; [ConsensusThreads.Concurrent.concurrent_handlers]: this holds for
      all interleavings of the handlers, which neither deadlock nor run for
      ever; [ValidatorNode]: the invariant of the module a node runs, the
      delivery of a proposal, and the replay of an approval;
      [NodeThreads.NodeConcurrent.node_interleaved]: the invariant under every
      interleaving of its goroutines, where a block is finalized only by a quorum
      or after a finalization packet that a validator signed was heard;
      [Cluster.cluster_finality]: the same guarantees for several validators
      over a topic that loses, delays, reorders and repeats messages.
    - The chain.  [Chain.chain_reachable_inv], [Blockchain_AddBlock_spec],
      [NewBlockchain_spec], [Ledger.applyBlock_conserves]; [Sequencer.ForgeBlock_spec]
      composes pool, chain and states, and [ForgeThreads.forging_interleaved]: no
      transaction is lost while others use the pool and the chain;
      [TxPool.pool_reachable_inv] and [AddTransaction_spec];
      [Blocks.Block_roundtrip], up to the signer types, and
      [merkle_root_commits], among lists of one length.
    - Storage refines its specifications: [Storage.Db_refines_Provider],
      [BatchWriter.Writer.writer_refines_writes], which also says what a stop and
      a failed flush lose, [GraphStore.Store_refines_graph],
      [Accounts.accounts_survive_restart], [Keystore.keystore_refines_directory],
      [StateStore.state_records_immutable]; [KeyGen.created_account_signs]
      follows an account from its random keys through a restart to a signature;
      [StorageEnv.databases_released]: which failures leave an environment open.
    - The process.  [Runtime.runtime_startup], [graceful_shutdown] and
      [runtime_terminates] hold under every interleaving;
      [StateManager.WaitForState_spec] is the waiting they rely on;
      [Services.services_start_node] instantiates them with the seven services,
      [PeerNode.node_lifecycle] and [NewNode_spec] with the node;
      [Program.main_spec]: no command runs without a configuration and a logger;
      [Telemetry.Initialize_spec]: what is set up and what a failure leaves.
    - The network and the rest: invariants of the books
      ([Network.network_accounting]), a refinement for the mock network
      ([Streams.MockP2PNetwork_refines_log]), bounds ([Streams.response_fits]),
      termination ([Discovery.Advertise_returns]; [Monitor.monitor_stops], unless
      a peer never answers), error paths ([Ebpf.ebpf_handles_lost]), typing of the configuration
      ([Config.loaded_transports_typed]), the answers of the resolver
      ([Dns.Resolve_spec]), and the equivalence of sharding with its definition
      ([Sharding.sharding_is_hash]).

    ** Fuel and bounds

    Loops over a list are structural.  Loops with fuel: the listing of keys
    ([Storage.v], enough with more than the size of the database), the walk to the
    genesis block ([Chain.v], more than the number of blocks), the levels of a
    Merkle tree ([Blocks.v], the number of leaves), [Advertise] (one more than
    the attempts without a peer) and [ReadMessages] (an endless loop: the fuel is
    the number of turns looked at).  Each theorem about a loop with fuel states
    how much is enough or holds for every amount.

    ** Not modelled

    - [tests/]: set-up of the integration tests.
    - Generated and embedded code ([c/], the compiled eBPF objects), and the
      libraries: libp2p, MDBX, the graph library, circl, the BLS library, YAML,
      JSON, s2, miekg/dns, zap, OpenTelemetry, crypto/x509, urfave/cli, and the
      finalizers by which cilium/ebpf closes what is unreachable.
    - The wait of [Node.Shutdown] for the monitor: [PeerNode.v] has what comes
      before and what comes after it, [Monitor.v] the wait.
    - Accessors, and the goroutine of [Node.Start] that advertises the node.
    - The end of the program when a goroutine panics: the panic ends its thread
      in [ConsensusThreads.v] and [NodeThreads.v], and the others go on.
    - A torn read of [currentLeader] in [NodeThreads.v], where each access is
      one step although the code has no lock for it. *)
From Stdlib Require Export ZArith Lia.
From Stdlib Require Import Strings.Byte Strings.String.
From stdpp Require Export base tactics list gmap sets strings numbers fin_maps.

#[global] Open Scope Z_scope.
#[global] Set Default Goal Selector "!".

(** * Errors and outcomes of Go calls

    A Go error is a message, possibly wrapped ([fmt.Errorf("...: %w", err)],
    [errors.Wrap]) around another one.  Only the constant text of a message is
    kept, not the values formatted into it. *)
Inductive error : Type :=
| ErrMsg (text : string)
| ErrWrap (text : string) (cause : error).

#[export] Instance error_eq_dec : EqDecision error.
Proof. solve_decision. Defined.

(** [errors.Is(err, target)]: [target] occurs in the chain of causes. *)
Fixpoint errors_is (e target : error) : bool :=
  bool_decide (e = target) ||
  match e with
  | ErrMsg _ => false
  | ErrWrap _ c => errors_is c target
  end.

(** A call returns a value, returns an error, or panics. *)
Inductive res (A : Type) : Type :=
| Ok (a : A)
| Err (e : error)
| Panic.
Arguments Ok {A} a.
Arguments Err {A} e.
Arguments Panic {A}.

#[export] Instance res_ret : MRet res := fun A a => Ok a.
#[export] Instance res_bind : MBind res := fun A B k m =>
  match m with
  | Ok a => k a
  | Err e => Err e
  | Panic => Panic
  end.
#[export] Instance res_fmap : FMap res := fun A B f m =>
  match m with
  | Ok a => Ok (f a)
  | Err e => Err e
  | Panic => Panic
  end.

(** Wrapping the error of a call with a message, as the [if err != nil]
    branches of the code do. *)
Definition wrap {A} (text : string) (m : res A) : res A :=
  match m with
  | Err e => Err (ErrWrap text e)
  | _ => m
  end.

(** [if !cond { return err }]. *)
Definition ensure (cond : bool) (e : error) : res unit :=
  if cond then Ok tt else Err e.

Definition is_ok {A} (m : res A) : bool :=
  match m with Ok _ => true | _ => false end.

Definition no_panic {A} (m : res A) : Prop := m <> Panic.

(** A call that also changes a state [S], whatever its outcome. *)
Definition io (S A : Type) : Type := S -> S * res A.
#[export] Instance io_ret {S} : MRet (io S) := fun A a s => (s, Ok a).
#[export] Instance io_bind {S} : MBind (io S) := fun A B k m s =>
  match m s with
  | (s, Ok a) => k a s
  | (s, Err e) => (s, Err e)
  | (s, Panic) => (s, Panic)
  end.
Definition io_lift {S A} (r : res A) : io S A := fun s => (s, r).
(** A call that reads the state. *)
Definition io_read {S A} (f : S -> res A) : io S A := fun s => (s, f s).
Definition io_wrap {S A} (text : string) (m : io S A) : io S A := fun s =>
  let '(s, r) := m s in (s, wrap text r).

(** [if err := m; err != nil { log }]: was there no error? *)
Definition logged {S} (m : io S unit) : io S bool := fun s =>
  match m s with
  | (s, Ok _) => (s, Ok true)
  | (s, Err _) => (s, Ok false)
  | (s, Panic) => (s, Panic)
  end.
Definition when {S} (b : bool) (m : io S unit) : io S unit := if b then m else mret tt.

(** [for _, x := range l { if err := f(x); err != nil { return err } }]. *)
Fixpoint io_iter {S A} (f : A -> io S unit) (l : list A) : io S unit :=
  match l with
  | [] => mret tt
  | a :: l => _ ← f a; io_iter f l
  end.

(** Running a fallible step over a list, in order, stopping at the first
    error: the shape of the [for _, x := range xs { if err := f(x); ... }]
    loops that thread a state. *)
Fixpoint fold_res {S A} (f : S -> A -> res S) (s : S) (l : list A) : res S :=
  match l with
  | [] => Ok s
  | a :: l => s' ← f s a; fold_res f s' l
  end.

Section res_lemmas.
Context {A B : Type}.
Implicit Types (m : res A) (k : A -> res B).

Lemma bind_Ok a k : (Ok a ≫= k) = k a.
Proof. reflexivity. Qed.

Lemma bind_Err e k : (Err e ≫= k) = Err e.
Proof. reflexivity. Qed.

Lemma bind_Ok_inv m k b : (m ≫= k) = Ok b -> exists a, m = Ok a /\ k a = Ok b.
Proof. destruct m as [a|e|]; cbn; try discriminate. eauto. Qed.

Lemma no_panic_bind m k :
  no_panic m -> (forall a, m = Ok a -> no_panic (k a)) -> no_panic (m ≫= k).
Proof.
  unfold no_panic. intros Hm Hk.
  destruct m as [a|e|]; cbn; [by apply Hk|done|done].
Qed.

Lemma no_panic_wrap text m : no_panic m -> no_panic (wrap text m).
Proof. unfold no_panic. by destruct m. Qed.

Lemma wrap_Ok text (a : A) : wrap text (Ok a) = Ok a.
Proof. reflexivity. Qed.

Lemma wrap_Ok_inv text m a : wrap text m = Ok a -> m = Ok a.
Proof. by destruct m. Qed.

Lemma no_panic_Ok (a : A) : no_panic (Ok a).
Proof. done. Qed.

Lemma no_panic_Err e : no_panic (Err e : res A).
Proof. done. Qed.
End res_lemmas.

Lemma ensure_Ok c e : ensure c e = Ok tt <-> c = true.
Proof. by destruct c. Qed.

Lemma ensure_bind {A} c e (k : unit -> res A) a :
  (ensure c e ≫= k) = Ok a <-> c = true /\ k tt = Ok a.
Proof. destruct c; cbn; (split; [intros H|intros [H1 H2]]); by try split. Qed.

Lemma no_panic_ensure c e : no_panic (ensure c e).
Proof. by destruct c. Qed.

(** How a computation that succeeded went. *)
Lemma io_bind_inv {S A B} (m : io S A) (k : A -> io S B) s s' b :
  (m ≫= k) s = (s', Ok b) -> exists s1 a, m s = (s1, Ok a) /\ k a s1 = (s', Ok b).
Proof. cbv [mbind io_bind]. destruct (m s) as [s1 [a|e|]]; [eauto|done..]. Qed.
Lemma io_bind_Ok {S A B} (m : io S A) (k : A -> io S B) s s1 a :
  m s = (s1, Ok a) -> (m ≫= k) s = k a s1.
Proof. cbv [mbind io_bind]. by intros ->. Qed.
Lemma io_bind_Err {S A B} (m : io S A) (k : A -> io S B) s s1 e :
  m s = (s1, Err e) -> (m ≫= k) s = (s1, Err e).
Proof. cbv [mbind io_bind]. by intros ->. Qed.
Lemma io_wrap_inv {S A} text (m : io S A) s s' a :
  io_wrap text m s = (s', Ok a) -> m s = (s', Ok a).
Proof. unfold io_wrap. by destruct (m s) as [? []]. Qed.

(** An invariant of the state that every call keeps, whatever its outcome. *)
Definition io_keeps {S A} (I : S -> Prop) (m : io S A) : Prop := forall s, I s -> I (m s).1.

Lemma io_keeps_bind {S A B} (I : S -> Prop) (m : io S A) (k : A -> io S B) :
  io_keeps I m -> (forall a, io_keeps I (k a)) -> io_keeps I (m ≫= k).
Proof.
  intros Hm Hk s Hs. cbv [mbind io_bind]. specialize (Hm s Hs).
  destruct (m s) as [s1 [a|e|]]; [by apply Hk|done..].
Qed.
Lemma io_keeps_ret {S A} (I : S -> Prop) (a : A) : io_keeps I (mret a).
Proof. by intros s. Qed.
Lemma io_keeps_wrap {S A} (I : S -> Prop) text (m : io S A) :
  io_keeps I m -> io_keeps I (io_wrap text m).
Proof. intros Hm s Hs. specialize (Hm s Hs). unfold io_wrap. by destruct (m s). Qed.
Lemma io_keeps_lift {S A} (I : S -> Prop) (r : res A) : io_keeps I (io_lift r).
Proof. by intros s. Qed.
Lemma io_keeps_read {S A} (I : S -> Prop) (f : S -> res A) : io_keeps I (io_read f).
Proof. by intros s. Qed.
Lemma io_keeps_iter {S A} (I : S -> Prop) (f : A -> io S unit) l :
  (forall a, a ∈ l -> io_keeps I (f a)) -> io_keeps I (io_iter f l).
Proof.
  induction l as [|a l IH]; intros Hf; cbn; [apply io_keeps_ret|].
  apply io_keeps_bind; [apply Hf; left|intros _; apply IH]. intros. apply Hf. by right.
Qed.

Lemma io_iter_no_panic {S A} (f : A -> io S unit) l s :
  (forall a s, no_panic (f a s).2) -> no_panic (io_iter f l s).2.
Proof.
  intros Hf. revert s. induction l as [|a l IH]; intros s; cbn [io_iter]; [done|].
  cbv [mbind io_bind]. specialize (Hf a s). destruct (f a s) as [s1 [u|e|]]; [apply IH|done|done].
Qed.

Lemma fold_res_app {S A} (f : S -> A -> res S) s l1 l2 :
  fold_res f s (l1 ++ l2) = (s' ← fold_res f s l1; fold_res f s' l2).
Proof.
  revert s. induction l1 as [|a l1 IH]; intros s; cbn; [done|].
  destruct (f s a); cbn; [apply IH|done|done].
Qed.

(** An invariant of a fallible loop. *)
Lemma fold_res_ind {S A} (P : S -> Prop) (f : S -> A -> res S) l s s' :
  (forall s a s', a ∈ l -> P s -> f s a = Ok s' -> P s') ->
  P s -> fold_res f s l = Ok s' -> P s'.
Proof.
  revert s. induction l as [|a l IH]; intros s Hstep Hs; cbn.
  { by intros [= <-]. }
  intros (s1 & Hf & Hrest)%bind_Ok_inv. eapply IH; [|..|exact Hrest].
  - intros ??? Hin. apply Hstep. by right.
  - eapply Hstep; [left|..]; eauto.
Qed.

Lemma filter_ext_in {A} (P Q : A -> Prop) `{!forall x, Decision (P x), !forall x, Decision (Q x)} (l : list A) :
  (forall x, x ∈ l -> P x <-> Q x) -> filter P l = filter Q l.
Proof.
  induction l as [|x l IH]; intros HPQ; [done|]. rewrite !filter_cons.
  rewrite IH by (intros; apply HPQ; by right).
  specialize (HPQ x ltac:(left)).
  destruct (decide (P x)), (decide (Q x)); tauto || done.
Qed.

(** * Map iteration

    [for k, v := range m] visits the entries of a Go map in an order the
    runtime chooses anew for every loop.  Such a loop takes the order as an
    argument, and theorems quantify over all of them. *)
Definition is_order {K V} `{Countable K} (m : gmap K V) (ord : list K) : Prop :=
  ord ≡ₚ (map_to_list m).*1.

Section is_order.
Context {K V : Type} `{Countable K}.
Implicit Types (m : gmap K V).

Lemma is_order_elem m ord k : is_order m ord -> k ∈ ord <-> is_Some (m !! k).
Proof.
  intros Hord. rewrite Hord, list_elem_of_fmap. split.
  - intros ([k' v] & -> & Hin). apply elem_of_map_to_list in Hin. eauto.
  - intros [v Hv]. exists (k, v). by rewrite elem_of_map_to_list.
Qed.

Lemma is_order_NoDup m ord : is_order m ord -> NoDup ord.
Proof. intros Hord. rewrite Hord. apply NoDup_fst_map_to_list. Qed.

Lemma is_order_values m ord :
  is_order m ord -> omap (fun k => m !! k) ord ≡ₚ (map_to_list m).*2.
Proof.
  intros Hord. rewrite Hord. clear ord Hord.
  assert (forall l, (forall k v, (k, v) ∈ l -> m !! k = Some v) ->
    omap (fun k => m !! k) l.*1 = l.*2) as Hl.
  { induction l as [|[k v] l IH]; intros Hin; [done|]. cbn.
    rewrite (Hin k v) by left. f_equal. apply IH. intros. apply Hin. by right. }
  rewrite Hl; [done|]. intros k v. by rewrite elem_of_map_to_list.
Qed.

Lemma is_order_length m ord : is_order m ord -> length ord = size m.
Proof. intros Hord. by rewrite Hord, length_fmap, length_map_to_list. Qed.
End is_order.

Lemma is_order_exists {K V} `{Countable K} (m : gmap K V) : is_order m (map_to_list m).*1.
Proof. by unfold is_order. Qed.

(** * Automation *)
Create HintDb peerdns discriminated.
Create Rewrite HintDb peerdns.
#[export] Hint Resolve io_keeps_bind io_keeps_ret io_keeps_wrap io_keeps_lift io_keeps_read : peerdns.
#[export] Hint Resolve no_panic_Ok no_panic_Err no_panic_ensure no_panic_wrap : peerdns.

(** [res_inv]: take apart a hypothesis saying that a chain of calls succeeded. *)
Ltac res_inv_step :=
  match goal with
  | H : ensure _ _ ≫= _ = Ok _ |- _ => apply ensure_bind in H as [? H]
  | H : _ ≫= _ = Ok _ |- _ =>
      let a := fresh "a" in let E := fresh "E" in
      apply bind_Ok_inv in H as (a & E & H)
  | H : wrap _ _ = Ok _ |- _ => apply wrap_Ok_inv in H
  | H : mret _ = Ok _ |- _ => injection H as H
  | H : Ok _ = Ok _ |- _ => injection H as H
  | H : Err _ = Ok _ |- _ => discriminate H
  | H : Panic = Ok _ |- _ => discriminate H
  | H : ensure _ _ = Ok tt |- _ => apply ensure_Ok in H
  end.
Ltac res_inv := repeat (res_inv_step; cbn beta iota in * ); simplify_eq.

(** [io_inv]: the same for computations with a state. *)
Ltac io_inv :=
  repeat match goal with
  | H : (_ ≫= _) _ = (_, Ok _) |- _ =>
      let s := fresh "s" in let a := fresh "a" in let E := fresh "E" in
      apply io_bind_inv in H as (s & a & E & H); cbn beta in H
  | H : io_wrap _ _ _ = (_, Ok _) |- _ => apply io_wrap_inv in H
  | H : io_lift _ _ = (_, _) |- _ => apply (inj2 pair) in H as [? ?]
  | H : io_read _ _ = (_, _) |- _ => apply (inj2 pair) in H as [? ?]
  | H : mret _ _ = (_, _) |- _ => apply (inj2 pair) in H as [? ?]
  end.

(** [no_panic_tac]: follow a chain of calls showing that none panics. *)
Ltac no_panic_tac :=
  repeat first
    [ apply no_panic_Ok | apply no_panic_Err | apply no_panic_ensure
    | apply no_panic_wrap
    | apply no_panic_bind; [|intros ? ?]
    | case_match | solve [eauto with peerdns] ].

(** * Machine integers

    Go integers are kept as [Z]; every operation that can leave the range of
    its type wraps explicitly.  [int] is 64 bits wide. *)
Definition u8 (z : Z) : Z := z mod 2 ^ 8.
Definition u16 (z : Z) : Z := z mod 2 ^ 16.
Definition u32 (z : Z) : Z := z mod 2 ^ 32.
Definition u64 (z : Z) : Z := z mod 2 ^ 64.
(** Two's complement reading of the low [w] bits. *)
Definition signed (w z : Z) : Z :=
  let m := z mod 2 ^ w in if m <? 2 ^ (w - 1) then m else m - 2 ^ w.
Definition i32 (z : Z) : Z := signed 32 z.
Definition i64 (z : Z) : Z := signed 64 z.

Definition is_u8 (z : Z) : Prop := 0 <= z < 2 ^ 8.
Definition is_u16 (z : Z) : Prop := 0 <= z < 2 ^ 16.
Definition is_u32 (z : Z) : Prop := 0 <= z < 2 ^ 32.
Definition is_u64 (z : Z) : Prop := 0 <= z < 2 ^ 64.
Definition is_i32 (z : Z) : Prop := - 2 ^ 31 <= z < 2 ^ 31.
Definition is_i64 (z : Z) : Prop := - 2 ^ 63 <= z < 2 ^ 63.

Lemma u32_small z : is_u32 z -> u32 z = z.
Proof. unfold is_u32, u32. intros. by apply Z.mod_small. Qed.
Lemma u64_small z : is_u64 z -> u64 z = z.
Proof. unfold is_u64, u64. intros. by apply Z.mod_small. Qed.
Lemma u64_range z : is_u64 (u64 z).
Proof. unfold is_u64, u64. by apply Z.mod_pos_bound. Qed.
Lemma u32_range z : is_u32 (u32 z).
Proof. unfold is_u32, u32. by apply Z.mod_pos_bound. Qed.

Lemma signed_small w z :
  0 < w -> - 2 ^ (w - 1) <= z < 2 ^ (w - 1) -> signed w z = z.
Proof.
  intros Hw Hz. unfold signed. cbv zeta.
  assert (2 ^ w = 2 * 2 ^ (w - 1)) as Hpow.
  { rewrite <- Z.pow_succ_r by lia. f_equal. lia. }
  destruct (Z.le_gt_cases 0 z).
  - rewrite Z.mod_small by lia. destruct (Z.ltb_spec z (2 ^ (w - 1))); lia.
  - assert (z mod 2 ^ w = z + 2 ^ w) as ->.
    { symmetry. apply Z.mod_unique with (q := -1); lia. }
    destruct (Z.ltb_spec (z + 2 ^ w) (2 ^ (w - 1))); lia.
Qed.

Lemma signed_range w z :
  0 < w -> - 2 ^ (w - 1) <= signed w z < 2 ^ (w - 1).
Proof.
  intros Hw. unfold signed. cbv zeta.
  assert (2 ^ w = 2 * 2 ^ (w - 1)) as Hpow.
  { rewrite <- Z.pow_succ_r by lia. f_equal. lia. }
  assert (0 < 2 ^ (w - 1)) by (apply Z.pow_pos_nonneg; lia).
  pose proof (Z.mod_pos_bound z (2 ^ w) ltac:(lia)).
  destruct (Z.ltb_spec (z mod 2 ^ w) (2 ^ (w - 1))); lia.
Qed.

Lemma signed_mod w z : 0 < w -> signed w (z mod 2 ^ w) = signed w z.
Proof. intros. unfold signed. by rewrite Zmod_mod. Qed.

Lemma i64_small z : is_i64 z -> i64 z = z.
Proof. intros. by apply signed_small. Qed.
Lemma i64_u64 z : is_i64 z -> i64 (u64 z) = z.
Proof.
  intros Hz. unfold i64, u64. rewrite signed_mod by lia. by apply signed_small.
Qed.
Lemma i32_u32 z : is_i32 z -> i32 (u32 z) = z.
Proof.
  intros Hz. unfold i32, u32. rewrite signed_mod by lia. by apply signed_small.
Qed.
Lemma i64_range z : is_i64 (i64 z).
Proof. by apply (signed_range 64). Qed.

#[export] Hint Resolve u64_range u32_range i64_range : peerdns.
#[export] Hint Rewrite @bind_Ok @bind_Err @wrap_Ok : peerdns.
