(* ===== verification/Threads.v ===== *)
(** Threads that share a state and mutexes, for the goroutines of a component.

    A thread is a tree of atomic actions: a critical section of the shared state, a
    call of the outside, a lock or an unlock.  The threads of a component act in any
    order.  A thread is related to the method that is one step ([sim]); threads that
    take one mutex at a time do not deadlock ([lock_inv_progress]) and all end
    ([thread_step_wf]); and an invariant of the state holds under interference if
    every action keeps it whatever the others did since ([ok], [safe]). *)
From S2P Require Import Prelude.

Create HintDb sim.
Create HintDb neutral.

Section Threads.
Context {St mutex : Type} `{EqDecision mutex}.

(** * Threads *)
Inductive prog :=
| Done
| Step (f : St -> St) (next : St -> prog)
| Lock (m : mutex) (next : prog)
| Unlock (m : mutex) (next : prog).

(** A part of a thread: what it does before it goes on with its result. *)
Definition T (A : Type) : Type := (res A -> prog) -> prog.
#[export] Instance T_ret : MRet T := fun A a c => c (Ok a).
#[export] Instance T_bind : MBind T := fun A B k t c =>
  t (fun r => match r with Ok a => k a c | Err e => c (Err e) | Panic => c Panic end).
Definition atom {A} (m : io St A) : T A := fun c =>
  Step (fun cp => (m cp).1) (fun cp => c (m cp).2).
Definition read {A} (f : St -> A) : T A := atom (fun cp => (cp, Ok (f cp))).
Definition pure {A} (r : res A) : T A := fun c => c r.
Definition wrapped {A} (text : string) (t : T A) : T A := fun c => t (fun r => c (wrap text r)).
Definition logged (t : T unit) : T bool := fun c =>
  t (fun r => match r with Ok _ => c (Ok true) | Err _ => c (Ok false) | Panic => c Panic end).
Definition when (b : bool) (t : T unit) : T unit := if b then t else mret tt.
(** [m.Lock(); defer m.Unlock()]. *)
Definition locked {A} (m : mutex) (t : T A) : T A := fun c =>
  Lock m (t (fun r => Unlock m (c r))).

Record config := {
  c_state : St;
  c_locks : mutex -> option nat;
  c_threads : list prog;
}.
Definition set_lock (m : mutex) (o : option nat) (locks : mutex -> option nat) : mutex -> option nat :=
  fun m' => if decide (m' = m) then o else locks m'.

(** One action of thread [i], if it can act. *)
Definition act (i : nat) (c : config) : option config :=
  p ← c_threads c !! i;
  match p with
  | Done => None
  | Step f next => Some {| c_state := f (c_state c); c_locks := c_locks c;
                           c_threads := <[i := next (c_state c)]> (c_threads c) |}
  | Lock m next =>
      match c_locks c m with
      | None => Some {| c_state := c_state c; c_locks := set_lock m (Some i) (c_locks c);
                        c_threads := <[i := next]> (c_threads c) |}
      | Some _ => None
      end
  | Unlock m next => Some {| c_state := c_state c; c_locks := set_lock m None (c_locks c);
                             c_threads := <[i := next]> (c_threads c) |}
  end.
Definition thread_step (c c' : config) : Prop := exists i, act i c = Some c'.
Definition start_threads (s : St) (threads : list prog) : config :=
  {| c_state := s; c_locks := fun _ => None; c_threads := threads |}.

(** * A thread alone is the method *)
Fixpoint run (p : prog) (cp : St) : St :=
  match p with
  | Done => cp
  | Step f next => run (next cp) (f cp)
  | Lock _ p | Unlock _ p => run p cp
  end.

(** [t], when nobody interferes, does what [m] does. *)
Definition sim {A} (t : T A) (m : io St A) : Prop :=
  forall c cp, run (t c) cp = run (c (m cp).2) (m cp).1.

Lemma sim_ret {A} (a : A) : sim (mret a) (mret a).
Proof. done. Qed.
Lemma sim_pure {A} (r : res A) : sim (pure r) (io_lift r).
Proof. done. Qed.
Lemma sim_atom {A} (m : io St A) : sim (atom m) m.
Proof. done. Qed.
Lemma sim_bind {A B} (t : T A) (k : A -> T B) (m : io St A) (k' : A -> io St B) :
  sim t m -> (forall a, sim (k a) (k' a)) -> sim (t ≫= k) (m ≫= k').
Proof.
  intros Ht Hk c cp. cbv [mbind T_bind io_bind]. rewrite Ht.
  destruct (m cp) as [cp' [a|e|]]; [apply Hk|done..].
Qed.
Lemma run_bind {A B} (t : T A) (m : io St A) (k : A -> T B) c cp :
  sim t m ->
  run ((t ≫= k) c) cp =
    match m cp with
    | (cp', Ok a) => run (k a c) cp'
    | (cp', Err e) => run (c (Err e)) cp'
    | (cp', Panic) => run (c Panic) cp'
    end.
Proof. intros Ht. cbv [mbind T_bind]. rewrite Ht. by destruct (m cp) as [cp' []]. Qed.
(** A read, in a method that has the state in its hand. *)
Lemma run_read {A B} (f : St -> A) (k : A -> T B) c cp :
  run ((read f ≫= k) c) cp = run (k (f cp) c) cp.
Proof. done. Qed.
Lemma sim_wrapped {A} text (t : T A) (m : io St A) : sim t m -> sim (wrapped text t) (io_wrap text m).
Proof. intros Ht c cp. unfold wrapped, io_wrap. rewrite Ht. by destruct (m cp). Qed.
Lemma sim_logged t (m : io St unit) : sim t m -> sim (logged t) (Prelude.logged m).
Proof. intros Ht c cp. unfold logged, Prelude.logged. rewrite Ht. by destruct (m cp) as [? []]. Qed.
Lemma sim_when b t (m : io St unit) : sim t m -> sim (when b t) (Prelude.when b m).
Proof. by destruct b. Qed.
Lemma sim_locked {A} mu (t : T A) (m : io St A) : sim t m -> sim (locked mu t) m.
Proof. intros Ht c cp. cbn. by rewrite Ht. Qed.
Lemma run_ret {A B} (a : A) (k : A -> T B) c cp :
  run (((mret a : T A) ≫= k) c) cp = run (k a c) cp.
Proof. done. Qed.
Lemma method_ret {A B} (a : A) (k : A -> io St B) cp : ((mret a : io St A) ≫= k) cp = k a cp.
Proof. done. Qed.
Lemma when_true t : when true t = t.
Proof. done. Qed.
Lemma method_when_true (m : io St unit) : Prelude.when true m = m.
Proof. done. Qed.

(** * Locks *)
(** A thread holds at most one mutex, takes none while it holds one, and holds
    none when it ends. *)
Fixpoint disciplined (held : option mutex) (p : prog) : Prop :=
  match p with
  | Done => held = None
  | Step f next => forall cp, disciplined held (next cp)
  | Lock m next => held = None /\ disciplined (Some m) next
  | Unlock m next => held = Some m /\ disciplined None next
  end.
(** A part of a thread that leaves the mutexes as they were. *)
Definition neutral {A} (held : option mutex) (t : T A) : Prop :=
  forall c, (forall r, disciplined held (c r)) -> disciplined held (t c).

Lemma neutral_ret {A} h (a : A) : neutral h (mret a).
Proof. intros c Hc. apply Hc. Qed.
Lemma neutral_pure {A} h (r : res A) : neutral h (pure r).
Proof. intros c Hc. apply Hc. Qed.
Lemma neutral_atom {A} h (m : io St A) : neutral h (atom m).
Proof. intros c Hc. cbn. intros cp. apply Hc. Qed.
Lemma neutral_read {A} h (f : St -> A) : neutral h (read f).
Proof. apply neutral_atom. Qed.
Lemma neutral_bind {A B} h (t : T A) (k : A -> T B) :
  neutral h t -> (forall a, neutral h (k a)) -> neutral h (t ≫= k).
Proof. intros Ht Hk c Hc. apply Ht. intros [a|e|]; [by apply Hk|apply Hc..]. Qed.
Lemma neutral_wrapped {A} h text (t : T A) : neutral h t -> neutral h (wrapped text t).
Proof. intros Ht c Hc. apply Ht. intros r. apply Hc. Qed.
Lemma neutral_logged h t : neutral h t -> neutral h (logged t).
Proof. intros Ht c Hc. apply Ht. intros [a|e|]; apply Hc. Qed.
Lemma neutral_when h b t : neutral h t -> neutral h (when b t).
Proof. intros Ht. destruct b; [done|apply neutral_ret]. Qed.
Lemma neutral_locked {A} mu (t : T A) : neutral (Some mu) t -> neutral None (locked mu t).
Proof. intros Ht c Hc. split; [done|]. apply Ht. intros r. split; [done|apply Hc]. Qed.
(** Who holds what. *)
Definition lock_inv (c : config) : Prop := exists holds : list (option mutex),
  Forall2 disciplined holds (c_threads c) /\
  forall m i, c_locks c m = Some i <-> holds !! i = Some (Some m).

Lemma set_lock_eq m o locks : set_lock m o locks m = o.
Proof. unfold set_lock. by rewrite decide_True. Qed.
Lemma set_lock_ne m o locks m' : m' <> m -> set_lock m o locks m' = locks m'.
Proof. intros Hne. unfold set_lock. by rewrite decide_False. Qed.

Lemma lock_inv_act i c c' : lock_inv c -> act i c = Some c' -> lock_inv c'.
Proof.
  intros (holds & Hd & Hl) Ha. unfold act in Ha. apply bind_Some in Ha as (p & Hp & Ha).
  destruct (Forall2_lookup_r _ _ _ _ _ Hd Hp) as (o & Ho & Hdis).
  pose proof (lookup_lt_Some _ _ _ Ho) as Hlt.
  destruct p as [|f next|m next|m next]; [done|..]; cbn in Hdis.
  - injection Ha as <-. exists holds. split; [|done]. cbn.
    rewrite <- (list_insert_id holds i o) by done. by apply Forall2_insert.
  - destruct Hdis as [-> Hdis]. destruct (c_locks c m) eqn:Hm; [done|]. injection Ha as <-.
    exists (<[i := Some m]> holds). split; [by apply Forall2_insert|]. cbn. intros m' j.
    rewrite list_lookup_insert_Some. destruct (decide (m' = m)) as [->|Hne].
    + rewrite set_lock_eq. split; [intros [= <-]; by left|].
      intros [(<- & _ & _)|(_ & Hj)]; [done|]. apply Hl in Hj. congruence.
    + rewrite set_lock_ne, Hl by done. split; [|intros [(_ & ? & _)|[_ ?]]; [congruence|done]].
      intros Hj. right. split; [|done]. intros ->. congruence.
  - destruct Hdis as [-> Hdis]. injection Ha as <-. exists (<[i := None]> holds).
    split; [by apply Forall2_insert|]. cbn. intros m' j. rewrite list_lookup_insert_Some.
    destruct (decide (m' = m)) as [->|Hne].
    + rewrite set_lock_eq. split; [done|]. intros [(_ & ? & _)|(Hne & Hj)]; [done|].
      apply Hl in Hj, Ho. congruence.
    + rewrite set_lock_ne, Hl by done. split; [|intros [(_ & ? & _)|[_ ?]]; done].
      intros Hj. right. split; [|done]. intros ->. congruence.
Qed.

Lemma lock_inv_start_threads s threads : Forall (disciplined None) threads -> lock_inv (start_threads s threads).
Proof.
  intros Hd. exists (replicate (length threads) None). split; cbn.
  - induction Hd; cbn; by constructor.
  - intros m i. split; [done|]. by intros [? ?]%lookup_replicate.
Qed.

Definition is_done (p : prog) : bool := match p with Done => true | _ => false end.
(** A thread that is not done can act, or waits for one that can. *)
Lemma lock_inv_progress c :
  lock_inv c -> Forall (fun p => is_done p = true) (c_threads c) \/ exists c', thread_step c c'.
Proof.
  intros (holds & Hd & Hl).
  destruct (decide (Exists (fun o => is_Some o) holds)) as [Hex|Hno].
  - right. apply Exists_exists in Hex as (o & [i Hi]%list_elem_of_lookup & [m ->]).
    destruct (Forall2_lookup_l _ _ _ _ _ Hd Hi) as (p & Hp & Hdis).
    assert (is_Some (act i c)) as [c' Hc']; [|by exists c', i].
    unfold act. rewrite Hp. cbn. destruct p; cbn in Hdis; [done|eauto|by destruct Hdis|eauto].
  - assert (forall m, c_locks c m = None) as Hfree.
    { intros m. destruct (c_locks c m) as [i|] eqn:Eh; [|done]. apply Hl in Eh. destruct Hno.
      apply Exists_exists. exists (Some m). split; [by eapply list_elem_of_lookup_2|done]. }
    destruct (decide (Forall (fun p => is_done p = true) (c_threads c))) as [Hall|Hnot]; [by left|].
    right. apply not_Forall_Exists, Exists_exists in Hnot as (p & [i Hi]%list_elem_of_lookup & Hp);
      [|intros ?; apply _].
    assert (is_Some (act i c)) as [c' Hc']; [|by exists c', i].
    unfold act. rewrite Hi. cbn. destruct p as [| |m|]; [by destruct Hp|eauto|rewrite Hfree; eauto|eauto].
Qed.

(** * Termination *)
Inductive continues : prog -> prog -> Prop :=
| continues_step f next cp : continues (next cp) (Step f next)
| continues_lock m next : continues next (Lock m next)
| continues_unlock m next : continues next (Unlock m next).
Lemma continues_wf p : Acc continues p.
Proof. induction p as [|f next IH|m next IH|m next IH]; constructor; intros p' Hp; by inversion Hp. Qed.

Definition one_continues (l' l : list prog) : Prop :=
  exists i p p', l !! i = Some p /\ continues p' p /\ l' = <[i := p']> l.
Lemma one_continues_wf l : Acc one_continues l.
Proof.
  induction l as [|p l IH].
  { constructor. intros l' (i & p & p' & Hi & _). by rewrite lookup_nil in Hi. }
  revert l IH. induction (continues_wf p) as [p _ IHp]. intros l Hl.
  induction Hl as [l Hl IHl]. constructor. intros l' ([|i] & q & q' & Hi & Hc & ->); cbn in *.
  - injection Hi as <-. apply IHp; [done|by constructor].
  - apply IHl. by exists i, q, q'.
Qed.

Lemma thread_step_wf c : Acc (fun c' c => thread_step c c') c.
Proof.
  remember (c_threads c) as l eqn:El. revert c El.
  induction (one_continues_wf l) as [l _ IH]. intros c ->. constructor. intros c' [i Ha].
  eapply IH; [|reflexivity]. unfold act in Ha. apply bind_Some in Ha as (p & Hp & Ha).
  exists i, p. destruct p as [|f next|m next|m next]; [done|..].
  - injection Ha as <-. eexists. split; [done|]. split; [apply continues_step|done].
  - destruct (c_locks c m); [done|]. injection Ha as <-. eexists. split; [done|].
    split; [apply continues_lock|done].
  - injection Ha as <-. eexists. split; [done|]. split; [apply continues_unlock|done].
Qed.

(** With one thread the end is known from the start. *)
Lemma run_act c c' i p :
  c_threads c = [p] -> act i c = Some c' ->
  exists p', c_threads c' = [p'] /\ run p' (c_state c') = run p (c_state c).
Proof.
  intros Et Ha. unfold act in Ha. rewrite Et in Ha. destruct i as [|i]; [|done]. cbn in Ha.
  destruct p as [|f next|m next|m next]; [done|..].
  - injection Ha as <-. by eexists.
  - destruct (c_locks c m); [done|]. injection Ha as <-. by eexists.
  - injection Ha as <-. by eexists.
Qed.

Lemma run_thread_steps c c' p :
  rtc thread_step c c' -> c_threads c = [p] ->
  exists p', c_threads c' = [p'] /\ run p' (c_state c') = run p (c_state c).
Proof.
  intros Hs. revert p. induction Hs as [c|c c1 c' [i Hi] _ IH]; intros p Hp; [eauto|].
  destruct (run_act c c1 i p Hp Hi) as (p1 & H1 & <-). by apply IH.
Qed.

(** A schedule names the threads that act. *)
Definition schedule (c : config) (l : list nat) : option config :=
  fold_left (fun oc i => c ← oc; act i c) l (Some c).
Lemma thread_schedule_steps c l c' : schedule c l = Some c' -> rtc thread_step c c'.
Proof.
  unfold schedule. revert c. induction l as [|i l IH]; intros c; cbn.
  { intros [= <-]. apply rtc_refl. }
  destruct (act i c) as [c1|] eqn:Ha; [intros Hr; eapply rtc_l; [by exists i|by apply IH]|].
  assert (fold_left (fun oc i => c ← oc; act i c) l None = None) as ->
    by (clear; by induction l). done.
Qed.

(** Threads that take one mutex at a time go on until all have ended, and then the
    mutexes are free. *)
Lemma lock_inv_end c :
  lock_inv c -> (Forall (fun p => is_done p = true) (c_threads c) /\ forall m, c_locks c m = None) \/
    exists c', thread_step c c'.
Proof.
  intros Hl. destruct (lock_inv_progress c Hl) as [Hd|]; [left|by right]. split; [done|].
  intros m. destruct (c_locks c m) as [i|] eqn:Ei; [|done]. destruct Hl as (holds & Hdis & Hl).
  apply Hl in Ei. destruct (Forall2_lookup_l _ _ _ _ _ Hdis Ei) as (p & Hp & Hpd).
  apply (proj1 (Forall_lookup _ _) Hd) in Hp. by destruct p.
Qed.
Lemma lock_inv_steps c c' : rtc thread_step c c' -> lock_inv c -> lock_inv c'.
Proof. induction 1 as [|c c1 c' [i Hi] _ IH]; [done|]. intros Hl. apply IH. by eapply lock_inv_act. Qed.

(** * Safety under interference *)
Section Safety.
Context {I : St -> Prop} {extends : relation St} `{!PreOrder extends}.
(** What the other threads may do meanwhile: approvals are only added. *)
Definition stable (P : St -> Prop) : Prop := forall cp cp', P cp -> extends cp cp' -> P cp'.

(** Whatever the others did since [cp], every action of the thread keeps the
    invariant. *)
Fixpoint ok (p : prog) (cp : St) : Prop :=
  match p with
  | Done => True
  | Step f next => forall cp', extends cp cp' -> I cp' ->
      I (f cp') /\ extends cp' (f cp') /\ ok (next cp') (f cp')
  | Lock _ next | Unlock _ next => ok next cp
  end.
Lemma ok_extends p cp cp' : ok p cp -> extends cp cp' -> ok p cp'.
Proof.
  induction p as [|f next _|m next IH|m next IH]; cbn; [done| |done|done].
  intros Hok He cp2 He2. apply Hok. by etrans.
Qed.

(** From [P], [t] ends with a value of [Q]; after an error the thread may go on
    anywhere. *)
Definition safe {A} (P : St -> Prop) (t : T A) (Q : A -> St -> Prop) : Prop :=
  forall c, (forall a cp, Q a cp -> ok (c (Ok a)) cp) ->
  (forall e cp, ok (c (Err e)) cp) -> (forall cp, ok (c Panic) cp) ->
  forall cp, P cp -> ok (t c) cp.
Local Abbreviation anywhere := (fun _ : St => True).
Local Abbreviation any := (fun _ _ => True).

Lemma safe_pure {A} P (r : res A) (Q : A -> St -> Prop) :
  (forall a cp, r = Ok a -> P cp -> Q a cp) -> safe P (pure r) Q.
Proof. intros HQ c H1 H2 H3 cp HP. destruct r; [apply H1; by apply HQ|apply H2|apply H3]. Qed.
Lemma safe_ret_T {A} P (a : A) (Q : A -> St -> Prop) :
  (forall cp, P cp -> Q a cp) -> safe P (mret a) Q.
Proof. intros HQ c H1 _ _ cp HP. by apply H1, HQ. Qed.
Lemma safe_bind_T {A B} P (t : T A) (k : A -> T B) (R : A -> St -> Prop) Q :
  safe P t R -> (forall a, safe (R a) (k a) Q) -> safe P (t ≫= k) Q.
Proof. intros Ht Hk c H1 H2 H3. apply Ht; [|done..]. intros a cp. by apply Hk. Qed.
Lemma safe_wrapped {A} P text (t : T A) Q : safe P t Q -> safe P (wrapped text t) Q.
Proof. intros Ht c H1 H2 H3. apply Ht; [exact H1|intros e; apply (H2 _)|exact H3]. Qed.
Lemma safe_logged P t (Q : St -> Prop) :
  safe P t (fun _ => Q) -> safe P (logged t) (fun b cp => b = true -> Q cp).
Proof. intros Ht c H1 H2 H3. apply Ht; [|intros; by apply H1|done]. intros a cp HQ. by apply H1. Qed.
Lemma safe_when P b t : (b = true -> safe P t any) -> safe P (when b t) any.
Proof. intros Ht. destruct b; [by apply Ht|by apply safe_ret_T]. Qed.
Lemma safe_locked {A} P mu (t : T A) Q : safe P t Q -> safe P (locked mu t) Q.
Proof. intros Ht c H1 H2 H3. apply Ht; [exact H1|exact H2|exact H3]. Qed.
Lemma safe_atom {A} P (m : io St A) (Q : A -> St -> Prop) :
  stable P ->
  (forall cp, I cp -> P cp -> I (m cp).1 /\ extends cp (m cp).1 /\
     forall a, (m cp).2 = Ok a -> Q a (m cp).1) -> safe P (atom m) Q.
Proof.
  intros Hst Hm c H1 H2 H3 cp HP cp' He HI. destruct (Hm cp' HI (Hst _ _ HP He)) as (HI' & He' & HQ).
  do 2 (split; [done|]). destruct (m cp').2 as [a|e|]; [by apply H1, HQ|apply H2|apply H3].
Qed.
Lemma safe_read {A} P (f : St -> A) (Q : A -> St -> Prop) :
  stable P -> (forall cp, I cp -> P cp -> Q (f cp) cp) -> safe P (read f) Q.
Proof.
  intros Hst Hf. apply safe_atom; [done|]. intros cp HI HP. do 2 (split; [done|]).
  intros a [= <-]. by apply Hf.
Qed.
Lemma safe_weaken {A} (P P' : St -> Prop) (t : T A) Q :
  safe P' t Q -> (forall cp, P cp -> P' cp) -> safe P t Q.
Proof. intros Ht HP c H1 H2 H3 cp Hcp. by apply Ht, HP. Qed.

Lemma safe_post {A} P (t : T A) (Q Q' : A -> St -> Prop) :
  safe P t Q -> (forall a cp, Q a cp -> Q' a cp) -> safe P t Q'.
Proof. intros Ht HQ c H1 H2 H3. apply Ht; [|done..]. intros a cp Ha. by apply H1, HQ. Qed.

(** What a part of a thread found out for good. *)
Lemma safe_fact {A} P (phi : Prop) (t : T A) Q : (phi -> safe P t Q) -> safe (fun cp => P cp /\ phi) t Q.
Proof. intros Ht c H1 H2 H3 cp [HP Hphi]. by apply Ht. Qed.
Lemma stable_fact P (phi : Prop) : stable P -> stable (fun cp => P cp /\ phi).
Proof. intros HP cp cp' [Hcp ?] He. split; [by eapply HP|done]. Qed.

Lemma stable_const (phi : Prop) : stable (fun _ => phi).
Proof. by intros cp cp'. Qed.
Lemma stable_imp (phi : Prop) P : stable P -> stable (fun cp => phi -> P cp).
Proof. intros Hst cp cp' HP He Hphi. eapply Hst; [by apply HP|done]. Qed.

Lemma safe_any {A} P (t : T A) : safe anywhere t any -> safe P t any.
Proof. intros Ht. eapply safe_weaken; [exact Ht|done]. Qed.

(** ** The threads together *)
Definition config_inv (c : config) : Prop :=
  I (c_state c) /\ Forall (fun p => ok p (c_state c)) (c_threads c).
Lemma config_inv_act i c c' : config_inv c -> act i c = Some c' -> config_inv c'.
Proof.
  intros [HI Hok] Ha. unfold act in Ha. apply bind_Some in Ha as (p & Hp & Ha).
  pose proof (proj1 (Forall_lookup _ _) Hok i p Hp) as Hpok.
  destruct p as [|f next|m next|m next]; [done|..]; cbn in Hpok.
  - injection Ha as <-. destruct (Hpok (c_state c)) as (HI' & He & Hnext); [reflexivity|done|].
    split; [done|]. cbn. apply Forall_insert; [|done]. eapply Forall_impl; [exact Hok|].
    intros p Hpk. eapply ok_extends; [exact Hpk|exact He].
  - destruct (c_locks c m); [done|]. injection Ha as <-. split; [done|]. by apply Forall_insert.
  - injection Ha as <-. split; [done|]. by apply Forall_insert.
Qed.
Lemma config_inv_steps c c' : rtc thread_step c c' -> config_inv c -> config_inv c'.
Proof. induction 1 as [|c c1 c' [i Hi] _ IH]; [done|]. intros Hc. apply IH. by eapply config_inv_act. Qed.
End Safety.
End Threads.

Arguments stable {St} extends P.
Arguments ok {St mutex} I extends p cp.
Arguments safe {St mutex} I extends {A} P t Q.
Arguments config_inv {St mutex} I extends c.

#[export] Hint Resolve sim_ret sim_pure sim_atom sim_wrapped sim_logged sim_when sim_locked : sim.
#[export] Hint Resolve neutral_ret neutral_pure neutral_atom neutral_read neutral_wrapped
  neutral_logged neutral_when : neutral.
#[export] Hint Resolve stable_const stable_imp stable_fact : core.
Ltac neutral_tac :=
  repeat first
    [ progress cbv zeta
    | solve [auto with neutral]
    | apply neutral_bind; [|intros ?]
    | apply neutral_wrapped | apply neutral_logged | apply neutral_when
    | case_match ].
