(* ===== verification/Bytes.v ===== *)
(** Byte strings: the parts of the Go standard library that the codecs of
    the program use.  [encoding/binary] (fixed-width integers in either byte
    order), slicing and [copy] with their panics, [bytes.Buffer] and
    [bytes.Reader] as input sources, [io.ReadFull], and [encoding/hex]. *)
From Stdlib Require Import Strings.Byte Strings.String Strings.Ascii.
From S2P Require Import Prelude.

Abbreviation bytes := (list byte).

#[export] Instance byte_eq_dec : EqDecision byte := Byte.byte_eq_dec.
#[export] Program Instance byte_countable : Countable byte :=
  inj_countable Byte.to_N Byte.of_N _.
Next Obligation. intros b. apply Byte.of_to_N. Qed.

(** * Bytes and integers *)
Definition Z_of_byte (b : byte) : Z := Z.of_N (Byte.to_N b).
(** The conversion [byte(z)]: the low eight bits. *)
Definition byte_of_Z (z : Z) : byte :=
  match Byte.of_N (Z.to_N (z mod 256)) with Some b => b | None => x00 end.

Lemma Z_of_byte_range b : 0 <= Z_of_byte b < 256.
Proof. unfold Z_of_byte. pose proof (Byte.to_N_bounded b). lia. Qed.

Lemma Z_of_byte_of_Z z : Z_of_byte (byte_of_Z z) = z mod 256.
Proof.
  unfold Z_of_byte, byte_of_Z.
  pose proof (Z.mod_pos_bound z 256 ltac:(lia)) as Hm.
  destruct (Byte.of_N (Z.to_N (z mod 256))) as [b|] eqn:E.
  - apply Byte.to_of_N in E. rewrite E. lia.
  - apply Byte.of_N_None_iff in E. lia.
Qed.

Lemma byte_of_Z_of_byte b : byte_of_Z (Z_of_byte b) = b.
Proof.
  unfold byte_of_Z, Z_of_byte. pose proof (Byte.to_N_bounded b).
  rewrite Z.mod_small by lia. rewrite N2Z.id. by rewrite Byte.of_to_N.
Qed.

Lemma Z_of_byte_inj b1 b2 : Z_of_byte b1 = Z_of_byte b2 -> b1 = b2.
Proof.
  intros H. rewrite <- (byte_of_Z_of_byte b1), <- (byte_of_Z_of_byte b2).
  by rewrite H.
Qed.

Create Rewrite HintDb zlen.

(** * Lengths *)
Definition Zlen {A} (l : list A) : Z := Z.of_nat (length l).

Lemma Zlen_nil {A} : Zlen (@nil A) = 0.
Proof. reflexivity. Qed.
Lemma Zlen_cons {A} (x : A) l : Zlen (x :: l) = 1 + Zlen l.
Proof. unfold Zlen. cbn [length]. lia. Qed.
Lemma Zlen_app {A} (l1 l2 : list A) : Zlen (l1 ++ l2) = Zlen l1 + Zlen l2.
Proof. unfold Zlen. rewrite length_app. lia. Qed.
Lemma Zlen_nonneg {A} (l : list A) : 0 <= Zlen l.
Proof. unfold Zlen. lia. Qed.
Lemma Zlen_0 {A} (l : list A) : Zlen l = 0 -> l = [].
Proof. unfold Zlen. destruct l; cbn [length]; [done|lia]. Qed.
#[export] Hint Rewrite @Zlen_nil @Zlen_cons @Zlen_app : zlen.

(** [zlen_lia]: arithmetic about lengths. *)
Ltac zlen_lia :=
  autorewrite with zlen in *;
  repeat match goal with
  | |- context [Zlen ?l] =>
      lazymatch goal with
      | _ : 0 <= Zlen l |- _ => fail
      | _ => pose proof (Zlen_nonneg l)
      end
  end; lia.

(** [make([]byte, n)]. *)
Definition zeros (n : Z) : bytes := replicate (Z.to_nat n) x00.

Lemma Zlen_zeros n : 0 <= n -> Zlen (zeros n) = n.
Proof. intros. unfold Zlen, zeros. rewrite length_replicate. lia. Qed.
Lemma zeros_0 : zeros 0 = [].
Proof. reflexivity. Qed.
#[export] Hint Rewrite @Zlen_zeros using lia : zlen.

(** * encoding/binary *)
Fixpoint le_bytes (n : nat) (v : Z) : bytes :=
  match n with
  | O => []
  | S n => byte_of_Z v :: le_bytes n (v / 256)
  end.
Fixpoint le_Z (bs : bytes) : Z :=
  match bs with
  | [] => 0
  | b :: bs => Z_of_byte b + 256 * le_Z bs
  end.
Definition be_bytes (n : nat) (v : Z) : bytes := reverse (le_bytes n v).
Definition be_Z (bs : bytes) : Z := le_Z (reverse bs).

Lemma length_le_bytes n v : length (le_bytes n v) = n.
Proof. revert v. induction n as [|n IH]; intros v; cbn; [done|by rewrite IH]. Qed.
Lemma Zlen_le_bytes n v : Zlen (le_bytes n v) = Z.of_nat n.
Proof. unfold Zlen. by rewrite length_le_bytes. Qed.
Lemma Zlen_be_bytes n v : Zlen (be_bytes n v) = Z.of_nat n.
Proof. unfold Zlen, be_bytes. by rewrite length_reverse, length_le_bytes. Qed.
#[export] Hint Rewrite @Zlen_le_bytes @Zlen_be_bytes : zlen.

Lemma pow_256_succ k : 0 <= k -> 2 ^ (8 * (1 + k)) = 256 * 2 ^ (8 * k).
Proof.
  intros. rewrite Z.mul_add_distr_l, Z.pow_add_r by lia. reflexivity.
Qed.

Lemma le_Z_range bs : 0 <= le_Z bs < 2 ^ (8 * Zlen bs).
Proof.
  induction bs as [|b bs IH]; [by split|].
  rewrite Zlen_cons. pose proof (Zlen_nonneg bs).
  rewrite pow_256_succ by lia.
  cbn [le_Z]. pose proof (Z_of_byte_range b). nia.
Qed.

Lemma le_Z_le_bytes n v : le_Z (le_bytes n v) = v mod 2 ^ (8 * Z.of_nat n).
Proof.
  revert v. induction n as [|n IH]; intros v; cbn [le_bytes le_Z].
  { by rewrite Z.mod_1_r. }
  rewrite IH, Z_of_byte_of_Z.
  rewrite Nat2Z.inj_succ, <- Z.add_1_l, pow_256_succ by lia.
  rewrite Z.rem_mul_r by lia. reflexivity.
Qed.

Lemma le_bytes_le_Z bs : le_bytes (length bs) (le_Z bs) = bs.
Proof.
  induction bs as [|b bs IH]; cbn [length le_bytes le_Z]; [done|].
  pose proof (Z_of_byte_range b).
  f_equal.
  - rewrite <- (byte_of_Z_of_byte b) at 2. unfold byte_of_Z. f_equal.
    rewrite Z.mul_comm, Z.mod_add by lia. reflexivity.
  - rewrite Z.mul_comm, Z.div_add, Z.div_small by lia. by rewrite Z.add_0_l.
Qed.

Lemma be_Z_be_bytes n v : be_Z (be_bytes n v) = v mod 2 ^ (8 * Z.of_nat n).
Proof. unfold be_Z, be_bytes. rewrite reverse_involutive. apply le_Z_le_bytes. Qed.

Lemma le_Z_u8 v : is_u8 v -> le_Z (le_bytes 1 v) = v.
Proof. intros. rewrite le_Z_le_bytes. by apply Z.mod_small. Qed.
Lemma le_Z_u32 v : is_u32 v -> le_Z (le_bytes 4 v) = v.
Proof. intros. rewrite le_Z_le_bytes. by apply Z.mod_small. Qed.
Lemma le_Z_u64 v : is_u64 v -> le_Z (le_bytes 8 v) = v.
Proof. intros. rewrite le_Z_le_bytes. by apply Z.mod_small. Qed.
Lemma le_Z_i64 v : is_i64 v -> i64 (le_Z (le_bytes 8 v)) = v.
Proof. intros. rewrite le_Z_le_bytes. by apply i64_u64. Qed.
Lemma le_bytes_u64 v : le_bytes 8 (u64 v) = le_bytes 8 v.
Proof.
  pose proof (le_bytes_le_Z (le_bytes 8 v)) as H.
  rewrite length_le_bytes, le_Z_le_bytes in H. exact H.
Qed.

(** * Slices *)

(** [data[lo:hi]]. *)
Definition slice {A} (data : list A) (lo hi : Z) : res (list A) :=
  if (0 <=? lo) && (lo <=? hi) && (hi <=? Zlen data)
  then Ok (take (Z.to_nat (hi - lo)) (drop (Z.to_nat lo) data))
  else Panic.

(** [copy(buf[off:], src)]. *)
Definition copy_at (buf : bytes) (off : Z) (src : bytes) : res bytes :=
  if (0 <=? off) && (off <=? Zlen buf)
  then
    let o := Z.to_nat off in
    Ok (take o buf ++ take (length buf - o) src ++ drop (o + length src) buf)
  else Panic.

(** [binary.LittleEndian.PutUint..(buf[off:], v)], for an encoded [v]: unlike
    [copy] it panics when the destination is too short. *)
Definition put_at (buf : bytes) (off : Z) (src : bytes) : res bytes :=
  if (0 <=? off) && (off + Zlen src <=? Zlen buf) then copy_at buf off src
  else Panic.

(** [copy(dst, src)] into a fixed-size array. *)
Definition copy_into (dst src : bytes) : bytes :=
  take (length dst) src ++ drop (length src) dst.

Lemma copy_into_exact dst src : length dst = length src -> copy_into dst src = src.
Proof.
  intros H. unfold copy_into. rewrite H, firstn_all, <- H, drop_all.
  apply app_nil_r.
Qed.

Lemma slice_Ok {A} (pre mid post : list A) lo hi :
  lo = Zlen pre -> hi = Zlen pre + Zlen mid ->
  slice (pre ++ mid ++ post) lo hi = Ok mid.
Proof.
  intros -> ->. unfold slice. rewrite !Zlen_app.
  pose proof (Zlen_nonneg pre). pose proof (Zlen_nonneg mid).
  pose proof (Zlen_nonneg post).
  rewrite !(proj2 (Z.leb_le _ _)) by lia. cbn [andb]. f_equal.
  replace (Z.to_nat (Zlen pre)) with (length pre) by (unfold Zlen; lia).
  rewrite drop_app_length.
  replace (Z.to_nat (Zlen pre + Zlen mid - Zlen pre)) with (length mid)
    by (unfold Zlen; lia).
  apply take_app_length.
Qed.

Lemma slice_bound {A} (data : list A) lo hi s :
  slice data lo hi = Ok s -> Zlen s = hi - lo /\ 0 <= lo <= hi /\ hi <= Zlen data.
Proof.
  unfold slice. destruct (0 <=? lo) eqn:E1, (lo <=? hi) eqn:E2,
    (hi <=? Zlen data) eqn:E3; cbn; try discriminate. intros [= <-].
  apply Z.leb_le in E1, E2, E3. unfold Zlen in *.
  rewrite length_take, length_drop. lia.
Qed.

Lemma slice_no_panic {A} (data : list A) lo hi :
  0 <= lo <= hi -> hi <= Zlen data -> exists s, slice data lo hi = Ok s.
Proof.
  intros. unfold slice. rewrite !(proj2 (Z.leb_le _ _)) by lia. cbn. eauto.
Qed.

(** Writing into a zeroed buffer from the left: what is written so far is a
    prefix, the rest is still zero. *)
Lemma put_at_zeros out k src :
  Zlen src <= k ->
  put_at (out ++ zeros k) (Zlen out) src =
    Ok ((out ++ src) ++ zeros (k - Zlen src)).
Proof.
  intros Hk. pose proof (Zlen_nonneg src). pose proof (Zlen_nonneg out).
  unfold put_at, copy_at. rewrite Zlen_app, Zlen_zeros by lia.
  rewrite !(proj2 (Z.leb_le _ _)) by lia. cbn [andb]. f_equal.
  replace (Z.to_nat (Zlen out)) with (length out) by (unfold Zlen; lia).
  rewrite take_app_length, <- app_assoc. f_equal.
  rewrite length_app. unfold zeros. rewrite length_replicate.
  rewrite take_ge by (unfold Zlen in *; lia). f_equal.
  rewrite drop_app_ge by lia. rewrite drop_replicate. f_equal.
  unfold Zlen. lia.
Qed.

Lemma copy_at_zeros out k src :
  Zlen src <= k ->
  copy_at (out ++ zeros k) (Zlen out) src =
    Ok ((out ++ src) ++ zeros (k - Zlen src)).
Proof.
  intros Hk. rewrite <- put_at_zeros by done. unfold put_at.
  pose proof (Zlen_nonneg out). pose proof (Zlen_nonneg src).
  rewrite Zlen_app, Zlen_zeros by lia.
  by rewrite !(proj2 (Z.leb_le _ _)) by lia.
Qed.

(** The same at an offset known to be the end of what is written. *)
Lemma put_at_next out k off src :
  off = Zlen out -> Zlen src <= k ->
  put_at (out ++ zeros k) off src = Ok ((out ++ src) ++ zeros (k - Zlen src)).
Proof. intros ->. apply put_at_zeros. Qed.

Lemma copy_at_next out k off src :
  off = Zlen out -> Zlen src <= k ->
  copy_at (out ++ zeros k) off src = Ok ((out ++ src) ++ zeros (k - Zlen src)).
Proof. intros ->. apply copy_at_zeros. Qed.

(** Filling a buffer from the left, as the [Serialize] methods do: each write
    puts something at the current offset and advances the offset. *)
Definition cursor : Type := bytes * Z.
Definition write : Type := cursor -> res cursor.

(** [binary.LittleEndian.PutUint..(buf[offset:], v); offset += size]. *)
Definition wput (src : bytes) : write := fun c =>
  buf ← put_at c.1 c.2 src;
  Ok (buf, c.2 + Zlen src).
(** [copy(buf[offset:], src); offset += n]. *)
Definition wcopy (src : bytes) (n : Z) : write := fun c =>
  buf ← copy_at c.1 c.2 src;
  Ok (buf, c.2 + n).

(** [buf := make([]byte, total); offset := 0] followed by the writes. *)
Definition fill (total : Z) (ws : list write) : res bytes :=
  c ← fold_res (fun (c : cursor) (w : write) => w c) (zeros total, 0) ws;
  Ok c.1.

(** [w] appends [src] as long as there is room for it. *)
Definition appends (w : write) (src : bytes) : Prop := forall out k,
  Zlen src <= k ->
  w (out ++ zeros k, Zlen out) =
    Ok ((out ++ src) ++ zeros (k - Zlen src), Zlen (out ++ src)).

Lemma appends_wput src : appends (wput src) src.
Proof.
  intros out k Hk. unfold wput. cbn [fst snd].
  by rewrite put_at_zeros, bind_Ok, Zlen_app.
Qed.

Lemma appends_wcopy src n : n = Zlen src -> appends (wcopy src n) src.
Proof.
  intros -> out k Hk. unfold wcopy. cbn [fst snd].
  by rewrite copy_at_zeros, bind_Ok, Zlen_app.
Qed.

Lemma fold_appends ws srcs out k :
  Forall2 appends ws srcs -> Zlen (concat srcs) <= k ->
  fold_res (fun (c : cursor) (w : write) => w c) (out ++ zeros k, Zlen out) ws =
    Ok ((out ++ concat srcs) ++ zeros (k - Zlen (concat srcs)),
        Zlen (out ++ concat srcs)).
Proof.
  intros Hws. revert out k. induction Hws as [|w src ws srcs Hw _ IH];
    intros out k Hk; cbn [concat fold_res] in *.
  { by rewrite Zlen_nil, Z.sub_0_r, app_nil_r. }
  rewrite Zlen_app in *. pose proof (Zlen_nonneg src).
  pose proof (Zlen_nonneg (concat srcs)).
  rewrite Hw, bind_Ok, IH by lia. do 2 f_equal; [|by rewrite <- app_assoc].
  rewrite <- !app_assoc. do 4 f_equal. lia.
Qed.

(** [appends_tac]: a list of writes appends the given list of pieces; left are
    the lengths that could not be computed. *)
Ltac appends_tac :=
  repeat match goal with
  | |- Forall2 _ (_ :: _) _ => apply Forall2_cons; split
  | |- Forall2 _ [] _ => by apply Forall2_nil
  | |- appends (wput _) _ => apply appends_wput
  | |- appends (wcopy _ _) _ => apply appends_wcopy
  end.

(** The writes fill the buffer exactly. *)
Lemma fill_appends total ws srcs :
  Forall2 appends ws srcs -> total = Zlen (concat srcs) ->
  fill total ws = Ok (concat srcs).
Proof.
  intros Hws ->. unfold fill.
  pose proof (fold_appends ws srcs [] (Zlen (concat srcs)) Hws ltac:(lia)) as E.
  cbn [app] in E. rewrite Zlen_nil in E. rewrite E, bind_Ok. cbn [fst].
  by rewrite Z.sub_diag, zeros_0, app_nil_r.
Qed.

(** * Input sources

    [bytes.Buffer] and [bytes.Reader] are both the bytes not yet consumed. *)
Definition EOF : error := ErrMsg "EOF".
Definition ErrUnexpectedEOF : error := ErrMsg "unexpected EOF".

(** A decoder: it consumes a prefix of its source. *)
Definition reader (A : Type) : Type := bytes -> res (A * bytes).

#[export] Instance reader_ret : MRet reader := fun A a s => Ok (a, s).
#[export] Instance reader_bind : MBind reader := fun A B k m s =>
  match m s with
  | Ok (a, s') => k a s'
  | Err e => Err e
  | Panic => Panic
  end.

Definition rwrap {A} (text : string) (m : reader A) : reader A :=
  fun s => wrap text (m s).
(** A computation that does not read. *)
Definition rlift {A} (m : res A) : reader A :=
  fun s => a ← m; Ok (a, s).
(** Running a decoder on a byte slice; what is left over is dropped. *)
Definition run_reader {A} (m : reader A) (data : bytes) : res A :=
  p ← m data; Ok (p.1 : A).

(** [io.ReadFull(r, p)] with [len(p) = n]; also what [binary.Read] does for a
    fixed-width value. *)
Definition read_full (n : Z) : reader bytes := fun s =>
  if n <=? Zlen s
  then Ok (take (Z.to_nat n) s, drop (Z.to_nat n) s)
  else if Zlen s =? 0 then Err EOF else Err ErrUnexpectedEOF.

Definition read_le (n : nat) : reader Z := fun s =>
  p ← read_full (Z.of_nat n) s; Ok (le_Z p.1, p.2).
Definition read_be (n : nat) : reader Z := fun s =>
  p ← read_full (Z.of_nat n) s; Ok (be_Z p.1, p.2).

(** [Buffer.Read(p)] with [len(p) = n]: a short read is no error and
    leaves the tail of [p] zero; an empty buffer gives [io.EOF] unless
    [n = 0]. *)
Definition buffer_read (n : Z) : reader bytes := fun s =>
  if (Zlen s =? 0) && negb (n =? 0) then Err EOF
  else Ok (take (Z.to_nat n) s ++ zeros (n - Zlen s), drop (Z.to_nat n) s).

(** [Buffer.ReadByte()]. *)
Definition read_byte : reader byte := fun s =>
  match s with [] => Err EOF | b :: s => Ok (b, s) end.

(** [Reader.Read(p)] with [len(p) = n]; returns also the count.  An
    exhausted reader gives [io.EOF] even when [n = 0]. *)
Definition reader_read_n (n : Z) : reader (bytes * Z) := fun s =>
  if Zlen s =? 0 then Err EOF
  else Ok ((take (Z.to_nat n) s ++ zeros (n - Zlen s), Z.min n (Zlen s)),
           drop (Z.to_nat n) s).
Definition reader_read (n : Z) : reader bytes :=
  p ← reader_read_n n; mret p.1.

(** A slice read by offset, seen as its rest [data[offset:]].
    [if offset+n > len(data) { return err }]. *)
Definition need (n : Z) (e : error) : reader unit := fun s =>
  if Zlen s <? n then Err e else Ok (tt, s).
(** [data[offset : offset+n]; offset += n]. *)
Definition next (n : Z) : reader bytes := fun s =>
  d ← slice s 0 n;
  Ok (d, drop (Z.to_nat n) s).
(** [binary.LittleEndian.Uint..(data[offset : offset+n]); offset += n]. *)
Definition next_le (n : nat) : reader Z :=
  d ← next (Z.of_nat n); mret (le_Z d).

(** [for i := 0; i < n; i++ { x, err := m; ...; xs[i] = x }]. *)
Fixpoint repeat_read {A} (n : nat) (m : reader A) : reader (list A) :=
  match n with
  | O => mret []
  | S n => a ← m; l ← repeat_read n m; mret (a :: l)
  end.

(** ** Round trips

    [reads P m enc a]: on [enc] followed by anything satisfying [P], the
    decoder [m] returns [a] and leaves what follows. *)
Definition reads {A} (P : bytes -> Prop) (m : reader A) (enc : bytes) (a : A)
  : Prop := forall rest, P rest -> m (enc ++ rest) = Ok (a, rest).
Definition anything : bytes -> Prop := fun _ => True.
Definition something : bytes -> Prop := fun s => s <> [].

Lemma reads_bind {A B} P P1 (m : reader A) (k : A -> reader B) e1 e2 a b :
  reads P1 m e1 a -> reads P (k a) e2 b ->
  (forall rest, P rest -> P1 (e2 ++ rest)) ->
  reads P (m ≫= k) (e1 ++ e2) b.
Proof.
  intros Hm Hk HP rest Hrest. rewrite <- app_assoc.
  cbv [mbind reader_bind]. rewrite Hm by auto. by apply Hk.
Qed.

Lemma reads_ret {A} P (a : A) : reads P (mret a) [] a.
Proof. intros rest _. reflexivity. Qed.

Lemma reads_wrap {A} P text (m : reader A) e a :
  reads P m e a -> reads P (rwrap text m) e a.
Proof. intros Hm rest HP. unfold rwrap. by rewrite Hm. Qed.

Lemma reads_lift {A} P (m : res A) a : m = Ok a -> reads P (rlift m) [] a.
Proof. intros -> rest _. reflexivity. Qed.

Lemma reads_weaken {A} (P Q : bytes -> Prop) (m : reader A) e a :
  (forall s, Q s -> P s) -> reads P m e a -> reads Q m e a.
Proof. intros HPQ Hm rest HQ. by apply Hm, HPQ. Qed.

Lemma reads_run {A} P (m : reader A) e a rest :
  reads P m e a -> P rest -> run_reader m (e ++ rest) = Ok a.
Proof. intros Hm HP. unfold run_reader. by rewrite Hm. Qed.

Lemma read_full_reads n e : n = Zlen e -> reads anything (read_full n) e e.
Proof.
  intros -> rest _. unfold read_full. rewrite Zlen_app.
  pose proof (Zlen_nonneg rest). rewrite (proj2 (Z.leb_le _ _)) by lia.
  replace (Z.to_nat (Zlen e)) with (length e) by (unfold Zlen; lia).
  by rewrite take_app_length, drop_app_length.
Qed.

Lemma read_le_reads n v : reads anything (read_le n) (le_bytes n v)
    (v mod 2 ^ (8 * Z.of_nat n)).
Proof.
  intros rest HP. unfold read_le.
  rewrite (read_full_reads _ (le_bytes n v)) by (by rewrite ?Zlen_le_bytes).
  rewrite bind_Ok. cbn [fst snd]. by rewrite le_Z_le_bytes.
Qed.

Lemma read_be_reads n v : reads anything (read_be n) (be_bytes n v)
    (v mod 2 ^ (8 * Z.of_nat n)).
Proof.
  intros rest HP. unfold read_be.
  rewrite (read_full_reads _ (be_bytes n v)) by (by rewrite ?Zlen_be_bytes).
  rewrite bind_Ok. cbn [fst snd]. by rewrite be_Z_be_bytes.
Qed.

Lemma read_exact_shape (e rest : bytes) :
  take (Z.to_nat (Zlen e)) (e ++ rest) ++ zeros (Zlen e - Zlen (e ++ rest)) = e /\
  drop (Z.to_nat (Zlen e)) (e ++ rest) = rest.
Proof.
  replace (Z.to_nat (Zlen e)) with (length e) by (unfold Zlen; lia).
  rewrite take_app_length, drop_app_length. split; [|done].
  rewrite Zlen_app. pose proof (Zlen_nonneg rest). unfold zeros.
  replace (Z.to_nat (Zlen e - (Zlen e + Zlen rest))) with O by lia.
  apply app_nil_r.
Qed.

Lemma buffer_read_reads n e : n = Zlen e -> reads anything (buffer_read n) e e.
Proof.
  intros -> rest _. unfold buffer_read.
  destruct (read_exact_shape e rest) as [-> ->].
  destruct (Z.eqb_spec (Zlen (e ++ rest)) 0) as [H0|]; cbn; [|done].
  rewrite Zlen_app in H0. pose proof (Zlen_nonneg e). pose proof (Zlen_nonneg rest).
  destruct (Z.eqb_spec (Zlen e) 0); [done|lia].
Qed.

Lemma read_byte_reads b : reads anything read_byte [b] b.
Proof. intros rest _. reflexivity. Qed.

Lemma reader_read_reads n e : n = Zlen e ->
  reads (fun rest => e ++ rest <> []) (reader_read n) e e.
Proof.
  intros -> rest HP. unfold reader_read, reader_read_n. cbv [mbind reader_bind].
  destruct (read_exact_shape e rest) as [-> ->].
  destruct (Z.eqb_spec (Zlen (e ++ rest)) 0) as [H0|]; [|done].
  by apply Zlen_0 in H0.
Qed.

(** [refuses m enc]: [m] fails on every proper beginning of [enc]. *)
Definition refuses {A} (m : reader A) (enc : bytes) : Prop :=
  forall kept lost, enc = kept ++ lost -> lost <> [] -> exists e, m kept = Err e.

Lemma refuses_stop {A B} (m : reader A) (k : A -> reader B) enc : refuses m enc -> refuses (m ≫= k) enc.
Proof. intros Hm kept lost E Hl. destruct (Hm kept lost E Hl) as [e He]. exists e. cbv [mbind reader_bind]. by rewrite He. Qed.
Lemma refuses_bind {A B} (m : reader A) (k : A -> reader B) e1 e2 a :
  reads anything m e1 a -> refuses m e1 -> refuses (k a) e2 -> refuses (m ≫= k) (e1 ++ e2).
Proof.
  intros Hr Hm Hk kept lost E Hl. apply app_eq_inv in E as [(mid & -> & E2)|(mid & E1 & E2)].
  - destruct mid as [|b mid]; [|by eapply refuses_stop; [exact Hm|reflexivity|]].
    destruct (Hk [] lost) as [e He]; [by rewrite E2|done|]. exists e. cbv [mbind reader_bind].
    specialize (Hr [] I). rewrite !app_nil_r in Hr. by rewrite Hr.
  - subst kept. destruct (Hk mid lost E2 Hl) as [e He]. exists e. cbv [mbind reader_bind]. by rewrite Hr.
Qed.
Lemma refuses_wrap {A} text (m : reader A) enc : refuses m enc -> refuses (rwrap text m) enc.
Proof. intros Hm kept lost E Hl. destruct (Hm kept lost E Hl) as [e He]. unfold rwrap. rewrite He. by eexists. Qed.
Lemma refuses_read_full n enc : n = Zlen enc -> refuses (read_full n) enc.
Proof.
  intros -> kept lost -> Hl. unfold read_full. rewrite Zlen_app.
  assert (0 < Zlen lost) by (destruct lost; [done|unfold Zlen; cbn; lia]).
  rewrite (proj2 (Z.leb_gt _ _)) by lia. case_match; by eexists.
Qed.
Lemma refuses_read_le n v : refuses (read_le n) (le_bytes n v).
Proof.
  intros kept lost E Hl. destruct (refuses_read_full (Z.of_nat n) (le_bytes n v)) with kept lost as [e He];
    [by rewrite Zlen_le_bytes|done..|]. exists e. unfold read_le. by rewrite He.
Qed.

Lemma need_reads n e : n <= 0 -> reads anything (need n e) [] tt.
Proof.
  intros Hn rest _. unfold need. pose proof (Zlen_nonneg rest).
  cbn [app]. by rewrite (proj2 (Z.ltb_ge _ _)) by lia.
Qed.

Lemma next_reads n e : n = Zlen e -> reads anything (next n) e e.
Proof.
  intros -> rest _. unfold next. rewrite (slice_Ok [] e rest) by done.
  rewrite bind_Ok. by destruct (read_exact_shape e rest) as [_ ->].
Qed.

Lemma next_le_reads n v :
  reads anything (next_le n) (le_bytes n v) (v mod 2 ^ (8 * Z.of_nat n)).
Proof.
  intros rest H. unfold next_le. cbv [mbind reader_bind].
  rewrite (next_reads _ (le_bytes n v)) by (by rewrite ?Zlen_le_bytes).
  cbv [mret reader_ret]. by rewrite le_Z_le_bytes.
Qed.

(** A check for [n] bytes followed by something that reads at least as much. *)
Lemma need_then {A} P n e (k : unit -> reader A) enc a :
  n <= Zlen enc -> reads P (k tt) enc a -> reads P (need n e ≫= k) enc a.
Proof.
  intros Hn Hk rest Hrest. cbv [mbind reader_bind]. unfold need.
  pose proof (Zlen_nonneg rest).
  rewrite (proj2 (Z.ltb_ge _ _)) by (rewrite Zlen_app; lia). by apply Hk.
Qed.

Lemma repeat_read_reads {A B} (m : reader A) (enc : B -> bytes) (dec : B -> A) l :
  (forall b, b ∈ l -> reads anything m (enc b) (dec b)) ->
  reads anything (repeat_read (length l) m) (concat (enc <$> l)) (dec <$> l).
Proof.
  induction l as [|b l IH]; intros Hm; cbn [length repeat_read]; [apply reads_ret|].
  rewrite !fmap_cons. cbn [concat].
  eapply (reads_bind anything anything); [apply Hm; by left| |done].
  rewrite <- (app_nil_r (concat _)).
  eapply (reads_bind anything anything); [|apply reads_ret|done].
  apply IH. intros. apply Hm. by right.
Qed.

(** Decoders that never panic, whatever the input. *)
Definition safe {A} (m : reader A) : Prop := forall s, no_panic (m s).

Lemma safe_bind {A B} (m : reader A) (k : A -> reader B) :
  safe m -> (forall a, safe (k a)) -> safe (m ≫= k).
Proof.
  intros Hm Hk s. specialize (Hm s). cbv [mbind reader_bind].
  destruct (m s) as [[a s']|e|]; [apply Hk|done|done].
Qed.
Lemma safe_ret {A} (a : A) : safe (mret a).
Proof. done. Qed.
Lemma safe_wrap {A} text (m : reader A) : safe m -> safe (rwrap text m).
Proof. intros Hm s. apply no_panic_wrap, Hm. Qed.
Lemma safe_lift {A} (m : res A) : no_panic m -> safe (rlift m).
Proof. intros Hm s. unfold rlift. by destruct m. Qed.
Lemma safe_read_full n : safe (read_full n).
Proof. intros s. unfold read_full. by repeat case_match. Qed.
Lemma safe_read_le n : safe (read_le n).
Proof.
  intros s. unfold read_le. pose proof (safe_read_full (Z.of_nat n) s) as H.
  by destruct (read_full _ s).
Qed.
Lemma safe_read_be n : safe (read_be n).
Proof.
  intros s. unfold read_be. pose proof (safe_read_full (Z.of_nat n) s) as H.
  by destruct (read_full _ s).
Qed.
Lemma safe_buffer_read n : safe (buffer_read n).
Proof. intros s. unfold buffer_read. by case_match. Qed.
Lemma safe_read_byte : safe read_byte.
Proof. by intros [|]. Qed.
Lemma safe_reader_read_n n : safe (reader_read_n n).
Proof. intros s. unfold reader_read_n. by case_match. Qed.
Lemma safe_reader_read n : safe (reader_read n).
Proof. apply safe_bind; [apply safe_reader_read_n|intros; apply safe_ret]. Qed.
Lemma safe_need n e : safe (need n e).
Proof. intros s. unfold need. by case_match. Qed.

Lemma safe_repeat {A} n (m : reader A) : safe m -> safe (repeat_read n m).
Proof.
  intros Hm. induction n as [|n IH]; cbn [repeat_read]; [apply safe_ret|].
  apply safe_bind; [done|intros]. apply safe_bind; [done|intros; apply safe_ret].
Qed.

(** [next] panics on a short input, so it is safe only behind a check that
    enough input is left: [safe_from k m] says that [m] cannot panic when at
    least [k] bytes are left. *)
Definition safe_from {A} (k : Z) (m : reader A) : Prop := forall s,
  k <= Zlen s -> no_panic (m s).

Lemma safe_from_safe {A} k (m : reader A) : safe m -> safe_from k m.
Proof. intros Hm s _. apply Hm. Qed.
Lemma safe_from_next {A} k n (f : bytes -> reader A) :
  0 <= n <= k -> (forall d, Zlen d = n -> safe_from (k - n) (f d)) ->
  safe_from k (next n ≫= f).
Proof.
  intros Hn Hf s Hs. cbv [mbind reader_bind]. unfold next.
  destruct (slice_no_panic s 0 n) as [d Hd]; [lia..|]. rewrite Hd, bind_Ok.
  apply slice_bound in Hd as (Hd & _). apply Hf; [lia|].
  unfold Zlen in *. rewrite length_drop. lia.
Qed.
Lemma safe_from_next_le {A} k (n : nat) (f : Z -> reader A) :
  Z.of_nat n <= k ->
  (forall v, 0 <= v < 2 ^ (8 * Z.of_nat n) -> safe_from (k - Z.of_nat n) (f v)) ->
  safe_from k (next_le n ≫= f).
Proof.
  intros Hn Hf.
  assert (safe_from k (next (Z.of_nat n) ≫= (fun d => f (le_Z d)))) as Hs.
  { apply safe_from_next; [lia|]. intros d Hd. apply Hf.
    pose proof (le_Z_range d) as Hr. by rewrite Hd in Hr. }
  intros s Hk. specialize (Hs s Hk). revert Hs. unfold next_le.
  cbv [mbind reader_bind mret reader_ret].
  by destruct (next (Z.of_nat n) s) as [[]| |].
Qed.
Lemma safe_from_need {A} k n e (f : unit -> reader A) :
  safe_from (Z.max k n) (f tt) -> safe_from k (need n e ≫= f).
Proof.
  intros Hf s Hs. cbv [mbind reader_bind]. unfold need.
  destruct (Z.ltb_spec (Zlen s) n); [done|]. apply Hf. lia.
Qed.
Lemma safe_from_lift {A B} k (m : res A) (f : A -> reader B) :
  no_panic m -> (forall a, m = Ok a -> safe_from k (f a)) ->
  safe_from k (rlift m ≫= f).
Proof.
  intros Hm Hf s Hs. cbv [mbind reader_bind]. unfold rlift.
  destruct m as [a| |]; [|done|done]. by apply Hf.
Qed.
Lemma safe_from_0 {A} (m : reader A) : safe_from 0 m -> safe m.
Proof. intros Hm s. apply Hm, Zlen_nonneg. Qed.
Lemma safe_from_bind {A B} k (m : reader A) (f : A -> reader B) :
  safe m -> (forall a, safe (f a)) -> safe_from k (m ≫= f).
Proof. intros Hm Hf. by apply safe_from_safe, safe_bind. Qed.

Lemma safe_run {A} (m : reader A) data : safe m -> no_panic (run_reader m data).
Proof.
  intros Hm. specialize (Hm data). unfold run_reader.
  by destruct (m data) as [[]| |].
Qed.

#[export] Hint Resolve safe_bind safe_ret safe_wrap safe_lift safe_read_full
  safe_read_le safe_read_be safe_buffer_read safe_read_byte safe_reader_read_n
  safe_reader_read safe_run : peerdns.

(** [safe_tac]: a decoder built from the above never panics. *)
Ltac safe_tac :=
  repeat first
    [ apply safe_bind; [|intros ?] | apply safe_ret | apply safe_wrap
    | apply safe_read_full | apply safe_read_le | apply safe_read_be
    | apply safe_buffer_read | apply safe_read_byte | apply safe_reader_read_n
    | apply safe_reader_read | apply safe_lift | case_match
    | solve [auto with peerdns] ].

(** * Go strings, and encoding/hex *)
Definition str (s : string) : bytes := String.list_byte_of_string s.

(** [bytes.HasPrefix] and [strings.HasPrefix]. *)
Definition has_prefix (s p : bytes) : bool :=
  bool_decide (take (length p) s = p).
(** [strings.TrimPrefix]. *)
Definition trim_prefix (s p : bytes) : bytes :=
  if has_prefix s p then drop (length p) s else s.

Lemma has_prefix_spec s p : has_prefix s p = true <-> exists r, s = p ++ r.
Proof.
  unfold has_prefix. rewrite bool_decide_eq_true. split.
  - intros H. exists (drop (length p) s). by rewrite <- H at 1; rewrite take_drop.
  - intros [r ->]. by rewrite take_app_length.
Qed.

Lemma trim_prefix_app p s : trim_prefix (p ++ s) p = s.
Proof.
  unfold trim_prefix.
  rewrite (proj2 (has_prefix_spec _ _)) by eauto. apply drop_app_length.
Qed.

(** The digit of a value below 16, as [hex.EncodeToString] and ["%x"] write it. *)
Definition hex_digit (d : Z) : byte :=
  if d <? 10 then byte_of_Z (48 + d) else byte_of_Z (87 + d).
(** The value of a hexadecimal digit, in either case. *)
Definition hex_value (b : byte) : option Z :=
  let c := Z_of_byte b in
  if (48 <=? c) && (c <=? 57) then Some (c - 48)
  else if (97 <=? c) && (c <=? 102) then Some (c - 87)
  else if (65 <=? c) && (c <=? 70) then Some (c - 55)
  else None.

(** [hex.EncodeToString], also [fmt.Sprintf("%x", data)]. *)
Fixpoint hex_encode (data : bytes) : bytes :=
  match data with
  | [] => []
  | b :: data =>
      hex_digit (Z_of_byte b / 16) :: hex_digit (Z_of_byte b mod 16)
        :: hex_encode data
  end.

Definition ErrLength : error := ErrMsg "encoding/hex: odd length hex string".
Definition InvalidByteError : error := ErrMsg "encoding/hex: invalid byte: %#U".

(** [hex.DecodeString]. *)
Fixpoint hex_decode (s : bytes) : res bytes :=
  match s with
  | [] => Ok []
  | [c] => match hex_value c with Some _ => Err ErrLength | None => Err InvalidByteError end
  | a :: c :: s =>
      match hex_value a, hex_value c with
      | Some x, Some y => t ← hex_decode s; Ok (byte_of_Z (16 * x + y) :: t)
      | _, _ => Err InvalidByteError
      end
  end.

Lemma hex_value_digit_all :
  forallb (fun b =>
    match hex_value (hex_digit (Z_of_byte b / 16)), hex_value (hex_digit (Z_of_byte b mod 16)) with
    | Some x, Some y => (x =? Z_of_byte b / 16) && (y =? Z_of_byte b mod 16)
    | _, _ => false
    end) (byte_of_Z <$> seqZ 0 256) = true.
Proof. vm_compute. reflexivity. Qed.

Lemma hex_value_digit b :
  hex_value (hex_digit (Z_of_byte b / 16)) = Some (Z_of_byte b / 16) /\
  hex_value (hex_digit (Z_of_byte b mod 16)) = Some (Z_of_byte b mod 16).
Proof.
  pose proof hex_value_digit_all as H. rewrite forallb_forall in H.
  specialize (H b). cbn beta in H.
  assert (List.In b (byte_of_Z <$> seqZ 0 256)) as Hin.
  { apply list_elem_of_In, list_elem_of_fmap. exists (Z_of_byte b).
    rewrite byte_of_Z_of_byte. split; [done|].
    apply elem_of_seqZ. pose proof (Z_of_byte_range b). lia. }
  specialize (H Hin).
  destruct (hex_value (hex_digit (Z_of_byte b / 16))) as [x|]; [|done].
  destruct (hex_value (hex_digit (Z_of_byte b mod 16))) as [y|]; [|done].
  apply andb_true_iff in H as [->%Z.eqb_eq ->%Z.eqb_eq]. done.
Qed.

Lemma hex_decode_encode data : hex_decode (hex_encode data) = Ok data.
Proof.
  induction data as [|b data IH]; cbn [hex_encode hex_decode]; [done|].
  destruct (hex_value_digit b) as [-> ->]. rewrite IH, bind_Ok. do 2 f_equal.
  rewrite <- Z_div_mod_eq_full. apply byte_of_Z_of_byte.
Qed.

Lemma length_hex_encode data : length (hex_encode data) = (2 * length data)%nat.
Proof. induction data as [|b data IH]; cbn [hex_encode length]; lia. Qed.

#[export] Instance hex_encode_inj : Inj (=) (=) hex_encode.
Proof.
  intros d1 d2 H. pose proof (hex_decode_encode d1) as H1.
  rewrite H, hex_decode_encode in H1. by injection H1.
Qed.

Lemma hex_decode_length s d :
  hex_decode s = Ok d -> length s = (2 * length d)%nat.
Proof.
  revert d. induction s as [s IH] using (induction_ltof1 _ length).
  unfold ltof in IH. intros d.
  destruct s as [|a [|c s]]; cbn [hex_decode].
  - intros [= <-]. done.
  - by case_match.
  - repeat case_match; try discriminate. intros Hd.
    apply bind_Ok_inv in Hd as (t & Ht & [= <-]).
    apply IH in Ht; cbn [length]; lia.
Qed.

Lemma hex_decode_no_panic s : no_panic (hex_decode s).
Proof.
  induction s as [s IH] using (induction_ltof1 _ length). unfold ltof in IH.
  destruct s as [|a [|c s]]; cbn [hex_decode]; [done|by case_match|].
  repeat case_match; try done. apply no_panic_bind; [|done].
  apply IH. cbn. lia.
Qed.
#[export] Hint Resolve hex_decode_no_panic : peerdns.
