(* ===== verification/Hashes.v ===== *)
(** The hash functions of the Go standard library that the program calls,
    as executable definitions: SHA-256 ([crypto/sha256], FIPS 180-4) and the
    32-bit FNV-1a hash ([hash/fnv]).  The examples are published test
    vectors. *)
From S2P Require Import Prelude Bytes.

(** * SHA-256 *)
Module Sha256.

Definition m32 : Z := 2 ^ 32 - 1.
Definition add32 (x y : Z) : Z := Z.land (x + y) m32.
Definition rotr (x n : Z) : Z :=
  Z.lor (Z.shiftr x n) (Z.land (Z.shiftl x (32 - n)) m32).
Definition not32 (x : Z) : Z := Z.lxor x m32.

Definition Ch (x y z : Z) : Z := Z.lxor (Z.land x y) (Z.land (not32 x) z).
Definition Maj (x y z : Z) : Z :=
  Z.lxor (Z.lxor (Z.land x y) (Z.land x z)) (Z.land y z).
Definition Sigma0 (x : Z) : Z := Z.lxor (Z.lxor (rotr x 2) (rotr x 13)) (rotr x 22).
Definition Sigma1 (x : Z) : Z := Z.lxor (Z.lxor (rotr x 6) (rotr x 11)) (rotr x 25).
Definition sigma0 (x : Z) : Z := Z.lxor (Z.lxor (rotr x 7) (rotr x 18)) (Z.shiftr x 3).
Definition sigma1 (x : Z) : Z := Z.lxor (Z.lxor (rotr x 17) (rotr x 19)) (Z.shiftr x 10).

(** The constants are the leading fractional bits of the cube roots and square
    roots of the first primes. *)
Definition is_prime (n : Z) : bool :=
  forallb (fun d => negb (n mod d =? 0)) (seqZ 2 (n - 2)).
Definition primes : list Z :=
  Eval vm_compute in base.filter (fun n => is_prime n = true) (seqZ 2 310).

(** The integer cube root of [n], bit by bit from bit [k - 1] down. *)
Fixpoint cbrt (k : nat) (n r : Z) : Z :=
  match k with
  | O => r
  | S k =>
      let r' := r + 2 ^ Z.of_nat k in
      cbrt k n (if r' ^ 3 <=? n then r' else r)
  end.

Definition K : list Z :=
  Eval vm_compute in
    (fun p => Z.land (cbrt 40 (p * 2 ^ 96) 0) m32) <$> take 64 primes.
Definition sqrt_word (i : nat) : Z := Z.land (Z.sqrt (nth i primes 0 * 2 ^ 64)) m32.

(** The eight working variables. *)
Record vars := { va : Z; vb : Z; vc : Z; vd : Z; ve : Z; vf : Z; vg : Z; vh : Z }.
Definition H0 : vars :=
  Eval vm_compute in
    {| va := sqrt_word 0; vb := sqrt_word 1; vc := sqrt_word 2; vd := sqrt_word 3;
       ve := sqrt_word 4; vf := sqrt_word 5; vg := sqrt_word 6; vh := sqrt_word 7 |}.

(** Appending the bit [1], zeros, and the length in bits. *)
Definition pad (msg : bytes) : bytes :=
  let k := (119 - Zlen msg mod 64) mod 64 in
  msg ++ byte_of_Z 128 :: zeros k ++ be_bytes 8 (8 * Zlen msg).

Fixpoint words (n : nat) (block : bytes) : list Z :=
  match n with
  | O => []
  | S n => be_Z (take 4 block) :: words n (drop 4 block)
  end.

(** The message schedule, most recent word first. *)
Fixpoint schedule (n : nat) (w : list Z) : list Z :=
  match n with
  | O => w
  | S n =>
      let x := add32 (add32 (sigma1 (nth 1 w 0)) (nth 6 w 0))
                     (add32 (sigma0 (nth 14 w 0)) (nth 15 w 0)) in
      schedule n (x :: w)
  end.

Definition round (s : vars) (kw : Z * Z) : vars :=
  let t1 := add32 (add32 (add32 (vh s) (Sigma1 (ve s)))
                         (Ch (ve s) (vf s) (vg s))) (add32 kw.1 kw.2) in
  let t2 := add32 (Sigma0 (va s)) (Maj (va s) (vb s) (vc s)) in
  {| va := add32 t1 t2; vb := va s; vc := vb s; vd := vc s;
     ve := add32 (vd s) t1; vf := ve s; vg := vf s; vh := vg s |}.

Definition compress (h : vars) (block : bytes) : vars :=
  let w := reverse (schedule 48 (reverse (words 16 block))) in
  let s := fold_left round (zip K w) h in
  {| va := add32 (va h) (va s); vb := add32 (vb h) (vb s);
     vc := add32 (vc h) (vc s); vd := add32 (vd h) (vd s);
     ve := add32 (ve h) (ve s); vf := add32 (vf h) (vf s);
     vg := add32 (vg h) (vg s); vh := add32 (vh h) (vh s) |}.

Fixpoint blocks (n : nat) (h : vars) (data : bytes) : vars :=
  match n with
  | O => h
  | S n => blocks n (compress h (take 64 data)) (drop 64 data)
  end.

Definition digest (h : vars) : bytes :=
  concat (be_bytes 4 <$> [va h; vb h; vc h; vd h; ve h; vf h; vg h; vh h]).

(** [sha256.Sum256]. *)
Definition Sum256 (msg : bytes) : bytes :=
  let p := pad msg in
  digest (blocks (length p / 64)%nat H0 p).

Lemma length_Sum256 msg : length (Sum256 msg) = 32%nat.
Proof.
  unfold Sum256. cbv zeta. generalize (blocks (length (pad msg) / 64) H0 (pad msg)).
  intros h. unfold digest. cbn [fmap list_fmap concat].
  rewrite !length_app. unfold be_bytes.
  rewrite !length_reverse, !length_le_bytes. reflexivity.
Qed.

Example abc :
  hex_encode (Sum256 (str "abc")) =
    str "ba7816bf8f01cfea414140de5dae2223b00361a396177a9cb410ff61f20015ad".
Proof. vm_compute. reflexivity. Qed.

Example empty :
  hex_encode (Sum256 []) =
    str "e3b0c44298fc1c149afbf4c8996fb92427ae41e4649b934ca495991b7852b855".
Proof. vm_compute. reflexivity. Qed.

Example two_blocks :
  hex_encode (Sum256 (str "abcdbcdecdefdefgefghfghighijhijkijkljklmklmnlmnomnopnopq")) =
    str "248d6a61d20638b8e5c026930c3e6039a33ce45964ff2167f6ecedd419db06c1".
Proof. vm_compute. reflexivity. Qed.

(** Proofs use only the length; [vm_compute] still evaluates the function. *)
#[global] Opaque Sum256.

End Sha256.

(** * FNV-1a, 32 bits *)
Module Fnv.

Definition offset32 : Z := 2166136261.
Definition prime32 : Z := 16777619.

(** [fnv.New32a()], [Write], [Sum32]. *)
Definition Sum32a (data : bytes) : Z :=
  fold_left (fun h b => u32 (Z.lxor h (Z_of_byte b) * prime32)) data offset32.

Lemma Sum32a_range data : is_u32 (Sum32a data).
Proof.
  unfold Sum32a.
  assert (forall h, is_u32 h -> is_u32
    (fold_left (fun h b => u32 (Z.lxor h (Z_of_byte b) * prime32)) data h)) as H.
  { induction data as [|b data IH]; intros h Hh; cbn; [done|].
    apply IH, u32_range. }
  apply H. done.
Qed.

Example foobar : Sum32a (str "foobar") = 0xbf9cf968.
Proof. vm_compute. reflexivity. Qed.

End Fnv.
