(* ===== verification/Types.v ===== *)
(** The value types of [pkg/types]: hashes and addresses with their textual
    and binary forms, transport and handler types. *)
From Stdlib Require Import Strings.Byte.
From S2P Require Import Prelude Bytes Hashes.
Import Sha256.

(** * constants.go *)
Definition HashSize : Z := 32.
Definition AddressSize : Z := 20.

(** * hash.go

    A [Hash] is a 32-byte array, an [Address] a 20-byte array. *)
Abbreviation Hash := bytes.
Abbreviation Address := bytes.
Definition Hash_ok (h : Hash) : Prop := length h = 32%nat.
Definition Address_ok (a : Address) : Prop := length a = 20%nat.

Definition ZeroHash : Hash := zeros HashSize.

Definition SumHash (data : bytes) : Hash := Sum256 data.
Definition HashEqual (a b : Hash) : bool := bool_decide (a = b).
Definition HashData (data : bytes) : bytes := Sum256 data.
Definition IsZeroHash (h : Hash) : bool := bool_decide (h = zeros (Zlen h)).

Definition err_hash_length : error :=
  ErrMsg "invalid hash length: expected %d bytes, got %d".

Definition HashFromBytes (data : bytes) : res Hash :=
  _ ← ensure (Zlen data =? HashSize) err_hash_length;
  Ok (copy_into ZeroHash data).

Definition Hash_Bytes (h : Hash) : bytes := h.
Definition Hash_String (h : Hash) : bytes := hex_encode h.
Definition Hash_Hex (h : Hash) : bytes := hex_encode h.
Definition Hash_Equal (h other : Hash) : bool := bool_decide (h = other).
Definition Hash_MarshalText (h : Hash) : res bytes := Ok (Hash_Hex h).

(** The methods with a pointer receiver take the old value of the array. *)
Definition Hash_UnmarshalText (h : Hash) (text : bytes) : res Hash :=
  data ← hex_decode text;
  _ ← ensure (Zlen data =? HashSize) err_hash_length;
  Ok (copy_into h data).
Definition Hash_MarshalBinary (h : Hash) : res bytes := Ok h.
Definition Hash_UnmarshalBinary (h : Hash) (data : bytes) : res Hash :=
  _ ← ensure (Zlen data =? HashSize) err_hash_length;
  Ok (copy_into h data).

(** * address.go *)
Definition ErrInvalidAddressLength : error := ErrMsg "invalid address length".

Definition ZeroAddress : Address := zeros AddressSize.

(** [bytes.Equal(h[:], nil)]. *)
Definition IsZeroAddress (h : Address) : bool := bool_decide (h = []).

Definition NewAddress (data : bytes) : res Address :=
  _ ← ensure (Zlen data =? AddressSize) ErrInvalidAddressLength;
  Ok (copy_into ZeroAddress data).

Definition FromBytes (data : bytes) : res Address :=
  if Zlen data =? AddressSize then Ok (copy_into ZeroAddress data) else Panic.

Definition FromHex (s : bytes) : res Address :=
  let cleaned := trim_prefix s (str "0x") in
  _ ← ensure (Zlen cleaned =? AddressSize * 2) ErrInvalidAddressLength;
  data ← hex_decode cleaned;
  Ok (copy_into ZeroAddress data).

Definition MustFromHex (s : bytes) : res Address :=
  match FromHex s with
  | Err _ => Panic
  | r => r
  end.

Definition Address_Bytes (a : Address) : bytes := copy_into (zeros AddressSize) a.
Definition Address_Hex (a : Address) : bytes := str "0x" ++ hex_encode a.
Definition Address_String (a : Address) : bytes := Address_Hex a.

(** The comparison loop over the indices [0 .. AddressSize-1]. *)
Definition Address_Equals (a other : Address) : bool :=
  forallb (fun i => bool_decide (nth i a x00 = nth i other x00))
    (seq 0 (Z.to_nat AddressSize)).

Definition Address_MarshalText (a : Address) : res bytes := Ok (Address_Hex a).
Definition Address_UnmarshalText (a : Address) (text : bytes) : res Address :=
  FromHex text.

Definition quote : bytes := [byte_of_Z 34].
Definition Address_MarshalJSON (a : Address) : res bytes :=
  Ok (quote ++ Address_Hex a ++ quote).

(** [strings.Trim] with the double quote as cut set: drops every leading and
    trailing quote. *)
Fixpoint trim_left_quotes (s : bytes) : bytes :=
  match s with
  | b :: s' => if Z_of_byte b =? 34 then trim_left_quotes s' else s
  | [] => []
  end.
Definition trim_quotes (s : bytes) : bytes :=
  reverse (trim_left_quotes (reverse (trim_left_quotes s))).

Definition Address_UnmarshalJSON (a : Address) (data : bytes) : res Address :=
  FromHex (trim_quotes data).

Definition Address_MarshalBinary (a : Address) : res bytes := Ok (Address_Bytes a).
Definition Address_UnmarshalBinary (a : Address) (data : bytes) : res Address :=
  _ ← ensure (Zlen data =? AddressSize) ErrInvalidAddressLength;
  Ok (copy_into a data).

Definition Address_IsZero (a : Address) : bool :=
  forallb (fun b => Z_of_byte b =? 0) a.

Definition Address_ShortHex (a : Address) : res bytes :=
  let h := Address_Hex a in
  if Zlen h <? 10 then Ok h
  else
    l ← slice h 0 6;
    r ← slice h (Zlen h - 4) (Zlen h);
    Ok (l ++ str "..." ++ r).

(** * helpers.go *)
Definition uint64ToBytes (num : Z) : bytes := le_bytes 8 num.

(** * types.go *)
Inductive TransportType :=
| UDPTransportType | DummyTransportType | QUICTransportType
| UDSTransportType | TCPTransportType.
#[export] Instance TransportType_eq_dec : EqDecision TransportType.
Proof. solve_decision. Defined.

Definition TransportType_String (t : TransportType) : string :=
  match t with
  | UDSTransportType => "uds"
  | QUICTransportType => "quic"
  | TCPTransportType => "tcp"
  | UDPTransportType => "udp"
  | DummyTransportType => "dummy"
  end.

Definition ParseTransportType (s : string) : res TransportType :=
  if String.eqb s "uds" then Ok UDSTransportType
  else if String.eqb s "quic" then Ok QUICTransportType
  else if String.eqb s "tcp" then Ok TCPTransportType
  else if String.eqb s "udp" then Ok UDPTransportType
  else if String.eqb s "dummy" then Ok DummyTransportType
  else Err (ErrMsg "unknown transport type: %s").

Inductive HandlerType :=
| WriteHandlerType | ReadHandlerType | ReadWriteHandlerType | ErrorHandlerType.

Definition HandlerType_FromByte (b : Z) : res HandlerType :=
  if b =? 1 then Ok WriteHandlerType
  else if b =? 2 then Ok ReadHandlerType
  else if b =? 3 then Ok ReadWriteHandlerType
  else Err (ErrMsg "invalid action byte: %v").

(** * Lemmas *)
Lemma length_ZeroHash : length ZeroHash = 32%nat.
Proof. reflexivity. Qed.
Lemma length_ZeroAddress : length ZeroAddress = 20%nat.
Proof. reflexivity. Qed.

Lemma HashFromBytes_Ok data : Hash_ok data -> HashFromBytes data = Ok data.
Proof.
  unfold Hash_ok, HashFromBytes, HashSize, Zlen. intros H.
  rewrite H, copy_into_exact by done. done.
Qed.

Lemma HashFromBytes_inv data h : HashFromBytes data = Ok h -> h = data /\ Hash_ok h.
Proof.
  unfold HashFromBytes. intros H. res_inv.
  match goal with H : (_ =? _) = true |- _ => apply Z.eqb_eq in H as Hl end.
  unfold HashSize, Zlen in Hl. unfold Hash_ok.
  rewrite copy_into_exact by (rewrite length_ZeroHash; lia). split; [done|lia].
Qed.

Lemma Address_UnmarshalBinary_Ok a data :
  Address_ok a -> Address_ok data -> Address_UnmarshalBinary a data = Ok data.
Proof.
  unfold Address_ok, Address_UnmarshalBinary, AddressSize, Zlen. intros Ha H.
  rewrite H, copy_into_exact by congruence. done.
Qed.

Lemma Address_Bytes_id a : Address_ok a -> Address_Bytes a = a.
Proof. intros H. apply copy_into_exact. by rewrite H. Qed.

Lemma ZeroAddress_ok : Address_ok ZeroAddress.
Proof. reflexivity. Qed.
Lemma ZeroHash_ok : Hash_ok ZeroHash.
Proof. reflexivity. Qed.
Lemma Sum256_ok data : Hash_ok (Sum256 data).
Proof. apply length_Sum256. Qed.
#[export] Hint Resolve ZeroAddress_ok ZeroHash_ok Sum256_ok : peerdns.

Lemma no_panic_HashFromBytes data : no_panic (HashFromBytes data).
Proof. unfold HashFromBytes. no_panic_tac. Qed.
Lemma no_panic_UnmarshalBinary a data : no_panic (Address_UnmarshalBinary a data).
Proof. unfold Address_UnmarshalBinary. no_panic_tac. Qed.
#[export] Hint Resolve no_panic_HashFromBytes no_panic_UnmarshalBinary : peerdns.

Lemma FromHex_encode a : Address_ok a -> FromHex (Address_Hex a) = Ok a.
Proof.
  intros Ha. unfold FromHex, Address_Hex. rewrite trim_prefix_app.
  unfold Zlen. rewrite length_hex_encode, Ha. cbn [ensure Z.eqb].
  rewrite hex_decode_encode. rewrite bind_Ok. cbn [mbind res_bind].
  by rewrite copy_into_exact.
Qed.

Lemma FromHex_plain a :
  Address_ok a -> has_prefix (hex_encode a) (str "0x") = false ->
  FromHex (hex_encode a) = Ok a.
Proof.
  intros Ha Hp. unfold FromHex, trim_prefix. rewrite Hp.
  unfold Zlen. rewrite length_hex_encode, Ha. cbn [ensure Z.eqb].
  rewrite hex_decode_encode. rewrite bind_Ok. cbn [mbind res_bind].
  by rewrite copy_into_exact.
Qed.

Lemma trim_left_quotes_none b s :
  Z_of_byte b <> 34 -> trim_left_quotes (b :: s) = b :: s.
Proof. intros H. cbn. by rewrite (proj2 (Z.eqb_neq _ _)). Qed.

Lemma hex_digit_not_quote d : 0 <= d < 16 -> Z_of_byte (hex_digit d) <> 34.
Proof.
  intros Hd. unfold hex_digit.
  destruct (Z.ltb_spec d 10); rewrite Z_of_byte_of_Z, Z.mod_small; lia.
Qed.

(** A hexadecimal string ends with a hexadecimal digit. *)
Lemma hex_encode_last data :
  data <> [] -> exists s d, hex_encode data = s ++ [hex_digit d] /\ 0 <= d < 16.
Proof.
  induction data as [|b data IH]; [done|]. intros _. cbn [hex_encode].
  destruct data as [|b' data].
  - exists [hex_digit (Z_of_byte b / 16)], (Z_of_byte b mod 16).
    split; [done|]. apply Z.mod_pos_bound. lia.
  - destruct IH as (s & d & -> & Hd); [done|].
    eexists (_ :: _ :: s), d. by split.
Qed.

Lemma trim_quotes_Hex a :
  Address_ok a -> trim_quotes (quote ++ Address_Hex a ++ quote) = Address_Hex a.
Proof.
  intros Ha. unfold trim_quotes, Address_Hex.
  destruct (hex_encode_last a) as (s & d & Hs & Hd).
  { by intros ->. }
  assert (forall t, trim_left_quotes (quote ++ str "0x" ++ t) = str "0x" ++ t)
    as Hleft by reflexivity.
  rewrite <- app_assoc, Hleft, Hs, <- app_assoc.
  replace (reverse (str "0x" ++ s ++ [hex_digit d] ++ quote))
    with (quote ++ hex_digit d :: reverse (str "0x" ++ s))
    by (rewrite !reverse_app, <- !app_assoc; reflexivity).
  change (trim_left_quotes (quote ++ ?t)) with (trim_left_quotes t).
  rewrite trim_left_quotes_none by by apply hex_digit_not_quote.
  by rewrite reverse_cons, reverse_involutive, <- app_assoc.
Qed.

(** Every encoding of an address is read back: for each 20-byte address,
    [UnmarshalText] of [MarshalText], [UnmarshalJSON] of [MarshalJSON],
    [UnmarshalBinary] of [MarshalBinary] and [FromHex] of [Hex] give the
    address itself, whatever the receiver held before. *)
Theorem Address_encodings_roundtrip (old a : Address)
  (Hold : Address_ok old) (Ha : Address_ok a) :
  (t ← Address_MarshalText a; Address_UnmarshalText old t) = Ok a /\
  (t ← Address_MarshalJSON a; Address_UnmarshalJSON old t) = Ok a /\
  (t ← Address_MarshalBinary a; Address_UnmarshalBinary old t) = Ok a /\
  FromHex (Address_Hex a) = Ok a /\ FromBytes (Address_Bytes a) = Ok a.
Proof.
  unfold Address_MarshalText, Address_UnmarshalText, Address_MarshalJSON,
    Address_UnmarshalJSON, Address_MarshalBinary, FromBytes.
  rewrite !bind_Ok, trim_quotes_Hex, FromHex_encode, Address_Bytes_id by done.
  rewrite Address_UnmarshalBinary_Ok by done. repeat split.
  unfold Address_ok in Ha. unfold Zlen. rewrite Ha. cbn.
  by rewrite copy_into_exact.
Qed.

Definition address_example : Address := byte_of_Z <$> seqZ 230 20.
Lemma Address_encodings_roundtrip_witness :
  Address_ok ZeroAddress /\ Address_ok address_example /\
  FromHex (Address_Hex address_example) = Ok address_example.
Proof.
  split; [reflexivity|]. split; [reflexivity|].
  apply (Address_encodings_roundtrip ZeroAddress address_example); reflexivity.
Defined.

(** [FromHex] accepts exactly the strings that are, after an optional
    ["0x"], forty hexadecimal digits, and returns the bytes they denote; the
    result is always a 20-byte address, and no input makes it panic. *)
Lemma FromHex_spec (s : bytes) :
  no_panic (FromHex s) /\
  forall a, FromHex s = Ok a <->
    (hex_decode (trim_prefix s (str "0x")) = Ok a /\ Address_ok a).
Proof.
  unfold FromHex. cbv zeta. split; [no_panic_tac|].
  intros a. rewrite ensure_bind, Z.eqb_eq. unfold Zlen, AddressSize, Address_ok.
  split.
  - intros [Hl H]. apply bind_Ok_inv in H as (d & Hd & H).
    pose proof (hex_decode_length _ _ Hd). injection H as <-.
    rewrite copy_into_exact by (rewrite length_ZeroAddress; lia). split; [done|lia].
  - intros [Hd Hl]. pose proof (hex_decode_length _ _ Hd).
    split; [lia|]. rewrite Hd, bind_Ok. by rewrite copy_into_exact.
Qed.

(** [IsZeroAddress] rejects every address, the zero address included (it
    compares against an empty slice), whereas the method [IsZero] holds of the
    zero address and of no other. *)
Lemma IsZeroAddress_rejects_all (a : Address) (Ha : Address_ok a) :
  IsZeroAddress a = false /\ (Address_IsZero a = true <-> a = ZeroAddress).
Proof.
  split.
  - apply bool_decide_eq_false. by intros ->.
  - split; [|intros ->; reflexivity].
    unfold Address_IsZero, ZeroAddress, zeros. intros H.
    apply (list_eq_same_length _ (replicate 20 x00) 20 eq_refl Ha).
    intros i x y _ Hx Hy.
    apply lookup_replicate in Hy as [-> _].
    rewrite forallb_forall in H. apply list_elem_of_lookup_2, list_elem_of_In, H in Hx.
    apply Z.eqb_eq in Hx. by apply Z_of_byte_inj.
Qed.
Lemma IsZeroAddress_rejects_all_witness :
  Address_ok ZeroAddress /\ IsZeroAddress ZeroAddress = false.
Proof.
  split; [reflexivity|]. apply (IsZeroAddress_rejects_all ZeroAddress).
  reflexivity.
Defined.
