(* ===== verification/Signatures.v ===== *)
(** [pkg/signatures]: signer types, the [Signer] interface and its three
    implementations.  The Ed25519 and DLEQ packages of circl and the BLS
    library are parameters; what a client may rely on is the class
    [SignerCorrect], which the Ed25519 and BLS signers are shown to satisfy when
    their library is lawful and the two keys of the pair belong together. *)
From S2P Require Import Prelude Bytes Hashes.
Import Sha256.

(** * types.go *)
Abbreviation SignerType := string.
Definition BlsSignerType : SignerType := "bls".
Definition Ed25519SignerType : SignerType := "ed25519".
Definition DleqSignerType : SignerType := "dleq".
Definition UnknownSignerType : SignerType := "unknown".

Definition SignerType_Uint32 (t : SignerType) : Z :=
  if String.eqb t BlsSignerType then 0
  else if String.eqb t Ed25519SignerType then 1
  else if String.eqb t DleqSignerType then 2
  else 0xFFFFFFFF.

Definition SignerTypeFromUint32 (u : Z) : SignerType :=
  if u =? 0 then BlsSignerType
  else if u =? 1 then Ed25519SignerType
  else if u =? 2 then DleqSignerType
  else UnknownSignerType.

(** What a signer type becomes after a trip through its number. *)
Definition normalize_signer (t : SignerType) : SignerType :=
  SignerTypeFromUint32 (SignerType_Uint32 t).

Lemma SignerType_Uint32_range t : is_u32 (SignerType_Uint32 t).
Proof. unfold SignerType_Uint32, is_u32. repeat case_match; lia. Qed.
#[export] Hint Resolve SignerType_Uint32_range : peerdns.

Lemma normalize_signer_known t :
  t ∈ [BlsSignerType; Ed25519SignerType; DleqSignerType; UnknownSignerType] ->
  normalize_signer t = t.
Proof. intros H. repeat (apply elem_of_cons in H as [->|H]; [reflexivity|]). by apply elem_of_nil in H. Qed.

(** * signer.go

    A value of the [Signer] interface.  [Verify] returns a boolean and an
    error; an error always comes with [false], so the pair is a result. *)
Record Signer := {
  Signer_Sign : bytes -> res bytes;
  Signer_Type : SignerType;
  Signer_Verify : bytes -> bytes -> res bool;
}.

(** The test [if valid, _ := s.Verify(d, sig); !valid]. *)
Definition verifies (s : Signer) (d sig : bytes) : bool :=
  match Signer_Verify s d sig with Ok true => true | _ => false end.

(** What the clients of a signer rely on: it signs every non-empty message,
    with a non-empty signature that it accepts for that message. *)
Class SignerCorrect (s : Signer) : Prop := {
  sign_total : forall d, d <> [] -> exists sig, Signer_Sign s d = Ok sig;
  sign_verifies : forall d sig, Signer_Sign s d = Ok sig -> verifies s d sig = true;
  sign_nonempty : forall d sig, Signer_Sign s d = Ok sig -> sig <> [];
}.

(** * ed25519.go *)
Section Ed25519.
Definition PrivateKeySize : Z := 64.
Definition PublicKeySize : Z := 32.
Definition SignatureSize : Z := 64.

(** The library: [ed25519.Sign], which is documented to panic on a private key
    of the wrong size, and [ed25519.Verify]. *)
Context (ed25519_Sign : bytes -> bytes -> res bytes)
        (ed25519_Verify : bytes -> bytes -> bytes -> bool).

Record Ed25519KeyPair := {
  ed_PrivateKey : option bytes;
  ed_PublicKey : option bytes;
}.

Definition Ed25519_SerializePrivate (kp : Ed25519KeyPair) : res bytes :=
  match ed_PrivateKey kp with
  | None => Err (ErrMsg "private key is nil")
  | Some k => Ok k
  end.
Definition Ed25519_SerializePublic (kp : Ed25519KeyPair) : res bytes :=
  match ed_PublicKey kp with
  | None => Err (ErrMsg "public key is nil")
  | Some k => Ok k
  end.

Definition Ed25519_DeserializePrivate (kp : Ed25519KeyPair) (data : bytes) : res Ed25519KeyPair :=
  if negb (Zlen data =? PrivateKeySize) then Err (ErrMsg "invalid private key data")
  else
    pub ← slice data 32 (Zlen data);
    Ok {| ed_PrivateKey := Some data; ed_PublicKey := Some pub |}.

Definition Ed25519_DeserializePublic (kp : Ed25519KeyPair) (data : bytes) : res Ed25519KeyPair :=
  if negb (Zlen data =? PublicKeySize) then Err (ErrMsg "invalid public key data")
  else Ok {| ed_PrivateKey := ed_PrivateKey kp; ed_PublicKey := Some data |}.

Definition NewEd25519SignerWithKeys (privateKeyData publicKeyData : bytes) : res Ed25519KeyPair :=
  let kp := {| ed_PrivateKey := None; ed_PublicKey := None |} in
  kp ← Ed25519_DeserializePrivate kp privateKeyData;
  Ed25519_DeserializePublic kp publicKeyData.

Definition Ed25519_Sign (kp : Ed25519KeyPair) (data : bytes) : res bytes :=
  match ed_PrivateKey kp with
  | None => Err (ErrMsg "private key is nil")
  | Some sk =>
      if Zlen data =? 0 then Err (ErrMsg "data to sign is empty")
      else ed25519_Sign sk (Sum256 data)
  end.

Definition Ed25519_Verify (kp : Ed25519KeyPair) (data signature : bytes) : res bool :=
  match ed_PublicKey kp with
  | None => Err (ErrMsg "public key is nil")
  | Some pk =>
      if Zlen data =? 0 then Err (ErrMsg "data to verify is empty")
      else if negb (Zlen signature =? SignatureSize) then Err (ErrMsg "invalid signature")
      else Ok (ed25519_Verify pk (Sum256 data) signature)
  end.

Definition Ed25519Signer (kp : Ed25519KeyPair) : Signer := {|
  Signer_Sign := Ed25519_Sign kp;
  Signer_Type := Ed25519SignerType;
  Signer_Verify := Ed25519_Verify kp;
|}.

(** RFC 8032: with a 64-byte private key a signature has 64 bytes and verifies
    under the public key, which is the second half of the private key. *)
Definition ed25519_lawful : Prop :=
  forall sk m, Zlen sk = PrivateKeySize ->
  exists sig, ed25519_Sign sk m = Ok sig /\ Zlen sig = SignatureSize /\
    ed25519_Verify (drop 32 sk) m sig = true.
End Ed25519.

(** * bls.go *)
Section BLS.
(** The BLS library: secret keys, public keys, signatures, and their
    serializations. *)
Context {SecretKey PublicKey Sign : Type}
  (GetPublicKey : SecretKey -> PublicKey)
  (sk_Serialize : SecretKey -> bytes) (sk_Deserialize : bytes -> res SecretKey)
  (pk_Serialize : PublicKey -> bytes) (pk_Deserialize : bytes -> res PublicKey)
  (SignHash : SecretKey -> bytes -> Sign)
  (sig_Serialize : Sign -> bytes) (sig_Deserialize : bytes -> res Sign)
  (VerifyHash : Sign -> PublicKey -> bytes -> bool)
  (sig_zero : Sign) (sig_Add : Sign -> Sign -> Sign).

Record BLSKeyPair := {
  bls_PrivateKey : option SecretKey;
  bls_PublicKey : option PublicKey;
}.

Definition BLS_SerializePrivate (kp : BLSKeyPair) : res bytes :=
  match bls_PrivateKey kp with
  | None => Err (ErrMsg "private key is nil")
  | Some k => Ok (sk_Serialize k)
  end.
Definition BLS_SerializePublic (kp : BLSKeyPair) : res bytes :=
  match bls_PublicKey kp with
  | None => Err (ErrMsg "public key is nil")
  | Some k => Ok (pk_Serialize k)
  end.
Definition BLS_DeserializePrivate (kp : BLSKeyPair) (data : bytes) : res BLSKeyPair :=
  if Zlen data =? 0 then Err (ErrMsg "private key data is empty")
  else
    sk ← wrap "failed to deserialize private key" (sk_Deserialize data);
    Ok {| bls_PrivateKey := Some sk; bls_PublicKey := Some (GetPublicKey sk) |}.
Definition BLS_DeserializePublic (kp : BLSKeyPair) (data : bytes) : res BLSKeyPair :=
  if Zlen data =? 0 then Err (ErrMsg "public key data is empty")
  else
    pk ← wrap "failed to deserialize public key" (pk_Deserialize data);
    Ok {| bls_PrivateKey := bls_PrivateKey kp; bls_PublicKey := Some pk |}.

Definition NewBLSSignerWithKeys (privateKeyData publicKeyData : bytes) : res BLSKeyPair :=
  let kp := {| bls_PrivateKey := None; bls_PublicKey := None |} in
  kp ← BLS_DeserializePrivate kp privateKeyData;
  BLS_DeserializePublic kp publicKeyData.

Definition BLS_Sign (kp : BLSKeyPair) (data : bytes) : res bytes :=
  match bls_PrivateKey kp with
  | None => Err (ErrMsg "private key is nil")
  | Some sk =>
      if Zlen data =? 0 then Err (ErrMsg "data to sign is empty")
      else Ok (sig_Serialize (SignHash sk (Sum256 data)))
  end.

Definition BLS_Verify (kp : BLSKeyPair) (data signature : bytes) : res bool :=
  match bls_PublicKey kp with
  | None => Err (ErrMsg "public key is nil")
  | Some pk =>
      if Zlen data =? 0 then Err (ErrMsg "data to verify is empty")
      else if Zlen signature =? 0 then Err (ErrMsg "signature is empty")
      else
        sig ← wrap "failed to deserialize signature" (sig_Deserialize signature);
        Ok (VerifyHash sig pk (Sum256 data))
  end.

Definition BLSSigner (kp : BLSKeyPair) : Signer := {|
  Signer_Sign := BLS_Sign kp;
  Signer_Type := BlsSignerType;
  Signer_Verify := BLS_Verify kp;
|}.

Definition AggregateSignatures (signatures : list bytes) : res bytes :=
  if Zlen signatures =? 0 then Err (ErrMsg "no signatures to aggregate")
  else
    agg ← fold_res (fun agg sigBytes =>
      if Zlen sigBytes =? 0 then Err (ErrMsg "one of the signatures is empty")
      else
        s ← wrap "failed to deserialize signature" (sig_Deserialize sigBytes);
        Ok (sig_Add agg s)) sig_zero signatures;
    Ok (sig_Serialize agg).

Definition bls_lawful : Prop :=
  (forall s, sig_Serialize s <> [] /\ sig_Deserialize (sig_Serialize s) = Ok s) /\
  (forall sk h, VerifyHash (SignHash sk h) (GetPublicKey sk) h = true).
End BLS.
Arguments BLSKeyPair : clear implicits.

(** * dleq.go *)
Section DLEQ.
(** The group and the proof system of the library; the random source of
    [Prove] is part of the parameter. *)
Context {Scalar Element : Type}
  (sc_Marshal : Scalar -> res bytes) (sc_Unmarshal : bytes -> res Scalar)
  (el_Marshal : Element -> res bytes) (el_Unmarshal : bytes -> res Element)
  (Generator : Element)
  (Prove : bytes -> Scalar -> Element -> Element -> Element -> Element -> res bytes)
  (proof_Unmarshal : bytes -> res unit)
  (dleq_Verify : bytes -> Element -> Element -> Element -> Element -> bytes -> bool).

(** [Params.G] is the group of this section or, before it is set, nil. *)
Record ZKProofKeyPair := {
  zk_PrivateKey : option Scalar;
  zk_PublicKeyA : option Element;
  zk_PublicKeyB : option Element;
  zk_G : bool;
  zk_DST : bytes;
}.

Definition ZKProof_SerializePrivate (kp : ZKProofKeyPair) : res bytes :=
  match zk_PrivateKey kp with
  | None => Err (ErrMsg "private key is nil")
  | Some k => sc_Marshal k
  end.

(** The lengths are [uint16], and so is the size of the buffer. *)
Definition ZKProof_SerializePublic (kp : ZKProofKeyPair) : res bytes :=
  match zk_PublicKeyA kp, zk_PublicKeyB kp with
  | Some a, Some b =>
      dataA ← wrap "failed to marshal PublicKeyA" (el_Marshal a);
      dataB ← wrap "failed to marshal PublicKeyB" (el_Marshal b);
      let lenA := u16 (Zlen dataA) in
      let lenB := u16 (Zlen dataB) in
      let serialized := zeros (u16 (2 + lenA + 2 + lenB)) in
      serialized ← put_at serialized 0 [byte_of_Z (lenA / 256)];
      serialized ← put_at serialized 1 [byte_of_Z lenA];
      serialized ← copy_at serialized 2 dataA;
      let offset := u16 (2 + lenA) in
      serialized ← put_at serialized offset [byte_of_Z (lenB / 256)];
      serialized ← put_at serialized (u16 (offset + 1)) [byte_of_Z lenB];
      copy_at serialized (u16 (offset + 2)) dataB
  | _, _ => Err (ErrMsg "public keys are nil")
  end.

(** [int(data[i])<<8 | int(data[i+1])]. *)
Definition be16_at (data : bytes) (i : Z) : res Z :=
  s ← slice data i (i + 2);
  Ok (be_Z s).

Definition ZKProof_DeserializePrivate (kp : ZKProofKeyPair) (data : bytes) : res ZKProofKeyPair :=
  if negb (zk_G kp) then Err (ErrMsg "group not initialized")
  else
    k ← wrap "failed to unmarshal private key" (sc_Unmarshal data);
    Ok {| zk_PrivateKey := Some k; zk_PublicKeyA := zk_PublicKeyA kp;
          zk_PublicKeyB := zk_PublicKeyB kp; zk_G := zk_G kp; zk_DST := zk_DST kp |}.

Definition ZKProof_DeserializePublic (kp : ZKProofKeyPair) (data : bytes) : res ZKProofKeyPair :=
  let bad := ErrMsg "invalid public key data length" in
  if negb (zk_G kp) then Err (ErrMsg "group not initialized")
  else if Zlen data <? 4 then Err bad
  else
    lenA ← be16_at data 0;
    if Zlen data <? 2 + lenA + 2 then Err bad
    else
      dataA ← slice data 2 (2 + lenA);
      let offset := 2 + lenA in
      lenB ← be16_at data offset;
      if Zlen data <? offset + 2 + lenB then Err bad
      else
        dataB ← slice data (offset + 2) (offset + 2 + lenB);
        a ← wrap "failed to unmarshal PublicKeyA" (el_Unmarshal dataA);
        b ← wrap "failed to unmarshal PublicKeyB" (el_Unmarshal dataB);
        Ok {| zk_PrivateKey := zk_PrivateKey kp; zk_PublicKeyA := Some a;
              zk_PublicKeyB := Some b; zk_G := zk_G kp; zk_DST := zk_DST kp |}.

Definition NewZKProofSignerWithKeys (privateKeyData publicKeyData : bytes) : res ZKProofKeyPair :=
  let kp := {| zk_PrivateKey := None; zk_PublicKeyA := None; zk_PublicKeyB := None;
               zk_G := true; zk_DST := str "zkproof_domain_sep_string" |} in
  kp ← ZKProof_DeserializePrivate kp privateKeyData;
  ZKProof_DeserializePublic kp publicKeyData.

(** Signing with an unset public key or group hands nil to the library, which
    dereferences it. *)
Definition ZKProof_Sign (kp : ZKProofKeyPair) (data : bytes) : res bytes :=
  match zk_PrivateKey kp with
  | None => Err (ErrMsg "private key is nil")
  | Some k =>
      match zk_G kp, zk_PublicKeyA kp, zk_PublicKeyB kp with
      | true, Some a, Some b =>
          wrap "failed to create DLEQ proof"
            (Prove (zk_DST kp ++ data) k Generator a Generator b)
      | _, _, _ => Panic
      end
  end.

Definition ZKProof_Verify (kp : ZKProofKeyPair) (data signature : bytes) : res bool :=
  match zk_PublicKeyA kp, zk_PublicKeyB kp with
  | Some a, Some b =>
      if negb (zk_G kp) then Panic
      else
        _ ← wrap "failed to unmarshal DLEQ proof" (proof_Unmarshal signature);
        if dleq_Verify (zk_DST kp ++ data) Generator a Generator b signature
        then Ok true
        else Err (ErrMsg "DLEQ proof is invalid")
  | _, _ => Err (ErrMsg "public keys are nil")
  end.

Definition ZKProofSigner (kp : ZKProofKeyPair) : Signer := {|
  Signer_Sign := ZKProof_Sign kp;
  Signer_Type := DleqSignerType;
  Signer_Verify := ZKProof_Verify kp;
|}.
End DLEQ.
Arguments ZKProofKeyPair : clear implicits.

(** * Theorems *)

(** An Ed25519 signer built from serialized keys, the public one being the
    second half of the private one, signs every non-empty message and accepts
    its own signatures; building it succeeds for keys of the right sizes. *)
Theorem Ed25519_signer_correct (sign : bytes -> bytes -> res bytes)
    (verify : bytes -> bytes -> bytes -> bool) (sk : bytes) :
  ed25519_lawful sign verify -> Zlen sk = PrivateKeySize ->
  exists kp, NewEd25519SignerWithKeys sk (drop 32 sk) = Ok kp /\
    Ed25519_SerializePrivate kp = Ok sk /\
    Ed25519_SerializePublic kp = Ok (drop 32 sk) /\
    SignerCorrect (Ed25519Signer sign verify kp).
Proof.
  intros Hlaw Hsk. unfold NewEd25519SignerWithKeys, Ed25519_DeserializePrivate.
  rewrite Hsk, Z.eqb_refl. cbn [negb].
  assert (slice sk 32 PrivateKeySize = Ok (drop 32 sk)) as ->.
  { unfold slice, PrivateKeySize in *. rewrite Hsk. cbn. f_equal.
    apply take_ge. rewrite length_drop. unfold Zlen in Hsk. lia. }
  cbn [mbind res_bind]. unfold Ed25519_DeserializePublic.
  assert (Zlen (drop 32 sk) = PublicKeySize) as ->.
  { unfold Zlen, PrivateKeySize, PublicKeySize in *. rewrite length_drop. lia. }
  rewrite Z.eqb_refl. cbn [negb ed_PrivateKey].
  eexists. do 3 (split; [reflexivity|]).
  split; cbn [Signer_Sign Signer_Verify Ed25519Signer]; unfold verifies, Ed25519_Sign.
  - intros d Hd. cbn [ed_PrivateKey].
    destruct (Z.eqb_spec (Zlen d) 0) as [H0|_]; [by apply Zlen_0 in H0|].
    destruct (Hlaw sk (Sum256 d) Hsk) as (sig & Hsig & _). by exists sig.
  - intros d sig. cbn [ed_PrivateKey]. unfold Ed25519Signer, Ed25519_Verify.
    cbn [Signer_Verify ed_PublicKey].
    destruct (Z.eqb_spec (Zlen d) 0) as [H0|_]; [discriminate|].
    destruct (Hlaw sk (Sum256 d) Hsk) as (sig' & -> & Hlen & Hver). intros [= <-].
    rewrite Hlen, Z.eqb_refl. cbn [negb]. by rewrite Hver.
  - intros d sig. cbn [ed_PrivateKey].
    destruct (Z.eqb_spec (Zlen d) 0) as [H0|_]; [discriminate|].
    destruct (Hlaw sk (Sum256 d) Hsk) as (sig' & -> & Hlen & _). intros [= <-] ->.
    discriminate.
Qed.

(** A toy library: the signature repeats the hash. *)
Lemma Ed25519_signer_correct_witness :
  exists kp, NewEd25519SignerWithKeys (zeros 64) (drop 32 (zeros 64)) = Ok kp /\
    Ed25519_SerializePrivate kp = Ok (zeros 64) /\
    Ed25519_SerializePublic kp = Ok (drop 32 (zeros 64)) /\
    SignerCorrect (Ed25519Signer (fun _ m => Ok (take 64 (m ++ zeros 64)))
      (fun _ m sig => bool_decide (sig = take 64 (m ++ zeros 64))) kp).
Proof.
  apply Ed25519_signer_correct; [|reflexivity].
  intros sk m _. eexists. split; [reflexivity|]. split; [|by rewrite bool_decide_eq_true].
  unfold Zlen, SignatureSize, zeros. rewrite length_take, length_app, length_replicate. lia.
Defined.

Section DLEQ_roundtrip.
Context {Scalar Element : Type} (el_Marshal : Element -> res bytes)
  (el_Unmarshal : bytes -> res Element).

Lemma be16_at_app pre n post i :
  i = Zlen pre -> 0 <= n < 2 ^ 16 ->
  be16_at (pre ++ [byte_of_Z (n / 256)] ++ [byte_of_Z n] ++ post) i = Ok n.
Proof.
  intros -> Hn. unfold be16_at.
  rewrite (slice_Ok pre ([byte_of_Z (n / 256)] ++ [byte_of_Z n]) post)
    by (rewrite ?Zlen_app, ?Zlen_cons, ?Zlen_nil; lia).
  rewrite bind_Ok. f_equal.
  change ([byte_of_Z (n / 256)] ++ [byte_of_Z n]) with (be_bytes 2 n).
  rewrite be_Z_be_bytes. by apply Z.mod_small.
Qed.

(** The two public keys of a DLEQ pair survive serialization, as long as
    their encodings fit the [uint16] arithmetic of the length prefixes. *)
Theorem ZKProof_public_roundtrip (kp kp' : ZKProofKeyPair Scalar Element) a b da db :
  zk_PublicKeyA kp = Some a -> zk_PublicKeyB kp = Some b ->
  el_Marshal a = Ok da -> el_Marshal b = Ok db ->
  el_Unmarshal da = Ok a -> el_Unmarshal db = Ok b ->
  4 + Zlen da + Zlen db < 2 ^ 16 -> zk_G kp' = true ->
  exists data, ZKProof_SerializePublic el_Marshal kp = Ok data /\
    ZKProof_DeserializePublic el_Unmarshal kp' data =
      Ok {| zk_PrivateKey := zk_PrivateKey kp'; zk_PublicKeyA := Some a;
            zk_PublicKeyB := Some b; zk_G := zk_G kp'; zk_DST := zk_DST kp' |}.
Proof.
  intros HA HB Ha Hb Ua Ub Hlen HG.
  pose proof (Zlen_nonneg da). pose proof (Zlen_nonneg db).
  exists ([byte_of_Z (Zlen da / 256)] ++ [byte_of_Z (Zlen da)] ++ da ++
          [byte_of_Z (Zlen db / 256)] ++ [byte_of_Z (Zlen db)] ++ db). split.
  - unfold ZKProof_SerializePublic. rewrite HA, HB, Ha, Hb. cbn [wrap].
    rewrite !bind_Ok. unfold u16.
    rewrite (Z.mod_small (Zlen da)), (Z.mod_small (Zlen db)) by lia.
    rewrite (Z.mod_small (2 + Zlen da)) by lia.
    rewrite (Z.mod_small (2 + Zlen da + 1)) by lia.
    rewrite (Z.mod_small (2 + Zlen da + 2)) by lia.
    rewrite (Z.mod_small (2 + Zlen da + 2 + Zlen db)) by lia.
    rewrite <- (app_nil_l (zeros _)).
    do 2 (rewrite put_at_next, bind_Ok by (autorewrite with zlen; lia)).
    rewrite copy_at_next, bind_Ok by (autorewrite with zlen; lia).
    do 2 (rewrite put_at_next, bind_Ok by (autorewrite with zlen; lia)).
    rewrite copy_at_next by (autorewrite with zlen; lia).
    f_equal. rewrite app_nil_l. autorewrite with zlen.
    replace (_ - Zlen db) with 0 by lia. rewrite zeros_0, app_nil_r.
    by rewrite <- !app_assoc.
  - unfold ZKProof_DeserializePublic. rewrite HG. cbn [negb].
    set (la := [byte_of_Z (Zlen da / 256)] ++ [byte_of_Z (Zlen da)]).
    set (lb := [byte_of_Z (Zlen db / 256)] ++ [byte_of_Z (Zlen db)]).
    set (data := _ ++ _).
    assert (Zlen data = 4 + Zlen da + Zlen db) as Hdata.
    { subst data. autorewrite with zlen. lia. }
    assert (be16_at data 0 = Ok (Zlen da)) as E1.
    { apply (be16_at_app []); [done|lia]. }
    assert (be16_at data (2 + Zlen da) = Ok (Zlen db)) as E2.
    { replace data with ((la ++ da) ++ [byte_of_Z (Zlen db / 256)] ++ [byte_of_Z (Zlen db)] ++ db)
        by (subst la data; by rewrite <- !app_assoc).
      apply be16_at_app; [subst la; autorewrite with zlen; lia|lia]. }
    assert (slice data 2 (2 + Zlen da) = Ok da) as E3.
    { replace data with (la ++ da ++ lb ++ db)
        by (subst la lb data; by rewrite <- !app_assoc).
      apply slice_Ok; subst la; autorewrite with zlen; lia. }
    assert (slice data (2 + Zlen da + 2) (2 + Zlen da + 2 + Zlen db) = Ok db) as E4.
    { replace data with ((la ++ da ++ lb) ++ db ++ [])
        by (subst la lb data; by rewrite app_nil_r, <- !app_assoc).
      apply slice_Ok; subst la lb; autorewrite with zlen; lia. }
    rewrite Hdata, (proj2 (Z.ltb_ge _ _)), E1, bind_Ok by lia.
    rewrite (proj2 (Z.ltb_ge _ _)), E3, bind_Ok, E2, bind_Ok by lia.
    rewrite (proj2 (Z.ltb_ge _ _)), E4, bind_Ok by lia.
    by rewrite Ua, Ub.
Qed.

(** Whatever bytes it is given, reading the public keys does not panic. *)
Lemma ZKProof_DeserializePublic_no_panic (kp : ZKProofKeyPair Scalar Element) data :
  (forall d, no_panic (el_Unmarshal d)) ->
  no_panic (ZKProof_DeserializePublic el_Unmarshal kp data).
Proof.
  intros Hel. unfold ZKProof_DeserializePublic, be16_at.
  case_match; [done|]. destruct (Z.ltb_spec (Zlen data) 4); [done|].
  destruct (slice_no_panic data 0 (0 + 2)) as [d1 E1]; [lia..|]. rewrite E1, !bind_Ok.
  set (la := be_Z d1). assert (0 <= la).
  { unfold la, be_Z. pose proof (le_Z_range (reverse d1)). lia. }
  destruct (Z.ltb_spec (Zlen data) (2 + la + 2)); [done|].
  destruct (slice_no_panic data 2 (2 + la)) as [d2 E2]; [lia..|]. rewrite E2, bind_Ok.
  destruct (slice_no_panic data (2 + la) (2 + la + 2)) as [d3 E3]; [lia..|].
  rewrite E3, !bind_Ok. set (lb := be_Z d3). assert (0 <= lb).
  { unfold lb, be_Z. pose proof (le_Z_range (reverse d3)). lia. }
  destruct (Z.ltb_spec (Zlen data) (2 + la + 2 + lb)); [done|].
  destruct (slice_no_panic data (2 + la + 2) (2 + la + 2 + lb)) as [d4 E4]; [lia..|].
  rewrite E4, bind_Ok. no_panic_tac; apply Hel.
Qed.
End DLEQ_roundtrip.

Lemma ZKProof_public_roundtrip_witness :
  exists data,
    ZKProof_SerializePublic (Scalar := unit) (fun e : Z => Ok (be_bytes 2 e))
      {| zk_PrivateKey := Some tt; zk_PublicKeyA := Some 700; zk_PublicKeyB := Some 9;
         zk_G := true; zk_DST := [] |} = Ok data /\
    ZKProof_DeserializePublic (Scalar := unit) (fun d => Ok (be_Z d))
      {| zk_PrivateKey := None; zk_PublicKeyA := None; zk_PublicKeyB := None;
         zk_G := true; zk_DST := [] |} data =
      Ok {| zk_PrivateKey := None; zk_PublicKeyA := Some 700; zk_PublicKeyB := Some 9;
            zk_G := true; zk_DST := [] |}.
Proof. by eapply (ZKProof_public_roundtrip (fun e : Z => Ok (be_bytes 2 e))). Defined.

(** A BLS signer whose keys belong together is correct. *)
Lemma BLS_signer_correct {SecretKey PublicKey Sign} GetPublicKey SignHash
    sig_Serialize sig_Deserialize VerifyHash (sk : SecretKey) :
  bls_lawful (PublicKey := PublicKey) (Sign := Sign) GetPublicKey SignHash
    sig_Serialize sig_Deserialize VerifyHash ->
  SignerCorrect (BLSSigner SignHash sig_Serialize sig_Deserialize VerifyHash
    {| bls_PrivateKey := Some sk; bls_PublicKey := Some (GetPublicKey sk) |}).
Proof.
  intros [Hser Hver]. split; cbn [Signer_Sign BLSSigner]; unfold verifies, BLS_Sign;
    cbn [bls_PrivateKey]; intros d.
  - intros Hd. destruct (Z.eqb_spec (Zlen d) 0) as [H0|_]; [by apply Zlen_0 in H0|eauto].
  - intros sig. cbn [Signer_Verify BLSSigner]. unfold BLS_Verify. cbn [bls_PublicKey].
    destruct (Z.eqb_spec (Zlen d) 0) as [H0|_]; [discriminate|]. intros [= <-].
    destruct (Hser (SignHash sk (Sum256 d))) as [Hne Hde].
    destruct (Z.eqb_spec (Zlen (sig_Serialize (SignHash sk (Sum256 d)))) 0) as [H0|_];
      [by apply Zlen_0 in H0|].
    rewrite Hde. cbn [wrap]. rewrite bind_Ok. by rewrite Hver.
  - intros sig. destruct (Z.eqb_spec (Zlen d) 0) as [H0|_]; [discriminate|].
    intros [= <-]. apply Hser.
Qed.

(** The client of a signer: a signature made is a signature accepted. *)
Lemma sign_then_verify (s : Signer) `{!SignerCorrect s} d :
  d <> [] -> exists sig, Signer_Sign s d = Ok sig /\ sig <> [] /\ verifies s d sig = true.
Proof.
  intros Hd. destruct (sign_total d Hd) as [sig E]. exists sig.
  eauto using sign_nonempty, sign_verifies.
Qed.
