(* ===== verification/Transactions.v ===== *)
(** [pkg/types/transaction.go]: transactions, their identifier and their binary
    encoding.  [now] stands for [time.Now().Unix()]. *)
From S2P Require Import Prelude Bytes Hashes Types Signatures.
Import Sha256.

Record Transaction := {
  tx_ID : Hash;
  tx_Sender : Address;
  tx_Recipient : Address;
  tx_Amount : Z;
  tx_Fee : Z;
  tx_Nonce : Z;
  tx_Timestamp : Z;
  tx_Signature : bytes;
  tx_SignatureType : SignerType;
  tx_Payload : bytes;
}.
#[export] Instance Transaction_eq_dec : EqDecision Transaction.
Proof. solve_decision. Defined.

(** The buffer hashed by [ComputeHash]. *)
Definition Transaction_preimage (tx : Transaction) : bytes :=
  Address_Bytes (tx_Sender tx) ++ Address_Bytes (tx_Recipient tx) ++
  le_bytes 8 (tx_Amount tx) ++ le_bytes 8 (tx_Fee tx) ++
  le_bytes 8 (tx_Nonce tx) ++ le_bytes 8 (u64 (tx_Timestamp tx)) ++
  tx_Payload tx.
Definition Transaction_ComputeHash (tx : Transaction) : Hash :=
  Sum256 (Transaction_preimage tx).

Definition NewTransaction (now : Z) (sender recipient : Address)
    (amount fee nonce : Z) (payload : bytes) : res Transaction :=
  let tx := {| tx_ID := ZeroHash; tx_Sender := sender; tx_Recipient := recipient;
               tx_Amount := amount; tx_Fee := fee; tx_Nonce := nonce;
               tx_Timestamp := now; tx_Signature := []; tx_SignatureType := "";
               tx_Payload := payload |} in
  Ok {| tx_ID := Transaction_ComputeHash tx; tx_Sender := sender; tx_Recipient := recipient;
        tx_Amount := amount; tx_Fee := fee; tx_Nonce := nonce;
        tx_Timestamp := now; tx_Signature := []; tx_SignatureType := "";
        tx_Payload := payload |}.

(** [totalSize] is a [uint32], like the two lengths it is computed from. *)
Definition Transaction_Serialize (tx : Transaction) : res bytes :=
  let signatureLength := u32 (Zlen (tx_Signature tx)) in
  let payloadLength := u32 (Zlen (tx_Payload tx)) in
  let totalSize :=
    u32 (HashSize + AddressSize * 2 + 8 * 4 + 4 + 4 + signatureLength + 4 + payloadLength) in
  fill totalSize [
    wcopy (Hash_Bytes (tx_ID tx)) HashSize;
    wcopy (Address_Bytes (tx_Sender tx)) AddressSize;
    wcopy (Address_Bytes (tx_Recipient tx)) AddressSize;
    wput (le_bytes 8 (tx_Amount tx));
    wput (le_bytes 8 (tx_Fee tx));
    wput (le_bytes 8 (tx_Nonce tx));
    wput (le_bytes 8 (u64 (tx_Timestamp tx)));
    wput (le_bytes 4 (SignerType_Uint32 (tx_SignatureType tx)));
    wput (le_bytes 4 signatureLength);
    wcopy (tx_Signature tx) signatureLength;
    wput (le_bytes 4 payloadLength);
    wcopy (tx_Payload tx) payloadLength ].

Definition DeserializeTransaction_reader : reader Transaction :=
  let minSize := HashSize + AddressSize * 2 + 8 * 4 + 4 + 4 + 4 in
  _ ← need minSize (ErrMsg "data too short to deserialize Transaction");
  id_data ← next HashSize;
  id ← rlift (HashFromBytes id_data);
  s ← next AddressSize;
  sender ← rlift (Address_UnmarshalBinary ZeroAddress s);
  r ← next AddressSize;
  recipient ← rlift (Address_UnmarshalBinary ZeroAddress r);
  amount ← next_le 8;
  fee ← next_le 8;
  nonce ← next_le 8;
  timestamp ← next_le 8;
  _ ← need 4 (ErrMsg "data too short to read SignatureType");
  sigtype ← next_le 4;
  _ ← need 4 (ErrMsg "data too short to read Signature length");
  signatureLength ← next_le 4;
  _ ← need signatureLength (ErrMsg "data too short to read Signature data");
  signature ← next signatureLength;
  _ ← need 4 (ErrMsg "data too short to read Payload length");
  payloadLength ← next_le 4;
  _ ← need payloadLength (ErrMsg "data too short to read Payload data");
  payload ← next payloadLength;
  mret {| tx_ID := id; tx_Sender := sender; tx_Recipient := recipient;
          tx_Amount := amount; tx_Fee := fee; tx_Nonce := nonce;
          tx_Timestamp := i64 timestamp; tx_Signature := signature;
          tx_SignatureType := SignerTypeFromUint32 sigtype;
          tx_Payload := payload |}.
(** What follows the transaction is ignored. *)
Definition DeserializeTransaction (data : bytes) : res Transaction :=
  run_reader DeserializeTransaction_reader data.

Definition Transaction_Size (tx : Transaction) : Z :=
  HashSize + AddressSize * 2 + 8 * 4 + 4 + Zlen (tx_Signature tx) + 4 + Zlen (tx_Payload tx).

(** * Specification *)

(** The ranges the Go types impose, with encodings shorter than 4 GiB. *)
Record Transaction_ok (tx : Transaction) : Prop := {
  tx_ID_ok : Hash_ok (tx_ID tx);
  tx_Sender_ok : Address_ok (tx_Sender tx);
  tx_Recipient_ok : Address_ok (tx_Recipient tx);
  tx_Amount_ok : is_u64 (tx_Amount tx);
  tx_Fee_ok : is_u64 (tx_Fee tx);
  tx_Nonce_ok : is_u64 (tx_Nonce tx);
  tx_Timestamp_ok : is_i64 (tx_Timestamp tx);
  tx_length_ok : 116 + Zlen (tx_Signature tx) + Zlen (tx_Payload tx) < 2 ^ 32;
}.

(** The encoding, field after field. *)
Definition Transaction_encoding (tx : Transaction) : bytes :=
  concat [ tx_ID tx; tx_Sender tx; tx_Recipient tx;
    le_bytes 8 (tx_Amount tx); le_bytes 8 (tx_Fee tx); le_bytes 8 (tx_Nonce tx);
    le_bytes 8 (tx_Timestamp tx);
    le_bytes 4 (SignerType_Uint32 (tx_SignatureType tx));
    le_bytes 4 (Zlen (tx_Signature tx)); tx_Signature tx;
    le_bytes 4 (Zlen (tx_Payload tx)); tx_Payload tx ].

(** A decoded transaction: the signer type has gone through its number. *)
Definition Transaction_normalize (tx : Transaction) : Transaction :=
  {| tx_ID := tx_ID tx; tx_Sender := tx_Sender tx; tx_Recipient := tx_Recipient tx;
     tx_Amount := tx_Amount tx; tx_Fee := tx_Fee tx; tx_Nonce := tx_Nonce tx;
     tx_Timestamp := tx_Timestamp tx; tx_Signature := tx_Signature tx;
     tx_SignatureType := normalize_signer (tx_SignatureType tx);
     tx_Payload := tx_Payload tx |}.

Lemma Zlen_Hash h : Hash_ok h -> Zlen h = 32.
Proof. unfold Hash_ok, Zlen. lia. Qed.
Lemma Zlen_Address a : Address_ok a -> Zlen a = 20.
Proof. unfold Address_ok, Zlen. lia. Qed.

Lemma Zlen_Transaction_encoding tx :
  Transaction_ok tx ->
  Zlen (Transaction_encoding tx) = 116 + Zlen (tx_Signature tx) + Zlen (tx_Payload tx).
Proof.
  intros []. unfold Transaction_encoding. cbn [concat]. autorewrite with zlen.
  rewrite Zlen_Hash, !Zlen_Address by done. lia.
Qed.

Lemma Transaction_Serialize_encoding tx :
  Transaction_ok tx -> Transaction_Serialize tx = Ok (Transaction_encoding tx).
Proof.
  intros Hok. pose proof (Zlen_Transaction_encoding tx Hok) as Hlen.
  destruct Hok as [Hid Hs Hr _ _ _ _ Hsz].
  pose proof (Zlen_nonneg (tx_Signature tx)). pose proof (Zlen_nonneg (tx_Payload tx)).
  unfold Transaction_Serialize. cbv zeta.
  rewrite (u32_small (Zlen (tx_Signature tx))), (u32_small (Zlen (tx_Payload tx)))
    by (unfold is_u32; lia).
  apply fill_appends.
  - unfold HashSize, AddressSize, Hash_Bytes. rewrite !Address_Bytes_id, le_bytes_u64 by done.
    appends_tac; first [done|by rewrite Zlen_Hash|by rewrite Zlen_Address].
  - unfold Transaction_encoding in Hlen. rewrite Hlen. unfold HashSize, AddressSize.
    rewrite u32_small by (unfold is_u32; lia). lia.
Qed.

Lemma reads_bind_any {A B} (m : reader A) (k : A -> reader B) e1 e2 a b :
  reads anything m e1 a -> reads anything (k a) e2 b ->
  reads anything (m ≫= k) (e1 ++ e2) b.
Proof. intros. by eapply reads_bind. Qed.

Lemma reads_bind_lift {A B} (m : res A) (k : A -> reader B) e a b :
  m = Ok a -> reads anything (k a) e b -> reads anything (rlift m ≫= k) e b.
Proof. intros -> Hk. by eapply (reads_bind_any _ _ []); [apply reads_lift|]. Qed.

Lemma reads_bind_need {B} n e (k : unit -> reader B) enc b :
  n <= Zlen enc -> reads anything (k tt) enc b -> reads anything (need n e ≫= k) enc b.
Proof. apply need_then. Qed.

Lemma reads_bind_le {B} (n : nat) v (k : Z -> reader B) enc b :
  0 <= v < 2 ^ (8 * Z.of_nat n) ->
  reads anything (k v) enc b ->
  reads anything (next_le n ≫= k) (le_bytes n v ++ enc) b.
Proof.
  intros Hv Hk. eapply reads_bind_any; [apply next_le_reads|].
  by rewrite Z.mod_small.
Qed.

(** * Decoding *)

Lemma DeserializeTransaction_reads tx :
  Transaction_ok tx ->
  reads anything DeserializeTransaction_reader (Transaction_encoding tx)
    (Transaction_normalize tx).
Proof.
  intros Hok. pose proof (Zlen_Transaction_encoding tx Hok) as Hlen.
  destruct Hok as [Hid Hs Hr Ha Hf Hn Ht Hsz].
  pose proof (Zlen_nonneg (tx_Signature tx)). pose proof (Zlen_nonneg (tx_Payload tx)).
  unfold DeserializeTransaction_reader. cbv zeta. unfold HashSize, AddressSize.
  apply reads_bind_need; [rewrite Hlen; lia|]. clear Hlen.
  unfold Transaction_encoding. cbn [concat].
  apply reads_bind_any with (a := tx_ID tx); [apply next_reads; by rewrite Zlen_Hash|].
  apply reads_bind_lift with (a := tx_ID tx); [by apply HashFromBytes_Ok|].
  apply reads_bind_any with (a := tx_Sender tx); [apply next_reads; by rewrite Zlen_Address|].
  apply reads_bind_lift with (a := tx_Sender tx); [by apply Address_UnmarshalBinary_Ok|].
  apply reads_bind_any with (a := tx_Recipient tx); [apply next_reads; by rewrite Zlen_Address|].
  apply reads_bind_lift with (a := tx_Recipient tx); [by apply Address_UnmarshalBinary_Ok|].
  do 3 (apply reads_bind_le; [done|]).
  eapply reads_bind_any; [apply next_le_reads|].
  apply reads_bind_need; [autorewrite with zlen; lia|].
  apply reads_bind_le; [apply SignerType_Uint32_range|].
  apply reads_bind_need; [autorewrite with zlen; lia|].
  apply reads_bind_le; [split; lia|].
  apply reads_bind_need; [autorewrite with zlen; lia|].
  apply reads_bind_any with (a := tx_Signature tx); [by apply next_reads|].
  apply reads_bind_need; [autorewrite with zlen; lia|].
  apply reads_bind_le; [split; lia|].
  apply reads_bind_need; [autorewrite with zlen; lia|].
  apply reads_bind_any with (a := tx_Payload tx); [by apply next_reads|].
  assert (i64 (tx_Timestamp tx mod 2 ^ (8 * Z.of_nat 8)) = tx_Timestamp tx) as ->.
  { by apply i64_u64. }
  apply reads_ret.
Qed.

Lemma safe_DeserializeTransaction_reader : safe DeserializeTransaction_reader.
Proof.
  apply safe_from_0. unfold DeserializeTransaction_reader, HashSize, AddressSize.
  apply safe_from_need. cbn [Z.max].
  repeat first
    [ apply safe_from_need | apply safe_from_next_le; [lia|intros ? ?]
    | apply safe_from_next; [lia|intros ? ?]
    | apply safe_from_lift; [solve [auto with peerdns]|intros ? ?] ].
  apply safe_from_safe, safe_ret.
Qed.

Lemma DeserializeTransaction_no_panic data : no_panic (DeserializeTransaction data).
Proof. apply safe_run, safe_DeserializeTransaction_reader. Qed.

(** * Theorems *)

(** Serializing a transaction succeeds, produces the fields one after the
    other in little-endian form, and reading the bytes back, with anything
    appended, gives the transaction with its signer type normalized. *)
Theorem Transaction_roundtrip (tx : Transaction) (rest : bytes) :
  Transaction_ok tx ->
  exists data, Transaction_Serialize tx = Ok data /\
    data = Transaction_encoding tx /\
    Zlen data = 116 + Zlen (tx_Signature tx) + Zlen (tx_Payload tx) /\
    DeserializeTransaction (data ++ rest) = Ok (Transaction_normalize tx).
Proof.
  intros Hok. exists (Transaction_encoding tx).
  split; [by apply Transaction_Serialize_encoding|]. split; [done|].
  split; [by apply Zlen_Transaction_encoding|].
  by eapply reads_run; [apply DeserializeTransaction_reads|].
Qed.

Definition transaction_example : Transaction := {|
  tx_ID := byte_of_Z <$> seqZ 3 32; tx_Sender := byte_of_Z <$> seqZ 50 20;
  tx_Recipient := byte_of_Z <$> seqZ 90 20; tx_Amount := 100000; tx_Fee := 7;
  tx_Nonce := 2 ^ 40; tx_Timestamp := -5; tx_Signature := str "sig";
  tx_SignatureType := BlsSignerType; tx_Payload := str "data" |}.
Lemma transaction_example_ok : Transaction_ok transaction_example.
Proof. split; vm_compute; (reflexivity || (split; [discriminate|reflexivity])). Qed.
Lemma Transaction_roundtrip_witness :
  exists data, Transaction_Serialize transaction_example = Ok data /\
    data = Transaction_encoding transaction_example /\
    Zlen data = 123 /\
    DeserializeTransaction (data ++ str "trailing") = Ok transaction_example.
Proof.
  apply (Transaction_roundtrip transaction_example (str "trailing")),
    transaction_example_ok.
Defined.

(** ** Commitments

    Two computations collide when one hashed a string and the other a different
    one with the same SHA-256 digest.  The strings are those the two
    computations hashed, so that a collision is one the code has run into. *)
Definition collision (X Y : list bytes) : Prop :=
  exists x y, x ∈ X /\ y ∈ Y /\ x <> y /\ Sum256 x = Sum256 y.

Lemma Sum256_commits x y : Sum256 x = Sum256 y -> x = y \/ collision [x] [y].
Proof.
  intros H. destruct (decide (x = y)); [by left|right; exists x, y].
  split; [by apply list_elem_of_singleton|]. by split; [apply list_elem_of_singleton|].
Qed.
Lemma collision_mono X X' Y Y' : X ⊆ X' -> Y ⊆ Y' -> collision X Y -> collision X' Y'.
Proof. intros HX HY (x & y & ? & ? & ?). exists x, y. split; [by apply HX|]. split; [by apply HY|done]. Qed.

Lemma le_bytes_inj_u64 a b : is_u64 a -> is_u64 b -> le_bytes 8 a = le_bytes 8 b -> a = b.
Proof. intros Ha Hb H. rewrite <- (le_Z_u64 a), <- (le_Z_u64 b) by done. by rewrite H. Qed.
Lemma le_bytes_inj_u32 a b : is_u32 a -> is_u32 b -> le_bytes 4 a = le_bytes 4 b -> a = b.
Proof. intros Ha Hb H. rewrite <- (le_Z_u32 a), <- (le_Z_u32 b) by done. by rewrite H. Qed.
Lemma le_bytes_inj_i64 a b :
  is_i64 a -> is_i64 b -> le_bytes 8 (u64 a) = le_bytes 8 (u64 b) -> a = b.
Proof.
  intros Ha Hb. rewrite !le_bytes_u64. intros H.
  rewrite <- (le_Z_i64 a), <- (le_Z_i64 b) by done. by rewrite H.
Qed.

Lemma Transaction_preimage_inj tx1 tx2 :
  Transaction_ok tx1 -> Transaction_ok tx2 ->
  Transaction_preimage tx1 = Transaction_preimage tx2 ->
  tx_Sender tx1 = tx_Sender tx2 /\ tx_Recipient tx1 = tx_Recipient tx2 /\
  tx_Amount tx1 = tx_Amount tx2 /\ tx_Fee tx1 = tx_Fee tx2 /\
  tx_Nonce tx1 = tx_Nonce tx2 /\ tx_Timestamp tx1 = tx_Timestamp tx2 /\
  tx_Payload tx1 = tx_Payload tx2.
Proof.
  intros [] []. unfold Transaction_preimage. rewrite !Address_Bytes_id by done.
  unfold Address_ok in *. intros H.
  apply app_inj_1 in H as [? H]; [|congruence].
  apply app_inj_1 in H as [? H]; [|congruence].
  do 3 (apply app_inj_1 in H as [?%le_bytes_inj_u64 H]; [|first [done|by rewrite !length_le_bytes]..]).
  apply app_inj_1 in H as [?%le_bytes_inj_i64 H]; [|first [done|by rewrite !length_le_bytes]..].
  done.
Qed.

(** The transaction hash commits to sender, recipient, amount, fee, nonce,
    timestamp and payload: two transactions with one hash agree on them, unless
    the strings hashed for the two are themselves a SHA-256 collision. *)
Theorem Transaction_ComputeHash_commits (tx1 tx2 : Transaction) :
  Transaction_ok tx1 -> Transaction_ok tx2 ->
  Transaction_ComputeHash tx1 = Transaction_ComputeHash tx2 ->
  (tx_Sender tx1 = tx_Sender tx2 /\ tx_Recipient tx1 = tx_Recipient tx2 /\
   tx_Amount tx1 = tx_Amount tx2 /\ tx_Fee tx1 = tx_Fee tx2 /\
   tx_Nonce tx1 = tx_Nonce tx2 /\ tx_Timestamp tx1 = tx_Timestamp tx2 /\
   tx_Payload tx1 = tx_Payload tx2)
  \/ collision [Transaction_preimage tx1] [Transaction_preimage tx2].
Proof.
  intros H1 H2 [H|H]%Sum256_commits; [left|by right].
  by apply Transaction_preimage_inj.
Qed.

(** The same transfer with another signature has the same hash. *)
Definition transaction_resigned : Transaction :=
  {| tx_ID := tx_ID transaction_example; tx_Sender := tx_Sender transaction_example;
     tx_Recipient := tx_Recipient transaction_example; tx_Amount := 100000; tx_Fee := 7;
     tx_Nonce := 2 ^ 40; tx_Timestamp := -5; tx_Signature := str "another";
     tx_SignatureType := Ed25519SignerType; tx_Payload := str "data" |}.
Lemma transaction_resigned_ok : Transaction_ok transaction_resigned.
Proof. split; vm_compute; (reflexivity || (split; [discriminate|reflexivity])). Qed.
Lemma Transaction_ComputeHash_commits_witness :
  tx_Payload transaction_example = tx_Payload transaction_resigned \/
  collision [Transaction_preimage transaction_example] [Transaction_preimage transaction_resigned].
Proof.
  destruct (Transaction_ComputeHash_commits transaction_example transaction_resigned)
    as [(_ & _ & _ & _ & _ & _ & H)|H];
    [apply transaction_example_ok|apply transaction_resigned_ok|vm_compute; reflexivity
    |left; exact H|right; exact H].
Defined.

(** [Size] does not count the signer type: it is four bytes less than the
    length of the serialized transaction. *)
Lemma Transaction_Size_short (tx : Transaction) (data : bytes) :
  Transaction_ok tx -> Transaction_Serialize tx = Ok data ->
  Zlen data = Transaction_Size tx + 4.
Proof.
  intros Hok. rewrite Transaction_Serialize_encoding by done. intros [= <-].
  rewrite Zlen_Transaction_encoding by done.
  unfold Transaction_Size, HashSize, AddressSize. lia.
Qed.

Lemma Transaction_Size_short_witness :
  Zlen (Transaction_encoding transaction_example) = Transaction_Size transaction_example + 4.
Proof.
  apply Transaction_Size_short; [apply transaction_example_ok|vm_compute; reflexivity].
Defined.
