(* ===== verification/Blocks.v ===== *)
(** [pkg/types/block.go]: blocks, their Merkle root, their hash and their binary
    encoding.  [now] stands for [time.Now().Unix()]; a block owns its
    transactions (the pointers of the slice are not nil). *)
From S2P Require Import Prelude Bytes Hashes Types Signatures Transactions.
Import Sha256.

Record Block := {
  b_Index : Z;
  b_Timestamp : Z;
  b_PreviousHash : Hash;
  b_Hash : Hash;
  b_MerkleRoot : Hash;
  b_Signature : bytes;
  b_SignatureType : SignerType;
  b_ValidatorID : Address;
  b_Transactions : list Transaction;
  b_Difficulty : Z;
  b_Version : Z;
  b_FinalizedBy : list Address;
}.
#[export] Instance Block_eq_dec : EqDecision Block.
Proof. solve_decision. Defined.

(** * Merkle root *)

(** One pass of the loop body: neighbours are hashed together, a last one
    without neighbour moves up unchanged. *)
Fixpoint next_level (hs : list bytes) : list bytes :=
  match hs with
  | a :: b :: hs => Sum256 (a ++ b) :: next_level hs
  | _ => hs
  end.

(** [for len(txHashes) > 1]; [None] when the fuel runs out. *)
Fixpoint merkle_loop (fuel : nat) (hs : list bytes) : option (list bytes) :=
  if Zlen hs <=? 1 then Some hs
  else match fuel with
       | O => None
       | S fuel => merkle_loop fuel (next_level hs)
       end.

Definition merkle_root (hs : list bytes) : res Hash :=
  match merkle_loop (length hs) hs with
  | Some (h :: _) => Ok (copy_into ZeroHash h)
  | Some [] => Ok ZeroHash
  | None => Panic
  end.
Definition Block_ComputeMerkleRoot (b : Block) : res Hash :=
  merkle_root (tx_ID <$> b_Transactions b).

(** * Hash *)
Definition Block_preimage (b : Block) : bytes :=
  le_bytes 8 (b_Index b) ++ le_bytes 8 (u64 (b_Timestamp b)) ++
  Hash_Bytes (b_PreviousHash b) ++ Hash_Bytes (b_MerkleRoot b) ++
  Address_Bytes (b_ValidatorID b) ++ le_bytes 8 (b_Difficulty b) ++
  le_bytes 4 (b_Version b).
Definition Block_ComputeHash (b : Block) : Hash := Sum256 (Block_preimage b).

Definition block_set_MerkleRoot (b : Block) (h : Hash) : Block :=
  {| b_Index := b_Index b; b_Timestamp := b_Timestamp b; b_PreviousHash := b_PreviousHash b;
     b_Hash := b_Hash b; b_MerkleRoot := h; b_Signature := b_Signature b;
     b_SignatureType := b_SignatureType b; b_ValidatorID := b_ValidatorID b;
     b_Transactions := b_Transactions b; b_Difficulty := b_Difficulty b;
     b_Version := b_Version b; b_FinalizedBy := b_FinalizedBy b |}.
Definition block_set_Hash (b : Block) (h : Hash) : Block :=
  {| b_Index := b_Index b; b_Timestamp := b_Timestamp b; b_PreviousHash := b_PreviousHash b;
     b_Hash := h; b_MerkleRoot := b_MerkleRoot b; b_Signature := b_Signature b;
     b_SignatureType := b_SignatureType b; b_ValidatorID := b_ValidatorID b;
     b_Transactions := b_Transactions b; b_Difficulty := b_Difficulty b;
     b_Version := b_Version b; b_FinalizedBy := b_FinalizedBy b |}.

Definition NewBlock (now index : Z) (previousHash : Hash) (transactions : list Transaction)
    (validatorID : Address) (difficulty : Z) : res Block :=
  if Zlen transactions =? 0
  then Err (ErrMsg "block must contain at least one transaction")
  else
    let block := {| b_Index := index; b_Timestamp := now; b_PreviousHash := previousHash;
      b_Hash := ZeroHash; b_MerkleRoot := ZeroHash; b_Signature := [];
      b_SignatureType := ""; b_ValidatorID := validatorID;
      b_Transactions := transactions; b_Difficulty := difficulty; b_Version := 1;
      b_FinalizedBy := [] |} in
    root ← Block_ComputeMerkleRoot block;
    let block := block_set_MerkleRoot block root in
    Ok (block_set_Hash block (Block_ComputeHash block)).

(** * Encoding *)

(** The first loop of [Serialize]: [txBytesList] has [txCount] entries, so
    the assignment at an index beyond it panics. *)
Fixpoint serialize_transactions (txCount i : Z) (txs : list Transaction) : res (list bytes) :=
  match txs with
  | [] => Ok []
  | tx :: txs =>
      txBytes ← Transaction_Serialize tx;
      if i <? txCount
      then l ← serialize_transactions txCount (i + 1) txs; Ok (txBytes :: l)
      else Panic
  end.

Definition sum_sizes (l : list Z) : Z := fold_right Z.add 0 l.

Definition Block_Serialize (b : Block) : res bytes :=
  let txCount := u32 (Zlen (b_Transactions b)) in
  txBytesList ← serialize_transactions txCount 0 (b_Transactions b);
  let txSize := sum_sizes ((fun txBytes => 4 + Zlen txBytes) <$> txBytesList) in
  let finalizedCount := u32 (Zlen (b_FinalizedBy b)) in
  let finalizedSize := finalizedCount * AddressSize in
  let signatureLength := u32 (Zlen (b_Signature b)) in
  let totalSize := 8 + 8 + HashSize * 3 + 4 + 4 + signatureLength + AddressSize
                   + 8 + 4 + 4 + txSize + 4 + finalizedSize in
  fill totalSize ([
    wput (le_bytes 8 (b_Index b));
    wput (le_bytes 8 (u64 (b_Timestamp b)));
    wcopy (Hash_Bytes (b_PreviousHash b)) HashSize;
    wcopy (Hash_Bytes (b_Hash b)) HashSize;
    wcopy (Hash_Bytes (b_MerkleRoot b)) HashSize;
    wput (le_bytes 4 (SignerType_Uint32 (b_SignatureType b)));
    wput (le_bytes 4 signatureLength);
    wcopy (b_Signature b) signatureLength;
    wcopy (Address_Bytes (b_ValidatorID b)) AddressSize;
    wput (le_bytes 8 (b_Difficulty b));
    wput (le_bytes 4 (b_Version b));
    wput (le_bytes 4 txCount) ] ++
    concat ((fun txBytes => let txLen := u32 (Zlen txBytes) in
       [wput (le_bytes 4 txLen); wcopy txBytes txLen]) <$> txBytesList) ++
    [wput (le_bytes 4 finalizedCount)] ++
    ((fun a => wcopy (Address_Bytes a) AddressSize) <$> b_FinalizedBy b)).

(** [h, _ = HashFromBytes(d)]: on an error the hash stays zero. *)
Definition HashFromBytes_or_zero (d : bytes) : Hash :=
  match HashFromBytes d with Ok h => h | _ => ZeroHash end.

Definition read_transaction : reader Transaction :=
  _ ← need 4 (ErrMsg "unexpected end of data while deserializing transaction length");
  txLen ← next_le 4;
  _ ← need txLen (ErrMsg "unexpected end of data while deserializing transaction");
  txData ← next txLen;
  rlift (DeserializeTransaction txData).

Definition read_finalizer : reader Address :=
  _ ← need AddressSize (ErrMsg "data too short to deserialize FinalizedBy addresses");
  d ← next AddressSize;
  rlift (Address_UnmarshalBinary ZeroAddress d).

Definition DeserializeBlock_reader : reader Block :=
  let minSize := 8 + 8 + HashSize * 3 + 4 + 4 + AddressSize + 8 + 4 + 4 in
  _ ← need minSize (ErrMsg "data too short to deserialize Block");
  index ← next_le 8;
  timestamp ← next_le 8;
  previousHash ← next HashSize;
  hash ← next HashSize;
  merkleRoot ← next HashSize;
  _ ← need 4 (ErrMsg "data too short to read SignatureType");
  sigtype ← next_le 4;
  _ ← need 4 (ErrMsg "data too short to read Signature length");
  signatureLength ← next_le 4;
  _ ← need signatureLength (ErrMsg "data too short to read Signature data");
  signature ← next signatureLength;
  _ ← need AddressSize (ErrMsg "data too short to read ValidatorID");
  v ← next AddressSize;
  validatorID ← rlift (Address_UnmarshalBinary ZeroAddress v);
  _ ← need (8 + 4 + 4)
        (ErrMsg "data too short to read Difficulty, Version, and Transaction count");
  difficulty ← next_le 8;
  version ← next_le 4;
  txCount ← next_le 4;
  transactions ← repeat_read (Z.to_nat txCount) read_transaction;
  _ ← need 4 (ErrMsg "data too short to deserialize FinalizedBy count");
  finalizedCount ← next_le 4;
  finalizedBy ← repeat_read (Z.to_nat finalizedCount) read_finalizer;
  mret {| b_Index := index; b_Timestamp := i64 timestamp;
          b_PreviousHash := HashFromBytes_or_zero previousHash;
          b_Hash := HashFromBytes_or_zero hash;
          b_MerkleRoot := HashFromBytes_or_zero merkleRoot;
          b_Signature := signature; b_SignatureType := SignerTypeFromUint32 sigtype;
          b_ValidatorID := validatorID; b_Transactions := transactions;
          b_Difficulty := difficulty; b_Version := version;
          b_FinalizedBy := finalizedBy |}.
Definition DeserializeBlock (data : bytes) : res Block :=
  run_reader DeserializeBlock_reader data.

Definition Block_Size (b : Block) : Z :=
  let txSize := sum_sizes ((fun tx => 4 + Transaction_Size tx) <$> b_Transactions b) in
  let finalizedSize := Zlen (b_FinalizedBy b) * AddressSize in
  let signatureLength := Zlen (b_Signature b) in
  8 + 8 + HashSize * 3 + 4 + 4 + signatureLength + AddressSize + 8 + 4 + 4
  + txSize + 4 + finalizedSize.

(** * Specification *)
Record Block_ok (b : Block) : Prop := {
  b_Index_ok : is_u64 (b_Index b);
  b_Timestamp_ok : is_i64 (b_Timestamp b);
  b_PreviousHash_ok : Hash_ok (b_PreviousHash b);
  b_Hash_ok : Hash_ok (b_Hash b);
  b_MerkleRoot_ok : Hash_ok (b_MerkleRoot b);
  b_Signature_ok : Zlen (b_Signature b) < 2 ^ 32;
  b_ValidatorID_ok : Address_ok (b_ValidatorID b);
  b_Transactions_ok : Forall Transaction_ok (b_Transactions b);
  b_Transactions_count : Zlen (b_Transactions b) < 2 ^ 32;
  b_Difficulty_ok : is_u64 (b_Difficulty b);
  b_Version_ok : is_u32 (b_Version b);
  b_FinalizedBy_ok : Forall Address_ok (b_FinalizedBy b);
  b_FinalizedBy_count : Zlen (b_FinalizedBy b) < 2 ^ 32;
}.

Definition prefixed (d : bytes) : bytes := le_bytes 4 (Zlen d) ++ d.
Definition Block_encoding (b : Block) : bytes :=
  concat [ le_bytes 8 (b_Index b); le_bytes 8 (b_Timestamp b);
    b_PreviousHash b; b_Hash b; b_MerkleRoot b;
    le_bytes 4 (SignerType_Uint32 (b_SignatureType b));
    le_bytes 4 (Zlen (b_Signature b)); b_Signature b; b_ValidatorID b;
    le_bytes 8 (b_Difficulty b); le_bytes 4 (b_Version b);
    le_bytes 4 (Zlen (b_Transactions b));
    concat ((fun tx => prefixed (Transaction_encoding tx)) <$> b_Transactions b);
    le_bytes 4 (Zlen (b_FinalizedBy b)); concat (b_FinalizedBy b) ].

Definition Block_normalize (b : Block) : Block :=
  {| b_Index := b_Index b; b_Timestamp := b_Timestamp b; b_PreviousHash := b_PreviousHash b;
     b_Hash := b_Hash b; b_MerkleRoot := b_MerkleRoot b; b_Signature := b_Signature b;
     b_SignatureType := normalize_signer (b_SignatureType b); b_ValidatorID := b_ValidatorID b;
     b_Transactions := Transaction_normalize <$> b_Transactions b;
     b_Difficulty := b_Difficulty b; b_Version := b_Version b;
     b_FinalizedBy := b_FinalizedBy b |}.

(** ** Writing *)

Lemma serialize_transactions_Ok count i txs :
  Forall Transaction_ok txs -> i + Zlen txs <= count ->
  serialize_transactions count i txs = Ok (Transaction_encoding <$> txs).
Proof.
  intros Htxs. revert i. induction Htxs as [|tx txs Htx _ IH]; intros i Hi; [done|].
  rewrite Zlen_cons in Hi. pose proof (Zlen_nonneg txs).
  cbn [serialize_transactions fmap list_fmap]. rewrite Transaction_Serialize_encoding, bind_Ok by done.
  rewrite (proj2 (Z.ltb_lt _ _)), IH by lia. reflexivity.
Qed.

Lemma concat_fmap_Forall2 {A} (f : A -> list write) (g : A -> list bytes) l :
  (forall a, a ∈ l -> Forall2 appends (f a) (g a)) ->
  Forall2 appends (concat (f <$> l)) (concat (g <$> l)).
Proof.
  induction l as [|a l IH]; intros H; cbn; [constructor|].
  apply Forall2_app; [apply H; by left|]. apply IH. intros. apply H. by right.
Qed.

Lemma Zlen_concat_prefixed txs :
  Zlen (concat ((fun tx => prefixed (Transaction_encoding tx)) <$> txs)) =
  sum_sizes ((fun d => 4 + Zlen d) <$> (Transaction_encoding <$> txs)).
Proof.
  induction txs as [|tx txs IH]; [done|]. cbn [fmap list_fmap concat sum_sizes fold_right].
  unfold prefixed in *. rewrite Zlen_app, IH. autorewrite with zlen. unfold sum_sizes. lia.
Qed.

Lemma Zlen_concat_addresses l :
  Forall Address_ok l -> Zlen (concat l) = Zlen l * 20.
Proof.
  induction 1 as [|a l Ha _ IH]; [done|]. cbn [concat].
  rewrite Zlen_app, Zlen_cons, IH, Zlen_Address by done. lia.
Qed.

Lemma Zlen_Block_encoding b :
  Block_ok b ->
  Zlen (Block_encoding b) = 160 + Zlen (b_Signature b)
    + sum_sizes ((fun d => 4 + Zlen d) <$> (Transaction_encoding <$> b_Transactions b))
    + Zlen (b_FinalizedBy b) * 20.
Proof.
  intros []. unfold Block_encoding. cbn [concat]. autorewrite with zlen.
  rewrite (Zlen_Hash (b_PreviousHash b)), (Zlen_Hash (b_Hash b)), (Zlen_Hash (b_MerkleRoot b)),
    (Zlen_Address (b_ValidatorID b)), Zlen_concat_prefixed, Zlen_concat_addresses by done. lia.
Qed.

Lemma concat_concat {A} (l : list (list (list A))) :
  concat (concat l) = concat (@concat A <$> l).
Proof. induction l as [|x l IH]; [done|]. cbn. by rewrite concat_app, IH. Qed.

Lemma appends_transactions txs :
  Forall Transaction_ok txs ->
  Forall2 appends
    (concat ((fun d => let n := u32 (Zlen d) in [wput (le_bytes 4 n); wcopy d n])
             <$> (Transaction_encoding <$> txs)))
    (concat ((fun d => [le_bytes 4 (Zlen d); d]) <$> (Transaction_encoding <$> txs))).
Proof.
  intros Htxs. apply concat_fmap_Forall2. intros d (tx & -> & Hin)%list_elem_of_fmap.
  eapply Forall_forall in Htxs; [|done]. cbv zeta.
  pose proof (Zlen_nonneg (Transaction_encoding tx)).
  rewrite u32_small; [by appends_tac|].
  rewrite Zlen_Transaction_encoding in * by done. destruct Htxs. split; [done|lia].
Qed.

Lemma appends_finalizers l :
  Forall Address_ok l ->
  Forall2 appends ((fun a => wcopy (Address_Bytes a) AddressSize) <$> l) l.
Proof.
  induction 1 as [|a l Ha _ IH]; cbn; [constructor|]. constructor; [|done].
  rewrite Address_Bytes_id by done. apply appends_wcopy. by rewrite Zlen_Address.
Qed.

Lemma Block_Serialize_encoding b :
  Block_ok b -> Block_Serialize b = Ok (Block_encoding b).
Proof.
  intros Hok. pose proof (Zlen_Block_encoding b Hok) as Hlen. destruct Hok.
  pose proof (Zlen_nonneg (b_Signature b)). pose proof (Zlen_nonneg (b_Transactions b)).
  pose proof (Zlen_nonneg (b_FinalizedBy b)).
  unfold Block_Serialize. cbv zeta. rewrite !u32_small by (unfold is_u32; lia).
  rewrite serialize_transactions_Ok, bind_Ok by (done || lia).
  set (encs := Transaction_encoding <$> b_Transactions b) in *.
  set (srcs := [ le_bytes 8 (b_Index b); le_bytes 8 (b_Timestamp b);
    b_PreviousHash b; b_Hash b; b_MerkleRoot b;
    le_bytes 4 (SignerType_Uint32 (b_SignatureType b));
    le_bytes 4 (Zlen (b_Signature b)); b_Signature b; b_ValidatorID b;
    le_bytes 8 (b_Difficulty b); le_bytes 4 (b_Version b);
    le_bytes 4 (Zlen (b_Transactions b)) ] ++
    concat ((fun d => [le_bytes 4 (Zlen d); d]) <$> encs) ++
    [le_bytes 4 (Zlen (b_FinalizedBy b))] ++ b_FinalizedBy b).
  assert (Block_encoding b = concat srcs) as E.
  { unfold srcs, Block_encoding. rewrite !concat_app, concat_concat. cbn [concat app].
    rewrite <- !app_assoc. cbn [app]. do 12 f_equal. subst encs.
    rewrite <- !list_fmap_compose. f_equal; [f_equal|by rewrite app_nil_r].
    apply list_fmap_ext. intros i tx _. unfold prefixed, compose. cbn [concat].
    by rewrite app_nil_r. }
  rewrite E in *. apply fill_appends.
  - subst srcs. rewrite le_bytes_u64, Address_Bytes_id by done.
    apply Forall2_app; [|apply Forall2_app; [by apply appends_transactions|]].
    + unfold HashSize, AddressSize, Hash_Bytes.
      appends_tac; first [done|by rewrite Zlen_Hash|by rewrite Zlen_Address].
    + apply Forall2_app; [by appends_tac|by apply appends_finalizers].
  - rewrite Hlen. unfold HashSize, AddressSize. lia.
Qed.

(** ** Reading *)

Lemma read_transaction_reads tx :
  Transaction_ok tx ->
  reads anything read_transaction (prefixed (Transaction_encoding tx))
    (Transaction_normalize tx).
Proof.
  intros Hok. pose proof (Zlen_nonneg (Transaction_encoding tx)).
  assert (is_u32 (Zlen (Transaction_encoding tx))) as Hlen.
  { split; [done|]. rewrite Zlen_Transaction_encoding by done. by destruct Hok. }
  unfold read_transaction, prefixed.
  apply reads_bind_need; [zlen_lia|].
  apply reads_bind_le; [done|]. apply reads_bind_need; [lia|].
  rewrite <- (app_nil_r (Transaction_encoding tx)) at 2.
  eapply reads_bind_any; [by apply next_reads|]. apply reads_lift.
  rewrite <- (app_nil_r (Transaction_encoding tx)).
  by eapply reads_run; [apply DeserializeTransaction_reads|].
Qed.

Lemma read_finalizer_reads a : Address_ok a -> reads anything read_finalizer a a.
Proof.
  intros Ha. unfold read_finalizer, AddressSize.
  apply reads_bind_need; [by rewrite Zlen_Address|].
  rewrite <- (app_nil_r a) at 1.
  eapply reads_bind_any; [apply next_reads; by rewrite Zlen_Address|].
  apply reads_lift. by apply Address_UnmarshalBinary_Ok.
Qed.

Lemma repeat_read_count {A B} (m : reader A) (enc : B -> bytes) (dec : B -> A) l n :
  n = Zlen l ->
  (forall b, b ∈ l -> reads anything m (enc b) (dec b)) ->
  reads anything (repeat_read (Z.to_nat n) m) (concat (enc <$> l)) (dec <$> l).
Proof. intros ->. unfold Zlen. rewrite Nat2Z.id. apply repeat_read_reads. Qed.

Lemma DeserializeBlock_reads b :
  Block_ok b ->
  reads anything DeserializeBlock_reader (Block_encoding b) (Block_normalize b).
Proof.
  intros Hok. pose proof (Zlen_Block_encoding b Hok) as Hlen. destruct Hok.
  pose proof (Zlen_nonneg (b_Signature b)). pose proof (Zlen_nonneg (b_Transactions b)).
  pose proof (Zlen_nonneg (b_FinalizedBy b)).
  unfold DeserializeBlock_reader. cbv zeta. unfold HashSize, AddressSize.
  apply reads_bind_need; [rewrite Hlen, <- Zlen_concat_prefixed; zlen_lia|].
  clear Hlen. unfold Block_encoding. cbn [concat].
  apply reads_bind_le; [done|]. eapply reads_bind_any; [apply next_le_reads|].
  apply reads_bind_any with (a := b_PreviousHash b); [apply next_reads; by rewrite Zlen_Hash|].
  apply reads_bind_any with (a := b_Hash b); [apply next_reads; by rewrite Zlen_Hash|].
  apply reads_bind_any with (a := b_MerkleRoot b); [apply next_reads; by rewrite Zlen_Hash|].
  apply reads_bind_need; [zlen_lia|].
  apply reads_bind_le; [apply SignerType_Uint32_range|].
  apply reads_bind_need; [zlen_lia|]. apply reads_bind_le; [done|].
  apply reads_bind_need; [zlen_lia|].
  apply reads_bind_any with (a := b_Signature b); [by apply next_reads|].
  apply reads_bind_need; [rewrite Zlen_app, (Zlen_Address (b_ValidatorID b)) by done; zlen_lia|].
  apply reads_bind_any with (a := b_ValidatorID b); [apply next_reads; by rewrite Zlen_Address|].
  apply reads_bind_lift with (a := b_ValidatorID b); [by apply Address_UnmarshalBinary_Ok|].
  apply reads_bind_need; [zlen_lia|].
  do 2 (apply reads_bind_le; [done|]). apply reads_bind_le; [done|].
  eapply reads_bind_any.
  { apply repeat_read_count; [done|]. intros tx Hin.
    by apply read_transaction_reads, (proj1 (Forall_forall _ _) b_Transactions_ok0). }
  apply reads_bind_need; [zlen_lia|].
  apply reads_bind_le; [done|].
  rewrite <- (list_fmap_id (b_FinalizedBy b)) at 2.
  eapply reads_bind_any.
  { apply (repeat_read_count _ id id); [done|]. intros a Hin.
    by apply read_finalizer_reads, (proj1 (Forall_forall _ _) b_FinalizedBy_ok0). }
  unfold HashFromBytes_or_zero. rewrite !HashFromBytes_Ok by done.
  assert (i64 (b_Timestamp b mod 2 ^ (8 * Z.of_nat 8)) = b_Timestamp b) as ->
    by by apply i64_u64.
  rewrite list_fmap_id. apply reads_ret.
Qed.

(** ** No input makes the decoder panic *)

Ltac safe_from_tac :=
  repeat first
    [ apply safe_from_need; cbn [Z.max] | apply safe_from_next_le; [lia|intros ? ?]
    | apply safe_from_next; [lia|intros ? ?]
    | apply safe_from_lift; [solve [auto with peerdns]|intros ? ?] ].

Lemma safe_read_transaction : safe read_transaction.
Proof.
  apply safe_from_0. unfold read_transaction. safe_from_tac.
  apply safe_from_safe, safe_lift, DeserializeTransaction_no_panic.
Qed.
Lemma safe_read_finalizer : safe read_finalizer.
Proof.
  apply safe_from_0. unfold read_finalizer, AddressSize. safe_from_tac.
  apply safe_from_safe, safe_lift. auto with peerdns.
Qed.

Lemma safe_DeserializeBlock_reader : safe DeserializeBlock_reader.
Proof.
  apply safe_from_0. unfold DeserializeBlock_reader, HashSize, AddressSize. safe_from_tac.
  apply safe_from_safe, safe_bind; [apply safe_repeat, safe_read_transaction|intros txs].
  apply safe_from_0. safe_from_tac.
  apply safe_from_safe, safe_bind; [apply safe_repeat, safe_read_finalizer|intros fin].
  apply safe_ret.
Qed.

(** * Theorems *)

(** The signer types of a block and of its transactions are ones that have a number. *)
Definition signer_types_known (b : Block) : Prop :=
  normalize_signer (b_SignatureType b) = b_SignatureType b /\
  Forall (fun tx => normalize_signer (tx_SignatureType tx) = tx_SignatureType tx) (b_Transactions b).

Lemma Block_normalize_id b : Block_normalize b = b <-> signer_types_known b.
Proof.
  unfold signer_types_known, Block_normalize. destruct b as [i t ph h m sg ty v txs d ve fb]. cbn. split.
  - intros [= Hty Htxs]. split; [done|]. clear Hty. induction txs as [|tx txs IH]; [constructor|].
    injection Htxs as Htx Htxs. constructor; [|by apply IH]. destruct tx. by injection Htx.
  - intros [-> Htxs]. f_equal. induction Htxs as [|tx txs Htx _ IH]; [done|]. cbn. rewrite IH. f_equal.
    destruct tx. unfold Transaction_normalize. cbn in *. by rewrite Htx.
Qed.

(** C11: serializing a block succeeds, yields its documented layout, and
    reading the bytes back, with anything appended, gives the block but for the
    signer types, of the block and of its transactions, which have become ones
    that have a number.  So the block itself comes back exactly if its signer
    types are known; the empty type, which [NewBlock] leaves in a block, is not
    and comes back as "unknown". *)
Theorem Block_roundtrip (b : Block) (rest : bytes) :
  Block_ok b ->
  exists data, Block_Serialize b = Ok data /\ data = Block_encoding b /\
    DeserializeBlock (data ++ rest) = Ok (Block_normalize b) /\
    (DeserializeBlock (data ++ rest) = Ok b <-> signer_types_known b) /\
    (b_SignatureType b = "" -> b_SignatureType (Block_normalize b) = UnknownSignerType /\
       ~ signer_types_known b).
Proof.
  intros Hok. exists (Block_encoding b).
  split; [by apply Block_Serialize_encoding|]. split; [done|].
  assert (DeserializeBlock (Block_encoding b ++ rest) = Ok (Block_normalize b)) as ->
    by (by eapply reads_run; [apply DeserializeBlock_reads|]).
  split; [done|]. split.
  - rewrite <- Block_normalize_id. split; [by intros [= Hb]|by intros ->].
  - intros Hty. split; [cbn; by rewrite Hty|]. intros [Hk _]. by rewrite Hty in Hk.
Qed.

Definition block_example : Block := {|
  b_Index := 5; b_Timestamp := 1700000000; b_PreviousHash := byte_of_Z <$> seqZ 1 32;
  b_Hash := byte_of_Z <$> seqZ 2 32; b_MerkleRoot := byte_of_Z <$> seqZ 3 32;
  b_Signature := str "signature"; b_SignatureType := Ed25519SignerType;
  b_ValidatorID := byte_of_Z <$> seqZ 4 20;
  b_Transactions := [transaction_example; transaction_resigned]; b_Difficulty := 1;
  b_Version := 1; b_FinalizedBy := [ZeroAddress; byte_of_Z <$> seqZ 4 20] |}.
Lemma block_example_ok : Block_ok block_example.
Proof.
  split; cbn [b_Index b_Timestamp b_PreviousHash b_Hash b_MerkleRoot b_Signature b_ValidatorID
    b_Transactions b_Difficulty b_Version b_FinalizedBy block_example];
    try (vm_compute; (reflexivity || (split; [discriminate|reflexivity]))).
  - repeat constructor; [apply transaction_example_ok..|apply transaction_resigned_ok];
      apply transaction_resigned_ok.
  - repeat constructor.
Qed.
Lemma Block_roundtrip_witness :
  exists data, Block_Serialize block_example = Ok data /\ data = Block_encoding block_example /\
    DeserializeBlock (data ++ str "more") = Ok block_example.
Proof.
  destruct (Block_roundtrip block_example (str "more") block_example_ok) as (data & H1 & H2 & _ & H3 & _).
  exists data. split; [exact H1|]. split; [exact H2|]. apply H3. split; [reflexivity|].
  repeat (apply Forall_cons; split); [reflexivity..|apply Forall_nil; exact I].
Defined.

(** Whatever the bytes received, decoding a block or a transaction ends in
    a value or an error, never in a panic. *)
Theorem DeserializeBlock_total (data : bytes) :
  no_panic (DeserializeBlock data) /\ no_panic (DeserializeTransaction data).
Proof.
  split; [apply safe_run, safe_DeserializeBlock_reader|apply DeserializeTransaction_no_panic].
Qed.

(** ** Merkle root *)

Lemma next_level_length hs : (2 <= length hs -> length (next_level hs) < length hs)%nat /\
  (length (next_level hs) <= length hs)%nat /\ (hs <> [] -> next_level hs <> []).
Proof.
  induction hs as [hs IH] using (induction_ltof1 _ length). unfold ltof in IH.
  destruct hs as [|a [|c hs]]; cbn [next_level length];
    [split; [lia|done]|split; [lia|done]|].
  destruct (IH hs) as (_ & H2 & _); [cbn [length]; lia|]. split; [lia|]. split; [lia|done].
Qed.

Lemma merkle_loop_total fuel hs :
  (length hs <= fuel)%nat -> hs <> [] -> exists h, merkle_loop fuel hs = Some [h].
Proof.
  revert hs. induction fuel as [|fuel IH]; intros hs Hf Hne.
  { destruct hs; [done|cbn [length] in Hf; lia]. }
  cbn [merkle_loop]. destruct (next_level_length hs) as (H1 & _ & H3).
  destruct (Z.leb_spec (Zlen hs) 1) as [Hle|Hgt].
  - destruct hs as [|h [|h' hs]]; [done|eauto|]. rewrite !Zlen_cons in Hle.
    pose proof (Zlen_nonneg hs). lia.
  - apply IH; [|auto]. unfold Zlen in Hgt. lia.
Qed.

Definition hashes_ok (hs : list bytes) : Prop := Forall Hash_ok hs.

Lemma next_level_ok hs : hashes_ok hs -> hashes_ok (next_level hs).
Proof.
  induction hs as [hs IH] using (induction_ltof1 _ length). unfold ltof, hashes_ok in *.
  destruct hs as [|a [|c hs]]; cbn [next_level]; [done..|].
  intros [_ [_ Hhs]%Forall_cons]%Forall_cons. constructor; [apply Sum256_ok|].
  apply IH; [cbn [length]; lia|done].
Qed.

Lemma next_level_same_length hs1 hs2 :
  length hs1 = length hs2 -> length (next_level hs1) = length (next_level hs2).
Proof.
  revert hs2. induction hs1 as [hs1 IH] using (induction_ltof1 _ length). unfold ltof in IH.
  intros hs2. destruct hs1 as [|a [|c hs1]], hs2 as [|a' [|c' hs2]]; cbn [next_level length]; try lia.
  intros [= H]. f_equal. apply IH; [cbn [length]; lia|done].
Qed.

Lemma cons_inv {A} (x y : A) l k : x :: l = y :: k -> x = y /\ l = k.
Proof. by intros [= -> ->]. Qed.

(** The strings that computing a root hashes. *)
Fixpoint level_inputs (hs : list bytes) : list bytes :=
  match hs with
  | a :: b :: hs => (a ++ b) :: level_inputs hs
  | _ => []
  end.
Fixpoint merkle_inputs (fuel : nat) (hs : list bytes) : list bytes :=
  match fuel with
  | O => []
  | S fuel => level_inputs hs ++ merkle_inputs fuel (next_level hs)
  end.
Definition root_inputs (hs : list bytes) : list bytes := merkle_inputs (length hs) hs.

Lemma next_level_commits hs1 hs2 :
  length hs1 = length hs2 -> hashes_ok hs1 -> hashes_ok hs2 ->
  next_level hs1 = next_level hs2 ->
  hs1 = hs2 \/ collision (level_inputs hs1) (level_inputs hs2).
Proof.
  revert hs2. induction hs1 as [hs1 IH] using (induction_ltof1 _ length). unfold ltof in IH.
  intros hs2. destruct hs1 as [|a [|c hs1]], hs2 as [|a' [|c' hs2]];
    cbn [next_level level_inputs length]; try lia; [by left|by left|].
  intros [= Hlen] [Ha [Hc H1]%Forall_cons]%Forall_cons [Ha' [Hc' H2]%Forall_cons]%Forall_cons.
  intros [Hsum Hrest]%cons_inv. apply Sum256_commits in Hsum as [Hsum|?];
    [|right; eapply collision_mono; [..|done]; set_solver].
  apply app_inj_1 in Hsum as [-> ->]; [|by unfold Hash_ok in *; congruence].
  destruct (IH hs1 ltac:(cbn [length]; lia) hs2) as [->|?]; auto.
  right. eapply collision_mono; [..|done]; set_solver.
Qed.

Lemma merkle_loop_commits fuel hs1 hs2 h :
  length hs1 = length hs2 -> hashes_ok hs1 -> hashes_ok hs2 ->
  merkle_loop fuel hs1 = Some h -> merkle_loop fuel hs2 = Some h ->
  hs1 = hs2 \/ collision (merkle_inputs fuel hs1) (merkle_inputs fuel hs2).
Proof.
  revert hs1 hs2. induction fuel as [|fuel IH]; intros hs1 hs2 Hlen Hok1 Hok2;
    cbn [merkle_loop merkle_inputs]; unfold Zlen; rewrite Hlen; case_match; try discriminate;
    [intros; left; congruence..|].
  intros H1 H2.
  destruct (IH (next_level hs1) (next_level hs2)) as [E|?]; auto using next_level_ok, next_level_same_length.
  - destruct (next_level_commits hs1 hs2) as [->|?]; [done..|by left|].
    right. eapply collision_mono; [..|done]; set_solver.
  - right. eapply collision_mono; [..|done]; set_solver.
Qed.

Lemma merkle_loop_ok fuel hs r :
  hashes_ok hs -> merkle_loop fuel hs = Some [r] -> Hash_ok r.
Proof.
  revert hs. induction fuel as [|fuel IH]; intros hs Hok; cbn [merkle_loop]; case_match;
    try discriminate; [intros [= ->]; by apply Forall_cons in Hok as [? _]..|].
  apply IH. by apply next_level_ok.
Qed.

Lemma merkle_loop_Ok fuel hs :
  (length hs <= fuel)%nat -> hs <> [] -> hashes_ok hs ->
  exists r, merkle_loop fuel hs = Some [r] /\ Hash_ok r.
Proof.
  intros Hf Hne Hok. destruct (merkle_loop_total fuel hs) as [r Hr]; [done..|].
  exists r. split; [done|]. by eapply merkle_loop_ok.
Qed.

Lemma merkle_root_Ok hs :
  hashes_ok hs -> exists h, merkle_root hs = Ok h /\ Hash_ok h.
Proof.
  intros Hok. unfold merkle_root. destruct (decide (hs = [])) as [->|Hne].
  { exists ZeroHash. split; [done|apply ZeroHash_ok]. }
  destruct (merkle_loop_Ok (length hs) hs) as (h & -> & Hh); [done..|].
  exists h. rewrite copy_into_exact; [done|by rewrite length_ZeroHash].
Qed.

Lemma merkle_root_commits_lemma hs1 hs2 h :
  hashes_ok hs1 -> hashes_ok hs2 -> length hs1 = length hs2 ->
  merkle_root hs1 = Ok h -> merkle_root hs2 = Ok h ->
  hs1 = hs2 \/ collision (root_inputs hs1) (root_inputs hs2).
Proof.
  intros Hok1 Hok2 Hlen. unfold merkle_root.
  destruct (decide (hs1 = [])) as [->|Hne]; [left; by destruct hs2|].
  destruct (merkle_loop_Ok (length hs1) hs1) as (r1 & L1 & R1); [done..|].
  destruct (merkle_loop_Ok (length hs2) hs2) as (r2 & L2 & R2);
    [done|by intros ->; destruct hs1|done|].
  rewrite L1, L2, !copy_into_exact by (by rewrite length_ZeroHash). intros [= <-] [= ->].
  unfold root_inputs. rewrite Hlen in L1 |- *. by apply (merkle_loop_commits (length hs2) hs1 hs2 [r1]).
Qed.

(** More fuel changes nothing. *)
Lemma merkle_loop_more fuel fuel' hs r :
  (fuel <= fuel')%nat -> merkle_loop fuel hs = Some r -> merkle_loop fuel' hs = Some r.
Proof.
  revert fuel' hs. induction fuel as [|fuel IH]; intros fuel' hs Hle.
  - destruct fuel'; cbn [merkle_loop]; by case_match.
  - destruct fuel' as [|fuel']; [lia|]. cbn [merkle_loop]. case_match; [done|]. apply IH. lia.
Qed.
Lemma merkle_root_next hs : (2 <= length hs)%nat -> merkle_root (next_level hs) = merkle_root hs.
Proof.
  intros Hlen. destruct (next_level_length hs) as (H1 & _ & H3).
  assert (next_level hs <> []) as Hne by (apply H3; intros ->; cbn in Hlen; lia).
  specialize (H1 Hlen). destruct (merkle_loop_total (length (next_level hs)) (next_level hs)) as [r Hr]; [done..|].
  assert ((Zlen hs <=? 1) = false) as Hgt by (apply Z.leb_gt; unfold Zlen; lia).
  unfold merkle_root. rewrite Hr. destruct (length hs) as [|fuel]; [lia|]. cbn [merkle_loop].
  rewrite Hgt. assert (merkle_loop fuel (next_level hs) = Some [r]) as ->; [|done].
  apply (merkle_loop_more (length (next_level hs))); [lia|done].
Qed.

(** C28: computing a Merkle root terminates with a 32-byte hash on any list of
    transaction identifiers, and the root commits to the list among those of its
    length: two lists of the same length with the same root are equal, unless two
    different strings hashed on the way to the two roots have the same SHA-256
    digest.  The length is needed: the hashes of the next level, a shorter list, have
    the same root without any collision. *)
Theorem merkle_root_commits (hs1 hs2 : list bytes) :
  hashes_ok hs1 -> hashes_ok hs2 ->
  exists h1 h2, merkle_root hs1 = Ok h1 /\ Hash_ok h1 /\
    merkle_root hs2 = Ok h2 /\ Hash_ok h2 /\
    (length hs1 = length hs2 -> h1 = h2 ->
     hs1 = hs2 \/ collision (root_inputs hs1) (root_inputs hs2)) /\
    ((2 <= length hs1)%nat -> hashes_ok (next_level hs1) /\
     (length (next_level hs1) < length hs1)%nat /\ merkle_root (next_level hs1) = Ok h1).
Proof.
  intros Hok1 Hok2.
  destruct (merkle_root_Ok hs1 Hok1) as (h1 & E1 & H1).
  destruct (merkle_root_Ok hs2 Hok2) as (h2 & E2 & H2).
  exists h1, h2. do 4 (split; [done|]). split.
  - intros Hlen <-. by eapply merkle_root_commits_lemma.
  - intros Hlen. rewrite merkle_root_next by done. split; [by apply next_level_ok|]. split; [|done].
    by apply next_level_length.
Qed.

Definition ids_example (last : Z) : list bytes :=
  [zeros 32; Sum256 []; Sum256 [byte_of_Z last]].
Lemma merkle_root_commits_witness :
  exists h1 h2, merkle_root (ids_example 1) = Ok h1 /\ Hash_ok h1 /\
    merkle_root (ids_example 2) = Ok h2 /\ Hash_ok h2 /\
    (h1 = h2 -> ids_example 1 = ids_example 2 \/
                collision (root_inputs (ids_example 1)) (root_inputs (ids_example 2))).
Proof.
  destruct (merkle_root_commits (ids_example 1) (ids_example 2)) as (h1 & h2 & H1 & H2 & H3 & H4 & H5 & _);
    [repeat (apply Forall_cons; split); try apply Sum256_ok; try apply Forall_nil; done..|].
  exists h1, h2. do 4 (split; [assumption|]). exact (H5 eq_refl).
Defined.

(** ** Block hash *)

Lemma Block_preimage_inj b1 b2 :
  Block_ok b1 -> Block_ok b2 -> Block_preimage b1 = Block_preimage b2 ->
  b_Index b1 = b_Index b2 /\ b_Timestamp b1 = b_Timestamp b2 /\
  b_PreviousHash b1 = b_PreviousHash b2 /\ b_MerkleRoot b1 = b_MerkleRoot b2 /\
  b_ValidatorID b1 = b_ValidatorID b2 /\ b_Difficulty b1 = b_Difficulty b2 /\
  b_Version b1 = b_Version b2.
Proof.
  intros [] []. unfold Block_preimage, Hash_Bytes. rewrite !Address_Bytes_id by done.
  unfold Address_ok, Hash_ok in *. intros H.
  apply app_inj_1 in H as [?%le_bytes_inj_u64 H]; [|first [done|by rewrite !length_le_bytes]..].
  apply app_inj_1 in H as [?%le_bytes_inj_i64 H]; [|first [done|by rewrite !length_le_bytes]..].
  do 3 (apply app_inj_1 in H as [? H]; [|congruence]).
  apply app_inj_1 in H as [?%le_bytes_inj_u64 ?%le_bytes_inj_u32];
    [|first [done|by rewrite !length_le_bytes]..].
  done.
Qed.

(** [b] carries the Merkle root of its transactions. *)
Definition merkle_valid (b : Block) : Prop := Block_ComputeMerkleRoot b = Ok (b_MerkleRoot b).

Lemma Block_ids_ok b : Block_ok b -> hashes_ok (tx_ID <$> b_Transactions b).
Proof.
  intros []. apply Forall_fmap. eapply Forall_impl; [done|]. by intros ? [].
Qed.

(** The block hash commits to the header and, through a valid Merkle root,
    to the identifiers of the transactions of a block of known length: two
    blocks with one hash agree on them, unless two different strings that were
    hashed for the two blocks have the same SHA-256 digest. *)
Theorem Block_ComputeHash_commits (b1 b2 : Block) :
  Block_ok b1 -> Block_ok b2 -> Block_ComputeHash b1 = Block_ComputeHash b2 ->
  (b_Index b1 = b_Index b2 /\ b_Timestamp b1 = b_Timestamp b2 /\
   b_PreviousHash b1 = b_PreviousHash b2 /\ b_MerkleRoot b1 = b_MerkleRoot b2 /\
   b_ValidatorID b1 = b_ValidatorID b2 /\ b_Difficulty b1 = b_Difficulty b2 /\
   b_Version b1 = b_Version b2 /\
   (merkle_valid b1 -> merkle_valid b2 ->
    length (b_Transactions b1) = length (b_Transactions b2) ->
    tx_ID <$> b_Transactions b1 = tx_ID <$> b_Transactions b2 \/
    collision (root_inputs (tx_ID <$> b_Transactions b1)) (root_inputs (tx_ID <$> b_Transactions b2))))
  \/ collision [Block_preimage b1] [Block_preimage b2].
Proof.
  intros H1 H2 [H|H]%Sum256_commits; [left|by right].
  apply Block_preimage_inj in H as (? & ? & ? & Hroot & ? & ? & ?); [|done..].
  do 7 (split; [done|]). unfold merkle_valid, Block_ComputeMerkleRoot.
  intros M1 M2 Hlen. rewrite Hroot in M1.
  pose proof (Block_ids_ok b1 H1) as I1. pose proof (Block_ids_ok b2 H2) as I2.
  eapply merkle_root_commits_lemma; [done|done|by rewrite !length_fmap|exact M1|exact M2].
Qed.

Lemma Block_ComputeHash_commits_witness :
  (b_Version block_example = 1 /\ 5 = b_Index block_example) \/
  collision [Block_preimage block_example] [Block_preimage (block_set_Hash block_example ZeroHash)].
Proof.
  destruct (Block_ComputeHash_commits block_example (block_set_Hash block_example ZeroHash))
    as [(H & _ & _ & _ & _ & _ & H' & _)|H]; [apply block_example_ok| |vm_compute; reflexivity|..].
  - destruct block_example_ok. by split.
  - left. split; [exact H'|exact H].
  - right. exact H.
Defined.

(** ** New blocks *)

Lemma NewBlock_ok (now index : Z) (prev : Hash) (txs : list Transaction)
    (validator : Address) (difficulty : Z) :
  is_i64 now -> is_u64 index -> Hash_ok prev -> Forall Transaction_ok txs ->
  Zlen txs < 2 ^ 32 -> Address_ok validator -> is_u64 difficulty ->
  match NewBlock now index prev txs validator difficulty with
  | Ok b => txs <> [] /\ Block_ok b /\ merkle_valid b /\ b_Hash b = Block_ComputeHash b /\
            b_Index b = index /\ b_PreviousHash b = prev /\ b_Transactions b = txs /\
            b_ValidatorID b = validator /\ b_Timestamp b = now /\ b_FinalizedBy b = []
  | Err _ => txs = []
  | Panic => False
  end.
Proof.
  intros. unfold NewBlock. destruct (Z.eqb_spec (Zlen txs) 0) as [E|E]; [by apply Zlen_0|].
  unfold Block_ComputeMerkleRoot. cbn [b_Transactions].
  destruct (merkle_root_Ok (tx_ID <$> txs)) as (h & Hh & Hok).
  { apply Forall_fmap. eapply Forall_impl; [done|]. by intros ? []. }
  rewrite Hh, bind_Ok. split; [by intros ->|]. split; [|by split].
  split; cbn; try done; apply Sum256_ok.
Qed.

(** A new block is refused exactly when it has no transaction; otherwise it
    is well formed, carries the Merkle root of its transactions and its own
    hash, and is neither signed nor finalized. *)
Theorem NewBlock_spec (now index : Z) (prev : Hash) (txs : list Transaction)
    (validator : Address) (difficulty : Z) :
  is_i64 now -> is_u64 index -> Hash_ok prev -> Forall Transaction_ok txs ->
  Zlen txs < 2 ^ 32 -> Address_ok validator -> is_u64 difficulty ->
  match NewBlock now index prev txs validator difficulty with
  | Ok b => txs <> [] /\ Block_ok b /\ merkle_valid b /\ b_Hash b = Block_ComputeHash b /\
            b_Index b = index /\ b_PreviousHash b = prev /\ b_Transactions b = txs /\
            b_ValidatorID b = validator /\ b_Timestamp b = now /\ b_FinalizedBy b = []
  | Err _ => txs = []
  | Panic => False
  end.
Proof. apply NewBlock_ok. Qed.

Lemma NewBlock_spec_witness :
  match NewBlock 1700000000 1 ZeroHash [transaction_example] ZeroAddress 1 with
  | Ok b => b_Hash b = Block_ComputeHash b
  | _ => False
  end.
Proof.
  pose proof (NewBlock_spec 1700000000 1 ZeroHash [transaction_example] ZeroAddress 1
    ltac:(done) ltac:(done) ZeroHash_ok ltac:(repeat constructor; apply transaction_example_ok)
    ltac:(done) ZeroAddress_ok ltac:(done)) as H.
  destruct (NewBlock _ _ _ _ _ _); [apply H|discriminate H|exact H].
Defined.

Lemma sum_sizes_short txs :
  Forall Transaction_ok txs ->
  sum_sizes ((fun d => 4 + Zlen d) <$> (Transaction_encoding <$> txs)) =
  sum_sizes ((fun tx => 4 + Transaction_Size tx) <$> txs) + 4 * Zlen txs.
Proof.
  induction 1 as [|tx txs Htx _ IH]; [done|].
  cbn [fmap list_fmap sum_sizes fold_right] in *. unfold sum_sizes in IH.
  rewrite IH, Zlen_cons, Zlen_Transaction_encoding by done.
  unfold Transaction_Size, HashSize, AddressSize. lia.
Qed.

(** The size a block reports is short of the length of its encoding by four
    bytes for every transaction. *)
Theorem Block_Size_short (b : Block) (data : bytes) :
  Block_ok b -> Block_Serialize b = Ok data ->
  Zlen data = Block_Size b + 4 * Zlen (b_Transactions b).
Proof.
  intros Hok. rewrite Block_Serialize_encoding by done. intros [= <-].
  rewrite Zlen_Block_encoding by done. destruct Hok.
  unfold Block_Size, HashSize, AddressSize.
  rewrite sum_sizes_short by done. lia.
Qed.

Lemma Block_Size_short_witness :
  Zlen (Block_encoding block_example) = Block_Size block_example + 8.
Proof.
  apply (Block_Size_short block_example); [apply block_example_ok|vm_compute; reflexivity].
Defined.
