(* ===== verification/Packets.v ===== *)
(** [pkg/packets]: the wire formats of consensus, network and route packets.
    Writing goes to a growing [bytes.Buffer] and cannot fail; reading follows
    the library calls of the code, [binary.Read], [io.ReadFull],
    [Buffer.Read] and [Reader.Read], with their different treatment of short
    input.  A nil and an empty byte slice are identified except in route
    packets, where the code tests for nil. *)
From Stdlib Require Import Strings.Byte.
From S2P Require Import Prelude Bytes Types Signatures Transactions.

(** * types.go *)
Definition PacketTypeUnknown : Z := 0.
Definition PacketTypeProposal : Z := 1.
Definition PacketTypeApproval : Z := 2.
Definition PacketTypeFinalization : Z := 3.
Definition PacketTypePing : Z := 5.
Definition PacketTypeRequest : Z := 6.
Definition PacketTypeResponse : Z := 7.

(** * helpers.go *)
Abbreviation PeerID := bytes.

(** A length as [uint32], then the data: the framing used everywhere. *)
Definition put_block (d : bytes) : bytes := le_bytes 4 (u32 (Zlen d)) ++ d.

Definition serializePeerID (id : PeerID) : bytes := put_block id.

Definition deserializePeerID : reader PeerID :=
  peerIDLen ← rwrap "failed to deserialize peer ID length" (read_le 4);
  rwrap "failed to deserialize peer ID" (read_full peerIDLen).

(** * consensus.go *)
Record ConsensusPacket := {
  cp_Type : Z;
  cp_Signer : SignerType;
  cp_ProposerID : PeerID;
  cp_ValidatorID : PeerID;
  cp_BlockHash : bytes;
  cp_BlockData : bytes;
  cp_Signature : bytes;
}.
#[export] Instance ConsensusPacket_eq_dec : EqDecision ConsensusPacket.
Proof. solve_decision. Defined.

(** The presence flag, then the length and the bytes of a signature. *)
Definition put_signature (sig : bytes) : bytes :=
  if negb (Zlen sig =? 0)
  then le_bytes 1 1 ++ le_bytes 4 (u32 (Zlen sig)) ++ sig
  else le_bytes 1 0 ++ le_bytes 4 0.

Definition ConsensusPacket_Serialize (cp : ConsensusPacket) : res bytes :=
  Ok (le_bytes 1 (cp_Type cp) ++
      le_bytes 4 (SignerType_Uint32 (cp_Signer cp)) ++
      serializePeerID (cp_ProposerID cp) ++
      serializePeerID (cp_ValidatorID cp) ++
      put_block (cp_BlockHash cp) ++
      (if cp_Type cp =? PacketTypeProposal then put_block (cp_BlockData cp)
       else le_bytes 4 0) ++
      put_signature (cp_Signature cp)).

(** The end of both packet decoders, over the [Read] method of the source. *)
Definition get_signature (read : Z -> reader bytes) : reader bytes :=
  sigPresence ← rwrap "failed to deserialize signature presence flag" (read_le 1);
  sigLen ← rwrap "failed to deserialize signature length" (read_le 4);
  if (sigPresence =? 1) && (0 <? sigLen)
  then rwrap "failed to deserialize signature" (read sigLen)
  else mret [].

Definition DeserializeConsensusPacket_reader : reader ConsensusPacket :=
  ty ← rwrap "failed to deserialize packet type" (read_le 1);
  signerUint ← rwrap "failed to deserialize signer" (read_le 4);
  proposerID ← rwrap "failed to deserialize proposer ID" deserializePeerID;
  validatorID ← rwrap "failed to deserialize validator ID" deserializePeerID;
  blockHashLen ← rwrap "failed to deserialize block hash length" (read_le 4);
  blockHash ← rwrap "failed to deserialize block hash" (buffer_read blockHashLen);
  let proposal := ty =? PacketTypeProposal in
  blockDataLen ← rwrap (if proposal then "failed to deserialize block data length"
                        else "failed to deserialize empty block data length") (read_le 4);
  blockData ← (if 0 <? blockDataLen
               then rwrap (if proposal then "failed to deserialize block data"
                           else "failed to discard block data") (buffer_read blockDataLen)
               else mret []);
  signature ← get_signature buffer_read;
  mret {| cp_Type := ty; cp_Signer := SignerTypeFromUint32 signerUint;
          cp_ProposerID := proposerID; cp_ValidatorID := validatorID;
          cp_BlockHash := blockHash;
          cp_BlockData := if proposal then blockData else [];
          cp_Signature := signature |}.
Definition DeserializeConsensusPacket (data : bytes) : res ConsensusPacket :=
  run_reader DeserializeConsensusPacket_reader data.

(** * network.go *)
Record NetworkPacket := {
  np_Type : Z;
  np_SenderID : PeerID;
  np_ReceiverID : PeerID;
  np_Payload : bytes;
  np_Signature : bytes;
}.
#[export] Instance NetworkPacket_eq_dec : EqDecision NetworkPacket.
Proof. solve_decision. Defined.

Definition NetworkPacket_Serialize (np : NetworkPacket) : res bytes :=
  Ok (le_bytes 1 (np_Type np) ++
      serializePeerID (np_SenderID np) ++
      serializePeerID (np_ReceiverID np) ++
      put_block (np_Payload np) ++
      put_signature (np_Signature np)).

Definition DeserializeNetworkPacket_reader : reader NetworkPacket :=
  ty ← rwrap "failed to deserialize packet type" (read_le 1);
  senderID ← rwrap "failed to deserialize sender ID" deserializePeerID;
  receiverID ← rwrap "failed to deserialize receiver ID" deserializePeerID;
  payloadLen ← rwrap "failed to deserialize payload length" (read_le 4);
  payload ← rwrap "failed to deserialize payload" (reader_read payloadLen);
  signature ← get_signature reader_read;
  mret {| np_Type := ty; np_SenderID := senderID; np_ReceiverID := receiverID;
          np_Payload := payload; np_Signature := signature |}.
Definition DeserializeNetworkPacket (data : bytes) : res NetworkPacket :=
  run_reader DeserializeNetworkPacket_reader data.

(** * route.go *)
Definition MACLength : Z := 6.
Definition SignatureLength : Z := 64.
Definition IPLength : Z := 16.

Record RoutePacket := {
  rp_NextHopIP : bytes;
  rp_NextHopMAC : option bytes;
  rp_Signature : option bytes;
}.
#[export] Instance RoutePacket_eq_dec : EqDecision RoutePacket.
Proof. solve_decision. Defined.

Definition NewRoutePacket (nextHopIP : bytes) : RoutePacket :=
  {| rp_NextHopIP := nextHopIP; rp_NextHopMAC := None; rp_Signature := None |}.

Definition put_optional (what : string) (len : Z) (o : option bytes) : res bytes :=
  match o with
  | Some d => if negb (Zlen d =? len) then Err (ErrMsg what) else Ok (x01 :: d)
  | None => Ok [x00]
  end.

Definition SerializeRoutePacket (pkt : RoutePacket) : res bytes :=
  mac ← put_optional "NextHopMAC length is %d, expected %d" MACLength (rp_NextHopMAC pkt);
  sig ← put_optional "Signature length is %d, expected %d" SignatureLength (rp_Signature pkt);
  Ok (rp_NextHopIP pkt ++ mac ++ sig).

Definition get_optional (indicator failed incomplete : string) (len : Z)
    : reader (option bytes) :=
  has ← rwrap indicator (read_be 1);
  if has =? 1 then
    p ← rwrap failed (reader_read_n len);
    if negb (p.2 =? len) then rlift (Err (ErrMsg incomplete))
    else mret (Some p.1)
  else mret None.

Definition DeserializeRoutePacket_reader : reader RoutePacket :=
  nextHopIP ← rwrap "failed to deserialize NextHopIP" (read_full IPLength);
  mac ← get_optional "failed to read NextHopMAC indicator"
    "failed to deserialize NextHopMAC" "incomplete NextHopMAC data" MACLength;
  sig ← get_optional "failed to read Signature indicator"
    "failed to deserialize Signature" "incomplete Signature data" SignatureLength;
  mret {| rp_NextHopIP := nextHopIP; rp_NextHopMAC := mac; rp_Signature := sig |}.
Definition DeserializeRoutePacket (data : bytes) : res RoutePacket :=
  p ← DeserializeRoutePacket_reader data;
  if negb (Zlen p.2 =? 0)
  then Err (ErrMsg "unexpected extra data: %d bytes remaining")
  else Ok p.1.

(** * Reading back what was written *)

Lemma reads_bind_rest {A B} P (m : reader A) (k : A -> reader B) e1 e2 a b :
  reads anything m e1 a -> reads P (k a) e2 b -> reads P (m ≫= k) (e1 ++ e2) b.
Proof. intros. by eapply reads_bind. Qed.

Lemma reads_le_wrap {B} P text (n : nat) v (k : Z -> reader B) enc b :
  0 <= v < 2 ^ (8 * Z.of_nat n) ->
  reads P (k v) enc b ->
  reads P (rwrap text (read_le n) ≫= k) (le_bytes n v ++ enc) b.
Proof.
  intros Hv Hk. eapply reads_bind_rest; [apply reads_wrap, read_le_reads|].
  by rewrite Z.mod_small.
Qed.

(** Byte strings whose length fits a [uint32]. *)
Definition short (d : bytes) : Prop := Zlen d < 2 ^ 32.

Lemma short_u32 d : short d -> u32 (Zlen d) = Zlen d.
Proof. intros H. apply u32_small. split; [apply Zlen_nonneg|done]. Qed.
Lemma short_range d : short d -> 0 <= Zlen d < 2 ^ (8 * Z.of_nat 4).
Proof. intros H. split; [apply Zlen_nonneg|done]. Qed.
#[export] Hint Resolve short_range : peerdns.

Lemma deserializePeerID_reads id :
  short id -> reads anything deserializePeerID (serializePeerID id) id.
Proof.
  intros Hid. unfold serializePeerID, put_block, deserializePeerID.
  rewrite short_u32 by done. apply reads_le_wrap; [by apply short_range|].
  by apply reads_wrap, read_full_reads.
Qed.

(** A [Read] method that reads back exactly what is asked for. *)
Definition reads_back (P : bytes -> Prop) (read : Z -> reader bytes) : Prop :=
  forall sig, sig <> [] -> reads P (read (Zlen sig)) sig sig.

Lemma get_signature_reads P read sig :
  short sig -> reads_back P read -> reads P (get_signature read) (put_signature sig) sig.
Proof.
  intros Hs Hread. unfold get_signature, put_signature.
  destruct (Z.eqb_spec (Zlen sig) 0) as [E|E]; cbn [negb].
  - apply Zlen_0 in E as ->. apply reads_le_wrap; [done|].
    rewrite <- (app_nil_r (le_bytes 4 0)). apply reads_le_wrap; [done|]. apply reads_ret.
  - pose proof (Zlen_nonneg sig). rewrite short_u32 by done.
    apply reads_le_wrap; [done|]. apply reads_le_wrap; [by apply short_range|].
    rewrite (proj2 (Z.ltb_lt _ _)) by lia. cbn [andb Z.eqb Pos.eqb].
    apply reads_wrap, Hread. by intros ->.
Qed.

Record ConsensusPacket_ok (cp : ConsensusPacket) : Prop := {
  cp_Type_ok : is_u8 (cp_Type cp);
  cp_ProposerID_ok : short (cp_ProposerID cp);
  cp_ValidatorID_ok : short (cp_ValidatorID cp);
  cp_BlockHash_ok : short (cp_BlockHash cp);
  cp_BlockData_ok : short (cp_BlockData cp);
  cp_Signature_ok : short (cp_Signature cp);
}.

(** What a packet is after the trip: the signer type has gone through its
    number, and only proposals carry block data. *)
Definition ConsensusPacket_normalize (cp : ConsensusPacket) (sig : bytes) : ConsensusPacket :=
  {| cp_Type := cp_Type cp; cp_Signer := normalize_signer (cp_Signer cp);
     cp_ProposerID := cp_ProposerID cp; cp_ValidatorID := cp_ValidatorID cp;
     cp_BlockHash := cp_BlockHash cp;
     cp_BlockData := if cp_Type cp =? PacketTypeProposal then cp_BlockData cp else [];
     cp_Signature := sig |}.

(** Everything before the signature. *)
Definition ConsensusPacket_head (cp : ConsensusPacket) : bytes :=
  le_bytes 1 (cp_Type cp) ++ le_bytes 4 (SignerType_Uint32 (cp_Signer cp)) ++
  serializePeerID (cp_ProposerID cp) ++ serializePeerID (cp_ValidatorID cp) ++
  put_block (cp_BlockHash cp) ++
  put_block (if cp_Type cp =? PacketTypeProposal then cp_BlockData cp else []).

Lemma ConsensusPacket_Serialize_head cp :
  ConsensusPacket_Serialize cp =
    Ok (ConsensusPacket_head cp ++ put_signature (cp_Signature cp)).
Proof.
  unfold ConsensusPacket_Serialize, ConsensusPacket_head. rewrite <- !app_assoc.
  by destruct (cp_Type cp =? PacketTypeProposal).
Qed.

Lemma DeserializeConsensusPacket_reads P cp enc_sig sig :
  ConsensusPacket_ok cp -> reads P (get_signature buffer_read) enc_sig sig ->
  reads P DeserializeConsensusPacket_reader (ConsensusPacket_head cp ++ enc_sig)
    (ConsensusPacket_normalize cp sig).
Proof.
  intros [] Hsig. unfold DeserializeConsensusPacket_reader, ConsensusPacket_head.
  rewrite <- !app_assoc.
  apply reads_le_wrap; [done|]. apply reads_le_wrap; [apply SignerType_Uint32_range|].
  do 2 (eapply reads_bind_rest; [by apply reads_wrap, deserializePeerID_reads|]).
  unfold put_block. rewrite <- !app_assoc, short_u32 by done.
  apply reads_le_wrap; [by apply short_range|].
  eapply reads_bind_rest; [by apply reads_wrap, buffer_read_reads|]. cbv zeta.
  set (data := if cp_Type cp =? PacketTypeProposal then cp_BlockData cp else []).
  assert (short data) as Hdata by (subst data; by case_match).
  rewrite short_u32 by done. apply reads_le_wrap; [by apply short_range|].
  pose proof (Zlen_nonneg data).
  apply reads_bind_rest with (a := data).
  { destruct (Z.ltb_spec 0 (Zlen data)); [by apply reads_wrap, buffer_read_reads|].
    rewrite (Zlen_0 data) by lia. apply reads_ret. }
  rewrite <- (app_nil_r enc_sig).
  eapply reads_bind; [exact Hsig| |done].
  replace (if cp_Type cp =? PacketTypeProposal then data else []) with data
    by (subst data; by case_match). apply reads_ret.
Qed.

Lemma ConsensusPacket_reads_back (cp : ConsensusPacket) (rest : bytes) :
  ConsensusPacket_ok cp ->
  exists data, ConsensusPacket_Serialize cp = Ok data /\
    DeserializeConsensusPacket (data ++ rest) =
      Ok (ConsensusPacket_normalize cp (cp_Signature cp)).
Proof.
  intros Hok. eexists. split; [apply ConsensusPacket_Serialize_head|].
  eapply (reads_run anything); [|done].
  apply DeserializeConsensusPacket_reads; [done|]. apply get_signature_reads; [by destruct Hok|].
  intros sig _. by apply buffer_read_reads.
Qed.

(** Serializing a consensus packet and reading it back, whatever follows,
    gives the packet with its signer type normalized and, unless it is a
    proposal, without block data. *)
Theorem ConsensusPacket_roundtrip (cp : ConsensusPacket) (rest : bytes) :
  ConsensusPacket_ok cp ->
  exists data, ConsensusPacket_Serialize cp = Ok data /\
    DeserializeConsensusPacket (data ++ rest) =
      Ok (ConsensusPacket_normalize cp (cp_Signature cp)).
Proof. by apply ConsensusPacket_reads_back. Qed.

Definition proposal_example : ConsensusPacket := {|
  cp_Type := PacketTypeProposal; cp_Signer := BlsSignerType;
  cp_ProposerID := str "proposer"; cp_ValidatorID := []; cp_BlockHash := str "hash";
  cp_BlockData := str "block"; cp_Signature := str "signature" |}.
Lemma proposal_example_ok : ConsensusPacket_ok proposal_example.
Proof. by split. Qed.
Lemma ConsensusPacket_roundtrip_witness :
  exists data, ConsensusPacket_Serialize proposal_example = Ok data /\
    DeserializeConsensusPacket (data ++ str "rest") = Ok proposal_example.
Proof. apply (ConsensusPacket_roundtrip proposal_example), proposal_example_ok. Defined.

(** A buffer that ends early: what is missing reads as zero. *)
Lemma buffer_read_short n sig :
  sig <> [] -> Zlen sig <= n ->
  reads (fun rest => rest = []) (buffer_read n) sig (sig ++ zeros (n - Zlen sig)).
Proof.
  intros Hne Hn rest ->. rewrite app_nil_r. unfold buffer_read.
  destruct (Z.eqb_spec (Zlen sig) 0) as [E|_]; [by apply Zlen_0 in E|].
  cbn [andb]. rewrite take_ge, drop_ge by (unfold Zlen in *; lia). done.
Qed.

(** A consensus packet cut inside its signature is still accepted: the
    missing bytes of the signature are read as zeros. *)
Theorem ConsensusPacket_truncated (cp : ConsensusPacket) (kept lost : bytes) :
  ConsensusPacket_ok cp -> cp_Signature cp = kept ++ lost -> kept <> [] ->
  exists data, ConsensusPacket_Serialize cp = Ok (data ++ lost) /\
    DeserializeConsensusPacket data =
      Ok (ConsensusPacket_normalize cp (kept ++ zeros (Zlen lost))).
Proof.
  intros Hok Hsig Hne. rewrite ConsensusPacket_Serialize_head.
  assert (short (cp_Signature cp)) as Hshort by by destruct Hok.
  assert (0 < Zlen kept).
  { pose proof (Zlen_nonneg kept). destruct (Z.eq_dec (Zlen kept) 0) as [E|]; [|lia].
    by apply Zlen_0 in E. }
  pose proof (Zlen_nonneg lost).
  exists (ConsensusPacket_head cp ++ le_bytes 1 1 ++ le_bytes 4 (Zlen (cp_Signature cp)) ++ kept).
  split.
  - unfold put_signature. rewrite short_u32 by done.
    rewrite (proj2 (Z.eqb_neq _ _)) by (rewrite Hsig, Zlen_app; lia). cbn [negb].
    rewrite <- !app_assoc. do 5 f_equal. done.
  - set (data := _ ++ _). rewrite <- (app_nil_r data). subst data.
    eapply (reads_run (fun rest => rest = [])); [|done].
    apply DeserializeConsensusPacket_reads; [done|]. unfold get_signature.
    apply reads_le_wrap; [done|]. apply reads_le_wrap; [by apply short_range|].
    rewrite (proj2 (Z.ltb_lt _ _)) by (rewrite Hsig, Zlen_app; lia).
    cbn [andb Z.eqb Pos.eqb].
    replace (Zlen lost) with (Zlen (cp_Signature cp) - Zlen kept)
      by (rewrite Hsig, Zlen_app; lia).
    apply reads_wrap, buffer_read_short; [done|]. rewrite Hsig, Zlen_app. lia.
Qed.

Lemma ConsensusPacket_truncated_witness :
  exists data, ConsensusPacket_Serialize proposal_example = Ok (data ++ str "ture") /\
    DeserializeConsensusPacket data =
      Ok (ConsensusPacket_normalize proposal_example (str "signa" ++ zeros 4)).
Proof.
  apply (ConsensusPacket_truncated proposal_example (str "signa") (str "ture"));
    [apply proposal_example_ok|reflexivity|discriminate].
Defined.

(** ** Network packets *)

Record NetworkPacket_ok (np : NetworkPacket) : Prop := {
  np_Type_ok : is_u8 (np_Type np);
  np_SenderID_ok : short (np_SenderID np);
  np_ReceiverID_ok : short (np_ReceiverID np);
  np_Payload_ok : short (np_Payload np);
  np_Signature_ok : short (np_Signature np);
}.

Lemma reader_read_back : reads_back anything reader_read.
Proof.
  intros sig Hne rest _. apply reader_read_reads; [done|]. by destruct sig.
Qed.

Lemma put_signature_nonempty sig rest : put_signature sig ++ rest <> [].
Proof. unfold put_signature. by case_match. Qed.

Lemma DeserializeNetworkPacket_reads np :
  NetworkPacket_ok np ->
  reads anything DeserializeNetworkPacket_reader
    (le_bytes 1 (np_Type np) ++ serializePeerID (np_SenderID np) ++
     serializePeerID (np_ReceiverID np) ++ put_block (np_Payload np) ++
     put_signature (np_Signature np)) np.
Proof.
  intros []. unfold DeserializeNetworkPacket_reader.
  apply reads_le_wrap; [done|].
  do 2 (eapply reads_bind_rest; [by apply reads_wrap, deserializePeerID_reads|]).
  unfold put_block. rewrite <- !app_assoc, short_u32 by done.
  apply reads_le_wrap; [by apply short_range|].
  eapply reads_bind; [by apply reads_wrap, reader_read_reads| |].
  - rewrite <- (app_nil_r (put_signature _)).
    eapply reads_bind_any; [apply get_signature_reads; [done|apply reader_read_back]|].
    destruct np. apply reads_ret.
  - intros rest _ [_ H]%app_nil. by apply put_signature_nonempty in H.
Qed.

(** Serializing a network packet and reading it back, whatever follows,
    gives the same packet. *)
Theorem NetworkPacket_roundtrip (np : NetworkPacket) (rest : bytes) :
  NetworkPacket_ok np ->
  exists data, NetworkPacket_Serialize np = Ok data /\
    DeserializeNetworkPacket (data ++ rest) = Ok np.
Proof.
  intros Hok. eexists. split; [reflexivity|].
  by eapply reads_run; [apply DeserializeNetworkPacket_reads|].
Qed.

Lemma NetworkPacket_roundtrip_witness :
  exists data, NetworkPacket_Serialize {| np_Type := PacketTypePing; np_SenderID := str "a";
      np_ReceiverID := []; np_Payload := []; np_Signature := [] |} = Ok data /\
    DeserializeNetworkPacket (data ++ str "rest") = Ok {| np_Type := PacketTypePing;
      np_SenderID := str "a"; np_ReceiverID := []; np_Payload := []; np_Signature := [] |}.
Proof. by apply NetworkPacket_roundtrip. Defined.

(** ** Route packets *)

Definition optional_ok (len : Z) (o : option bytes) : Prop :=
  match o with Some d => Zlen d = len | None => True end.

Lemma put_optional_Ok what len o :
  optional_ok len o <-> exists d, put_optional what len o = Ok d.
Proof.
  unfold optional_ok, put_optional. destruct o as [d|]; [|naive_solver].
  destruct (Z.eqb_spec (Zlen d) len); cbn [negb]; naive_solver.
Qed.

Lemma get_optional_reads what ind failed incomplete len o d :
  0 < len -> put_optional what len o = Ok d ->
  reads anything (get_optional ind failed incomplete len) d o.
Proof.
  intros Hlen. unfold put_optional, get_optional.
  destruct o as [v|]; [destruct (Z.eqb_spec (Zlen v) len) as [E|]; [|done]|]; cbn [negb];
    intros [= <-].
  - change (x01 :: v) with (be_bytes 1 1 ++ v).
    eapply reads_bind_any; [apply reads_wrap, read_be_reads|].
    cbn [Z.eqb]. change (1 mod 2 ^ (8 * Z.of_nat 1) =? 1) with true. cbn match.
    intros rest _. unfold rwrap, reader_read_n. cbv [mbind reader_bind].
    pose proof (Zlen_nonneg rest). destruct (read_exact_shape v rest) as [E1 E2].
    rewrite E in E1, E2. rewrite (proj2 (Z.eqb_neq _ _)) by zlen_lia.
    rewrite wrap_Ok, E1, E2. cbn [snd fst].
    by rewrite Z.min_l, Z.eqb_refl by zlen_lia.
  - change [x00] with (be_bytes 1 0 ++ []).
    eapply reads_bind_any; [apply reads_wrap, read_be_reads|].
    change (0 mod 2 ^ (8 * Z.of_nat 1) =? 1) with false. cbn match. apply reads_ret.
Qed.

(** A route packet is serialized exactly when its optional fields have the
    lengths of a MAC address and of a signature; it then reads back as itself,
    and any trailing byte is refused. *)
Theorem RoutePacket_roundtrip (pkt : RoutePacket) :
  Zlen (rp_NextHopIP pkt) = IPLength ->
  (is_ok (SerializeRoutePacket pkt) = true <->
     optional_ok MACLength (rp_NextHopMAC pkt) /\ optional_ok SignatureLength (rp_Signature pkt)) /\
  (forall data, SerializeRoutePacket pkt = Ok data ->
     DeserializeRoutePacket data = Ok pkt /\
     forall extra, extra <> [] -> is_ok (DeserializeRoutePacket (data ++ extra)) = false).
Proof.
  intros Hip. unfold SerializeRoutePacket. split.
  - rewrite (put_optional_Ok "NextHopMAC length is %d, expected %d"),
      (put_optional_Ok "Signature length is %d, expected %d").
    destruct (put_optional _ MACLength _); [|naive_solver..].
    rewrite bind_Ok. destruct (put_optional _ SignatureLength _); naive_solver.
  - intros data H. res_inv.
    assert (reads anything DeserializeRoutePacket_reader
       (rp_NextHopIP pkt ++ a ++ a0) pkt) as Hreads.
    { unfold DeserializeRoutePacket_reader.
      eapply reads_bind_any; [by apply reads_wrap, read_full_reads|].
      eapply reads_bind_any; [by eapply get_optional_reads|].
      rewrite <- (app_nil_r a0). eapply reads_bind_any; [by eapply get_optional_reads|].
      destruct pkt. apply reads_ret. }
    unfold DeserializeRoutePacket. split.
    + rewrite <- (app_nil_r (_ ++ _)). by rewrite Hreads.
    + intros extra He. rewrite Hreads, bind_Ok by done. cbn [fst snd].
      destruct (Z.eqb_spec (Zlen extra) 0) as [Hz|]; [by apply Zlen_0 in Hz|done].
Qed.

Lemma RoutePacket_roundtrip_witness :
  DeserializeRoutePacket (zeros 16 ++ x01 :: str "abcdef" ++ [x00]) =
    Ok {| rp_NextHopIP := zeros 16; rp_NextHopMAC := Some (str "abcdef"); rp_Signature := None |}.
Proof.
  apply (RoutePacket_roundtrip {| rp_NextHopIP := zeros 16;
    rp_NextHopMAC := Some (str "abcdef"); rp_Signature := None |}); vm_compute; reflexivity.
Defined.

(** ** No input makes a decoder panic *)

Lemma safe_deserializePeerID : safe deserializePeerID.
Proof. unfold deserializePeerID. safe_tac. Qed.
Lemma safe_get_signature read : (forall n, safe (read n)) -> safe (get_signature read).
Proof. intros Hread. unfold get_signature. safe_tac. Qed.
Lemma safe_get_optional a b c len : safe (get_optional a b c len).
Proof. unfold get_optional. safe_tac. Qed.
#[export] Hint Resolve safe_deserializePeerID safe_get_signature safe_get_optional : peerdns.

(** Whatever bytes arrive from the network, the three packet decoders
    return a packet or an error. *)
Theorem packet_decoders_total (data : bytes) :
  no_panic (DeserializeConsensusPacket data) /\ no_panic (DeserializeNetworkPacket data) /\
  no_panic (DeserializeRoutePacket data).
Proof.
  split; [|split].
  - apply safe_run. unfold DeserializeConsensusPacket_reader. safe_tac.
  - apply safe_run. unfold DeserializeNetworkPacket_reader. safe_tac.
  - unfold DeserializeRoutePacket. apply no_panic_bind; [|intros; by case_match].
    revert data. change (safe DeserializeRoutePacket_reader).
    unfold DeserializeRoutePacket_reader. safe_tac.
Qed.
