(* ===== verification/TxPool.v ===== *)
(** [pkg/txpool/pool.go]: the pool of pending transactions.

    Each method runs under the lock of the pool, so it is one step on the
    state.  [now] is [time.Now().UnixNano()], [ord] the order in which a loop
    visits the map.  The pool stores the caller's transaction, whose timestamp
    [AddTransaction] overwrites: the updated transaction is part of the result. *)
From stdpp Require Import sorting.
From S2P Require Import Prelude Bytes Types Signatures Transactions.

Definition DefaultMaxPoolSize : Z := 1000.
Definition Minute : Z := 60 * 10 ^ 9.
Definition DefaultTxExpiry : Z := 10 * Minute.
Definition DefaultCleanupInterval : Z := 1 * Minute.
Definition MaxInt64 : Z := 2 ^ 63 - 1.

Record TxPool := {
  tp_transactions : gmap Hash Transaction;
  tp_maxSize : Z;
  tp_txExpiry : Z;
  tp_validateTransaction : Transaction -> res unit;
  tp_cleanupInterval : Z;
}.

Definition set_transactions (tp : TxPool) (m : gmap Hash Transaction) : TxPool :=
  {| tp_transactions := m; tp_maxSize := tp_maxSize tp; tp_txExpiry := tp_txExpiry tp;
     tp_validateTransaction := tp_validateTransaction tp;
     tp_cleanupInterval := tp_cleanupInterval tp |}.

Definition validateTransactionDefault (tx : Transaction) : res unit :=
  if tx_Amount tx =? 0 then Err (ErrMsg "transaction amount must be greater than zero")
  else Ok tt.

Definition NewTxPool : TxPool :=
  {| tp_transactions := ∅; tp_maxSize := DefaultMaxPoolSize; tp_txExpiry := DefaultTxExpiry;
     tp_validateTransaction := validateTransactionDefault;
     tp_cleanupInterval := DefaultCleanupInterval |}.

Definition NewTxPoolWithOptions (maxSize txExpiry cleanupInterval : Z)
    (validateFn : option (Transaction -> res unit)) : TxPool :=
  {| tp_transactions := ∅; tp_maxSize := maxSize; tp_txExpiry := txExpiry;
     tp_validateTransaction := default validateTransactionDefault validateFn;
     tp_cleanupInterval := cleanupInterval |}.

Definition SetMaxSize (tp : TxPool) (max : Z) : TxPool :=
  {| tp_transactions := tp_transactions tp; tp_maxSize := max; tp_txExpiry := tp_txExpiry tp;
     tp_validateTransaction := tp_validateTransaction tp;
     tp_cleanupInterval := tp_cleanupInterval tp |}.
Definition SetTxExpiry (tp : TxPool) (expiry : Z) : TxPool :=
  {| tp_transactions := tp_transactions tp; tp_maxSize := tp_maxSize tp; tp_txExpiry := expiry;
     tp_validateTransaction := tp_validateTransaction tp;
     tp_cleanupInterval := tp_cleanupInterval tp |}.

(** The loop of [evictTransaction]: the entry with the smallest timestamp so
    far, starting from the zero hash and [math.MaxInt64]. *)
Definition oldest_step (m : gmap Hash Transaction) (acc : Hash * Z) (txID : Hash) : Hash * Z :=
  match m !! txID with
  | Some tx => if tx_Timestamp tx <? acc.2 then (txID, tx_Timestamp tx) else acc
  | None => acc
  end.
Definition oldest (m : gmap Hash Transaction) (ord : list Hash) : Hash * Z :=
  fold_left (oldest_step m) ord (ZeroHash, MaxInt64).

Definition evictTransaction (tp : TxPool) (ord : list Hash) : TxPool * Hash :=
  let oldestTxID := (oldest (tp_transactions tp) ord).1 in
  if negb (bool_decide (Hash_String oldestTxID = []))
  then (set_transactions tp (delete oldestTxID (tp_transactions tp)), oldestTxID)
  else (tp, ZeroHash).

Definition set_Timestamp (tx : Transaction) (t : Z) : Transaction :=
  {| tx_ID := tx_ID tx; tx_Sender := tx_Sender tx; tx_Recipient := tx_Recipient tx;
     tx_Amount := tx_Amount tx; tx_Fee := tx_Fee tx; tx_Nonce := tx_Nonce tx;
     tx_Timestamp := t; tx_Signature := tx_Signature tx;
     tx_SignatureType := tx_SignatureType tx; tx_Payload := tx_Payload tx |}.

Definition pool_size (tp : TxPool) : Z := Z.of_nat (size (tp_transactions tp)).

(** The last two lines of [AddTransaction]. *)
Definition insert_tx (now : Z) (tp : TxPool) (tx : Transaction) : TxPool * res Transaction :=
  let tx' := set_Timestamp tx now in
  (set_transactions tp (<[tx_ID tx := tx']> (tp_transactions tp)), Ok tx').

Definition AddTransaction (now : Z) (ord : list Hash) (tp : TxPool) (tx : Transaction)
    : TxPool * res Transaction :=
  match tp_validateTransaction tp tx with
  | Err e => (tp, Err e)
  | Panic => (tp, Panic)
  | Ok _ =>
      match tp_transactions tp !! tx_ID tx with
      | Some _ => (tp, Err (ErrMsg "transaction already exists in the pool"))
      | None =>
          if tp_maxSize tp <=? pool_size tp then
            let '(tp, evicted) := evictTransaction tp ord in
            if IsZeroHash evicted
            then (tp, Err (ErrMsg "transaction pool is full and eviction failed"))
            else insert_tx now tp tx
          else insert_tx now tp tx
      end
  end.

Definition nonce_le (a b : Transaction) : Prop := tx_Nonce a <= tx_Nonce b.
#[export] Instance nonce_le_dec a b : Decision (nonce_le a b).
Proof. unfold nonce_le. apply _. Defined.
Definition fee_ge (a b : Transaction) : Prop := tx_Fee b <= tx_Fee a.
#[export] Instance fee_ge_dec a b : Decision (fee_ge a b).
Proof. unfold fee_ge. apply _. Defined.

(** [sort.Slice] promises nothing on the order of equal elements; since the
    order of the input is arbitrary already, sorting it stably covers every
    outcome. *)
Definition sortTransactionsByNonceAsc (txs : list Transaction) : list Transaction :=
  merge_sort nonce_le txs.
Definition sortTransactionsByFeeDesc (txs : list Transaction) : list Transaction :=
  merge_sort fee_ge txs.

Definition GetTransactions (tp : TxPool) (ord : list Hash) (max : Z) : res (list Transaction) :=
  let txs := omap (fun k => tp_transactions tp !! k) ord in
  let txs := sortTransactionsByNonceAsc txs in
  let max := if Zlen txs <? max then Zlen txs else max in
  slice txs 0 max.

Definition RemoveTransactions (tp : TxPool) (txIDs : list Hash) : TxPool :=
  set_transactions tp (fold_left (fun m txID => delete txID m) txIDs (tp_transactions tp)).
Definition RemoveTransaction (tp : TxPool) (txID : Hash) : TxPool :=
  set_transactions tp (delete txID (tp_transactions tp)).
Definition GetTransaction (tp : TxPool) (txID : Hash) : option Transaction :=
  tp_transactions tp !! txID.
Definition Size (tp : TxPool) : Z := pool_size tp.

(** One tick of the two cleanup loops, [now-tx.Timestamp] being an [int64]. *)
Definition expired (tp : TxPool) (now : Z) (tx : Transaction) : bool :=
  tp_txExpiry tp <? i64 (now - tx_Timestamp tx).
Definition cleanup_step (tp : TxPool) (now : Z) (m : gmap Hash Transaction) (txID : Hash)
    : gmap Hash Transaction :=
  match m !! txID with
  | Some tx => if expired tp now tx then delete txID m else m
  | None => m
  end.
Definition cleanupExpiredTransactions (now : Z) (ord : list Hash) (tp : TxPool) : TxPool :=
  set_transactions tp (fold_left (cleanup_step tp now) ord (tp_transactions tp)).

(** * The oldest entry *)

(** What the eviction loop has found once it has visited [seen]. *)
Definition oldest_inv (m : gmap Hash Transaction) (seen : list Hash) (acc : Hash * Z) : Prop :=
  (acc = (ZeroHash, MaxInt64) \/
   exists tx, m !! acc.1 = Some tx /\ tx_Timestamp tx = acc.2 /\ acc.2 < MaxInt64) /\
  forall id tx, id ∈ seen -> m !! id = Some tx -> acc.2 <= tx_Timestamp tx \/ acc.2 = MaxInt64 /\ MaxInt64 <= tx_Timestamp tx.

Lemma oldest_fold m ord seen acc :
  oldest_inv m seen acc -> oldest_inv m (seen ++ ord) (fold_left (oldest_step m) ord acc).
Proof.
  revert seen acc. induction ord as [|id ord IH]; intros seen acc Hinv; cbn [fold_left].
  { by rewrite app_nil_r. }
  replace (seen ++ id :: ord) with ((seen ++ [id]) ++ ord) by (by rewrite <- app_assoc).
  apply IH. destruct Hinv as [Hacc Hmin]. unfold oldest_step.
  destruct (m !! id) as [tx|] eqn:E.
  - destruct (Z.ltb_spec (tx_Timestamp tx) acc.2) as [Hlt|Hge].
    + split.
      * right. exists tx. cbn [fst snd]. split; [done|]. split; [done|].
        destruct Hacc as [->|(? & _ & _ & ?)]; cbn [snd] in *; lia.
      * cbn [snd]. intros id' tx' [Hin| ->%list_elem_of_singleton]%elem_of_app Hid'.
        -- left. destruct (Hmin id' tx' Hin Hid'); lia.
        -- left. rewrite E in Hid'. injection Hid' as ->. lia.
    + split; [done|]. intros id' tx' [Hin| ->%list_elem_of_singleton]%elem_of_app Hid'; [by apply (Hmin id')|].
      rewrite E in Hid'. injection Hid' as ->. by left.
  - split; [done|]. intros id' tx' [Hin| ->%list_elem_of_singleton]%elem_of_app Hid'; [by apply (Hmin id')|].
    congruence.
Qed.

Lemma oldest_spec m ord :
  is_order m ord ->
  (oldest m ord = (ZeroHash, MaxInt64) /\
   forall id tx, m !! id = Some tx -> MaxInt64 <= tx_Timestamp tx) \/
  exists tx, m !! (oldest m ord).1 = Some tx /\ tx_Timestamp tx < MaxInt64 /\
    forall id' tx', m !! id' = Some tx' -> tx_Timestamp tx <= tx_Timestamp tx'.
Proof.
  intros Hord. destruct (oldest_fold m ord [] (ZeroHash, MaxInt64)) as [Hacc Hmin].
  { split; [by left|]. intros ?? Hin. by apply elem_of_nil in Hin. }
  cbn [app] in Hmin. fold (oldest m ord) in *.
  assert (forall id tx, m !! id = Some tx ->
    (oldest m ord).2 <= tx_Timestamp tx) as Hmin'.
  { intros id tx Hid. destruct (Hmin id tx) as [|[-> ?]]; [|done..].
    apply (is_order_elem m ord); [done|]. eauto. }
  destruct Hacc as [E|(tx & Htx & Hts & Hlt)].
  - left. rewrite E in *. done.
  - right. exists tx. rewrite Hts. eauto.
Qed.

Lemma Hash_String_nonempty h : Hash_ok h -> Hash_String h <> [].
Proof.
  unfold Hash_ok, Hash_String. intros H E.
  pose proof (length_hex_encode h) as Hl. rewrite E, H in Hl. done.
Qed.

Lemma IsZeroHash_spec h : Hash_ok h -> IsZeroHash h = true <-> h = ZeroHash.
Proof.
  intros Hh. unfold IsZeroHash. rewrite bool_decide_eq_true, Zlen_Hash by done. done.
Qed.

(** * The invariant *)

(** Every entry is stored under its identifier, which is a hash, and was
    accepted by the validation function of the pool. *)
Record pool_inv (tp : TxPool) : Prop := {
  inv_keys : forall id tx, tp_transactions tp !! id = Some tx -> tx_ID tx = id /\ Hash_ok id;
  inv_valid : forall id tx, tp_transactions tp !! id = Some tx ->
    exists t, tp_validateTransaction tp (set_Timestamp tx t) = Ok tt;
}.

Lemma set_Timestamp_same tx : set_Timestamp tx (tx_Timestamp tx) = tx.
Proof. by destruct tx. Qed.
Lemma set_Timestamp_twice tx t t' : set_Timestamp (set_Timestamp tx t) t' = set_Timestamp tx t'.
Proof. done. Qed.

Lemma pool_inv_shrink tp m :
  pool_inv tp -> m ⊆ tp_transactions tp -> pool_inv (set_transactions tp m).
Proof.
  intros [Hkeys Hvalid] Hsub. split; cbn [set_transactions tp_transactions tp_validateTransaction].
  - intros id tx H. by eapply Hkeys, lookup_weaken.
  - intros id tx H. by eapply Hvalid, lookup_weaken.
Qed.

Lemma pool_inv_insert now tp tx :
  pool_inv tp -> Hash_ok (tx_ID tx) ->
  tp_validateTransaction tp tx = Ok tt -> pool_inv (insert_tx now tp tx).1.
Proof.
  intros [Hkeys Hvalid] Hid Hok. unfold insert_tx. cbn [fst].
  split; cbn [set_transactions tp_transactions tp_validateTransaction].
  - intros id tx' [[<- <-]|[_ H]]%lookup_insert_Some; [done|by eapply Hkeys].
  - intros id tx' [[<- <-]|[_ H]]%lookup_insert_Some; [|by eapply Hvalid].
    exists (tx_Timestamp tx). by rewrite set_Timestamp_twice, set_Timestamp_same.
Qed.

Lemma evictTransaction_spec tp ord :
  pool_inv tp -> is_order (tp_transactions tp) ord ->
  (evictTransaction tp ord).1 =
    set_transactions tp (delete (evictTransaction tp ord).2 (tp_transactions tp)) /\
  ((evictTransaction tp ord).2 <> ZeroHash ->
   is_Some (tp_transactions tp !! (evictTransaction tp ord).2)) /\
  Hash_ok (evictTransaction tp ord).2.
Proof.
  intros [Hkeys _] Hord. unfold evictTransaction.
  assert (Hash_ok (oldest (tp_transactions tp) ord).1) as Hok.
  { destruct (oldest_spec _ _ Hord) as [[-> _]|(tx & Htx & _)]; [apply ZeroHash_ok|by eapply Hkeys]. }
  rewrite bool_decide_eq_false_2 by (by apply Hash_String_nonempty). cbn [negb fst snd].
  split; [done|]. split; [|done]. intros Hne.
  destruct (oldest_spec _ _ Hord) as [[E _]|(tx & Htx & _)]; [|eauto].
  by rewrite E in Hne.
Qed.

Lemma pool_inv_add now ord tp tx :
  pool_inv tp -> is_order (tp_transactions tp) ord -> Hash_ok (tx_ID tx) ->
  pool_inv (AddTransaction now ord tp tx).1.
Proof.
  intros Hinv Hord Hid. unfold AddTransaction.
  destruct (tp_validateTransaction tp tx) as [[]| |] eqn:Hval; [|done..].
  destruct (tp_transactions tp !! tx_ID tx); [done|].
  destruct (Z.leb_spec (tp_maxSize tp) (pool_size tp)) as [Hfull|]; [|by apply pool_inv_insert].
  destruct (evictTransaction_spec tp ord Hinv Hord) as (Htp & Hin & Hok).
  destruct (evictTransaction tp ord) as [tp' evicted]. cbn [fst snd] in *. subst tp'.
  assert (pool_inv (set_transactions tp (delete evicted (tp_transactions tp)))) as Hinv'
    by (apply pool_inv_shrink; [done|apply delete_subseteq]).
  destruct (IsZeroHash evicted) eqn:E; [done|]. by apply pool_inv_insert.
Qed.

Lemma pool_size_insert now tp tx : pool_size (insert_tx now tp tx).1 <= pool_size tp + 1.
Proof.
  unfold pool_size. cbn. rewrite map_size_insert. destruct (tp_transactions tp !! tx_ID tx); cbn; lia.
Qed.
Lemma pool_size_shrink tp m : m ⊆ tp_transactions tp -> pool_size (set_transactions tp m) <= pool_size tp.
Proof. intros Hsub. unfold pool_size. cbn. pose proof (map_subseteq_size _ _ Hsub). lia. Qed.
(** An addition takes the pool to its bound at most, or makes room first. *)
Lemma AddTransaction_size now ord tp tx :
  pool_inv tp -> is_order (tp_transactions tp) ord ->
  pool_size (AddTransaction now ord tp tx).1 <= Z.max (pool_size tp) (tp_maxSize tp).
Proof.
  intros Hinv Hord. unfold AddTransaction.
  destruct (tp_validateTransaction tp tx) as [[]| |]; [|cbn; lia..].
  destruct (tp_transactions tp !! tx_ID tx); [cbn; lia|].
  destruct (Z.leb_spec (tp_maxSize tp) (pool_size tp)) as [Hfull|].
  - destruct (evictTransaction_spec tp ord Hinv Hord) as (Htp & Hin & Hok).
    destruct (evictTransaction tp ord) as [tp' evicted]. cbn [fst snd] in *. subst tp'.
    pose proof (pool_size_shrink tp (delete evicted (tp_transactions tp)) (delete_subseteq _ _)) as Hle.
    destruct (IsZeroHash evicted) eqn:E; [cbn [fst]; lia|].
    assert (evicted <> ZeroHash) as Hne by (intros H%IsZeroHash_spec; [congruence|done]).
    etrans; [apply pool_size_insert|]. specialize (Hin Hne). unfold pool_size. cbn.
    rewrite map_size_delete_Some by done.
    assert (size (tp_transactions tp) <> 0%nat); [|unfold pool_size in *; lia].
    intros H0%map_size_empty_inv. rewrite H0 in Hin. by apply is_Some_None in Hin.
  - etrans; [apply pool_size_insert|]. lia.
Qed.

(** Cleaning up is a filter. *)
Lemma cleanup_fold tp now ord m id :
  fold_left (cleanup_step tp now) ord m !! id =
    match m !! id with
    | Some tx => if bool_decide (id ∈ ord) && expired tp now tx then None else Some tx
    | None => None
    end.
Proof.
  revert m. induction ord as [|k ord IH]; intros m; cbn [fold_left].
  { destruct (m !! id); [|done]. by rewrite bool_decide_eq_false_2 by apply not_elem_of_nil. }
  rewrite IH. unfold cleanup_step. destruct (decide (k = id)) as [->|Hne].
  - rewrite (bool_decide_eq_true_2 (id ∈ id :: ord)) by left.
    destruct (m !! id) as [tx|] eqn:E; [|by rewrite E].
    destruct (expired tp now tx) eqn:Hex; cbn [andb]; [by rewrite lookup_delete_eq|].
    by rewrite E, Hex, andb_false_r.
  - assert (match m !! k with Some tx => if expired tp now tx then delete k m else m | None => m end
      !! id = m !! id) as ->.
    { repeat case_match; [by rewrite lookup_delete_ne|done..]. }
    rewrite (bool_decide_ext (id ∈ k :: ord) (id ∈ ord)); [done|]. set_solver.
Qed.

Lemma cleanup_filter now ord tp :
  is_order (tp_transactions tp) ord ->
  tp_transactions (cleanupExpiredTransactions now ord tp) =
    filter (fun p => expired tp now p.2 = false) (tp_transactions tp).
Proof.
  intros Hord. unfold cleanupExpiredTransactions. cbn [set_transactions tp_transactions].
  apply map_eq. intros id. rewrite cleanup_fold, map_lookup_filter.
  destruct (tp_transactions tp !! id) as [tx|] eqn:E; [|done].
  rewrite bool_decide_eq_true_2 by (apply (is_order_elem _ _ id Hord); eauto). cbn [andb].
  destruct (expired tp now tx) eqn:Hex; cbn; by rewrite ?option_guard_True, ?option_guard_False by (cbn; congruence).
Qed.

Lemma RemoveTransactions_lookup ids m id :
  fold_left (fun m txID => delete txID m) ids m !! id =
    if bool_decide (id ∈ ids) then None else (m : gmap Hash Transaction) !! id.
Proof.
  revert m. induction ids as [|k ids IH]; intros m; cbn [fold_left].
  { by rewrite bool_decide_eq_false_2 by apply not_elem_of_nil. }
  rewrite IH. destruct (decide (id = k)) as [->|Hne].
  - rewrite lookup_delete_eq, (bool_decide_eq_true_2 (k ∈ k :: ids)) by left. by case_bool_decide.
  - rewrite lookup_delete_ne by done.
    rewrite (bool_decide_ext (id ∈ k :: ids) (id ∈ ids)); [done|]. set_solver.
Qed.

(** * The pool as a state machine *)
Inductive pool_step : TxPool -> TxPool -> Prop :=
| step_add now ord tp tx :
    is_order (tp_transactions tp) ord -> Hash_ok (tx_ID tx) ->
    pool_step tp (AddTransaction now ord tp tx).1
| step_remove tp id : pool_step tp (RemoveTransaction tp id)
| step_remove_many tp ids : pool_step tp (RemoveTransactions tp ids)
| step_cleanup now ord tp :
    is_order (tp_transactions tp) ord ->
    pool_step tp (cleanupExpiredTransactions now ord tp)
| step_expiry tp e : pool_step tp (SetTxExpiry tp e)
| step_bound tp max : pool_step tp (SetMaxSize tp max).

Lemma pool_step_inv tp tp' : pool_step tp tp' -> pool_inv tp -> pool_inv tp'.
Proof.
  intros Hstep Hinv.
  destruct Hstep as [now ord tp tx Hord Hid|tp id|tp ids|now ord tp Hord|tp e|tp max].
  - by apply pool_inv_add.
  - apply pool_inv_shrink; [done|apply delete_subseteq].
  - apply pool_inv_shrink; [done|]. apply map_subseteq_spec. intros id tx.
    rewrite RemoveTransactions_lookup. by case_bool_decide.
  - assert (cleanupExpiredTransactions now ord tp = set_transactions tp
      (filter (fun p => expired tp now p.2 = false) (tp_transactions tp))) as ->.
    { rewrite <- (cleanup_filter now ord) by done. done. }
    apply pool_inv_shrink; [done|apply map_filter_subseteq].
  - destruct Hinv. by split.
  - destruct Hinv. by split.
Qed.

Lemma pool_step_size tp tp' :
  pool_step tp tp' -> pool_inv tp -> pool_size tp' <= Z.max (pool_size tp) (tp_maxSize tp').
Proof.
  intros Hstep Hinv.
  destruct Hstep as [now ord tp tx Hord Hid|tp id|tp ids|now ord tp Hord|tp e|tp max].
  - etrans; [by apply AddTransaction_size|]. assert (tp_maxSize (AddTransaction now ord tp tx).1 = tp_maxSize tp)
      as ->; [|done]. unfold AddTransaction, evictTransaction, insert_tx. repeat case_match; simplify_eq/=; done.
  - etrans; [apply pool_size_shrink, delete_subseteq|lia].
  - etrans; [apply pool_size_shrink|lia]. apply map_subseteq_spec. intros id tx.
    rewrite RemoveTransactions_lookup. by case_bool_decide.
  - pose proof (cleanup_filter now ord tp Hord) as Hc. unfold pool_size in *. rewrite Hc.
    pose proof (map_subseteq_size _ _ (map_filter_subseteq (fun p => expired tp now p.2 = false)
      (tp_transactions tp))). lia.
  - unfold pool_size. cbn. lia.
  - unfold pool_size. cbn. lia.
Qed.

(** A run with the bounds it goes through. *)
Inductive pool_run (tp0 : TxPool) : list Z -> TxPool -> Prop :=
| pool_run_start : pool_run tp0 [tp_maxSize tp0] tp0
| pool_run_step bounds tp tp' :
    pool_run tp0 bounds tp -> pool_step tp tp' -> pool_run tp0 (bounds ++ [tp_maxSize tp']) tp'.

Lemma pool_run_inv tp0 bounds tp : pool_inv tp0 -> pool_run tp0 bounds tp -> pool_inv tp.
Proof. intros H0. induction 1 as [|bounds tp tp' _ IH Hs]; [done|]. by eapply pool_step_inv. Qed.

(** C12: after any sequence of additions, removals, cleanups and changes of the bound
    and the expiry time, whatever the iteration orders, a pool keeps every transaction
    under its own identifier and holds only transactions its validation function
    accepted; and, made with a bound that is not negative, it never holds more
    transactions than the largest bound it has had.
    No operation takes it past its bound: what it holds beyond a bound that was lowered
    was there before. *)
Theorem pool_reachable_inv (maxSize expiry interval : Z) (f : option (Transaction -> res unit))
    (bounds : list Z) (tp : TxPool) :
  pool_run (NewTxPoolWithOptions maxSize expiry interval f) bounds tp ->
  pool_inv tp /\
  (0 <= maxSize -> exists B, B ∈ bounds /\ pool_size tp <= B) /\
  (forall tp', pool_step tp tp' -> tp_maxSize tp' < pool_size tp' -> pool_size tp' <= pool_size tp).
Proof.
  set (tp0 := NewTxPoolWithOptions maxSize expiry interval f). intros Hrun.
  assert (pool_inv tp0) as H0 by (split; cbn; by intros ?? ?%lookup_empty_Some).
  pose proof (pool_run_inv _ _ _ H0 Hrun) as Hinv. split; [done|]. split.
  - intros Hmax. clear Hinv. induction Hrun as [|bounds tp tp' Hrun IH Hs].
    + exists maxSize. split; [by left|]. unfold pool_size. cbn. by rewrite map_size_empty.
    + destruct IH as (B & HB & Hle).
      pose proof (pool_step_size _ _ Hs (pool_run_inv _ _ _ H0 Hrun)) as Hsize.
      destruct (Z.le_ge_cases (tp_maxSize tp') B).
      * exists B. split; [apply elem_of_app; by left|lia].
      * exists (tp_maxSize tp'). split; [apply elem_of_app; right; by left|lia].
  - intros tp' Hs Hlt. pose proof (pool_step_size _ _ Hs Hinv). lia.
Qed.

Definition small_pool : TxPool := NewTxPoolWithOptions 1 100 10 None.

Definition transaction_other : Transaction :=
  {| tx_ID := byte_of_Z <$> seqZ 77 32; tx_Sender := ZeroAddress; tx_Recipient := ZeroAddress;
     tx_Amount := 1; tx_Fee := 0; tx_Nonce := 3; tx_Timestamp := 0; tx_Signature := [];
     tx_SignatureType := UnknownSignerType; tx_Payload := [] |}.
(** A pool of one place: the second transaction evicts the first. *)
Definition pool_one : TxPool := (AddTransaction 5 [] small_pool transaction_example).1.
Definition pool_two : TxPool :=
  (AddTransaction 7 [tx_ID transaction_example] pool_one transaction_other).1.
Lemma order_one : is_order (tp_transactions pool_one) [tx_ID transaction_example].
Proof. unfold is_order. vm_compute. reflexivity. Qed.
Example pool_two_evicted :
  GetTransaction pool_two (tx_ID transaction_example) = None /\
  GetTransaction pool_two (tx_ID transaction_other) = Some (set_Timestamp transaction_other 7).
Proof. vm_compute. split; reflexivity. Qed.

(** The bound goes down to zero, and the pool keeps its transaction. *)
Lemma pool_reachable_inv_witness :
  pool_inv (SetMaxSize pool_two 0) /\ exists B, B ∈ [1; 1; 1; 0] /\ pool_size (SetMaxSize pool_two 0) <= B.
Proof.
  destruct (pool_reachable_inv 1 100 10 None [1; 1; 1; 0] (SetMaxSize pool_two 0)) as (H1 & H2 & _).
  - refine (pool_run_step _ [1; 1; 1] pool_two (SetMaxSize pool_two 0) _ (step_bound _ _)).
    refine (pool_run_step _ [1; 1] pool_one pool_two _ _);
      [|apply step_add; [apply order_one|reflexivity]].
    refine (pool_run_step _ [1] small_pool pool_one (pool_run_start small_pool) _).
    apply (step_add 5 [] small_pool transaction_example); [unfold is_order; reflexivity|reflexivity].
  - split; [exact H1|]. apply H2. discriminate.
Defined.

(** C27: adding a valid new transaction to a full pool evicts a transaction with
    the smallest timestamp, whatever the iteration order, keeps every other
    one, and stores the new one stamped with the current time.  A pool with room
    just grows.  The call fails without a change when the transaction is not valid
    or known already, and it fails in a full pool when the zero hash was to be
    evicted: when no timestamp is below the largest integer, or when the oldest
    transaction has the zero hash for its identifier.  That transaction is gone then,
    although the call failed. *)
Theorem AddTransaction_spec (now : Z) (ord : list Hash) (tp : TxPool) (tx : Transaction) :
  pool_inv tp -> is_order (tp_transactions tp) ord -> Hash_ok (tx_ID tx) ->
  let m := tp_transactions tp in
  let '(tp', r) := AddTransaction now ord tp tx in
  let m' := tp_transactions tp' in
  match r with
  | Ok tx' =>
      tp_validateTransaction tp tx = Ok tt /\ m !! tx_ID tx = None /\
      tx' = set_Timestamp tx now /\
      if tp_maxSize tp <=? pool_size tp
      then exists old oldtx, m !! old = Some oldtx /\ old <> ZeroHash /\
             (forall id t, m !! id = Some t -> tx_Timestamp oldtx <= tx_Timestamp t) /\
             m' = <[tx_ID tx := tx']> (delete old m)
      else m' = <[tx_ID tx := tx']> m
  | Err e =>
      m' = m /\ (tp_validateTransaction tp tx = Err e \/
        tp_validateTransaction tp tx = Ok tt /\ is_Some (m !! tx_ID tx)) \/
      tp_validateTransaction tp tx = Ok tt /\ m !! tx_ID tx = None /\
      tp_maxSize tp <= pool_size tp /\ m' = delete ZeroHash m /\
      ((forall id t, m !! id = Some t -> MaxInt64 <= tx_Timestamp t) \/
       exists z, m !! ZeroHash = Some z /\
         forall id t, m !! id = Some t -> tx_Timestamp z <= tx_Timestamp t)
  | Panic => tp_validateTransaction tp tx = Panic
  end.
Proof.
  intros Hinv Hord Hid. cbv zeta. unfold AddTransaction.
  destruct (tp_validateTransaction tp tx) as [[]| |] eqn:Hval; [|by eauto|done].
  destruct (tp_transactions tp !! tx_ID tx) eqn:Hnew; [left; eauto 10|].
  destruct (Z.leb_spec (tp_maxSize tp) (pool_size tp)) as [Hfull|]; [|done].
  destruct (evictTransaction_spec tp ord Hinv Hord) as (_ & _ & Hok).
  revert Hok. unfold evictTransaction.
  destruct (oldest_spec _ _ Hord) as [[E Hall]|(old & Hold & _ & Hmin)].
  - rewrite E. intros _. cbn. right. do 4 (split; [done|]). by left.
  - rewrite bool_decide_eq_false_2; [cbn [negb fst snd]; intros Hok|].
    + destruct (IsZeroHash _) eqn:HZ.
      * apply IsZeroHash_spec in HZ; [|done]. rewrite HZ in *. right. cbn.
        do 4 (split; [done|]). right. by exists old.
      * cbn. do 3 (split; [done|]). eexists _, old. split; [exact Hold|]. split; [|done].
        intros Hz%IsZeroHash_spec; [congruence|done].
    + apply Hash_String_nonempty. by eapply Hinv.
Qed.

Lemma AddTransaction_spec_witness :
  exists old oldtx, tp_transactions pool_one !! old = Some oldtx /\
    tp_transactions pool_two = <[tx_ID transaction_other := set_Timestamp transaction_other 7]>
      (delete old (tp_transactions pool_one)).
Proof.
  assert (pool_inv pool_one) as Hinv.
  { apply (pool_inv_add 5 [] small_pool); [|unfold is_order; reflexivity|reflexivity].
    split; intros id t H0; discriminate H0. }
  assert (AddTransaction 7 [tx_ID transaction_example] pool_one transaction_other =
    (pool_two, Ok (set_Timestamp transaction_other 7))) as E by (vm_compute; reflexivity).
  assert ((tp_maxSize pool_one <=? pool_size pool_one) = true) as E2 by (vm_compute; reflexivity).
  pose proof (AddTransaction_spec 7 [tx_ID transaction_example] pool_one transaction_other
    Hinv order_one ltac:(reflexivity)) as H.
  cbv zeta in H. rewrite E, E2 in H.
  destruct H as (_ & _ & _ & old & oldtx & H1 & _ & _ & H2).
  exists old, oldtx. split; [exact H1|exact H2].
Defined.

#[export] Instance nonce_le_total : Total nonce_le.
Proof. intros a b. unfold nonce_le. lia. Qed.
#[export] Instance nonce_le_trans : Transitive nonce_le.
Proof. intros a b c. unfold nonce_le. lia. Qed.

Lemma GetTransactions_cases (tp : TxPool) (ord : list Hash) (max : Z) :
  is_order (tp_transactions tp) ord ->
  (max < 0 -> GetTransactions tp ord max = Panic) /\
  (0 <= max -> exists txs rest,
     GetTransactions tp ord max = Ok txs /\
     Zlen txs = Z.min max (pool_size tp) /\
     txs ++ rest ≡ₚ (map_to_list (tp_transactions tp)).*2 /\
     StronglySorted nonce_le txs /\
     forall t r, t ∈ txs -> r ∈ rest -> tx_Nonce t <= tx_Nonce r).
Proof.
  intros Hord. unfold GetTransactions, sortTransactionsByNonceAsc.
  set (sorted := merge_sort nonce_le _).
  assert (sorted ≡ₚ (map_to_list (tp_transactions tp)).*2) as Hperm.
  { subst sorted. rewrite merge_sort_Permutation. by apply is_order_values. }
  assert (Zlen sorted = pool_size tp) as Hlen.
  { unfold Zlen, pool_size. by rewrite Hperm, length_fmap, length_map_to_list. }
  assert (StronglySorted nonce_le sorted) as Hsorted.
  { apply (StronglySorted_merge_sort _). }
  split.
  - intros Hneg. pose proof (Zlen_nonneg sorted).
    rewrite (proj2 (Z.ltb_ge _ _)) by lia. unfold slice.
    by rewrite Z.leb_refl, (proj2 (Z.leb_gt 0 max)) by lia.
  - intros Hpos. rewrite <- Hlen. pose proof (Zlen_nonneg sorted).
    set (n := if Zlen sorted <? max then Zlen sorted else max).
    assert (n = Z.min max (Zlen sorted)) as Hn by (subst n; destruct (Z.ltb_spec (Zlen sorted) max); lia).
    exists (take (Z.to_nat n) sorted), (drop (Z.to_nat n) sorted).
    rewrite <- (take_drop (Z.to_nat n) sorted) in Hsorted.
    apply StronglySorted_app in Hsorted as (Hbetween & Hs & _).
    split; [|split; [|split; [|split]]].
    + unfold slice. rewrite !(proj2 (Z.leb_le _ _)) by lia. cbn [andb].
      by rewrite Z.sub_0_r, drop_0.
    + unfold Zlen in *. rewrite length_take. lia.
    + by rewrite take_drop.
    + done.
    + intros t r Ht Hr. by apply (Hbetween t r).
Qed.

(** Asking for a non-negative number of transactions returns, whatever the
    iteration order, that many or all of them, taken from the pool without
    repetition, in ascending order of nonce, and no transaction left behind has
    a smaller nonce than one returned; a negative number panics. *)
Theorem GetTransactions_spec (tp : TxPool) (ord : list Hash) (max : Z) :
  is_order (tp_transactions tp) ord ->
  (max < 0 -> GetTransactions tp ord max = Panic) /\
  (0 <= max -> exists txs rest,
     GetTransactions tp ord max = Ok txs /\
     Zlen txs = Z.min max (pool_size tp) /\
     txs ++ rest ≡ₚ (map_to_list (tp_transactions tp)).*2 /\
     StronglySorted nonce_le txs /\
     forall t r, t ∈ txs -> r ∈ rest -> tx_Nonce t <= tx_Nonce r).
Proof. apply GetTransactions_cases. Qed.

Lemma GetTransactions_spec_witness :
  exists txs rest, GetTransactions pool_two [tx_ID transaction_other] 5 = Ok txs /\
    Zlen txs = Z.min 5 (pool_size pool_two) /\
    txs ++ rest ≡ₚ (map_to_list (tp_transactions pool_two)).*2 /\
    StronglySorted nonce_le txs /\
    forall t r, t ∈ txs -> r ∈ rest -> tx_Nonce t <= tx_Nonce r.
Proof.
  apply GetTransactions_spec; [unfold is_order; vm_compute; reflexivity|discriminate].
Defined.

(** A cleanup removes exactly the transactions older than the expiry time,
    whatever the iteration order. *)
Theorem cleanup_spec (now : Z) (ord : list Hash) (tp : TxPool) (id : Hash) :
  is_order (tp_transactions tp) ord ->
  (forall i t, tp_transactions tp !! i = Some t -> is_i64 (now - tx_Timestamp t)) ->
  GetTransaction (cleanupExpiredTransactions now ord tp) id =
    match GetTransaction tp id with
    | Some tx => if tx_Timestamp tx + tp_txExpiry tp <? now then None else Some tx
    | None => None
    end.
Proof.
  intros Hord Hrange. unfold GetTransaction, cleanupExpiredTransactions.
  cbn [set_transactions tp_transactions]. rewrite cleanup_fold.
  destruct (tp_transactions tp !! id) as [tx|] eqn:E; [|done].
  rewrite bool_decide_eq_true_2 by (apply (is_order_elem _ _ id Hord); eauto).
  unfold expired. rewrite i64_small by (by eapply Hrange).
  destruct (Z.ltb_spec (tp_txExpiry tp) (now - tx_Timestamp tx)),
    (Z.ltb_spec (tx_Timestamp tx + tp_txExpiry tp) now); (done || lia).
Qed.

Lemma cleanup_spec_witness :
  GetTransaction (cleanupExpiredTransactions 200 [tx_ID transaction_other] pool_two)
    (tx_ID transaction_other) = None.
Proof.
  rewrite cleanup_spec; [vm_compute; reflexivity|unfold is_order; vm_compute; reflexivity|].
  assert (tp_transactions pool_two =
    {[ tx_ID transaction_other := set_Timestamp transaction_other 7 ]}) as E
    by (apply (bool_decide_eq_true_1 _); vm_compute; reflexivity).
  rewrite E. intros i t [<- <-]%lookup_singleton_Some.
  split; [discriminate|reflexivity].
Defined.

(** [AddTransaction] overwrites the timestamp the identifier was computed
    from: unless the clock reads the same value, the stored transaction's
    identifier is no longer the hash of its contents (or the old and the new
    contents are a SHA-256 collision). *)
Theorem AddTransaction_stale_ID (now : Z) (ord : list Hash) (tp tp' : TxPool)
    (tx tx' : Transaction) :
  Transaction_ok tx -> is_i64 now -> tx_Timestamp tx <> now ->
  tx_ID tx = Transaction_ComputeHash tx ->
  AddTransaction now ord tp tx = (tp', Ok tx') ->
  tx_ID tx' <> Transaction_ComputeHash tx' \/
  collision [Transaction_preimage tx] [Transaction_preimage tx'].
Proof.
  intros Hok Hnow Hts Hid Hadd.
  assert (tx' = set_Timestamp tx now) as ->.
  { revert Hadd. unfold AddTransaction, insert_tx. repeat case_match; naive_solver. }
  cbn [set_Timestamp tx_ID]. rewrite Hid.
  assert (Transaction_ok (set_Timestamp tx now)) as Hok' by (destruct Hok; by split).
  destruct (decide (Transaction_ComputeHash tx =
    Transaction_ComputeHash (set_Timestamp tx now))) as [E|]; [right|by left].
  apply Sum256_commits in E as [E|?]; [|done].
  by apply (Transaction_preimage_inj tx (set_Timestamp tx now)) in E as (_ & _ & _ & _ & _ & ? & _).
Qed.

Definition fresh_transaction : Transaction :=
  match NewTransaction 100 ZeroAddress ZeroAddress 5 1 0 [] with
  | Ok tx => tx
  | _ => transaction_example
  end.
Lemma fresh_transaction_ok : Transaction_ok fresh_transaction.
Proof. split; vm_compute; (reflexivity || (split; [discriminate|reflexivity])). Qed.
Lemma AddTransaction_stale_ID_witness :
  tx_ID (set_Timestamp fresh_transaction 200) <>
    Transaction_ComputeHash (set_Timestamp fresh_transaction 200) \/
  collision [Transaction_preimage fresh_transaction]
    [Transaction_preimage (set_Timestamp fresh_transaction 200)].
Proof.
  apply (AddTransaction_stale_ID 200 [] small_pool
    (insert_tx 200 small_pool fresh_transaction).1 fresh_transaction);
    [apply fresh_transaction_ok|split; [discriminate|reflexivity]|discriminate|reflexivity..].
Defined.
