(* ===== verification/Storage.v ===== *)
(** [pkg/storage]: the [Provider] interface and its MDBX implementation [Db].
    (The manager of databases and the batch writer are in [BatchWriter.v].)

    MDBX is a parameter: the class [Mdbx] has the calls the code makes on an
    environment, [MdbxLaws] what the library documents of them.  The clients of
    the package rely only on [Provider] and [ProviderLaws], which [Db] is
    proved to satisfy.  A finite map is an instance of MDBX, so that concrete
    runs can be evaluated. *)
From stdpp Require Import sorting.
From S2P Require Import Prelude Bytes.

(** * The order of keys: lexicographic, on unsigned bytes *)
Fixpoint bytes_leb (a b : bytes) : bool :=
  match a, b with
  | [], _ => true
  | _ :: _, [] => false
  | x :: a, y :: b =>
      (Z_of_byte x <? Z_of_byte y) || (bool_decide (x = y) && bytes_leb a b)
  end.
Definition bytes_le (a b : bytes) : Prop := bytes_leb a b = true.
#[export] Instance bytes_le_dec a b : Decision (bytes_le a b).
Proof. unfold bytes_le. apply _. Defined.

Lemma bytes_le_cons x a y b :
  bytes_le (x :: a) (y :: b) <->
  Z_of_byte x < Z_of_byte y \/ x = y /\ bytes_le a b.
Proof.
  unfold bytes_le. cbn [bytes_leb].
  rewrite orb_true_iff, andb_true_iff, Z.ltb_lt, bool_decide_eq_true. done.
Qed.

#[export] Instance bytes_le_refl : Reflexive bytes_le.
Proof. intros a. induction a as [|x a IH]; [done|]. apply bytes_le_cons. by right. Qed.
#[export] Instance bytes_le_trans : Transitive bytes_le.
Proof.
  intros a. induction a as [|x a IH]; intros [|y b] [|z c]; try done.
  rewrite !bytes_le_cons. intros [?|[-> ?]] [?|[-> ?]]; [left; lia|by left|by left|right; eauto].
Qed.
#[export] Instance bytes_le_antisymm : AntiSymm (=) bytes_le.
Proof.
  intros a. induction a as [|x a IH]; intros [|y b]; try done.
  rewrite !bytes_le_cons. intros [?|[-> ?]] [?|[? ?]]; [lia|subst; lia|lia|f_equal; auto].
Qed.
#[export] Instance bytes_le_total : Total bytes_le.
Proof.
  intros a. induction a as [|x a IH]; intros [|y b]; [by left|by left|by right|].
  rewrite !bytes_le_cons.
  destruct (Z.lt_trichotomy (Z_of_byte x) (Z_of_byte y)) as [|[E%Z_of_byte_inj|]]; [tauto| |tauto].
  destruct (IH b); auto.
Qed.

(** The keys with a given prefix are an interval of the order. *)
Lemma prefix_le p k : has_prefix k p = true -> bytes_le p k.
Proof.
  intros [r ->]%has_prefix_spec. induction p as [|x p IH]; [done|].
  apply bytes_le_cons. by right.
Qed.
Lemma has_prefix_cons x k y p : has_prefix (x :: k) (y :: p) = true <-> x = y /\ has_prefix k p = true.
Proof. rewrite !has_prefix_spec. cbn [app]. naive_solver. Qed.
Lemma prefix_interval p k k' :
  bytes_le p k -> has_prefix k p = false -> bytes_le k k' -> has_prefix k' p = false.
Proof.
  revert k k'. induction p as [|x p IH]; intros k k' Hpk Hk Hle.
  { unfold has_prefix in Hk. by rewrite bool_decide_eq_false in Hk. }
  destruct k as [|y k]; [done|]. destruct k' as [|z k']; [done|].
  apply not_true_iff_false. rewrite has_prefix_cons. intros [-> Hp].
  apply bytes_le_cons in Hpk as [?|[-> ?]], Hle as [?|[Hyz Hle]]; try subst; try lia.
  apply not_false_iff_true in Hp. apply Hp. eapply IH; [done| |done].
  apply not_true_iff_false. intros Hp'. rewrite <- not_true_iff_false in Hk. apply Hk.
  by apply has_prefix_cons.
Qed.

(** The keys of a map in ascending order, and those from a key on. *)
Definition sorted_keys (m : gmap bytes bytes) : list bytes :=
  merge_sort bytes_le (map_to_list m).*1.
Definition keys_from (m : gmap bytes bytes) (k : bytes) : list bytes :=
  filter (bytes_le k) (sorted_keys m).
Definition keys_after (m : gmap bytes bytes) (k : bytes) : list bytes :=
  filter (fun k' => bytes_le k k' /\ k <> k') (sorted_keys m).
Definition keys_with_prefix (m : gmap bytes bytes) (p : bytes) : list bytes :=
  filter (fun k => has_prefix k p = true) (sorted_keys m).

(** * MDBX *)
Definition ErrNotFound : error := ErrMsg "MDBX_NOTFOUND: no matching key/data pair found".

(** An environment with its root database.  [Next] moves a cursor that stands
    on the given key. *)
Class Mdbx (E : Type) := {
  mdbx_BeginTxn : E -> res unit;
  mdbx_OpenCursor : E -> res unit;
  mdbx_Get : E -> bytes -> res bytes;
  mdbx_Put : E -> bytes -> bytes -> res E;
  mdbx_Del : E -> bytes -> res E;
  mdbx_SetRange : E -> bytes -> res bytes;
  mdbx_Next : E -> bytes -> res bytes;
}.

Definition found (l : list bytes) : res bytes :=
  match l with k :: _ => Ok k | [] => Err ErrNotFound end.

(** The documentation of the library: an open environment with a free reader slot
    begins transactions and opens cursors; reads and cursor moves reflect its
    contents, in key order; a write either fails and
    changes nothing or takes effect; deleting an absent key is an error. *)
Class MdbxLaws (E : Type) `{Mdbx E} := {
  mdbx_contents : E -> gmap bytes bytes;
  mdbx_BeginTxn_law e : mdbx_BeginTxn e = Ok tt;
  mdbx_OpenCursor_law e : mdbx_OpenCursor e = Ok tt;
  mdbx_Get_law e k : mdbx_Get e k =
    match mdbx_contents e !! k with Some v => Ok v | None => Err ErrNotFound end;
  mdbx_Put_law e k v e' : mdbx_Put e k v = Ok e' -> mdbx_contents e' = <[k := v]> (mdbx_contents e);
  mdbx_Put_no_panic e k v : no_panic (mdbx_Put e k v);
  mdbx_Del_law e k e' : mdbx_Del e k = Ok e' ->
    is_Some (mdbx_contents e !! k) /\ mdbx_contents e' = delete k (mdbx_contents e);
  mdbx_Del_no_panic e k : no_panic (mdbx_Del e k);
  mdbx_SetRange_law e k : mdbx_SetRange e k = found (keys_from (mdbx_contents e) k);
  mdbx_Next_law e k : mdbx_Next e k = found (keys_after (mdbx_contents e) k);
}.

(** [env.Update(fn)]: the transaction is committed when [fn] returns nil and
    aborted otherwise.  That it cannot be begun or committed is an error of [fn]. *)
Definition env_Update {E} (env : E) (fn : E -> res E) : E * res unit :=
  match fn env with
  | Ok env' => (env', Ok tt)
  | Err e => (env, Err e)
  | Panic => (env, Panic)
  end.

(** * provider.go *)
Definition ErrKeyNotFound : error := ErrMsg "key not found".

(** A context as the loop sees it: at its [i]-th check it is live or done. *)
Definition Context : Type := nat -> option error.
Definition Background : Context := fun _ => None.

(** The interface.  Listing is a loop; [fuel] bounds the number of its turns. *)
Class Provider (P : Type) := {
  Provider_ListKeysWithPrefix : nat -> P -> Context -> bytes -> res (list bytes);
  Provider_Set : P -> bytes -> bytes -> P * res unit;
  Provider_Get : P -> bytes -> res bytes;
  Provider_Exists : P -> bytes -> res bool;
  Provider_Delete : P -> bytes -> P * res unit;
}.

(** What the comments of the interface promise. *)
Class ProviderLaws (P : Type) `{Provider P} := {
  provider_contents : P -> gmap bytes bytes;
  Provider_Get_law p k : Provider_Get p k =
    match provider_contents p !! k with Some v => Ok v | None => Err ErrKeyNotFound end;
  Provider_Exists_law p k :
    Provider_Exists p k = Ok (bool_decide (is_Some (provider_contents p !! k)));
  Provider_Set_law p k v :
    match Provider_Set p k v with
    | (p', Ok _) => provider_contents p' = <[k := v]> (provider_contents p)
    | (p', Err _) => provider_contents p' = provider_contents p
    | (_, Panic) => False
    end;
  Provider_Delete_law p k :
    match Provider_Delete p k with
    | (p', Ok _) => is_Some (provider_contents p !! k) /\
                    provider_contents p' = delete k (provider_contents p)
    | (p', Err _) => provider_contents p' = provider_contents p
    | (_, Panic) => False
    end;
  Provider_List_law fuel p k :
    (size (provider_contents p) < fuel)%nat ->
    Provider_ListKeysWithPrefix fuel p Background k = Ok (keys_with_prefix (provider_contents p) k);
}.

(** * mdbx.go *)
Section Db.
Context {E : Type} `{Mdbx E}.

Definition Db_Set (db : E) (key value : bytes) : E * res unit :=
  env_Update db (fun txn => mdbx_Put txn key value).

(** [env.View(fn)]. *)
Definition env_View {A} (env : E) (fn : E -> res A) : res A :=
  _ ← mdbx_BeginTxn env; fn env.

Definition Db_Get (db : E) (key : bytes) : res bytes :=
  env_View db (fun txn =>
    match mdbx_Get txn key with
    | Err e => if errors_is e ErrNotFound then Err ErrKeyNotFound else Err e
    | r => r
    end).

Definition Db_Exists (db : E) (key : bytes) : res bool :=
  match env_View db (fun txn => mdbx_Get txn key) with
  | Ok _ => Ok true
  | Err e => if errors_is e ErrNotFound then Ok false else Err e
  | Panic => Panic
  end.

Definition Db_Delete (db : E) (key : bytes) : E * res unit :=
  env_Update db (fun txn => mdbx_Del txn key).

(** The [for] loop of [ListKeysWithPrefix], at its turn [i]. *)
Fixpoint list_keys_loop (fuel i : nat) (db : E) (ctx : Context) (prefixBytes key : bytes)
    (keys : list bytes) : res (list bytes) :=
  match fuel with
  | O => Panic
  | S fuel =>
      match ctx i with
      | Some e => Err e
      | None =>
          if negb (has_prefix key prefixBytes) then Ok keys
          else
            let keys := keys ++ [key] in
            match mdbx_Next db key with
            | Ok key => list_keys_loop fuel (S i) db ctx prefixBytes key keys
            | Err e => if bool_decide (e = ErrNotFound) then Ok keys
                       else Err (ErrWrap "failed to get next key from cursor" e)
            | Panic => Panic
            end
      end
  end.

Definition Db_ListKeysWithPrefix (fuel : nat) (db : E) (ctx : Context) (prefix : bytes)
    : res (list bytes) :=
  _ ← wrap "failed to begin MDBX read transaction" (mdbx_BeginTxn db);
  _ ← wrap "failed to open MDBX cursor" (mdbx_OpenCursor db);
  match mdbx_SetRange db prefix with
  | Ok key => list_keys_loop fuel 0 db ctx prefix key []
  | Err e => if bool_decide (e = ErrNotFound) then Ok []
             else Err (ErrWrap "failed to get key from cursor" e)
  | Panic => Panic
  end.
End Db.

#[export] Instance Db_Provider {E} `{Mdbx E} : Provider E := {
  Provider_ListKeysWithPrefix := Db_ListKeysWithPrefix;
  Provider_Set := Db_Set;
  Provider_Get := Db_Get;
  Provider_Exists := Db_Exists;
  Provider_Delete := Db_Delete;
}.

(** * A finite map as an MDBX environment *)
Abbreviation MemDb := (gmap bytes bytes).
#[export] Instance mem_mdbx : Mdbx MemDb := {
  mdbx_BeginTxn _ := Ok tt;
  mdbx_OpenCursor _ := Ok tt;
  mdbx_Get e k := match e !! k with Some v => Ok v | None => Err ErrNotFound end;
  mdbx_Put e k v := Ok (<[k := v]> e);
  mdbx_Del e k := match e !! k with Some _ => Ok (delete k e) | None => Err ErrNotFound end;
  mdbx_SetRange e k := found (keys_from e k);
  mdbx_Next e k := found (keys_after e k);
}.
#[export] Program Instance mem_mdbx_laws : MdbxLaws MemDb := {| mdbx_contents := id |}.
Next Obligation. done. Qed.
Next Obligation. done. Qed.
Next Obligation. done. Qed.
Next Obligation. cbn. by intros e k v e' [= <-]. Qed.
Next Obligation. done. Qed.
Next Obligation.
  intros e k e'. cbv [id]. cbn. destruct (e !! k) eqn:E; [|done]. intros [= <-]. eauto.
Qed.
Next Obligation. cbn. intros e k. by case_match. Qed.
Next Obligation. done. Qed.
Next Obligation. done. Qed.

(** * Listing in key order *)
Lemma sorted_keys_sorted m : StronglySorted bytes_le (sorted_keys m).
Proof. apply (StronglySorted_merge_sort _). Qed.
Lemma sorted_keys_perm m : sorted_keys m ≡ₚ (map_to_list m).*1.
Proof. apply merge_sort_Permutation. Qed.
Lemma sorted_keys_NoDup m : NoDup (sorted_keys m).
Proof. rewrite sorted_keys_perm. apply NoDup_fst_map_to_list. Qed.
Lemma elem_of_sorted_keys m k : k ∈ sorted_keys m <-> is_Some (m !! k).
Proof. rewrite sorted_keys_perm. by apply (is_order_elem m (map_to_list m).*1), is_order_exists. Qed.
Lemma length_sorted_keys m : length (sorted_keys m) = size m.
Proof. rewrite sorted_keys_perm. by rewrite length_fmap, length_map_to_list. Qed.

(** In a strictly sorted list, what follows the head of an upper part. *)
Lemma filter_after_head (P : bytes -> Prop) `{!forall k, Decision (P k)} l x r :
  (forall k k', P k -> bytes_le k k' -> P k') ->
  StronglySorted bytes_le l -> NoDup l -> filter P l = x :: r ->
  filter (fun k' => bytes_le x k' /\ x <> k') l = r.
Proof.
  intros Hup Hs. induction Hs as [|y l Hs IH Hall]; intros Hnd; [done|].
  apply NoDup_cons in Hnd as [Hy Hnd]. rewrite Forall_forall in Hall.
  rewrite filter_cons. destruct (decide (P y)) as [Hky|Hky].
  - intros [-> <-]%(inj2 cons). rewrite filter_cons_False by tauto.
    apply filter_ext_in. intros z Hz. split; [intros [? _]; by eapply Hup|].
    intros _. split; [by apply Hall|]. by intros ->.
  - intros Hf. rewrite filter_cons_False; [by apply IH|].
    intros [Hxy _]. apply Hky. apply Hup with x; [|done].
    assert (x ∈ filter P l) as Hx by (rewrite Hf; left).
    by apply list_elem_of_filter in Hx as [? _].
Qed.

Lemma keys_from_after m k x r : keys_from m k = x :: r -> keys_after m x = r.
Proof.
  apply filter_after_head; [|apply sorted_keys_sorted|apply sorted_keys_NoDup].
  intros ???. by transitivity k0.
Qed.
Lemma keys_after_after m k x r : keys_after m k = x :: r -> keys_after m x = r.
Proof.
  apply filter_after_head; [|apply sorted_keys_sorted|apply sorted_keys_NoDup].
  intros a b [Hka Hne] Hab. split; [by transitivity a|]. intros <-. apply Hne.
  by apply (anti_symm bytes_le).
Qed.

(** The listing loop on the keys that are left. *)
Lemma list_keys_loop_spec {E} `{MdbxLaws E} fuel i (db : E) p x r keys :
  keys_after (mdbx_contents db) x = r -> (length r < fuel)%nat ->
  bytes_le p x -> StronglySorted bytes_le (x :: r) ->
  list_keys_loop fuel i db Background p x keys =
    Ok (keys ++ filter (fun k => has_prefix k p = true) (x :: r)).
Proof.
  revert i x r keys. induction fuel as [|fuel IH]; intros i x r keys Hr Hf Hpx Hs; [lia|].
  cbn [list_keys_loop]. change (Background i) with (@None error). cbn match.
  apply StronglySorted_inv in Hs as [Hs' Hall].
  destruct (has_prefix x p) eqn:Hx; cbn [negb].
  - rewrite mdbx_Next_law, Hr, filter_cons_True by done.
    destruct r as [|y r]; cbn [found].
    + by rewrite bool_decide_eq_true_2.
    + apply Forall_cons in Hall as [Hxy _].
      rewrite (IH _ y r); [by rewrite <- app_assoc| | | |done].
      * by eapply keys_after_after.
      * cbn [length] in Hf. lia.
      * by transitivity x.
  - rewrite filter_cons_False by congruence.
    assert (filter (fun k => has_prefix k p = true) r = []) as ->; [|by rewrite app_nil_r].
    apply elem_of_nil_inv. intros z [Hzp Hz]%list_elem_of_filter.
    rewrite Forall_forall in Hall. by rewrite (prefix_interval p x z) in Hzp by auto.
Qed.

Lemma StronglySorted_filter {A} (R : A -> A -> Prop) (P : A -> Prop)
    `{!forall a, Decision (P a)} l :
  StronglySorted R l -> StronglySorted R (filter P l).
Proof.
  induction 1 as [|a l Hs IH Hall]; [constructor|]. rewrite filter_cons.
  case_decide; [|done]. constructor; [done|]. apply Forall_forall. intros b Hb.
  apply list_elem_of_filter in Hb as [_ Hb]. by eapply Forall_forall in Hall.
Qed.

Lemma Db_ListKeysWithPrefix_spec {E} `{MdbxLaws E} fuel (db : E) p :
  (size (mdbx_contents db) < fuel)%nat ->
  Db_ListKeysWithPrefix fuel db Background p = Ok (keys_with_prefix (mdbx_contents db) p).
Proof.
  intros Hf. unfold Db_ListKeysWithPrefix. rewrite mdbx_BeginTxn_law, mdbx_OpenCursor_law, !wrap_Ok, !bind_Ok, mdbx_SetRange_law.
  assert (keys_with_prefix (mdbx_contents db) p =
    filter (fun k => has_prefix k p = true) (keys_from (mdbx_contents db) p)) as ->.
  { unfold keys_with_prefix, keys_from. rewrite list_filter_filter. apply filter_ext_in.
    intros k _. split; [|tauto]. intros Hk. split; [done|by apply prefix_le]. }
  destruct (keys_from (mdbx_contents db) p) as [|x r] eqn:Hx; cbn [found].
  { by rewrite bool_decide_eq_true_2. }
  rewrite (list_keys_loop_spec _ _ _ _ _ r); [done| | | |].
  - by eapply keys_from_after.
  - pose proof (length_filter (bytes_le p) (sorted_keys (mdbx_contents db))) as Hl.
    fold (keys_from (mdbx_contents db) p) in Hl. rewrite Hx, length_sorted_keys in Hl.
    cbn [length] in Hl. lia.
  - assert (x ∈ keys_from (mdbx_contents db) p) as Hin by (rewrite Hx; left).
    by apply list_elem_of_filter in Hin as [? _].
  - rewrite <- Hx. apply StronglySorted_filter, sorted_keys_sorted.
Qed.

(** * The contract of the interface, and [Db] as an implementation *)

Lemma Db_Get_spec {E} `{MdbxLaws E} (db : E) k :
  Db_Get db k = match mdbx_contents db !! k with Some v => Ok v | None => Err ErrKeyNotFound end.
Proof. unfold Db_Get, env_View. rewrite mdbx_BeginTxn_law, bind_Ok, mdbx_Get_law. by destruct (mdbx_contents db !! k). Qed.

Lemma Db_Exists_spec {E} `{MdbxLaws E} (db : E) k :
  Db_Exists db k = Ok (bool_decide (is_Some (mdbx_contents db !! k))).
Proof. unfold Db_Exists, env_View. rewrite mdbx_BeginTxn_law, bind_Ok, mdbx_Get_law. by destruct (mdbx_contents db !! k). Qed.

Lemma Db_Set_spec {E} `{MdbxLaws E} (db : E) k v :
  match Db_Set db k v with
  | (p', Ok _) => mdbx_contents p' = <[k := v]> (mdbx_contents db)
  | (p', Err _) => mdbx_contents p' = mdbx_contents db
  | (_, Panic) => False
  end.
Proof.
  unfold Db_Set, env_Update. destruct (mdbx_Put db k v) eqn:Hp; [|done|].
  - by eapply mdbx_Put_law.
  - by apply mdbx_Put_no_panic in Hp.
Qed.

Lemma Db_Delete_spec {E} `{MdbxLaws E} (db : E) k :
  match Db_Delete db k with
  | (p', Ok _) => is_Some (mdbx_contents db !! k) /\
                  mdbx_contents p' = delete k (mdbx_contents db)
  | (p', Err _) => mdbx_contents p' = mdbx_contents db
  | (_, Panic) => False
  end.
Proof.
  unfold Db_Delete, env_Update. destruct (mdbx_Del db k) eqn:Hp; [|done|].
  - by apply mdbx_Del_law.
  - by apply mdbx_Del_no_panic in Hp.
Qed.

#[export] Instance Db_ProviderLaws {E} `{MdbxLaws E} : ProviderLaws E := {
  provider_contents := mdbx_contents;
  Provider_Get_law := Db_Get_spec;
  Provider_Exists_law := Db_Exists_spec;
  Provider_Set_law := Db_Set_spec;
  Provider_Delete_law := Db_Delete_spec;
  Provider_List_law := Db_ListKeysWithPrefix_spec;
}.

(** C10: the MDBX wrapper keeps the promises of the [Provider] interface: a
    successful [Set] is what [Get] then returns and touches no other key, a
    failed one changes nothing, [Get] of an absent key is [ErrKeyNotFound],
    and [ListKeysWithPrefix] terminates with exactly the keys that have the
    prefix, in ascending order. *)
Theorem Db_refines_Provider {E} `{MdbxLaws E} (db : E) (k v p : bytes) (fuel : nat) :
  (match Db_Set db k v with
   | (db', Ok _) => Db_Get db' k = Ok v /\ forall k', k' <> k -> Db_Get db' k' = Db_Get db k'
   | (db', Err _) => forall k', Db_Get db' k' = Db_Get db k'
   | (_, Panic) => False
   end) /\
  (match Db_Delete db k with
   | (db', Ok _) => Db_Get db' k = Err ErrKeyNotFound /\
                    forall k', k' <> k -> Db_Get db' k' = Db_Get db k'
   | (db', Err _) => forall k', Db_Get db' k' = Db_Get db k'
   | (_, Panic) => False
   end) /\
  (Db_Exists db k = Ok true <-> exists x, Db_Get db k = Ok x) /\
  (Db_Exists db k = Ok false <-> Db_Get db k = Err ErrKeyNotFound) /\
  ((size (mdbx_contents db) < fuel)%nat -> exists keys,
     Db_ListKeysWithPrefix fuel db Background p = Ok keys /\
     StronglySorted bytes_le keys /\ NoDup keys /\
     forall x, x ∈ keys <-> Db_Exists db x = Ok true /\ has_prefix x p = true).
Proof.
  pose proof (Db_Set_spec db k v) as HS. pose proof (Db_Delete_spec db k) as HD.
  split; [|split; [|split; [|split]]].
  - destruct (Db_Set db k v) as [db' [| |]]; [|intros k'|done]; setoid_rewrite Db_Get_spec; rewrite HS.
    + rewrite lookup_insert_eq. split; [done|]. intros. by rewrite lookup_insert_ne.
    + done.
  - destruct (Db_Delete db k) as [db' [| |]]; [destruct HD as [_ HD]|intros k'|done];
      setoid_rewrite Db_Get_spec; rewrite HD.
    + rewrite lookup_delete_eq. split; [done|]. intros. by rewrite lookup_delete_ne.
    + done.
  - rewrite Db_Exists_spec, Db_Get_spec. destruct (mdbx_contents db !! k); naive_solver.
  - rewrite Db_Exists_spec, Db_Get_spec. destruct (mdbx_contents db !! k); naive_solver.
  - intros Hf. exists (keys_with_prefix (mdbx_contents db) p). split; [by apply Db_ListKeysWithPrefix_spec|].
    split; [apply StronglySorted_filter, sorted_keys_sorted|].
    split; [apply NoDup_filter, sorted_keys_NoDup|]. intros x.
    unfold keys_with_prefix. rewrite list_elem_of_filter, elem_of_sorted_keys, Db_Exists_spec.
    destruct (mdbx_contents db !! x); naive_solver.
Qed.

Definition mem_example : MemDb :=
  {[ str "peer:b" := str "2"; str "peer:a" := str "1"; str "other" := str "3" ]}.
Lemma Db_refines_Provider_witness :
  exists keys, Db_ListKeysWithPrefix 4 mem_example Background (str "peer:") = Ok keys /\
    StronglySorted bytes_le keys /\ NoDup keys /\
    forall x, x ∈ keys <-> Db_Exists mem_example x = Ok true /\ has_prefix x (str "peer:") = true.
Proof.
  apply (Db_refines_Provider mem_example [] [] (str "peer:") 4). vm_compute. lia.
Defined.
Example list_example :
  Db_ListKeysWithPrefix 4 mem_example Background (str "peer:") = Ok [str "peer:a"; str "peer:b"].
Proof. vm_compute. reflexivity. Qed.

(** What a client of the interface uses. *)
Lemma Provider_Set_Get {P} `{ProviderLaws P} (p p' : P) k v :
  Provider_Set p k v = (p', Ok tt) -> Provider_Get p' k = Ok v.
Proof.
  intros E. pose proof (Provider_Set_law p k v) as HS. rewrite E in HS.
  by rewrite Provider_Get_law, HS, lookup_insert_eq.
Qed.
Lemma Provider_Set_Get_ne {P} `{ProviderLaws P} (p p' : P) k k' v r :
  Provider_Set p k v = (p', r) -> k' <> k -> Provider_Get p' k' = Provider_Get p k'.
Proof.
  intros E Hne. pose proof (Provider_Set_law p k v) as HS. rewrite E in HS.
  rewrite !Provider_Get_law. destruct r; [rewrite HS|by rewrite HS|done].
  by rewrite lookup_insert_ne.
Qed.
