(* ===== verification/BatchWriter.v ===== *)
(** [pkg/storage/manager.go] and [pkg/storage/writer.go]: the manager of
    databases, and the batch writer with its worker goroutines.

    A worker's actions (receiving a request, a tick of its ticker, stopping)
    each run under the worker's lock and are the steps of a transition system, next
    to [BufferWrite] and [FlushAndStop]; the channels are queues of at most
    [channel_capacity] requests.  The database may refuse a flush. *)
From Stdlib Require Import Strings.Byte.
From S2P Require Import Prelude Bytes Storage.

(** * manager.go *)
Module Manager.
Section Manager.
(** A handle on an open database.  [mdbx_open] is the sequence of library calls
    of [NewDb] (geometry, options, opening the environment and its root). *)
Context {H : Type}.

Record MdbxNode := {
  node_Name : string;
  node_Path : string;
  node_MaxReaders : Z;
  node_MaxSize : Z;
  node_MinSize : Z;
  node_GrowthStep : Z;
  node_FilePermissions : Z;
}.

Context (mdbx_open : MdbxNode -> Z -> Z -> Z -> res H).

Definition NewDb (opts : MdbxNode) : res H :=
  let maxSize := i64 (node_MaxSize opts * 1024 * 1024 * 1024) in
  let minSize := i64 (node_MinSize opts * 1024 * 1024) in
  let growthStep := node_GrowthStep opts in
  if maxSize <? minSize
  then Err (ErrMsg "minSize (%d bytes) cannot be greater than maxSize (%d bytes)")
  else mdbx_open opts minSize maxSize growthStep.

Record Manager := {
  m_enabled : bool;
  m_nodes : list MdbxNode;
  m_dbs : gmap string H;
}.
Definition set_dbs (m : Manager) (dbs : gmap string H) : Manager :=
  {| m_enabled := m_enabled m; m_nodes := m_nodes m; m_dbs := dbs |}.

Definition open_node (dbs : gmap string H) (node : MdbxNode) : res (gmap string H) :=
  db ← NewDb node;
  Ok (<[node_Name node := db]> dbs).

Definition NewManager (enabled : bool) (nodes : list MdbxNode) : res Manager :=
  dbs ← (if enabled
         then fold_res open_node ∅ nodes
         else Ok ∅);
  Ok {| m_enabled := enabled; m_nodes := nodes; m_dbs := dbs |}.

Definition default_node (name : string) : MdbxNode := {|
  node_Name := name; node_Path := "./data/" ++ name ++ ".mdbx";
  node_MaxReaders := 126; node_MaxSize := 1024; node_MinSize := 1;
  node_GrowthStep := 10 * 1024 * 1024; node_FilePermissions := 384 |}.

Definition CreateDb (m : Manager) (name : string) : res (Manager * H) :=
  match m_dbs m !! name with
  | Some _ => Err (ErrMsg "database %s already exists")
  | None =>
      db ← NewDb (default_node name);
      Ok (set_dbs m (<[name := db]> (m_dbs m)), db)
  end.

Definition GetDb (m : Manager) (name : string) : res H :=
  match m_dbs m !! name with
  | Some db => Ok db
  | None => Err (ErrMsg "mdbx database not found: %s")
  end.

(** [Close] over a world in which handles are closed one by one; the first
    failure ends the loop. *)
Definition Close {W} (db_Close : W -> H -> res W) (m : Manager) (ord : list string) (w : W)
    : res W :=
  fold_res (fun w name => match m_dbs m !! name with Some db => db_Close w db | None => Ok w end) w ord.

(** A database is found under exactly the names configured or created;
    creating one that exists is refused, and creating another leaves the
    databases that exist where they were. *)
Theorem Manager_spec (m : Manager) (name : string) (nodes : list MdbxNode) :
  (forall m', NewManager true nodes = Ok m' ->
     (is_ok (GetDb m' name) = true <-> exists node, node ∈ nodes /\ node_Name node = name)) /\
  (is_ok (GetDb m name) = true -> is_ok (CreateDb m name) = false) /\
  (forall m' db, CreateDb m name = Ok (m', db) ->
     GetDb m' name = Ok db /\ forall other, other <> name -> GetDb m' other = GetDb m other).
Proof.
  assert (forall dbs dbs', fold_res open_node dbs nodes = Ok dbs' ->
    is_Some (dbs' !! name) <-> is_Some (dbs !! name) \/ exists node, node ∈ nodes /\ node_Name node = name) as Hfold.
  { induction nodes as [|node nodes IH]; intros dbs dbs'; cbn [fold_res].
    - intros [= <-]. split; [by left|]. intros [?|(? & ?%elem_of_nil & _)]; done.
    - intros (dbs1 & Hn & Hr)%bind_Ok_inv. apply IH in Hr. rewrite Hr.
      unfold open_node in Hn. res_inv.
      rewrite lookup_insert_is_Some. setoid_rewrite elem_of_cons.
      destruct (decide (node_Name node = name)); naive_solver. }
  split; [|split].
  - unfold NewManager, GetDb. intros m' (dbs & Hm & [= <-])%bind_Ok_inv. cbn [m_dbs].
    apply Hfold in Hm. rewrite lookup_empty in Hm. destruct (dbs !! name); cbn; naive_solver.
  - unfold GetDb, CreateDb. by destruct (m_dbs m !! name).
  - unfold GetDb, CreateDb. intros m' db. destruct (m_dbs m !! name) eqn:E; [done|]. intros Hc. res_inv.
    cbn. rewrite lookup_insert_eq. split; [done|]. intros. by rewrite lookup_insert_ne.
Qed.
End Manager.
End Manager.

(** * writer.go *)
Module Writer.

Record WriteRequest := { Key : bytes; Value : bytes }.

Record Worker := {
  w_channel : list WriteRequest;
  w_buffer : gmap bytes bytes;
  w_running : bool;
}.

Record BatchWriter := {
  bw_workers : list Worker;
  bw_maxBatchSize : Z;
  bw_stopped : bool;
}.

Definition channel_capacity : Z := 500000.

Definition new_worker : Worker := {| w_channel := []; w_buffer := ∅; w_running := true |}.
(** [make] panics on a negative number of workers. *)
Definition NewBatchWriter (maxBatchSize workers : Z) : res BatchWriter :=
  if workers <? 0 then Panic
  else Ok {| bw_workers := replicate (Z.to_nat workers) new_worker;
             bw_maxBatchSize := maxBatchSize; bw_stopped := false |}.

Definition set_worker (bw : BatchWriter) (i : nat) (w : Worker) : BatchWriter :=
  {| bw_workers := <[i := w]> (bw_workers bw); bw_maxBatchSize := bw_maxBatchSize bw;
     bw_stopped := bw_stopped bw |}.

(** [int(key[0]) % bw.workers], for a number of workers that is not zero. *)
Definition worker_of (n : nat) (key : bytes) : nat :=
  Z.to_nat (Z_of_byte (nth 0 key x00) mod Z.of_nat n).

(** [BufferWrite]; [None] when the channel is full and the caller has to wait. *)
Definition BufferWrite (bw : BatchWriter) (key value : bytes) : res (option BatchWriter) :=
  if Zlen (bw_workers bw) =? 0 then Panic
  else
    let workerID := worker_of (length (bw_workers bw)) key in
    match bw_workers bw !! workerID with
    | None => Panic
    | Some w =>
        if channel_capacity <=? Zlen (w_channel w) then Ok None
        else Ok (Some (set_worker bw workerID
          {| w_channel := w_channel w ++ [{| Key := key; Value := value |}];
             w_buffer := w_buffer w; w_running := w_running w |}))
    end.

Section Worker.
Context {E : Type} `{Mdbx E}.

(** The transaction of [flush]: every buffered pair, in iteration order. *)
Definition write_buffer (buffer : gmap bytes bytes) (ord : list bytes) (txn : E) : res E :=
  _ ← wrap "failed to open cursor" (mdbx_OpenCursor txn);
  fold_res (fun txn key =>
    match buffer !! key with
    | Some value => wrap "failed to write key: %x" (mdbx_Put txn key value)
    | None => Ok txn
    end) txn ord.

(** [flush]: the error of the transaction is only logged. *)
Definition flush (db : E) (buffer : gmap bytes bytes) (ord : list bytes) : E * gmap bytes bytes :=
  if (size buffer =? 0)%nat then (db, buffer)
  else ((env_Update db (write_buffer buffer ord)).1, ∅).

(** The three cases of the [select] in [runWorker]. *)
Definition worker_receive (db : E) (bw : BatchWriter) (i : nat) (ord : list bytes)
    : option (E * BatchWriter) :=
  match bw_workers bw !! i with
  | Some {| w_channel := req :: channel; w_buffer := buffer; w_running := true |} =>
      let buffer := <[Key req := Value req]> buffer in
      let '(db, buffer) :=
        if bw_maxBatchSize bw <=? Z.of_nat (size buffer) then flush db buffer ord
        else (db, buffer) in
      Some (db, set_worker bw i {| w_channel := channel; w_buffer := buffer; w_running := true |})
  | _ => None
  end.

Definition worker_tick (db : E) (bw : BatchWriter) (i : nat) (ord : list bytes)
    : option (E * BatchWriter) :=
  match bw_workers bw !! i with
  | Some {| w_channel := channel; w_buffer := buffer; w_running := true |} =>
      let '(db, buffer) := flush db buffer ord in
      Some (db, set_worker bw i {| w_channel := channel; w_buffer := buffer; w_running := true |})
  | _ => None
  end.

Definition worker_stop (db : E) (bw : BatchWriter) (i : nat) (ord : list bytes)
    : option (E * BatchWriter) :=
  match bw_workers bw !! i with
  | Some {| w_channel := channel; w_buffer := buffer; w_running := true |} =>
      if bw_stopped bw then
        let '(db, buffer) := flush db buffer ord in
        Some (db, set_worker bw i {| w_channel := channel; w_buffer := buffer; w_running := false |})
      else None
  | _ => None
  end.
End Worker.

(** Closing the stop channel a second time panics. *)
Definition FlushAndStop (bw : BatchWriter) : res BatchWriter :=
  if bw_stopped bw then Panic
  else Ok {| bw_workers := bw_workers bw; bw_maxBatchSize := bw_maxBatchSize bw;
             bw_stopped := true |}.

(** ** What the writes amount to *)

(** The last value written to a key by a queue of requests. *)
Definition last_write (reqs : list WriteRequest) (k : bytes) : option bytes :=
  fold_left (fun acc r => if bool_decide (Key r = k) then Some (Value r) else acc) reqs None.

Definition or_else {A} (o1 o2 : option A) : option A :=
  match o1 with Some _ => o1 | None => o2 end.

Section Correctness.
Context {E : Type} `{MdbxLaws E}.

(** The value of a key once all that is queued and buffered is written. *)
Definition view (db : E) (bw : BatchWriter) (k : bytes) : option bytes :=
  match bw_workers bw !! worker_of (length (bw_workers bw)) k with
  | Some w => or_else (last_write (w_channel w) k) (or_else (w_buffer w !! k) (mdbx_contents db !! k))
  | None => mdbx_contents db !! k
  end.

(** Only the keys of a worker are in its queue and in its buffer. *)
Definition routed (bw : BatchWriter) : Prop := forall i w,
  bw_workers bw !! i = Some w -> forall k,
  is_Some (w_buffer w !! k) \/ k ∈ (Key <$> w_channel w) ->
  worker_of (length (bw_workers bw)) k = i.

(** What happens to the writes: one is accepted, or a flush fails and its buffer is
    lost. *)
Inductive event :=
| Accepted (k v : bytes)
| Lost (buffer : gmap bytes bytes).
Definition flush_events (db : E) (buffer : gmap bytes bytes) (ord : list bytes) : list event :=
  if (size buffer =? 0)%nat || is_ok (env_Update db (write_buffer buffer ord)).2 then [] else [Lost buffer].

(** A transition: a caller writes or stops the writer, or a worker receives, ticks
    or stops. *)
Inductive writer_step : E * BatchWriter -> list event -> E * BatchWriter -> Prop :=
| step_write db bw k v bw' :
    BufferWrite bw k v = Ok (Some bw') -> writer_step (db, bw) [Accepted k v] (db, bw')
| step_signal db bw bw' : FlushAndStop bw = Ok bw' -> writer_step (db, bw) [] (db, bw')
| step_receive db bw i w req ord s :
    bw_workers bw !! i = Some w -> head (w_channel w) = Some req ->
    let buffer := <[Key req := Value req]> (w_buffer w) in
    is_order buffer ord -> worker_receive db bw i ord = Some s ->
    writer_step (db, bw)
      (if bw_maxBatchSize bw <=? Z.of_nat (size buffer) then flush_events db buffer ord else []) s
| step_tick db bw i w ord s :
    bw_workers bw !! i = Some w -> is_order (w_buffer w) ord ->
    worker_tick db bw i ord = Some s -> writer_step (db, bw) (flush_events db (w_buffer w) ord) s
| step_stop db bw i w ord s :
    bw_workers bw !! i = Some w -> is_order (w_buffer w) ord ->
    worker_stop db bw i ord = Some s -> writer_step (db, bw) (flush_events db (w_buffer w) ord) s.

(** A run from one state to another, with what happened on the way. *)
Inductive writer_run : E * BatchWriter -> list event -> E * BatchWriter -> Prop :=
| run_refl s : writer_run s [] s
| run_step s1 s2 s3 es es' : writer_step s1 es s2 -> writer_run s2 es' s3 -> writer_run s1 (es ++ es') s3.

Definition accepted (es : list event) : list (bytes * bytes) :=
  es ≫= fun e => match e with Accepted k v => [(k, v)] | Lost _ => [] end.
(** Was a write of this key in a flush that failed? *)
Definition lost (es : list event) (k : bytes) : Prop :=
  exists buffer, Lost buffer ∈ es /\ is_Some (buffer !! k).

Definition apply_writes (m : gmap bytes bytes) (ws : list (bytes * bytes)) : gmap bytes bytes :=
  fold_left (fun m w => <[w.1 := w.2]> m) ws m.

Lemma last_write_app l r k :
  last_write (l ++ [r]) k = if bool_decide (Key r = k) then Some (Value r) else last_write l k.
Proof. unfold last_write. by rewrite fold_left_app. Qed.

Lemma last_write_acc l k acc :
  fold_left (fun acc r => if bool_decide (Key r = k) then Some (Value r) else acc) l acc =
    or_else (last_write l k) acc.
Proof.
  unfold last_write. revert acc. induction l as [|r l IH]; intros acc; [done|]. cbn [fold_left].
  rewrite IH. rewrite (IH (if bool_decide (Key r = k) then _ else None)).
  destruct (bool_decide (Key r = k)); by destruct (fold_left _ l None).
Qed.

Lemma last_write_cons r l k :
  last_write (r :: l) k =
    or_else (last_write l k) (if bool_decide (Key r = k) then Some (Value r) else None).
Proof. unfold last_write at 1. cbn [fold_left]. apply last_write_acc. Qed.

Lemma last_write_notin l k : k ∉ (Key <$> l) -> last_write l k = None.
Proof.
  induction l as [|r l IH]; [done|]. rewrite fmap_cons, not_elem_of_cons, last_write_cons.
  intros [Hne Hin]. rewrite IH by done. by rewrite bool_decide_eq_false_2.
Qed.

(** A transaction that commits has written the whole buffer. *)
Lemma write_buffer_spec buffer ord db db' :
  write_buffer buffer ord db = Ok db' -> forall k,
  mdbx_contents db' !! k =
    or_else (if bool_decide (k ∈ ord) then buffer !! k else None) (mdbx_contents db !! k).
Proof.
  unfold write_buffer. rewrite mdbx_OpenCursor_law, wrap_Ok, bind_Ok.
  revert db. induction ord as [|k ord IH]; intros db; cbn [fold_res].
  { intros [= <-] k. by rewrite bool_decide_eq_false_2 by apply not_elem_of_nil. }
  destruct (buffer !! k) as [v|] eqn:Hk.
  - destruct (mdbx_Put db k v) as [db1| |] eqn:Hput; [|done..].
    cbn [wrap]. rewrite bind_Ok. intros Hw k'. rewrite (IH _ Hw), (mdbx_Put_law _ _ _ _ Hput).
    destruct (decide (k = k')) as [<-|Hne].
    + rewrite lookup_insert_eq, (bool_decide_eq_true_2 (k ∈ k :: ord)) by left.
      rewrite Hk. by case_bool_decide.
    + rewrite lookup_insert_ne by done.
      rewrite (bool_decide_ext (k' ∈ k :: ord) (k' ∈ ord)); [done|]. set_solver.
  - rewrite bind_Ok. intros Hw k'. rewrite (IH _ Hw).
    destruct (decide (k = k')) as [<-|Hne].
    + rewrite Hk. by do 2 case_bool_decide.
    + rewrite (bool_decide_ext (k' ∈ k :: ord) (k' ∈ ord)); [done|]. set_solver.
Qed.

(** A flush empties the buffer; it has written all of it or nothing, and then the
    buffer is lost. *)
Lemma flush_spec db buffer ord :
  is_order buffer ord ->
  (flush db buffer ord).2 = ∅ /\
  ((forall k, mdbx_contents (flush db buffer ord).1 !! k = or_else (buffer !! k) (mdbx_contents db !! k)) \/
   (flush db buffer ord).1 = db /\ flush_events db buffer ord = [Lost buffer]).
Proof.
  intros Hord. unfold flush, flush_events. destruct (Nat.eqb_spec (size buffer) 0) as [E0|_].
  - apply map_size_empty_inv in E0 as ->. split; [done|]. left. intros k. by rewrite lookup_empty.
  - split; [done|]. unfold env_Update.
    destruct (write_buffer buffer ord db) as [db'|e|] eqn:Hw; [left|by right..]. intros k. cbn [fst].
    rewrite (write_buffer_spec _ _ _ _ Hw).
    destruct (buffer !! k) eqn:Hk; [|by case_bool_decide].
    rewrite bool_decide_eq_true_2; [done|]. apply (is_order_elem _ _ k Hord). eauto.
Qed.

(** Apart from the keys of [L], the writer and the database together represent the
    map [m]; a worker that has stopped has nothing in its buffer. *)
Section Lossy.
Context (L : bytes -> Prop).
Record represents (s : E * BatchWriter) (m : gmap bytes bytes) : Prop := {
  rep_routed : routed s.2;
  rep_stopped : forall i w, bw_workers s.2 !! i = Some w -> w_running w = false -> w_buffer w = ∅;
  rep_view : forall k, ~ L k -> view s.1 s.2 k = m !! k;
}.

Definition worker_value (db : E) (w : Worker) (k : bytes) : option bytes :=
  or_else (last_write (w_channel w) k) (or_else (w_buffer w !! k) (mdbx_contents db !! k)).

Lemma represents_set db db' bw i w w' m :
  bw_workers bw !! i = Some w ->
  (forall k, worker_of (length (bw_workers bw)) k = i -> ~ L k -> worker_value db' w' k = worker_value db w k) ->
  (forall k, worker_of (length (bw_workers bw)) k <> i -> mdbx_contents db' !! k = mdbx_contents db !! k) ->
  (forall k, is_Some (w_buffer w' !! k) \/ k ∈ (Key <$> w_channel w') ->
             is_Some (w_buffer w !! k) \/ k ∈ (Key <$> w_channel w)) ->
  (w_running w' = false -> w_buffer w' = ∅) ->
  represents (db, bw) m -> represents (db', set_worker bw i w') m.
Proof.
  intros Hw Hi Hne Hkeys Hst [Hrouted Hstop Hview]. cbn [fst snd] in *.
  assert (i < length (bw_workers bw))%nat as Hlt by by eapply lookup_lt_Some.
  split; cbn [fst snd].
  - intros j wj. cbn [set_worker bw_workers]. rewrite length_insert.
    intros [(<- & <- & _)|[_ Hj]]%list_lookup_insert_Some k Hk; [|by eapply Hrouted].
    by eapply Hrouted; [|apply Hkeys].
  - intros j wj. cbn [set_worker bw_workers].
    intros [(<- & <- & _)|[_ Hj]]%list_lookup_insert_Some; [done|by eapply Hstop].
  - intros k Hk. rewrite <- Hview by done. unfold view. cbn [set_worker bw_workers]. rewrite length_insert.
    destruct (decide (worker_of (length (bw_workers bw)) k = i)) as [E0|E0].
    + rewrite E0, Hw, list_lookup_insert_eq by done. by apply Hi.
    + rewrite list_lookup_insert_ne by done. by rewrite Hne.
Qed.

Lemma represents_write db bw bw' k v m :
  BufferWrite bw k v = Ok (Some bw') -> represents (db, bw) m ->
  represents (db, bw') (<[k := v]> m).
Proof.
  unfold BufferWrite. case_match; [done|]. set (i := worker_of _ k).
  destruct (bw_workers bw !! i) as [w|] eqn:Hw; [|done]. case_match; [done|].
  intros [= <-] [Hrouted Hstop Hview]. cbn [fst snd] in *.
  assert (i < length (bw_workers bw))%nat as Hlt by by eapply lookup_lt_Some.
  split; cbn [fst snd].
  - intros j wj. cbn [set_worker bw_workers]. rewrite length_insert.
    intros [(<- & <- & _)|[_ Hj]]%list_lookup_insert_Some k' Hk'; [|by eapply Hrouted].
    cbn [w_buffer w_channel] in Hk'. rewrite fmap_app, elem_of_app in Hk'.
    destruct Hk' as [Hk'|[Hk'| ->%list_elem_of_singleton]]; [eapply Hrouted; eauto..|done].
  - intros j wj. cbn [set_worker bw_workers].
    intros [(<- & <- & _)|[_ Hj]]%list_lookup_insert_Some; [cbn; by eapply Hstop|by eapply Hstop].
  - intros k' Hk'. unfold view. cbn [set_worker bw_workers]. rewrite length_insert.
    specialize (Hview k' Hk'). unfold view in Hview.
    destruct (decide (worker_of (length (bw_workers bw)) k' = i)) as [E0|E0].
    + rewrite E0, list_lookup_insert_eq by done. rewrite E0, Hw in Hview.
      cbn [w_channel w_buffer]. rewrite last_write_app. cbn [Key Value].
      case_bool_decide; [subst k'; by rewrite lookup_insert_eq|].
      by rewrite lookup_insert_ne.
    + rewrite list_lookup_insert_ne by done. rewrite Hview, lookup_insert_ne; [done|].
      intros <-. done.
Qed.

(** Taking a request from the channel into the buffer. *)
Lemma worker_value_receive db w req channel k :
  w_channel w = req :: channel ->
  or_else (last_write channel k)
    (or_else (<[Key req := Value req]> (w_buffer w) !! k) (mdbx_contents db !! k)) =
  worker_value db w k.
Proof.
  intros Hc. unfold worker_value. rewrite Hc, last_write_cons.
  destruct (last_write channel k); [done|]. cbn [or_else].
  destruct (decide (Key req = k)) as [->|Hne].
  - by rewrite lookup_insert_eq, bool_decide_eq_true_2.
  - by rewrite lookup_insert_ne, bool_decide_eq_false_2.
Qed.

(** A flush by a worker: the rest of its queue stays, and what it had is written or
    lost. *)
Lemma represents_flush db bw i w channel buffer ord running m :
  bw_workers bw !! i = Some w -> is_order buffer ord ->
  (forall k, is_Some (buffer !! k) \/ k ∈ (Key <$> channel) ->
     is_Some (w_buffer w !! k) \/ k ∈ (Key <$> w_channel w)) ->
  (forall k, or_else (last_write channel k) (or_else (buffer !! k) (mdbx_contents db !! k)) =
     worker_value db w k) ->
  (forall k, lost (flush_events db buffer ord) k -> L k) ->
  represents (db, bw) m ->
  represents ((flush db buffer ord).1,
    set_worker bw i {| w_channel := channel; w_buffer := (flush db buffer ord).2; w_running := running |}) m.
Proof.
  intros Hw Hord Hkeys Hval HL Hrep. pose proof (rep_routed _ _ Hrep) as Hrouted. cbn in Hrouted.
  destruct (flush_spec db buffer ord Hord) as [Hempty Hdb]. rewrite Hempty.
  eapply represents_set; [exact Hw|..|done|exact Hrep].
  - intros k _ Hk. rewrite <- Hval. unfold worker_value. cbn [w_channel w_buffer]. rewrite lookup_empty.
    destruct Hdb as [Hc|[-> Hlost]]; [by rewrite Hc|].
    destruct (buffer !! k) eqn:Hb; [|done]. destruct Hk. apply HL. exists buffer. rewrite Hlost.
    split; [by left|eauto].
  - intros k Hne. destruct Hdb as [Hc|[-> _]]; [|done]. rewrite Hc.
    destruct (buffer !! k) eqn:Hb; [|done]. destruct Hne. eapply Hrouted; [done|]. apply Hkeys. eauto.
  - cbn [w_buffer w_channel]. intros k [[? Hk]|Hk]; [by rewrite lookup_empty in Hk|]. apply Hkeys. by right.
Qed.

Lemma represents_step s1 es s2 m :
  writer_step s1 es s2 -> (forall k, lost es k -> L k) -> represents s1 m ->
  represents s2 (apply_writes m (accepted es)).
Proof.
  assert (forall db buffer ord, accepted (flush_events db buffer ord) = []) as Hno
    by (intros; unfold flush_events; by destruct (_ || _)).
  intros Hstep HL Hrep. destruct Hstep as [db bw k v bw' Hw|db bw bw' Hst
    |db bw i w req ord s Hw Hreq buffer Hord Hrecv|db bw i w ord s Hw Hord Htick|db bw i w ord s Hw Hord Hstop].
  - by eapply represents_write.
  - unfold FlushAndStop in Hst. destruct (bw_stopped bw); [done|]. injection Hst as <-.
    by destruct Hrep as [? ? ?].
  - assert (accepted (if bw_maxBatchSize bw <=? Z.of_nat (size buffer)
      then flush_events db buffer ord else []) = []) as -> by (by destruct (_ <=? _)).
    destruct w as [[|r channel] b []]; cbn in Hreq; [discriminate..| |by unfold worker_receive in Hrecv; rewrite Hw in Hrecv].
    injection Hreq as ->. cbn [w_buffer] in buffer.
    assert (forall k, is_Some (buffer !! k) \/ k ∈ (Key <$> channel) ->
      is_Some (b !! k) \/ k ∈ (Key <$> (req :: channel))) as Hbuf.
    { intros k [[<-|[_ ?]]%lookup_insert_is_Some|?]; [right; left|by left|right; by right]. }
    pose proof (fun k => worker_value_receive db
      {| w_channel := req :: channel; w_buffer := b; w_running := true |} req channel k eq_refl) as Hval.
    cbn [w_buffer] in Hval. fold buffer in Hval.
    unfold worker_receive in Hrecv. rewrite Hw in Hrecv. cbv zeta in Hrecv. fold buffer in Hrecv.
    destruct (bw_maxBatchSize bw <=? _).
    + pose proof (represents_flush db bw i _ channel buffer ord true m Hw Hord Hbuf Hval HL Hrep) as Hf.
      destruct (flush db buffer ord). by injection Hrecv as <-.
    + injection Hrecv as <-. eapply represents_set; [exact Hw|..|done|exact Hrep]; [|done|exact Hbuf].
      intros k _ _. apply Hval.
  - rewrite Hno. destruct w as [channel b []]; unfold worker_tick in Htick; rewrite Hw in Htick; [|done].
    pose proof (represents_flush db bw i _ channel b ord true m Hw Hord (fun k Hk => Hk)
      (fun k => eq_refl) HL Hrep) as Hf. cbn [w_buffer] in *.
    destruct (flush db b ord). by injection Htick as <-.
  - rewrite Hno. destruct w as [channel b []]; unfold worker_stop in Hstop; rewrite Hw in Hstop; [|done].
    destruct (bw_stopped bw); [|done].
    pose proof (represents_flush db bw i _ channel b ord false m Hw Hord (fun k Hk => Hk)
      (fun k => eq_refl) HL Hrep) as Hf. cbn [w_buffer] in *.
    destruct (flush db b ord). by injection Hstop as <-.
Qed.

Lemma represents_run s1 es s2 m :
  writer_run s1 es s2 -> (forall k, lost es k -> L k) -> represents s1 m ->
  represents s2 (apply_writes m (accepted es)).
Proof.
  intros Hrun. revert m. induction Hrun as [s|s1 s2 s3 es es' Hstep _ IH]; intros m HL Hm; [done|].
  unfold accepted, apply_writes in *. rewrite bind_app, fold_left_app.
  assert (forall l k, l ⊆ es ++ es' -> lost l k -> L k) as HL'.
  { intros l k Hl (b & Hb & Hk). apply HL. exists b. split; [by apply Hl|done]. }
  apply IH; [intros k; apply HL'; set_solver|]. eapply represents_step; [done|intros k; apply HL'; set_solver|done].
Qed.

Lemma represents_new db maxBatchSize workers bw :
  NewBatchWriter maxBatchSize workers = Ok bw -> represents (db, bw) (mdbx_contents db).
Proof.
  unfold NewBatchWriter. case_match; [done|]. intros [= <-].
  split; cbn [fst snd bw_workers].
  - intros i w Hw k. apply lookup_replicate in Hw as [-> _]. cbn.
    intros [[? Hk]|Hk]; [by rewrite lookup_empty in Hk|by apply elem_of_nil in Hk].
  - intros i w Hw. by apply lookup_replicate in Hw as [-> _].
  - intros k _. unfold view. cbn [bw_workers].
    destruct (replicate _ _ !! _) as [w|] eqn:Hw; [|done].
    apply lookup_replicate in Hw as [-> _]. cbn. by rewrite lookup_empty.
Qed.
End Lossy.

(** C9: what becomes of the writes that were accepted, with stops and with a
    database that may refuse transactions, under every schedule of the workers and
    every iteration order of their buffers.  For a key that was in no failed flush,
    the queue of its worker, its buffer and the database together stand for the
    accepted writes of the key, applied in order.  So a worker whose queue and
    buffer are empty has them all in the database; a worker that was stopped has an
    empty buffer and lacks exactly what is left in its queue, which is never
    written; and when a flush fails, the whole buffer is dropped and the database
    is as before. *)
Theorem writer_refines_writes (db0 db : E) (maxBatchSize workers : Z) (bw0 bw : BatchWriter)
    (es : list event) (k : bytes) :
  NewBatchWriter maxBatchSize workers = Ok bw0 -> writer_run (db0, bw0) es (db, bw) -> ~ lost es k ->
  view db bw k = apply_writes (mdbx_contents db0) (accepted es) !! k /\
  (forall w, bw_workers bw !! worker_of (length (bw_workers bw)) k = Some w ->
   (w_channel w = [] -> w_buffer w = ∅ ->
    mdbx_contents db !! k = apply_writes (mdbx_contents db0) (accepted es) !! k) /\
   (w_running w = false ->
    or_else (last_write (w_channel w) k) (mdbx_contents db !! k) =
      apply_writes (mdbx_contents db0) (accepted es) !! k /\
    forall ord s, worker_receive db bw (worker_of (length (bw_workers bw)) k) ord <> Some s)) /\
  (forall buffer ord, is_order buffer ord -> flush_events db buffer ord <> [] ->
   flush db buffer ord = (db, ∅)).
Proof.
  intros Hnew Hrun Hk. destruct (represents_run (lost es) _ _ _ (mdbx_contents db0) Hrun)
    as [_ Hstop Hview]; [done|by eapply represents_new|]. cbn [fst snd] in *.
  specialize (Hview k Hk). split; [done|]. split.
  - intros w Hw. unfold view in Hview. rewrite Hw in Hview. split.
    + intros Hc Hb. rewrite Hc, Hb in Hview. by rewrite lookup_empty in Hview.
    + intros Hr. rewrite (Hstop _ _ Hw Hr), lookup_empty in Hview. split; [done|].
      intros ord s. unfold worker_receive. rewrite Hw. destruct w as [[] ? []]; done.
  - intros buffer ord Hord Hev. destruct (flush_spec db buffer ord Hord) as [H2 H1].
    rewrite (surjective_pairing (flush db buffer ord)), H2. f_equal.
    destruct H1 as [_|[-> _]]; [|done]. revert Hev. unfold flush, flush_events.
    destruct (size buffer =? 0)%nat; [done|]. unfold env_Update. by destruct (write_buffer _ _ _).
Qed.
End Correctness.

Definition bw_example : BatchWriter :=
  {| bw_workers := [new_worker; new_worker]; bw_maxBatchSize := 1; bw_stopped := false |}.
Definition bw_queued : BatchWriter :=
  set_worker bw_example 0 {| w_channel := [{| Key := str "b"; Value := str "1" |}];
                             w_buffer := ∅; w_running := true |}.
Lemma writer_refines_writes_witness :
  mdbx_contents ({[ str "b" := str "1" ]} : MemDb) !! str "b" =
    apply_writes (mdbx_contents (∅ : MemDb)) [(str "b", str "1")] !! str "b".
Proof.
  destruct (writer_refines_writes (∅ : MemDb) {[ str "b" := str "1" ]} 1 2 bw_example bw_example
    [Accepted (str "b") (str "1")] (str "b")) as (_ & Hw & _).
  - reflexivity.
  - apply (run_step _ (∅, bw_queued) _ [Accepted (str "b") (str "1")] []); [by apply step_write|].
    refine (run_step _ _ _ _ [] (step_receive ∅ bw_queued 0
      {| w_channel := [{| Key := str "b"; Value := str "1" |}]; w_buffer := ∅; w_running := true |}
      {| Key := str "b"; Value := str "1" |} [str "b"] ({[ str "b" := str "1" ]}, bw_example) _ _ _ _)
      (run_refl _)); [reflexivity|reflexivity|unfold is_order; reflexivity|reflexivity].
  - intros (b & Hb & _). apply list_elem_of_singleton in Hb. discriminate Hb.
  - destruct (Hw new_worker) as [Hd _]; [reflexivity|]. exact (Hd eq_refl eq_refl).
Defined.

(** A flush whose transaction fails leaves the database as it was and
    still empties the buffer: the buffered writes are lost. *)
Theorem flush_failure_loses_writes {E} `{MdbxLaws E} (db : E) (buffer : gmap bytes bytes)
    (ord : list bytes) (e : error) :
  buffer <> ∅ -> write_buffer buffer ord db = Err e ->
  flush db buffer ord = (db, ∅).
Proof.
  intros Hne Hfail. unfold flush. destruct (Nat.eqb_spec (size buffer) 0) as [E0|_].
  - by apply map_size_empty_inv in E0.
  - unfold env_Update. by rewrite Hfail.
Qed.

(** An environment whose disk is full: every write fails. *)
Definition FullDisk : Type := MemDb.
#[export] Instance full_disk : Mdbx FullDisk := {
  mdbx_BeginTxn _ := Ok tt;
  mdbx_OpenCursor _ := Ok tt;
  mdbx_Get e k := @mdbx_Get MemDb _ e k;
  mdbx_Put e k v := Err (ErrMsg "MDBX_MAP_FULL");
  mdbx_Del e k := Err (ErrMsg "MDBX_MAP_FULL");
  mdbx_SetRange e k := @mdbx_SetRange MemDb _ e k;
  mdbx_Next e k := @mdbx_Next MemDb _ e k;
}.
#[export] Program Instance full_disk_laws : MdbxLaws FullDisk := {| mdbx_contents := fun e => e |}.
Next Obligation. done. Qed.
Next Obligation. done. Qed.
Next Obligation. done. Qed.
Next Obligation. done. Qed.
Next Obligation. done. Qed.
Next Obligation. done. Qed.
Next Obligation. done. Qed.
Next Obligation. done. Qed.
Next Obligation. done. Qed.
Lemma flush_failure_loses_writes_witness :
  flush (∅ : FullDisk) {[ str "k" := str "v" ]} [str "k"] = (∅, ∅).
Proof.
  eapply (flush_failure_loses_writes (E := FullDisk)); [discriminate|vm_compute; reflexivity].
Defined.

(** A worker that has taken the stop signal flushes its buffer and then
    never takes another request: what was still queued for it is not written,
    now or later. *)
Theorem stop_drops_queue {E} `{Mdbx E} (db db' : E) (bw bw' : BatchWriter) (i : nat)
    (w : Worker) (ord : list bytes) :
  bw_workers bw !! i = Some w -> worker_stop db bw i ord = Some (db', bw') ->
  db' = (flush db (w_buffer w) ord).1 /\
  (exists w', bw_workers bw' !! i = Some w' /\ w_channel w' = w_channel w /\ w_running w' = false) /\
  forall db'' ord', worker_receive db'' bw' i ord' = None /\ worker_tick db'' bw' i ord' = None /\
    worker_stop db'' bw' i ord' = None.
Proof.
  intros Hw. unfold worker_stop. rewrite Hw. destruct w as [channel buffer []]; [|done].
  destruct (bw_stopped bw); [|done]. cbn [w_buffer w_channel].
  destruct (flush db buffer ord) as [db1 b1]. intros [= <- <-].
  assert (bw_workers (set_worker bw i {| w_channel := channel; w_buffer := b1; w_running := false |}) !! i
    = Some {| w_channel := channel; w_buffer := b1; w_running := false |}) as Hi.
  { cbn. apply list_lookup_insert_eq. by eapply lookup_lt_Some. }
  split; [done|]. split; [by eexists|]. intros db'' ord'.
  unfold worker_receive, worker_tick. rewrite Hi. split; [by destruct channel|]. done.
Qed.

Lemma stop_drops_queue_witness :
  let bw := {| bw_workers := [{| w_channel := [{| Key := str "b"; Value := str "1" |}];
                                  w_buffer := ∅; w_running := true |}];
               bw_maxBatchSize := 10; bw_stopped := true |} in
  exists bw', worker_stop (∅ : MemDb) bw 0 [] = Some (∅, bw') /\
    forall db'' ord', worker_receive (db'' : MemDb) bw' 0 ord' = None /\
      worker_tick db'' bw' 0 ord' = None /\ worker_stop db'' bw' 0 ord' = None.
Proof.
  intros bw. set (queue := [{| Key := str "b"; Value := str "1" |}]).
  exists (set_worker bw 0 {| w_channel := queue; w_buffer := ∅; w_running := false |}).
  split; [reflexivity|].
  eapply (stop_drops_queue (E := MemDb) ∅ ∅ bw _ 0
    {| w_channel := queue; w_buffer := ∅; w_running := true |} []); reflexivity.
Defined.
End Writer.
