(* ===== verification/StorageEnv.v ===== *)
(** The environments behind [pkg/storage]: opening, closing and destroying a
    database ([NewDb], [Close], [Destroy] of [mdbx.go]) and the databases the
    manager opens at its start ([NewManager] of [manager.go]).

    [Storage.v] models what is read and written in an open database; here the
    state is the process: the environments that are open, the databases on the
    disk and the calls of the library, whose outcomes are given. *)
From S2P Require Import Prelude Bytes Storage BatchWriter.
Import Manager.

(** The calls of MDBX and of the file system, with their arguments. *)
Inductive call :=
| CNewEnv
| CSetGeometry (env : nat) (sizeLower sizeUpper growthStep : Z)
| CSetMaxReaders (env : nat) (n : Z)
| COpen (env : nat) (path : string) (mode : Z)
| COpenRoot (env : nat)
| CClose (env : nat)
| CRemoveAll (path : string).

Record System := {
  sys_open : gset nat;
  sys_next : nat;
  sys_files : gset string;
  sys_calls : list call;
}.
Definition with_open (s : System) (o : gset nat) (n : nat) : System :=
  {| sys_open := o; sys_next := n; sys_files := sys_files s; sys_calls := sys_calls s |}.
Definition with_files (s : System) (f : gset string) : System :=
  {| sys_open := sys_open s; sys_next := sys_next s; sys_files := f; sys_calls := sys_calls s |}.
Definition log_call (c : call) (s : System) : System :=
  {| sys_open := sys_open s; sys_next := sys_next s; sys_files := sys_files s;
     sys_calls := sys_calls s ++ [c] |}.

(** Handles are not given twice. *)
Definition system_ok (s : System) : Prop := forall h, h ∈ sys_open s -> (h < sys_next s)%nat.

Section Env.
(** Does a call fail in this state? *)
Context (outcome : System -> call -> option error).

Definition perform (c : call) (effect : System -> System) : io System unit := fun s =>
  match outcome s c with
  | None => (effect (log_call c s), Ok tt)
  | Some e => (log_call c s, Err e)
  end.

Definition mdbx_NewEnv : io System nat := fun s =>
  (_ ← perform CNewEnv (fun s => with_open s ({[sys_next s]} ∪ sys_open s) (S (sys_next s)));
   mret (sys_next s)) s.
(** [env.Close()], whose result nobody reads. *)
Definition env_Close (env : nat) : io System unit := fun s =>
  (with_open (log_call (CClose env) s) (sys_open s ∖ {[env]}) (sys_next s), Ok tt).
(** [defer]-less clean-up: close the environment and return the error. *)
Definition close_on_error (env : nat) (m : io System unit) : io System unit := fun s =>
  match m s with
  | (s, Err e) => ((env_Close env s).1, Err e)
  | r => r
  end.

Record Db := { db_opts : MdbxNode; db_env : nat }.
Definition GetEnv (db : Db) : nat := db_env db.

Definition err_sizes : error :=
  ErrMsg "minSize (%d bytes) cannot be greater than maxSize (%d bytes)".
Definition max_size (opts : MdbxNode) : Z := i64 (node_MaxSize opts * 1024 * 1024 * 1024).
Definition min_size (opts : MdbxNode) : Z := i64 (node_MinSize opts * 1024 * 1024).

Definition NewDb (opts : MdbxNode) : io System Db :=
  env ← mdbx_NewEnv;
  let maxSize := max_size opts in
  let minSize := min_size opts in
  let growthStep := node_GrowthStep opts in
  if maxSize <? minSize
  then _ ← env_Close env; io_lift (Err err_sizes)
  else
    _ ← perform (CSetGeometry env minSize maxSize growthStep) (fun s => s);
    _ ← perform (CSetMaxReaders env (u64 (node_MaxReaders opts))) (fun s => s);
    _ ← io_wrap "failed to open mdbx: %s"
      (perform (COpen env (node_Path opts) (u32 (node_FilePermissions opts)))
        (fun s => with_files s ({[node_Path opts]} ∪ sys_files s)));
    _ ← close_on_error env (perform (COpenRoot env) (fun s => s));
    mret {| db_opts := opts; db_env := env |}.

Definition Db_Close (db : Db) : io System unit := env_Close (db_env db).

Definition Db_Destroy (db : Db) : io System unit :=
  _ ← Db_Close db;
  io_wrap "failed to remove database files"
    (perform (CRemoveAll (node_Path (db_opts db)))
      (fun s => with_files s (sys_files s ∖ {[node_Path (db_opts db)]}))).

(** * The manager *)
Fixpoint open_nodes (nodes : list MdbxNode) (dbs : gmap string Db) : io System (gmap string Db) :=
  match nodes with
  | [] => mret dbs
  | node :: nodes =>
      db ← NewDb node;
      open_nodes nodes (<[node_Name node := db]> dbs)
  end.
Definition NewManager (enabled : bool) (nodes : list MdbxNode) : io System (Manager (H := Db)) :=
  dbs ← (if enabled then open_nodes nodes ∅ else mret ∅);
  mret {| m_enabled := enabled; m_nodes := nodes; m_dbs := dbs |}.

(** Closing never fails, so all databases of the map are closed, in the order
    the runtime chooses. *)
Definition Manager_Close (m : Manager (H := Db)) (ord : list string) : io System unit :=
  io_iter (fun name => match m_dbs m !! name with Some db => Db_Close db | None => mret tt end) ord.

(** * Opening one database *)
(** After this last call of a failed [NewDb] nothing is left open. *)
Definition released (c : call) : bool :=
  match c with CNewEnv | CClose _ => true | _ => false end.

(** What [NewDb] leaves behind. *)
Definition opened (opts : MdbxNode) (s s' : System) (r : res Db) : Prop :=
  let h := sys_next s in
  match r with
  | Ok db =>
      db = {| db_opts := opts; db_env := h |} /\ min_size opts <= max_size opts /\
      sys_open s' = {[h]} ∪ sys_open s /\ sys_next s' = S h /\
      sys_files s' = {[node_Path opts]} ∪ sys_files s /\
      sys_calls s' = sys_calls s ++
        [CNewEnv; CSetGeometry h (min_size opts) (max_size opts) (node_GrowthStep opts);
         CSetMaxReaders h (u64 (node_MaxReaders opts));
         COpen h (node_Path opts) (u32 (node_FilePermissions opts)); COpenRoot h]
  | Err _ => exists c, last (sys_calls s') = Some c /\
      sys_open s' = if released c then sys_open s else {[h]} ∪ sys_open s
  | Panic => False
  end.

Lemma NewDb_opened opts s :
  system_ok s -> let '(s', r) := NewDb opts s in opened opts s s' r.
Proof.
  intros Hok. assert (sys_next s ∉ sys_open s) as Hfresh by (intros Hn%Hok; lia).
  assert (({[sys_next s]} ∪ sys_open s) ∖ {[sys_next s]} = sys_open s) as Hclose by set_solver.
  unfold NewDb, mdbx_NewEnv, close_on_error, env_Close.
  cbv [mbind io_bind io_lift io_wrap mret io_ret].
  unfold perform at 1. destruct (outcome s CNewEnv) as [e|]; [eexists; cbn; by rewrite last_snoc|].
  destruct (Z.ltb_spec (max_size opts) (min_size opts)) as [|Hsizes];
    [eexists; cbn; by rewrite last_snoc|].
  do 2 (unfold perform at 1; destruct (outcome _ _); [eexists; cbn; by rewrite last_snoc|]).
  unfold perform at 1; destruct (outcome _ _); cbn [wrap]; [eexists; cbn; by rewrite last_snoc|].
  unfold perform; destruct (outcome _ _); [eexists; cbn; by rewrite last_snoc|].
  cbn [opened]. split_and!; try done. cbn. by rewrite <- !app_assoc.
Qed.

Lemma NewDb_Ok opts s s' db :
  system_ok s -> NewDb opts s = (s', Ok db) ->
  db_env db = sys_next s /\ sys_open s' = {[sys_next s]} ∪ sys_open s /\ sys_next s' = S (sys_next s) /\
  system_ok s'.
Proof.
  intros Hok E. pose proof (NewDb_opened opts s Hok) as Ho. rewrite E in Ho.
  destruct Ho as (-> & _ & Hop & Hn & _). do 3 (split; [done|]).
  intros h. rewrite Hop, Hn. intros [->%elem_of_singleton|Hh%Hok]%elem_of_union; lia.
Qed.

(** * The databases of the manager *)
Definition holds (dbs : gmap string Db) (h : nat) : Prop :=
  exists name db, dbs !! name = Some db /\ db_env db = h.

Lemma holds_insert (dbs : gmap string Db) name db h :
  dbs !! name = None -> holds (<[name := db]> dbs) h <-> h = db_env db \/ holds dbs h.
Proof.
  intros Hnew. unfold holds. split.
  - intros (n & d & [[<- <-]|[Hne Hd]]%lookup_insert_Some & <-); [by left|right; eauto].
  - intros [->|(n & d & Hd & <-)]; [exists name, db|exists n, d]; (split; [|done]).
    + by rewrite lookup_insert_eq.
    + rewrite lookup_insert_ne; [done|]. intros <-. by rewrite Hnew in Hd.
Qed.

(** With different names every environment that is opened is in the map. *)
Lemma open_nodes_open nodes : forall dbs s s' dbs',
  system_ok s -> NoDup (node_Name <$> nodes) ->
  (forall name, name ∈ node_Name <$> nodes -> dbs !! name = None) ->
  (forall h, holds dbs h -> (h < sys_next s)%nat) ->
  open_nodes nodes dbs s = (s', Ok dbs') ->
  (forall h, h ∈ sys_open s' <-> h ∈ sys_open s \/ (holds dbs' h /\ (sys_next s <= h)%nat)) /\
  (forall h, holds dbs' h -> holds dbs h \/ (sys_next s <= h)%nat) /\
  (forall h, holds dbs h -> holds dbs' h).
Proof.
  induction nodes as [|node nodes IH]; intros dbs s s' dbs' Hok Hnd Hnew Hlt Ho; cbn [open_nodes] in Ho.
  { injection Ho as <- <-. split; [|by auto]. intros h. split; [by left|].
    intros [?|[Hh%Hlt Hle]]; [done|lia]. }
  apply io_bind_inv in Ho as (s1 & db & Hdb & Ho).
  destruct (NewDb_Ok _ _ _ _ Hok Hdb) as (He & Hop & Hn & Hok1).
  apply NoDup_cons in Hnd as [Hhd Hnd].
  assert (dbs !! node_Name node = None) as Hnone by (apply Hnew; left).
  pose proof (fun h => holds_insert dbs (node_Name node) db h Hnone) as Hins.
  destruct (IH (<[node_Name node := db]> dbs) s1 s' dbs') as (H1 & H2 & H3); [done|done|..|done|].
  { intros name Hin. rewrite lookup_insert_ne; [apply Hnew; by right|by intros <-]. }
  { intros h. rewrite Hins, Hn, He. intros [->|Hh%Hlt]; lia. }
  rewrite Hn in H1, H2. rewrite Hop in H1. setoid_rewrite Hins in H2. setoid_rewrite Hins in H3.
  rewrite He in H2, H3. split_and!.
  - intros h. rewrite H1, elem_of_union, elem_of_singleton. split.
    + intros [[->|?]|[? ?]]; [right; split; [by apply H3; left|lia]|by left|right; split; [done|lia]].
    + intros [?|[? ?]]; [auto|]. destruct (decide (h = sys_next s)); [auto|right; split; [done|lia]].
  - intros h [[->|?]|?]%H2; [right; lia|by left|right; lia].
  - intros h Hh. apply H3. by right.
Qed.

Lemma close_nodes (dbs : gmap string Db) ord s :
  exists s', io_iter (fun name => match dbs !! name with Some db => Db_Close db | None => mret tt end)
      ord s = (s', Ok tt) /\
    forall h, h ∈ sys_open s' <-> h ∈ sys_open s /\
      ~ (exists name db, name ∈ ord /\ dbs !! name = Some db /\ db_env db = h).
Proof.
  revert s. induction ord as [|name ord IH]; intros s; cbn [io_iter].
  { exists s. split; [done|]. intros h. split; [|tauto]. intros Hh. split; [done|].
    by intros (? & ? & ?%not_elem_of_nil & _). }
  cbv [mbind io_bind]. destruct (dbs !! name) as [db|] eqn:Hdb.
  - set (s1 := with_open (log_call (CClose (db_env db)) s) (sys_open s ∖ {[db_env db]}) (sys_next s)).
    change (Db_Close db s) with (s1, Ok tt). cbv beta iota.
    destruct (IH s1) as (s' & -> & Hs).
    exists s'. split; [done|]. intros h. rewrite Hs. subst s1. cbn.
    rewrite elem_of_difference, elem_of_singleton. setoid_rewrite elem_of_cons. naive_solver.
  - change ((mret tt : io System unit) s) with (s, Ok tt). cbv beta iota. destruct (IH s) as (s' & -> & Hs). exists s'. split; [done|].
    intros h. rewrite Hs. setoid_rewrite elem_of_cons. naive_solver.
Qed.

(** The life of the databases of a process.  [NewDb] that succeeds has asked
    the library for exactly the configured geometry, readers, path and
    permissions and leaves one environment open; when it fails nothing stays
    open exactly if the failing call was the first, the size check or the
    opening of the root.  A manager of databases with different names closes
    every environment it opened and no other; destroying a database closes its
    environment whatever the file system says. *)
Theorem databases_released (s : System) :
  system_ok s ->
  (forall opts, let '(s', r) := NewDb opts s in opened opts s s' r) /\
  (forall nodes s1 m ord, NoDup (node_Name <$> nodes) -> NewManager true nodes s = (s1, Ok m) ->
     is_order (m_dbs m) ord ->
     exists s2, Manager_Close m ord s1 = (s2, Ok tt) /\ sys_open s2 = sys_open s) /\
  (forall db, let '(s', r) := Db_Destroy db s in
     sys_open s' = sys_open s ∖ {[db_env db]} /\
     (r = Ok tt -> sys_files s' = sys_files s ∖ {[node_Path (db_opts db)]})).
Proof.
  intros Hok. split_and!.
  - intros opts. by apply NewDb_opened.
  - intros nodes s1 m ord Hnd Hm Hord. unfold NewManager in Hm.
    apply io_bind_inv in Hm as (s1' & dbs & Ho & Hm). injection Hm as -> <-. cbn [m_dbs] in *.
    destruct (open_nodes_open nodes ∅ s s1 dbs) as (H1 & H2 & _); [done..|by intros h (? & ? & ? & _)|done|].
    destruct (close_nodes dbs ord s1) as (s2 & Hc & Hs). exists s2. split; [exact Hc|].
    apply set_eq. intros h. rewrite Hs, H1. split.
    + intros [[?|[(name & db & Hdb & He) _]] Hno]; [done|]. destruct Hno. exists name, db.
      split; [|done]. apply (is_order_elem dbs ord name Hord). by eexists.
    + intros Hh. split; [by left|]. intros (name & db & _ & Hdb & He).
      destruct (H2 h) as [(? & ? & ? & _)|Hle]; [by exists name, db|done|]. apply Hok in Hh. lia.
  - intros db. unfold Db_Destroy, Db_Close, env_Close, perform. cbv [mbind io_bind io_wrap].
    by destruct (outcome _ _).
Qed.

(** The sizes are those of the configuration, in megabytes and gigabytes, as
    long as they fit; beyond that they wrap around: 2^33 gigabytes are a
    negative size and 2^34 are none. *)
Theorem sizes_bounds opts :
  (0 <= node_MinSize opts < 2 ^ 43 -> min_size opts = node_MinSize opts * 2 ^ 20) /\
  (0 <= node_MaxSize opts < 2 ^ 33 -> max_size opts = node_MaxSize opts * 2 ^ 30) /\
  (node_MaxSize opts = 2 ^ 33 -> max_size opts = - 2 ^ 63) /\
  (node_MaxSize opts = 2 ^ 34 -> max_size opts = 0).
Proof.
  unfold min_size, max_size. split_and!.
  - intros Hr. rewrite i64_small; [lia|unfold is_i64; lia].
  - intros Hr. rewrite i64_small; [lia|unfold is_i64; lia].
  - by intros ->.
  - by intros ->.
Qed.
End Env.

(** * Concrete runs *)
Definition fresh_system : System :=
  {| sys_open := ∅; sys_next := 0; sys_files := ∅; sys_calls := [] |}.
Definition no_failure : System -> call -> option error := fun _ _ => None.
Definition two_nodes : list MdbxNode := [default_node "chain"; default_node "consensus"].

Lemma databases_released_witness :
  exists s1 m s2, NewManager no_failure true two_nodes fresh_system = (s1, Ok m) /\
    size (sys_open s1) = 2%nat /\
    Manager_Close m ["consensus"; "chain"]%string s1 = (s2, Ok tt) /\ sys_open s2 = ∅.
Proof.
  destruct (databases_released no_failure fresh_system) as (_ & Hm & _).
  { intros h Hh. by apply elem_of_empty in Hh. }
  assert (is_ok (NewManager no_failure true two_nodes fresh_system).2 = true) as Hok by by vm_compute.
  assert (size (sys_open (NewManager no_failure true two_nodes fresh_system).1) = 2%nat) as Hs
    by by vm_compute.
  assert (match (NewManager no_failure true two_nodes fresh_system).2 with
          | Ok m => bool_decide (["consensus"; "chain"]%string ≡ₚ (map_to_list (m_dbs m)).*1)
          | _ => false end = true) as Hord by by vm_compute.
  destruct (NewManager no_failure true two_nodes fresh_system) as [s1 [m|e|]] eqn:E; [|done..].
  apply bool_decide_eq_true in Hord.
  destruct (Hm two_nodes s1 m ["consensus"; "chain"]%string) as (s2 & Hc & Ho); [|exact E|exact Hord|].
  { apply (bool_decide_unpack _). by vm_compute. }
  exists s1, m, s2. split; [done|]. split; [exact Hs|]. split; [exact Hc|exact Ho].
Defined.

(** Refusing the geometry leaves the environment open; a second database that
    fails leaves the first one open, and nobody has its handle. *)
Definition geometry_refused : System -> call -> option error := fun _ c =>
  match c with CSetGeometry _ _ _ _ => Some (ErrMsg "MDBX_EINVAL") | _ => None end.
Definition second_refused : System -> call -> option error := fun s c =>
  match c with
  | COpen env _ _ => if (env =? 1)%nat then Some (ErrMsg "MDBX_BUSY") else None
  | _ => None end.
Lemma environments_leaked :
  sys_open (NewDb geometry_refused (default_node "chain") fresh_system).1 = {[0%nat]} /\
  is_ok (NewDb geometry_refused (default_node "chain") fresh_system).2 = false /\
  sys_open (NewManager second_refused true two_nodes fresh_system).1 = {[0%nat; 1%nat]} /\
  is_ok (NewManager second_refused true two_nodes fresh_system).2 = false.
Proof. split_and!; by vm_compute. Qed.
