(* ===== verification/Validators.v ===== *)
(** [pkg/metrics/collector.go], [pkg/accounts/account.go], and of
    [pkg/consensus] the validators, the validator set and the message pool.

    A float64 is a [spec_float] with 53 bits of precision, every product and
    sum rounded on its own.  [now] is the clock, [ord] the order in which a
    loop visits a map. *)
From Stdlib Require Import Floats.SpecFloat.
From S2P Require Import Prelude Bytes Types Signatures Packets.

(** * float64 *)
Abbreviation float64 := spec_float.
Definition f_mul (a b : float64) : float64 := SFmul 53 1024 a b.
Definition f_add (a b : float64) : float64 := SFadd 53 1024 a b.
(** [a > b] *)
Definition f_gt (a b : float64) : bool := SFltb b a.
Definition f_zero : float64 := S754_zero false.

(** [<] on floats is transitive, NaN being unordered. *)
Lemma Pos_compare_lt_trans (a b c : positive) :
  Pos.compare a b = Lt -> Pos.compare b c = Lt -> Pos.compare a c = Lt.
Proof. rewrite !Pos.compare_lt_iff. lia. Qed.

Lemma SFltb_trans a b c : SFltb a b = true -> SFltb b c = true -> SFltb a c = true.
Proof.
  unfold SFltb, SFcompare.
  destruct a as [sa|sa| |sa ma ea], b as [sb|sb| |sb mb eb], c as [sc|sc| |sc mc ec];
    try destruct sa; try destruct sb; try destruct sc; try done;
    destruct (Z.compare_spec ea eb), (Z.compare_spec eb ec); subst; try done;
    try (destruct (Z.compare_spec ea ec); subst; (done || lia));
    try (destruct (Z.compare_spec eb ec); subst; (done || lia)).
  all: rewrite ?Z.compare_refl;
    change (Pos.compare_cont Eq) with Pos.compare in *;
    destruct (Pos.compare_spec ma mb), (Pos.compare_spec mb mc), (Pos.compare_spec ma mc);
    subst; (done || lia).
Qed.

Lemma f_gt_trans a b c : f_gt a b = true -> f_gt b c = true -> f_gt a c = true.
Proof. unfold f_gt. intros H1 H2. by eapply SFltb_trans. Qed.

(** * collector.go *)
Record Metrics := {
  BandwidthUsage : float64;
  Computational : float64;
  Storage : float64;
  Uptime : float64;
  Responsiveness : float64;
  Reliability : float64;
  LastUpdated : Z;
}.
(** [&Metrics{}]; the zero time is before every clock reading. *)
Definition zero_Metrics : Metrics :=
  {| BandwidthUsage := f_zero; Computational := f_zero; Storage := f_zero; Uptime := f_zero;
     Responsiveness := f_zero; Reliability := f_zero; LastUpdated := 0 |}.

Record Collector := { mc_metrics : gmap PeerID Metrics; mc_weights : Metrics }.
Definition NewCollector (weights : Metrics) : Collector :=
  {| mc_metrics := ∅; mc_weights := weights |}.

Definition ensurePeer (mc : Collector) (p : PeerID) : Collector :=
  match mc_metrics mc !! p with
  | Some _ => mc
  | None => {| mc_metrics := <[p := zero_Metrics]> (mc_metrics mc); mc_weights := mc_weights mc |}
  end.

(** The body the six update methods share: [f] sets the field. *)
Definition update_peer (mc : Collector) (p : PeerID) (f : Metrics -> Metrics) : Collector :=
  let mc := ensurePeer mc p in
  {| mc_metrics := alter f p (mc_metrics mc); mc_weights := mc_weights mc |}.

Definition UpdateResponsiveness (now : Z) (mc : Collector) (p : PeerID) (value : float64) : Collector :=
  update_peer mc p (fun m => {| BandwidthUsage := BandwidthUsage m; Computational := Computational m;
    Storage := Storage m; Uptime := Uptime m; Responsiveness := value;
    Reliability := Reliability m; LastUpdated := now |}).
Definition UpdateReliability (now : Z) (mc : Collector) (p : PeerID) (value : float64) : Collector :=
  update_peer mc p (fun m => {| BandwidthUsage := BandwidthUsage m; Computational := Computational m;
    Storage := Storage m; Uptime := Uptime m; Responsiveness := Responsiveness m;
    Reliability := value; LastUpdated := now |}).
Definition UpdateBandwidthUsage (now : Z) (mc : Collector) (p : PeerID) (value : float64) : Collector :=
  update_peer mc p (fun m => {| BandwidthUsage := value; Computational := Computational m;
    Storage := Storage m; Uptime := Uptime m; Responsiveness := Responsiveness m;
    Reliability := Reliability m; LastUpdated := now |}).
Definition UpdateComputational (now : Z) (mc : Collector) (p : PeerID) (value : float64) : Collector :=
  update_peer mc p (fun m => {| BandwidthUsage := BandwidthUsage m; Computational := value;
    Storage := Storage m; Uptime := Uptime m; Responsiveness := Responsiveness m;
    Reliability := Reliability m; LastUpdated := now |}).
Definition UpdateStorage (now : Z) (mc : Collector) (p : PeerID) (value : float64) : Collector :=
  update_peer mc p (fun m => {| BandwidthUsage := BandwidthUsage m; Computational := Computational m;
    Storage := value; Uptime := Uptime m; Responsiveness := Responsiveness m;
    Reliability := Reliability m; LastUpdated := now |}).
Definition UpdateUptime (now : Z) (mc : Collector) (p : PeerID) (value : float64) : Collector :=
  update_peer mc p (fun m => {| BandwidthUsage := BandwidthUsage m; Computational := Computational m;
    Storage := Storage m; Uptime := value; Responsiveness := Responsiveness m;
    Reliability := Reliability m; LastUpdated := now |}).

Definition utility (m w : Metrics) : float64 :=
  f_add (f_add (f_add (f_add (f_add
    (f_mul (BandwidthUsage m) (BandwidthUsage w))
    (f_mul (Computational m) (Computational w)))
    (f_mul (Storage m) (Storage w)))
    (f_mul (Uptime m) (Uptime w)))
    (f_mul (Responsiveness m) (Responsiveness w)))
    (f_mul (Reliability m) (Reliability w)).

(** The score, and the collector, which has gained an entry for an unknown peer. *)
Definition CalculateUtilityScore (mc : Collector) (p : PeerID) : float64 * Collector :=
  let mc := ensurePeer mc p in
  (utility (default zero_Metrics (mc_metrics mc !! p)) (mc_weights mc), mc).

Definition GetMetrics (mc : Collector) (p : PeerID) : option Metrics := mc_metrics mc !! p.
Definition GetAllMetrics (mc : Collector) : gmap PeerID Metrics := mc_metrics mc.

(** * account.go *)

(** The libp2p keys are opaque; [peer_String] is [peer.ID.String]. *)
Record Account := {
  acc_ID : bytes;
  acc_Address : Address;
  acc_PeerID : PeerID;
  acc_Name : string;
  acc_PeerPrivateKey : bytes;
  acc_PeerPublicKey : bytes;
  acc_Signers : gmap string Signer;
  acc_Comment : string;
}.

Definition NewAccount (peer_String : PeerID -> bytes) (peerID : PeerID) (peerSk peerPk : bytes)
    (signers : gmap string Signer) (name comment : string) : Account :=
  {| acc_ID := peer_String peerID; acc_Address := ZeroAddress; acc_PeerID := peerID;
     acc_Name := name; acc_PeerPrivateKey := peerSk; acc_PeerPublicKey := peerPk;
     acc_Signers := signers; acc_Comment := comment |}.

Definition Account_Sign (a : Account) (signerType : SignerType) (data : bytes) : res bytes :=
  match acc_Signers a !! signerType with
  | None => Err (ErrMsg "signer of type %s not found in account")
  | Some signer => Signer_Sign signer data
  end.
Definition Account_Verify (a : Account) (signerType : SignerType) (data signature : bytes)
    : res bool :=
  match acc_Signers a !! signerType with
  | None => Err (ErrMsg "signer of type %s not found in account")
  | Some signer => Signer_Verify signer data signature
  end.

(** * validator.go *)
Record Validator := { val_account : Account }.
Definition Validator_Account (v : Validator) : Account := val_account v.
Definition Validator_PeerID (v : Validator) : PeerID := acc_PeerID (val_account v).
Definition Validator_PublicKey (v : Validator) : bytes := acc_PeerPublicKey (val_account v).
Definition Validator_PrivateKey (v : Validator) : bytes := acc_PeerPrivateKey (val_account v).
(** A missing signer is a nil interface: calling it panics. *)
Definition Validator_Signer (v : Validator) (t : SignerType) : option Signer :=
  acc_Signers (val_account v) !! t.
Definition call_Sign (s : option Signer) (d : bytes) : res bytes :=
  match s with Some s => Signer_Sign s d | None => Panic end.
Definition call_Verify (s : option Signer) (d sig : bytes) : res bool :=
  match s with Some s => Signer_Verify s d sig | None => Panic end.

(** * validator_set.go *)
Record ValidatorSet := {
  vs_validators : gmap PeerID Validator;
  vs_leaderID : PeerID;
  vs_quorumThreshold : Z;
}.
Definition NewValidatorSet : ValidatorSet :=
  {| vs_validators := ∅; vs_leaderID := []; vs_quorumThreshold := 0 |}.
Definition set_validators (vs : ValidatorSet) (m : gmap PeerID Validator) : ValidatorSet :=
  {| vs_validators := m; vs_leaderID := vs_leaderID vs; vs_quorumThreshold := vs_quorumThreshold vs |}.
Definition set_leaderID (vs : ValidatorSet) (id : PeerID) : ValidatorSet :=
  {| vs_validators := vs_validators vs; vs_leaderID := id; vs_quorumThreshold := vs_quorumThreshold vs |}.

Definition AddValidator (vs : ValidatorSet) (account : Account) : ValidatorSet :=
  set_validators vs (<[acc_PeerID account := {| val_account := account |}]> (vs_validators vs)).
Definition RemoveValidator (vs : ValidatorSet) (id : PeerID) : ValidatorSet :=
  set_validators vs (delete id (vs_validators vs)).
Definition GetValidator (vs : ValidatorSet) (id : PeerID) : option Validator :=
  vs_validators vs !! id.
Definition GetAllValidators (vs : ValidatorSet) (ord : list PeerID) : list Validator :=
  omap (fun id => vs_validators vs !! id) ord.
Definition GetValidatorIDs (vs : ValidatorSet) (ord : list PeerID) : list PeerID :=
  filter (fun id => is_Some (vs_validators vs !! id)) ord.

Definition elect_step (acc : float64 * PeerID * Collector) (id : PeerID)
    : float64 * PeerID * Collector :=
  let '(highestScore, leaderID, mc) := acc in
  let '(score, mc) := CalculateUtilityScore mc id in
  if f_gt score highestScore then (score, id, mc) else (highestScore, leaderID, mc).

Definition ElectLeader (vs : ValidatorSet) (mc : Collector) (ord : list PeerID)
    : ValidatorSet * Collector :=
  if (size (vs_validators vs) =? 0)%nat then (vs, mc)
  else
    let '(_, leaderID, mc) := fold_left elect_step ord (f_zero, [], mc) in
    if bool_decide (leaderID = []) then (vs, mc) else (set_leaderID vs leaderID, mc).

Definition CurrentLeader (vs : ValidatorSet) : option Validator :=
  vs_validators vs !! vs_leaderID vs.
Definition IsLeader (vs : ValidatorSet) (id : PeerID) : bool := bool_decide (vs_leaderID vs = id).
Definition QuorumSize (vs : ValidatorSet) : Z :=
  if 0 <? vs_quorumThreshold vs then vs_quorumThreshold vs
  else (2 * Z.of_nat (size (vs_validators vs))) / 3 + 1.
Definition SetQuorumThreshold (vs : ValidatorSet) (threshold : Z) : ValidatorSet :=
  {| vs_validators := vs_validators vs; vs_leaderID := vs_leaderID vs;
     vs_quorumThreshold := threshold |}.
Definition IsValidator (vs : ValidatorSet) (id : PeerID) : bool :=
  bool_decide (is_Some (vs_validators vs !! id)).
Definition SetLeader (vs : ValidatorSet) (id : PeerID) : ValidatorSet :=
  if bool_decide (is_Some (vs_validators vs !! id)) then set_leaderID vs id else vs.

(** * message_pool.go *)
Abbreviation MessagePool := (gmap bytes ConsensusPacket).
Definition NewMessagePool : MessagePool := ∅.
Definition AddMessage (mp : MessagePool) (msg : ConsensusPacket) : MessagePool :=
  <[cp_BlockHash msg := msg]> mp.
Definition GetMessage (mp : MessagePool) (blockHash : bytes) : res ConsensusPacket :=
  match mp !! blockHash with
  | Some message => Ok message
  | None => Err (ErrMsg "message for block hash %x not found")
  end.
Definition RemoveMessage (mp : MessagePool) (blockHash : bytes) : MessagePool := delete blockHash mp.
Definition HasMessage (mp : MessagePool) (blockHash : bytes) : bool :=
  bool_decide (is_Some (mp !! blockHash)).
Definition ListMessages (mp : MessagePool) (ord : list bytes) : list ConsensusPacket :=
  omap (fun k => mp !! k) ord.

(** * The collector *)

Definition score (mc : Collector) (id : PeerID) : float64 :=
  utility (default zero_Metrics (mc_metrics mc !! id)) (mc_weights mc).

Lemma ensurePeer_lookup mc p q :
  default zero_Metrics (mc_metrics (ensurePeer mc p) !! q) = default zero_Metrics (mc_metrics mc !! q).
Proof.
  unfold ensurePeer. destruct (mc_metrics mc !! p) eqn:E; [done|]. cbn.
  destruct (decide (p = q)) as [<-|]; [by rewrite lookup_insert_eq, E|by rewrite lookup_insert_ne].
Qed.
Lemma ensurePeer_weights mc p : mc_weights (ensurePeer mc p) = mc_weights mc.
Proof. unfold ensurePeer. by case_match. Qed.
Lemma score_ensurePeer mc p q : score (ensurePeer mc p) q = score mc q.
Proof. unfold score. by rewrite ensurePeer_lookup, ensurePeer_weights. Qed.
Lemma CalculateUtilityScore_fst mc p : (CalculateUtilityScore mc p).1 = score mc p.
Proof. apply (score_ensurePeer mc p p). Qed.

(** * Leader election *)

(** What the election loop has found once it has visited [seen]. *)
Definition elect_inv (mc0 : Collector) (seen : list PeerID) (acc : float64 * PeerID * Collector) : Prop :=
  let '(highest, leader, mc) := acc in
  (forall q, score mc q = score mc0 q) /\
  (forall q, q ∈ seen -> f_gt (score mc0 q) highest = false) /\
  (highest = f_zero /\ leader = [] \/
   leader ∈ seen /\ highest = score mc0 leader /\ f_gt highest f_zero = true).

Lemma f_gt_irrefl a : f_gt a a = false.
Proof.
  unfold f_gt, SFltb, SFcompare. destruct a as [[]|[]| |[] m e]; try done;
    rewrite Z.compare_refl; change (Pos.compare_cont Eq) with Pos.compare;
    by rewrite Pos.compare_refl.
Qed.

Lemma elect_fold mc0 ord seen acc :
  elect_inv mc0 seen acc -> elect_inv mc0 (seen ++ ord) (fold_left elect_step ord acc).
Proof.
  revert seen acc. induction ord as [|id ord IH]; intros seen acc Hinv; cbn [fold_left].
  { by rewrite app_nil_r. }
  replace (seen ++ id :: ord) with ((seen ++ [id]) ++ ord) by (by rewrite <- app_assoc).
  apply IH. destruct acc as [[highest leader] mc]. destruct Hinv as (Hsc & Hmax & Hlead).
  pose proof (CalculateUtilityScore_fst mc id) as Hs. rewrite Hsc in Hs.
  unfold elect_step, CalculateUtilityScore in *. cbn [fst] in Hs. rewrite Hs.
  assert (forall q, score (ensurePeer mc id) q = score mc0 q) as Hsc'
    by (intros q; by rewrite score_ensurePeer).
  destruct (f_gt (score mc0 id) highest) eqn:Hgt; (split; [done|]); split.
  - intros q [Hq| ->%list_elem_of_singleton]%elem_of_app; [|apply f_gt_irrefl].
    apply not_true_iff_false. intros Hq'. specialize (Hmax q Hq).
    by rewrite (f_gt_trans _ _ _ Hq' Hgt) in Hmax.
  - right. split; [apply elem_of_app; right; by apply list_elem_of_singleton|].
    split; [done|]. destruct Hlead as [[-> _]|(_ & _ & Hpos)]; [done|by eapply f_gt_trans].
  - by intros q [Hq| ->%list_elem_of_singleton]%elem_of_app; [apply Hmax|].
  - destruct Hlead as [?|(? & ?)]; [by left|right]. split; [apply elem_of_app; by left|done].
Qed.

(** An election changes nothing but the leader, whatever the iteration
    order; the new leader is a validator with a positive score that no other
    validator exceeds, and the old leader stays exactly when no validator has
    a positive score. *)
Theorem ElectLeader_spec (vs : ValidatorSet) (mc : Collector) (ord : list PeerID) :
  is_order (vs_validators vs) ord -> vs_validators vs !! [] = None ->
  let vs' := (ElectLeader vs mc ord).1 in
  vs_validators vs' = vs_validators vs /\ vs_quorumThreshold vs' = vs_quorumThreshold vs /\
  (vs_leaderID vs' = vs_leaderID vs /\
     (forall id, IsValidator vs id = true -> f_gt (score mc id) f_zero = false) \/
   IsValidator vs (vs_leaderID vs') = true /\ f_gt (score mc (vs_leaderID vs')) f_zero = true /\
     forall id, IsValidator vs id = true -> f_gt (score mc id) (score mc (vs_leaderID vs')) = false).
Proof.
  intros Hord Hempty. cbv zeta. unfold ElectLeader, IsValidator.
  assert (forall id, bool_decide (is_Some (vs_validators vs !! id)) = true <-> id ∈ ord) as Hin.
  { intros id. by rewrite bool_decide_eq_true, (is_order_elem _ _ id Hord). }
  setoid_rewrite Hin.
  destruct (Nat.eqb_spec (size (vs_validators vs)) 0) as [E|E].
  { split; [done|]. split; [done|]. left. split; [done|]. intros id Hid.
    apply (is_order_elem _ _ id Hord) in Hid as [v Hv].
    apply map_size_empty_inv in E. by rewrite E, lookup_empty in Hv. }
  pose proof (elect_fold mc ord [] (f_zero, [], mc)) as Hfold.
  destruct (fold_left elect_step ord (f_zero, [], mc)) as [[highest leader] mc'].
  destruct Hfold as (_ & Hmax & Hlead).
  { split; [done|]. split; [by intros q Hq%elem_of_nil|by left]. }
  cbn [app] in *. destruct Hlead as [[-> ->]|(Hl & -> & Hpos)].
  - rewrite bool_decide_eq_true_2 by done. cbn. split; [done|]. split; [done|]. by left.
  - assert (leader <> []) as Hne.
    { intros ->. apply (is_order_elem _ _ _ Hord) in Hl. rewrite Hempty in Hl.
      by apply is_Some_None in Hl. }
    rewrite bool_decide_eq_false_2 by done. cbn.
    split; [done|]. split; [done|]. right. split; [done|]. split; [done|]. auto.
Qed.

Definition account_example (id : string) : Account :=
  {| acc_ID := str id; acc_Address := ZeroAddress; acc_PeerID := str id; acc_Name := id;
     acc_PeerPrivateKey := []; acc_PeerPublicKey := []; acc_Signers := ∅; acc_Comment := "" |}.
Definition f_one : float64 := S754_finite false 4503599627370496 (-52).
Definition weights_example : Metrics :=
  {| BandwidthUsage := f_one; Computational := f_one; Storage := f_one; Uptime := f_one;
     Responsiveness := f_one; Reliability := f_one; LastUpdated := 0 |}.
Definition vs_example : ValidatorSet :=
  AddValidator (AddValidator NewValidatorSet (account_example "a")) (account_example "b").
Definition mc_example : Collector := UpdateUptime 5 (NewCollector weights_example) (str "b") f_one.
Lemma vs_example_order : is_order (vs_validators vs_example) [str "a"; str "b"].
Proof. unfold is_order. vm_compute. first [reflexivity|apply perm_swap]. Qed.

Lemma ElectLeader_spec_witness :
  vs_leaderID (ElectLeader vs_example mc_example [str "a"; str "b"]).1 = str "b" /\
  f_gt (score mc_example (vs_leaderID (ElectLeader vs_example mc_example [str "a"; str "b"]).1))
    f_zero = true.
Proof.
  assert (vs_leaderID (ElectLeader vs_example mc_example [str "a"; str "b"]).1 = str "b") as Hl
    by (vm_compute; reflexivity).
  split; [exact Hl|].
  destruct (ElectLeader_spec vs_example mc_example [str "a"; str "b"] vs_example_order
    ltac:(vm_compute; reflexivity)) as (_ & _ & [[H _]|(_ & H & _)]); [|exact H].
  rewrite Hl in H. discriminate H.
Defined.

(** * Quorums *)

Lemma size_intersection_bound (V A B : gset PeerID) :
  A ⊆ V -> B ⊆ V -> (size A + size B <= size V + size (A ∩ B))%nat.
Proof.
  intros HA HB. pose proof (size_union_alt A B) as Hu. pose proof (size_difference_alt B A) as Hd.
  assert (size (A ∪ B) <= size V)%nat by (apply subseteq_size; set_solver).
  assert (size (A ∩ B) = size (B ∩ A)) by (f_equal; set_solver). lia.
Qed.

Lemma quorum_intersection (vs : ValidatorSet) (A B : gset PeerID) :
  vs_quorumThreshold vs <= 0 ->
  A ⊆ dom (vs_validators vs) -> B ⊆ dom (vs_validators vs) ->
  QuorumSize vs <= Z.of_nat (size A) -> QuorumSize vs <= Z.of_nat (size B) ->
  Z.of_nat (size (dom (vs_validators vs) : gset PeerID)) < 3 * Z.of_nat (size (A ∩ B)).
Proof.
  intros Hq HA HB. unfold QuorumSize. rewrite (proj2 (Z.ltb_ge _ _)) by done.
  assert (size (vs_validators vs) = size (dom (vs_validators vs) : gset PeerID)) as ->
    by (symmetry; apply size_dom).
  pose proof (size_intersection_bound _ A B HA HB).
  set (n := size (dom (vs_validators vs))) in *.
  pose proof (Z.div_mod (2 * Z.of_nat n) 3 ltac:(lia)) as Hdiv.
  pose proof (Z.mod_pos_bound (2 * Z.of_nat n) 3 ltac:(lia)) as Hmod. lia.
Qed.

(** With the default threshold, which a set of validators can always reach
    together, any two groups of validators that each form a quorum share more
    than a third of all validators. *)
Theorem QuorumSize_intersection (vs : ValidatorSet) (A B : gset PeerID) :
  vs_quorumThreshold vs <= 0 ->
  let V : gset PeerID := dom (vs_validators vs) in
  (V <> ∅ -> QuorumSize vs <= Z.of_nat (size V)) /\
  (A ⊆ V -> B ⊆ V -> QuorumSize vs <= Z.of_nat (size A) -> QuorumSize vs <= Z.of_nat (size B) ->
   Z.of_nat (size V) < 3 * Z.of_nat (size (A ∩ B))).
Proof.
  intros Hq V. split; [|intros; by apply quorum_intersection].
  intros Hne. unfold QuorumSize. rewrite (proj2 (Z.ltb_ge _ _)) by done.
  assert (size (vs_validators vs) = size V) as -> by (symmetry; apply size_dom).
  pose proof (Z.div_mod (2 * Z.of_nat (size V)) 3 ltac:(lia)) as Hdiv.
  pose proof (Z.mod_pos_bound (2 * Z.of_nat (size V)) 3 ltac:(lia)) as Hmod.
  assert (size V <> 0)%nat by (intros E%size_empty_inv; by apply Hne, leibniz_equiv). lia.
Qed.

Lemma QuorumSize_intersection_witness :
  QuorumSize vs_example <= Z.of_nat (size (dom (vs_validators vs_example) : gset PeerID)).
Proof.
  apply (QuorumSize_intersection vs_example ∅ ∅); [vm_compute; discriminate|].
  apply (bool_decide_unpack _). vm_compute. exact I.
Defined.

(** * The message pool *)

(** The pool has one place per block hash: a packet replaces whatever
    packet about the same block was waiting, of whatever type, and handling
    one of them removes the place. *)
Theorem MessagePool_one_per_block (mp : MessagePool) (p1 p2 : ConsensusPacket) (h : bytes) :
  GetMessage (AddMessage mp p1) (cp_BlockHash p1) = Ok p1 /\
  (cp_BlockHash p1 = cp_BlockHash p2 -> AddMessage (AddMessage mp p1) p2 = AddMessage mp p2) /\
  HasMessage (RemoveMessage (AddMessage mp p1) (cp_BlockHash p1)) (cp_BlockHash p1) = false /\
  (h <> cp_BlockHash p1 -> GetMessage (AddMessage mp p1) h = GetMessage mp h).
Proof.
  unfold GetMessage, AddMessage, HasMessage, RemoveMessage. split; [|split; [|split]].
  - by rewrite lookup_insert_eq.
  - intros ->. by rewrite insert_insert_eq.
  - by rewrite lookup_delete_eq.
  - intros Hne. by rewrite lookup_insert_ne.
Qed.
