(* ===== verification/Consensus.v ===== *)
(** [pkg/consensus]: the state of proposals, approvals and finalizations
    ([state.go]) and the protocol ([protocol.go]).

    A method is a function on the world of one node: the in-memory maps, the
    database (the same handle is held by the state and by the protocol), the
    packets broadcast so far and the calls made to the block finalizer.  The
    network and the finalizer are interfaces whose outcomes are given
    functions.  Each exported method and each handled packet is one step; the
    finer interleaving of two handlers that hold different locks is in
    [ConsensusThreads]. *)
From S2P Require Import Prelude Bytes Types Signatures Packets Storage Validators.
From S2P Require Import Hashes.

(** * errors.go *)
Definition ErrNotLeader : error := ErrMsg "current validator is not the leader".
Definition ErrQuorumNotReached : error := ErrMsg "quorum not reached for finalization".

(** [fmt.Sprintf("%x", blockHash)]: the keys of the three maps. *)
Definition hash_key (blockHash : bytes) : bytes := hex_encode blockHash.

Section Consensus.
Context {E : Type} `{Mdbx E}.

(** * state.go *)
Record State := {
  st_proposals : gmap bytes ConsensusPacket;
  st_approvals : gmap bytes (gmap PeerID bytes);
  st_finalized : gmap bytes bool;
  st_storage : E;
}.

Definition NewState (storage : E) : State :=
  {| st_proposals := ∅; st_approvals := ∅; st_finalized := ∅; st_storage := storage |}.

(** The last statement of the three writers: persist, and report the error. *)
Definition persist (cs : State) (key value : bytes) : State * res unit :=
  let '(db, r) := Db_Set (st_storage cs) key value in
  ({| st_proposals := st_proposals cs; st_approvals := st_approvals cs;
      st_finalized := st_finalized cs; st_storage := db |}, r).

(** The critical section of each writer, and what it does after. *)
Definition put_proposal (cs : State) (msg : ConsensusPacket) : State :=
  {| st_proposals := <[hash_key (cp_BlockHash msg) := msg]> (st_proposals cs);
     st_approvals := st_approvals cs; st_finalized := st_finalized cs;
     st_storage := st_storage cs |}.
Definition AddProposal (cs : State) (msg : ConsensusPacket) : State * res unit :=
  if negb (cp_Type msg =? PacketTypeProposal)
  then (cs, Err (ErrMsg "invalid packet type for proposal: %v"))
  else persist (put_proposal cs msg) (cp_BlockHash msg) (cp_BlockData msg).

Definition HasProposal (cs : State) (blockHash : bytes) : bool :=
  bool_decide (is_Some (st_proposals cs !! hash_key blockHash)).

(** The approvals recorded for a block; a missing map reads as empty. *)
Definition approvals_for (cs : State) (blockHash : bytes) : gmap PeerID bytes :=
  default ∅ (st_approvals cs !! hash_key blockHash).

(** Is the approval new? *)
Definition put_approval (cs : State) (msg : ConsensusPacket) : State * bool :=
  let key := hash_key (cp_BlockHash msg) in
  let approvalsForBlock := approvals_for cs (cp_BlockHash msg) in
  let set_approvals a := {| st_proposals := st_proposals cs;
    st_approvals := <[key := a]> (st_approvals cs); st_finalized := st_finalized cs;
    st_storage := st_storage cs |} in
  match approvalsForBlock !! cp_ValidatorID msg with
  | Some _ => (set_approvals approvalsForBlock, false)
  | None => (set_approvals (<[cp_ValidatorID msg := cp_Signature msg]> approvalsForBlock), true)
  end.
Definition AddApproval (cs : State) (msg : ConsensusPacket) : State * res unit :=
  if negb (cp_Type msg =? PacketTypeApproval)
  then (cs, Err (ErrMsg "invalid packet type for approval: %v"))
  else
    let '(cs, new) := put_approval cs msg in
    if new : bool then persist cs (cp_BlockHash msg) (cp_Signature msg) else (cs, Ok tt).

Definition HasReachedQuorum (cs : State) (blockHash : bytes) (quorumSize : Z) : bool :=
  quorumSize <=? Z.of_nat (size (approvals_for cs blockHash)).

Definition put_finalized (cs : State) (blockHash : bytes) : State :=
  {| st_proposals := st_proposals cs; st_approvals := st_approvals cs;
     st_finalized := <[hash_key blockHash := true]> (st_finalized cs);
     st_storage := st_storage cs |}.
Definition persist_finalized (cs : State) (blockHash : bytes) : State * res unit :=
  let '(cs, r) := persist cs blockHash (str "finalized") in
  (cs, wrap "failed to persist finalized block" r).
Definition State_FinalizeBlock (cs : State) (blockHash : bytes) : State * res unit :=
  persist_finalized (put_finalized cs blockHash) blockHash.

Definition IsFinalized (cs : State) (blockHash : bytes) : bool :=
  default false (st_finalized cs !! hash_key blockHash).
Definition GetApprovalCount (cs : State) (blockHash : bytes) : Z :=
  Z.of_nat (size (approvals_for cs blockHash)).

(** * protocol.go *)

(** The network of a node: its peer ID, and the outcome of a broadcast given
    what was broadcast before. *)
Record Network := {
  HostID : PeerID;
  net_Broadcast : list bytes -> bytes -> res unit;
}.

Record Protocol := {
  cp_state : State;
  cp_validators : ValidatorSet;
  cp_messagePool : MessagePool;
  cp_p2pNetwork : option Network;
  cp_blockFinalizer : option (bytes -> bytes -> res unit);
  cp_quorumThreshold : Z;
  cp_sent : list bytes;
  cp_finalizer_calls : list (bytes * bytes);
}.

Definition NewProtocol (validators : ValidatorSet) (consensusDB : E) (p2pNet : option Network)
    (finalizer : option (bytes -> bytes -> res unit)) : Protocol :=
  {| cp_state := NewState consensusDB; cp_validators := validators;
     cp_messagePool := NewMessagePool; cp_p2pNetwork := p2pNet;
     cp_blockFinalizer := finalizer; cp_quorumThreshold := QuorumSize validators;
     cp_sent := []; cp_finalizer_calls := [] |}.

Definition set_state (cp : Protocol) (cs : State) : Protocol :=
  {| cp_state := cs; cp_validators := cp_validators cp; cp_messagePool := cp_messagePool cp;
     cp_p2pNetwork := cp_p2pNetwork cp; cp_blockFinalizer := cp_blockFinalizer cp;
     cp_quorumThreshold := cp_quorumThreshold cp; cp_sent := cp_sent cp;
     cp_finalizer_calls := cp_finalizer_calls cp |}.
Definition set_pool (cp : Protocol) (mp : MessagePool) : Protocol :=
  {| cp_state := cp_state cp; cp_validators := cp_validators cp; cp_messagePool := mp;
     cp_p2pNetwork := cp_p2pNetwork cp; cp_blockFinalizer := cp_blockFinalizer cp;
     cp_quorumThreshold := cp_quorumThreshold cp; cp_sent := cp_sent cp;
     cp_finalizer_calls := cp_finalizer_calls cp |}.
Definition log_sent (cp : Protocol) (d : bytes) : Protocol :=
  {| cp_state := cp_state cp; cp_validators := cp_validators cp;
     cp_messagePool := cp_messagePool cp; cp_p2pNetwork := cp_p2pNetwork cp;
     cp_blockFinalizer := cp_blockFinalizer cp; cp_quorumThreshold := cp_quorumThreshold cp;
     cp_sent := cp_sent cp ++ [d]; cp_finalizer_calls := cp_finalizer_calls cp |}.
Definition log_finalizer (cp : Protocol) (h d : bytes) : Protocol :=
  {| cp_state := cp_state cp; cp_validators := cp_validators cp;
     cp_messagePool := cp_messagePool cp; cp_p2pNetwork := cp_p2pNetwork cp;
     cp_blockFinalizer := cp_blockFinalizer cp; cp_quorumThreshold := cp_quorumThreshold cp;
     cp_sent := cp_sent cp; cp_finalizer_calls := cp_finalizer_calls cp ++ [(h, d)] |}.

(** Computations on a node: state and outcome. *)
Local Abbreviation M := (io Protocol).
Definition get : M Protocol := fun cp => (cp, Ok cp).
Definition fail {A} (e : error) : M A := io_lift (Err e).
(** Running a method of the state. *)
Definition on_state (f : State -> State * res unit) : M unit := fun cp =>
  let '(cs, r) := f (cp_state cp) in (set_state cp cs, r).
Definition modify (f : Protocol -> Protocol) : M unit := fun cp => (f cp, Ok tt).

(** [p2pNetwork.BroadcastMessage(serializedPkt)]. *)
Definition net_send (net : Network) (d : bytes) : M unit := fun cp =>
  (log_sent cp d, net_Broadcast net (cp_sent cp) d).

(** The packet is never nil. *)
Definition BroadcastMessage (pkt : ConsensusPacket) : M unit :=
  serializedPkt ← io_wrap "failed to serialize consensus packet"
    (io_lift (ConsensusPacket_Serialize pkt));
  cp ← get;
  match cp_p2pNetwork cp with
  | None => mret tt
  | Some net => net_send net serializedPkt
  end.

Definition ProposeBlock (blockData : bytes) : M unit :=
  cp ← get;
  match CurrentLeader (cp_validators cp) with
  | None => fail ErrNotLeader
  | Some leader =>
      if negb (IsLeader (cp_validators cp) (Validator_PeerID leader)) then fail ErrNotLeader
      else
        let blockHash := HashData blockData in
        match Validator_Signer leader BlsSignerType with
        | None => fail (ErrMsg "signer not found for type %v")
        | Some signer =>
            signature ← io_wrap "failed to sign block hash" (io_lift (Signer_Sign signer blockHash));
            let proposalPkt := {| cp_Type := PacketTypeProposal; cp_Signer := "";
              cp_ProposerID := Validator_PeerID leader; cp_ValidatorID := [];
              cp_BlockHash := blockHash; cp_BlockData := blockData;
              cp_Signature := signature |} in
            _ ← io_wrap "failed to add proposal" (on_state (fun cs => AddProposal cs proposalPkt));
            io_wrap "failed to broadcast proposal packet" (BroadcastMessage proposalPkt)
        end
  end.

Definition finalization_packet (blockHash : bytes) : ConsensusPacket :=
  {| cp_Type := PacketTypeFinalization; cp_Signer := ""; cp_ProposerID := [];
     cp_ValidatorID := []; cp_BlockHash := blockHash; cp_BlockData := [];
     cp_Signature := [] |}.

Definition FinalizeBlock (blockHash : bytes) : M unit :=
  cp ← get;
  if IsFinalized (cp_state cp) blockHash then mret tt
  else if negb (HasReachedQuorum (cp_state cp) blockHash (cp_quorumThreshold cp))
  then fail ErrQuorumNotReached
  else
    _ ← io_wrap "failed to finalize block" (on_state (fun cs => State_FinalizeBlock cs blockHash));
    io_wrap "failed to broadcast finalization packet"
      (BroadcastMessage (finalization_packet blockHash)).

(** The check at the end of [ApproveProposal] and [HandleApproval]. *)
Definition finalize_if_quorum (blockHash : bytes) : M unit :=
  cp ← get;
  when (HasReachedQuorum (cp_state cp) blockHash (cp_quorumThreshold cp))
    (_ ← logged (FinalizeBlock blockHash); mret tt).

Definition ApproveProposal (blockHash : bytes) (approverID : PeerID) : M unit :=
  cp ← get;
  match GetValidator (cp_validators cp) approverID with
  | None => fail (ErrMsg "approver validator not found")
  | Some approver =>
      signature ← io_wrap "failed to sign block hash"
        (io_lift (call_Sign (Validator_Signer approver BlsSignerType) blockHash));
      let approvalPkt := {| cp_Type := PacketTypeApproval; cp_Signer := ""; cp_ProposerID := [];
        cp_ValidatorID := Validator_PeerID approver; cp_BlockHash := blockHash;
        cp_BlockData := []; cp_Signature := signature |} in
      _ ← io_wrap "failed to add approval packet" (on_state (fun cs => AddApproval cs approvalPkt));
      _ ← io_wrap "failed to broadcast approval packet" (BroadcastMessage approvalPkt);
      finalize_if_quorum blockHash
  end.

(** [valid, err := signer.Verify(hash, sig)]: an error comes with [false]. *)
Definition check_signature (v : Validator) (hash sig : bytes) : M bool :=
  match call_Verify (Validator_Signer v BlsSignerType) hash sig with
  | Ok valid => mret valid
  | Err _ => mret false
  | Panic => io_lift Panic
  end.

(** Without a network [p2pNetwork.HostID()] dereferences nil. *)
Definition HandleProposal (pkt : ConsensusPacket) : M unit :=
  cp ← get;
  if HasProposal (cp_state cp) (cp_BlockHash pkt) then mret tt
  else
    match GetValidator (cp_validators cp) (cp_ProposerID pkt) with
    | None => mret tt
    | Some proposer =>
        valid ← check_signature proposer (cp_BlockHash pkt) (cp_Signature pkt);
        when valid (
          added ← logged (on_state (fun cs => AddProposal cs pkt));
          when added (
            match cp_p2pNetwork cp with
            | None => io_lift Panic
            | Some net =>
                let nodeID := HostID net in
                when (IsValidator (cp_validators cp) nodeID &&
                      negb (bool_decide (nodeID = cp_ProposerID pkt)))
                  (_ ← logged (ApproveProposal (cp_BlockHash pkt) nodeID); mret tt)
            end))
    end.

Definition HandleApproval (pkt : ConsensusPacket) : M unit :=
  cp ← get;
  match GetValidator (cp_validators cp) (cp_ValidatorID pkt) with
  | None => mret tt
  | Some approver =>
      valid ← check_signature approver (cp_BlockHash pkt) (cp_Signature pkt);
      when valid (
        added ← logged (on_state (fun cs => AddApproval cs pkt));
        when added (finalize_if_quorum (cp_BlockHash pkt)))
  end.

(** [blockFinalizer.Finalize(hash, data)]. *)
Definition call_finalizer (fin : bytes -> bytes -> res unit) (h d : bytes) : M unit :=
  fun cp => (log_finalizer cp h d, fin h d).

Definition HandleFinalization (pkt : ConsensusPacket) : M unit :=
  cp ← get;
  if IsFinalized (cp_state cp) (cp_BlockHash pkt) then mret tt
  else
    stored ← logged (on_state (fun cs => State_FinalizeBlock cs (cp_BlockHash pkt)));
    when stored (
      notified ← match cp_blockFinalizer cp with
                 | None => mret true
                 | Some fin =>
                     logged (
                       cp ← get;
                       blockData ← io_lift (Db_Get (st_storage (cp_state cp)) (cp_BlockHash pkt));
                       call_finalizer fin (cp_BlockHash pkt) blockData)
                 end;
      when notified (
        _ ← logged (BroadcastMessage (finalization_packet (cp_BlockHash pkt))); mret tt)).

Definition HandleMessage (pkt : ConsensusPacket) : M unit :=
  if cp_Type pkt =? PacketTypeProposal then HandleProposal pkt
  else if cp_Type pkt =? PacketTypeApproval then HandleApproval pkt
  else if cp_Type pkt =? PacketTypeFinalization then HandleFinalization pkt
  else mret tt.

(** One turn of the loop of [Start] with the goroutine it starts: a message
    that does not decode is skipped. *)
Definition receive (data : bytes) : M unit :=
  match DeserializeConsensusPacket data with
  | Ok pkt =>
      _ ← modify (fun cp => set_pool cp (AddMessage (cp_messagePool cp) pkt));
      _ ← HandleMessage pkt;
      modify (fun cp => set_pool cp (RemoveMessage (cp_messagePool cp) (cp_BlockHash pkt)))
  | Err _ => mret tt
  | Panic => io_lift Panic
  end.

(** * Reasoning about computations

    [hoare P m Q R]: from a state with [P], the computation ends with a value
    satisfying [Q], or with an error or panic in a state with [R]. *)
Definition hoare {A} (P : Protocol -> Prop) (m : M A) (Q : A -> Protocol -> Prop)
    (R : Protocol -> Prop) : Prop :=
  forall cp, P cp ->
  match m cp with
  | (cp', Ok a) => Q a cp'
  | (cp', _) => R cp'
  end.

Lemma hoare_bind {A B} P (m : M A) (k : A -> M B) Q1 Q R :
  hoare P m Q1 R -> (forall a, hoare (Q1 a) (k a) Q R) -> hoare P (m ≫= k) Q R.
Proof.
  intros Hm Hk cp HP. specialize (Hm cp HP). cbv [mbind io_bind].
  destruct (m cp) as [cp' [a| |]]; [by apply Hk|done..].
Qed.
Lemma hoare_ret {A} P (a : A) (Q : A -> Protocol -> Prop) R :
  (forall cp, P cp -> Q a cp) -> hoare P (mret a) Q R.
Proof. intros HPQ cp HP. by apply HPQ. Qed.
Lemma hoare_get P R : hoare P get (fun a cp => a = cp /\ P cp) R.
Proof. intros cp HP. done. Qed.
Lemma hoare_lift {A} P (r : res A) : hoare P (io_lift r) (fun a cp => r = Ok a /\ P cp) P.
Proof. intros cp HP. unfold io_lift. by destruct r. Qed.
Lemma keeps_lift {A} P (r : res A) : hoare P (io_lift r) (fun _ => P) P.
Proof. intros cp HP. unfold io_lift. by destruct r. Qed.
Lemma hoare_fail {A} P e Q (R : Protocol -> Prop) :
  (forall cp, P cp -> R cp) -> hoare P (fail (A := A) e) Q R.
Proof. intros HPR cp HP. by apply HPR. Qed.
Lemma hoare_wrap {A} P text (m : M A) Q R : hoare P m Q R -> hoare P (io_wrap text m) Q R.
Proof.
  intros Hm cp HP. specialize (Hm cp HP). unfold io_wrap.
  by destruct (m cp) as [cp' [a| |]].
Qed.
Lemma hoare_logged P (m : M unit) Q :
  hoare P m (fun _ => Q) Q -> hoare P (logged m) (fun _ => Q) Q.
Proof.
  intros Hm cp HP. specialize (Hm cp HP). unfold logged.
  by destruct (m cp) as [cp' [a| |]].
Qed.
Lemma hoare_when P b m R :
  (b = true -> hoare P m (fun _ => R) R) -> (forall cp, P cp -> R cp) ->
  hoare P (when b m) (fun _ => R) R.
Proof. intros Hm HR. destruct b; [by apply Hm|by apply hoare_ret]. Qed.
Lemma hoare_on_state P f Q R :
  (forall cp, P cp -> match f (cp_state cp) with
     | (cs, Ok a) => Q a (set_state cp cs)
     | (cs, _) => R (set_state cp cs)
     end) -> hoare P (on_state f) Q R.
Proof.
  intros Hf cp HP. specialize (Hf cp HP). unfold on_state.
  by destruct (f (cp_state cp)) as [cs [a| |]].
Qed.
Lemma hoare_weaken {A} (P P' : Protocol -> Prop) (m : M A) (Q Q' : A -> Protocol -> Prop)
    (R R' : Protocol -> Prop) :
  hoare P' m Q' R' -> (forall cp, P cp -> P' cp) -> (forall a cp, Q' a cp -> Q a cp) ->
  (forall cp, R' cp -> R cp) -> hoare P m Q R.
Proof.
  intros Hm HP HQ HR cp H0. specialize (Hm cp (HP cp H0)).
  destruct (m cp) as [cp' [a| |]]; auto.
Qed.

(** An invariant of a computation, whatever its outcome. *)
Definition keeps (I : Protocol -> Prop) {A} (m : M A) : Prop := hoare I m (fun _ => I) I.

(** * Facts about the state *)
#[export] Instance hash_key_inj : Inj (=) (=) hash_key.
Proof. unfold hash_key. apply _. Qed.

Lemma persist_proj cs k v :
  st_proposals (persist cs k v).1 = st_proposals cs /\
  st_approvals (persist cs k v).1 = st_approvals cs /\
  st_finalized (persist cs k v).1 = st_finalized cs.
Proof. unfold persist. by destruct (Db_Set (st_storage cs) k v). Qed.

(** The maps do not depend on what is stored. *)
Definition same_maps (cs cs' : State) : Prop :=
  st_proposals cs' = st_proposals cs /\ st_approvals cs' = st_approvals cs /\
  st_finalized cs' = st_finalized cs.
Lemma same_maps_persist cs k v : same_maps cs (persist cs k v).1.
Proof. apply persist_proj. Qed.
Lemma same_maps_persist_finalized cs h : same_maps cs (persist_finalized cs h).1.
Proof.
  unfold persist_finalized. pose proof (same_maps_persist cs h (str "finalized")) as Hs.
  by destruct (persist _ _ _).
Qed.
Lemma same_maps_approvals cs cs' h : same_maps cs cs' -> approvals_for cs' h = approvals_for cs h.
Proof. intros (_ & E1 & _). unfold approvals_for. by rewrite E1. Qed.

Lemma AddProposal_proj cs msg :
  st_approvals (AddProposal cs msg).1 = st_approvals cs /\
  st_finalized (AddProposal cs msg).1 = st_finalized cs.
Proof.
  unfold AddProposal. destruct (negb _); [done|].
  by destruct (persist_proj (put_proposal cs msg) (cp_BlockHash msg) (cp_BlockData msg)) as (_ & -> & ->).
Qed.

(** What recording an approval does to the approvals of a block. *)
Lemma put_approval_approvals cs msg h :
  approvals_for (put_approval cs msg).1 h =
    if bool_decide (h = cp_BlockHash msg)
    then match approvals_for cs h !! cp_ValidatorID msg with
         | Some _ => approvals_for cs h
         | None => <[cp_ValidatorID msg := cp_Signature msg]> (approvals_for cs h)
         end
    else approvals_for cs h.
Proof.
  unfold put_approval. cbv zeta. case_bool_decide as Heq.
  - subst h. destruct (approvals_for cs (cp_BlockHash msg) !! cp_ValidatorID msg);
      unfold approvals_for at 1; cbn; by rewrite lookup_insert_eq.
  - assert (hash_key h <> hash_key (cp_BlockHash msg)) by (by intros ?%(inj hash_key)).
    destruct (approvals_for cs (cp_BlockHash msg) !! cp_ValidatorID msg);
      unfold approvals_for at 1; cbn; by rewrite lookup_insert_ne.
Qed.
Lemma put_approval_mono cs msg h : approvals_for cs h ⊆ approvals_for (put_approval cs msg).1 h.
Proof.
  rewrite put_approval_approvals. case_bool_decide; [|done].
  destruct (approvals_for cs h !! cp_ValidatorID msg) eqn:E0; [done|]. by apply insert_subseteq.
Qed.
Lemma put_approval_proj cs msg :
  st_proposals (put_approval cs msg).1 = st_proposals cs /\
  st_finalized (put_approval cs msg).1 = st_finalized cs.
Proof. unfold put_approval. cbv zeta. by case_match. Qed.
Lemma AddApproval_maps cs msg :
  cp_Type msg = PacketTypeApproval -> same_maps (put_approval cs msg).1 (AddApproval cs msg).1.
Proof.
  intros HT. unfold AddApproval. rewrite HT, Z.eqb_refl. cbn [negb].
  destruct (put_approval cs msg) as [cs' []]; [apply same_maps_persist|done].
Qed.
Lemma AddApproval_wrong_type cs msg :
  cp_Type msg <> PacketTypeApproval -> (AddApproval cs msg).1 = cs.
Proof. intros HT. unfold AddApproval. by rewrite (proj2 (Z.eqb_neq _ _)). Qed.

Lemma AddApproval_approvals cs msg h :
  cp_Type msg = PacketTypeApproval ->
  approvals_for (AddApproval cs msg).1 h =
    if bool_decide (h = cp_BlockHash msg)
    then match approvals_for cs h !! cp_ValidatorID msg with
         | Some _ => approvals_for cs h
         | None => <[cp_ValidatorID msg := cp_Signature msg]> (approvals_for cs h)
         end
    else approvals_for cs h.
Proof.
  intros HT. rewrite <- put_approval_approvals. by apply same_maps_approvals, AddApproval_maps.
Qed.

Lemma AddApproval_proposals cs msg : st_proposals (AddApproval cs msg).1 = st_proposals cs.
Proof.
  destruct (decide (cp_Type msg = PacketTypeApproval)) as [HT|HT]; [|by rewrite AddApproval_wrong_type].
  destruct (AddApproval_maps cs msg HT) as (-> & _). apply put_approval_proj.
Qed.
Lemma AddApproval_finalized cs msg : st_finalized (AddApproval cs msg).1 = st_finalized cs.
Proof.
  destruct (decide (cp_Type msg = PacketTypeApproval)) as [HT|HT]; [|by rewrite AddApproval_wrong_type].
  destruct (AddApproval_maps cs msg HT) as (_ & _ & ->). apply put_approval_proj.
Qed.

Lemma AddApproval_mono cs msg h : approvals_for cs h ⊆ approvals_for (AddApproval cs msg).1 h.
Proof.
  destruct (decide (cp_Type msg = PacketTypeApproval)) as [HT|HT];
    [|by rewrite AddApproval_wrong_type].
  rewrite (same_maps_approvals _ _ h (AddApproval_maps cs msg HT)). apply put_approval_mono.
Qed.

Lemma State_FinalizeBlock_proj cs h :
  st_approvals (State_FinalizeBlock cs h).1 = st_approvals cs /\
  st_finalized (State_FinalizeBlock cs h).1 = <[hash_key h := true]> (st_finalized cs).
Proof. apply (same_maps_persist_finalized (put_finalized cs h) h). Qed.

Lemma IsFinalized_FinalizeBlock cs h h' :
  IsFinalized (State_FinalizeBlock cs h).1 h' = bool_decide (h' = h) || IsFinalized cs h'.
Proof.
  unfold IsFinalized. destruct (State_FinalizeBlock_proj cs h) as [_ ->].
  case_bool_decide as Heq; [subst; by rewrite lookup_insert_eq|].
  rewrite lookup_insert_ne; [done|]. by intros ?%(inj hash_key).
Qed.

(** * Safety *)

(** The validators are registered under their own peer ID and their BLS
    signers are correct. *)
Definition validators_ok (vs : ValidatorSet) : Prop := forall id v,
  GetValidator vs id = Some v -> Validator_PeerID v = id /\
  forall s, Validator_Signer v BlsSignerType = Some s -> SignerCorrect s.

(** A signature of a validator on a block hash. *)
Definition signed_by (vs : ValidatorSet) (h : bytes) (id : PeerID) (sig : bytes) : Prop :=
  exists v s, GetValidator vs id = Some v /\ Validator_Signer v BlsSignerType = Some s /\
    verifies s h sig = true.

(** [finals]: the hashes of the finalization packets received so far. *)
Record proto_inv (vs : ValidatorSet) (q : Z) (finals : list bytes) (cp : Protocol) : Prop := {
  inv_validators : cp_validators cp = vs;
  inv_threshold : cp_quorumThreshold cp = q;
  inv_approvals : forall h id sig,
    approvals_for (cp_state cp) h !! id = Some sig -> signed_by vs h id sig;
  inv_finalized : forall h, IsFinalized (cp_state cp) h = true ->
    HasReachedQuorum (cp_state cp) h q = true \/ h ∈ finals;
}.

Section Safety.
Context (vs : ValidatorSet) (q : Z) (finals : list bytes) (Hvs : validators_ok vs).
Implicit Types (cp : Protocol) (cs : State).
Local Abbreviation I := (proto_inv vs q finals).

(** The invariant looks only at the approvals and the finalized blocks. *)
Lemma proto_inv_state cp cs :
  I cp -> st_approvals cs = st_approvals (cp_state cp) ->
  st_finalized cs = st_finalized (cp_state cp) -> I (set_state cp cs).
Proof.
  intros [Hv Hq Ha Hf] E1 E2.
  assert (forall h, approvals_for cs h = approvals_for (cp_state cp) h) as Eh
    by (intros h; unfold approvals_for; by rewrite E1).
  split; cbn [set_state cp_validators cp_quorumThreshold cp_state]; [done..| |].
  - intros h id sig. rewrite Eh. apply Ha.
  - intros h. unfold IsFinalized, HasReachedQuorum. rewrite E2, Eh. apply Hf.
Qed.

Lemma HasReachedQuorum_mono cs cs' h :
  approvals_for cs h ⊆ approvals_for cs' h ->
  HasReachedQuorum cs h q = true -> HasReachedQuorum cs' h q = true.
Proof.
  intros Hsub%map_subseteq_size. unfold HasReachedQuorum. rewrite !Z.leb_le. lia.
Qed.

Lemma proto_inv_put_approval cp msg :
  I cp -> signed_by vs (cp_BlockHash msg) (cp_ValidatorID msg) (cp_Signature msg) ->
  I (set_state cp (put_approval (cp_state cp) msg).1).
Proof.
  intros [Hv Hq Ha Hf] Hsig.
  split; cbn [set_state cp_validators cp_quorumThreshold cp_state]; [done..| |].
  - intros h id sig. rewrite put_approval_approvals. case_bool_decide; [subst h|apply Ha].
    destruct (approvals_for (cp_state cp) (cp_BlockHash msg) !! cp_ValidatorID msg) eqn:E0; [apply Ha|].
    intros [[<- <-]|[_ ?]]%lookup_insert_Some; [done|by apply Ha].
  - intros h. unfold IsFinalized. destruct (put_approval_proj (cp_state cp) msg) as [_ ->]. intros Hh.
    destruct (Hf h Hh) as [Hr|]; [left|by right].
    eapply HasReachedQuorum_mono; [apply put_approval_mono|exact Hr].
Qed.
Lemma proto_inv_same_maps cp cs cs' : same_maps cs cs' -> I (set_state cp cs) -> I (set_state cp cs').
Proof. intros (_ & E1 & E2) HI. by apply (proto_inv_state (set_state cp cs)). Qed.
Lemma proto_inv_AddApproval cp msg :
  I cp -> signed_by vs (cp_BlockHash msg) (cp_ValidatorID msg) (cp_Signature msg) ->
  I (set_state cp (AddApproval (cp_state cp) msg).1).
Proof.
  intros Hinv Hsig. destruct (decide (cp_Type msg = PacketTypeApproval)) as [HT|HT];
    [|rewrite AddApproval_wrong_type by done; by apply proto_inv_state].
  eapply proto_inv_same_maps; [by apply AddApproval_maps|by apply proto_inv_put_approval].
Qed.

Lemma proto_inv_put_finalized cp h :
  I cp -> HasReachedQuorum (cp_state cp) h q = true \/ h ∈ finals ->
  I (set_state cp (put_finalized (cp_state cp) h)).
Proof.
  intros [Hv Hq Ha Hf] Hh.
  split; cbn [set_state cp_validators cp_quorumThreshold cp_state]; [done..| |].
  - exact Ha.
  - intros h'. unfold IsFinalized, HasReachedQuorum. cbn [st_finalized put_finalized].
    destruct (decide (h' = h)) as [->|Hne]; [done|].
    rewrite lookup_insert_ne by (by intros ?%(inj hash_key)). apply Hf.
Qed.
Lemma proto_inv_FinalizeBlock cp h :
  I cp -> HasReachedQuorum (cp_state cp) h q = true \/ h ∈ finals ->
  I (set_state cp (State_FinalizeBlock (cp_state cp) h).1).
Proof.
  intros Hcp Hh. eapply proto_inv_same_maps; [apply same_maps_persist_finalized|].
  by apply proto_inv_put_finalized.
Qed.

Lemma keeps_Broadcast P pkt :
  (forall cp d, P cp -> P (log_sent cp d)) -> keeps P (BroadcastMessage pkt).
Proof.
  intros HP. unfold BroadcastMessage. eapply hoare_bind.
  { apply hoare_wrap, keeps_lift. }
  intros d. eapply hoare_bind; [apply hoare_get|]. intros cp. cbn beta.
  destruct (cp_p2pNetwork cp) as [net|].
  - intros cp' [-> Hcp]. unfold net_send. specialize (HP cp' d Hcp).
    by destruct (net_Broadcast net (cp_sent cp') d).
  - apply hoare_ret. by intros cp' [_ ?].
Qed.

Lemma log_sent_inv cp d : I cp -> I (log_sent cp d).
Proof. by intros []. Qed.
Lemma log_finalizer_inv cp h d : I cp -> I (log_finalizer cp h d).
Proof. by intros []. Qed.
Lemma set_pool_inv cp mp : I cp -> I (set_pool cp mp).
Proof. by intros []. Qed.

Lemma keeps_Broadcast_inv pkt : keeps I (BroadcastMessage pkt).
Proof. apply keeps_Broadcast. intros cp d. apply log_sent_inv. Qed.

(** Running a method of the state that keeps the invariant. *)
Lemma hoare_on_state_inv (P : Protocol -> Prop) f :
  (forall cp, P cp -> I (set_state cp (f (cp_state cp)).1)) ->
  hoare P (on_state f) (fun _ => I) I.
Proof.
  intros Hf. apply hoare_on_state. intros cp HP. specialize (Hf cp HP).
  by destruct (f (cp_state cp)) as [cs [[]| |]].
Qed.

Lemma keeps_FinalizeBlock h : keeps I (FinalizeBlock h).
Proof.
  unfold FinalizeBlock. eapply hoare_bind; [apply hoare_get|]. intros cp. cbn beta.
  destruct (IsFinalized (cp_state cp) h); [apply hoare_ret; by intros ? [_ ?]|].
  destruct (HasReachedQuorum (cp_state cp) h (cp_quorumThreshold cp)) eqn:Hq; cbn [negb].
  - eapply hoare_bind; [|intros; apply hoare_wrap, keeps_Broadcast_inv].
    apply hoare_wrap, hoare_on_state_inv. intros cp' [-> Hcp].
    apply proto_inv_FinalizeBlock; [done|left]. by destruct Hcp as [_ <- _ _].
  - apply hoare_fail; by intros ? [_ ?].
Qed.

Lemma keeps_finalize_if_quorum h : keeps I (finalize_if_quorum h).
Proof.
  unfold finalize_if_quorum. eapply hoare_bind; [apply hoare_get|]. intros cp. cbn beta.
  apply hoare_when; [intros _|by intros ? [_ ?]].
  apply (hoare_bind _ _ _ (fun _ => I)); [|intros; by apply hoare_ret]. apply hoare_logged. eapply hoare_weaken; [apply keeps_FinalizeBlock|by intros ? [_ ?]|done|done].
Qed.

Lemma keeps_AddProposal msg : keeps I (on_state (fun cs => AddProposal cs msg)).
Proof.
  apply hoare_on_state_inv. intros cp Hcp. destruct (AddProposal_proj (cp_state cp) msg).
  by apply proto_inv_state.
Qed.

Lemma keeps_ProposeBlock d : keeps I (ProposeBlock d).
Proof.
  unfold ProposeBlock. eapply hoare_bind; [apply hoare_get|]. intros cp. cbn beta zeta.
  apply (hoare_weaken _ I _ _ (fun _ => I) _ I); [|by intros ? [_ ?]|done|done].
  destruct (CurrentLeader (cp_validators cp)) as [leader|]; [|by apply hoare_fail].
  destruct (negb _); [by apply hoare_fail|].
  destruct (Validator_Signer leader BlsSignerType) as [s|]; [|by apply hoare_fail].
  apply (hoare_bind _ _ _ (fun _ => I)); [apply hoare_wrap, keeps_lift|].
  intros sig. apply (hoare_bind _ _ _ (fun _ => I)); [apply hoare_wrap, keeps_AddProposal|].
  intros _. apply hoare_wrap, keeps_Broadcast_inv.
Qed.

Lemma keeps_ApproveProposal h id : keeps I (ApproveProposal h id).
Proof.
  unfold ApproveProposal. eapply hoare_bind; [apply hoare_get|]. intros cp. cbn beta zeta.
  destruct (GetValidator (cp_validators cp) id) as [v|] eqn:Hv;
    [|apply hoare_fail; by intros ? [_ ?]].
  apply (hoare_bind _ _ _ (fun sig cp' => call_Sign (Validator_Signer v BlsSignerType) h = Ok sig /\ cp = cp' /\ I cp')).
  { apply hoare_wrap. eapply hoare_weaken; [apply (hoare_lift (fun cp' => cp = cp' /\ I cp'))|done|done|by intros ? [_ ?]]. }
  intros sig. cbn beta. apply (hoare_bind _ _ _ (fun _ => I)).
  - apply hoare_wrap, (hoare_on_state_inv (fun cp' => call_Sign (Validator_Signer v BlsSignerType) h = Ok sig /\ cp = cp' /\ I cp')).
    intros cp' (Hsig & -> & Hcp).
    apply proto_inv_AddApproval; [done|]. cbn. pose proof Hcp as [Hval _ _ _]. rewrite Hval in Hv.
    destruct (Hvs id v Hv) as [-> Hcorrect]. exists v.
    destruct (Validator_Signer v BlsSignerType) as [s|] eqn:Hs; [|done].
    exists s. split; [done|]. split; [done|]. specialize (Hcorrect s eq_refl).
    by apply sign_verifies.
  - intros _. apply (hoare_bind _ _ _ (fun _ => I)); [apply hoare_wrap, keeps_Broadcast_inv|].
    intros _. apply keeps_finalize_if_quorum.
Qed.

(** A computation that starts from the state just read. *)
Lemma keeps_from cp0 {A} (m : M A) : keeps I m -> hoare (fun cp => cp0 = cp /\ I cp) m (fun _ => I) I.
Proof. intros Hm. apply (hoare_weaken _ I _ _ (fun _ => I) _ I); [done|by intros ? [_ ?]|done|done]. Qed.

Lemma keeps_check_signature v h sig :
  hoare I (check_signature v h sig)
    (fun valid cp => I cp /\ (valid = true -> exists s,
       Validator_Signer v BlsSignerType = Some s /\ verifies s h sig = true)) I.
Proof.
  intros cp Hcp. unfold check_signature, call_Verify, verifies.
  destruct (Validator_Signer v BlsSignerType) as [s|]; [|done].
  destruct (Signer_Verify s h sig) as [valid| |] eqn:Hver; cbn; [|done|done].
  split; [done|]. intros ->. exists s. by rewrite Hver.
Qed.

Lemma keeps_HandleProposal pkt : keeps I (HandleProposal pkt).
Proof.
  unfold HandleProposal. eapply hoare_bind; [apply hoare_get|]. intros cp. cbn beta zeta.
  apply keeps_from. destruct (HasProposal _ _); [by apply hoare_ret|].
  destruct (GetValidator _ _) as [v|]; [|by apply hoare_ret].
  eapply hoare_bind; [apply keeps_check_signature|]. intros valid. cbn beta.
  apply (hoare_weaken _ I _ _ (fun _ => I) _ I); [|by intros ? [? _]|done|done].
  apply hoare_when; [intros _|done].
  apply (hoare_bind _ _ _ (fun _ => I)); [apply hoare_logged, keeps_AddProposal|]. intros added.
  apply hoare_when; [intros _|done]. destruct (cp_p2pNetwork cp); [|apply keeps_lift].
  apply hoare_when; [intros _|done].
  apply (hoare_bind _ _ _ (fun _ => I)); [|intros; by apply hoare_ret].
  apply hoare_logged, keeps_ApproveProposal.
Qed.

Lemma keeps_HandleApproval pkt : keeps I (HandleApproval pkt).
Proof.
  unfold HandleApproval. eapply hoare_bind; [apply hoare_get|]. intros cp. cbn beta.
  intros cp' [-> Hcp]. pose proof Hcp as [Hval _ _ _]. revert cp' Hcp Hval.
  intros cp Hcp Hval. rewrite Hval.
  destruct (GetValidator vs (cp_ValidatorID pkt)) as [v|] eqn:Hv; [|done].
  revert cp Hcp Hval. enough (keeps I (valid ← check_signature v (cp_BlockHash pkt) (cp_Signature pkt);
    when valid (added ← logged (on_state (fun cs => AddApproval cs pkt));
                when added (finalize_if_quorum (cp_BlockHash pkt))))) as Hk
    by (intros cp Hcp _; by apply Hk).
  eapply hoare_bind; [apply keeps_check_signature|]. intros valid. cbn beta.
  apply hoare_when; [intros ->|by intros ? [? _]].
  apply (hoare_bind _ _ _ (fun _ => I)).
  - apply hoare_logged, (hoare_on_state_inv (fun cp => I cp /\ (true = true -> exists s,
       Validator_Signer v BlsSignerType = Some s /\ verifies s (cp_BlockHash pkt) (cp_Signature pkt) = true))).
    intros cp [Hcp Hs]. destruct (Hs eq_refl) as (s & Hsigner & Hver).
    apply proto_inv_AddApproval; [done|]. by exists v, s.
  - intros added. apply hoare_when; [intros _|done]. apply keeps_finalize_if_quorum.
Qed.

Lemma keeps_HandleFinalization pkt :
  cp_BlockHash pkt ∈ finals -> keeps I (HandleFinalization pkt).
Proof.
  intros Hfin. unfold HandleFinalization. eapply hoare_bind; [apply hoare_get|].
  intros cp. cbn beta. apply keeps_from. destruct (IsFinalized _ _); [by apply hoare_ret|].
  apply (hoare_bind _ _ _ (fun _ => I)).
  { apply hoare_logged, hoare_on_state_inv. intros cp' Hcp.
    apply proto_inv_FinalizeBlock; [done|by right]. }
  intros stored. apply hoare_when; [intros _|done].
  apply (hoare_bind _ _ _ (fun _ => I)).
  - destruct (cp_blockFinalizer cp) as [fin|]; [|by apply hoare_ret].
    apply hoare_logged. eapply hoare_bind; [apply hoare_get|]. intros cp2. cbn beta.
    apply keeps_from. apply (hoare_bind _ _ _ (fun _ => I)); [apply keeps_lift|].
    intros d cp3 Hcp3. unfold call_finalizer.
    pose proof (log_finalizer_inv cp3 (cp_BlockHash pkt) d Hcp3). by destruct (fin _ _).
  - intros notified. apply hoare_when; [intros _|done].
    apply (hoare_bind _ _ _ (fun _ => I)); [|intros; by apply hoare_ret].
    apply hoare_logged, keeps_Broadcast_inv.
Qed.

Lemma keeps_HandleMessage pkt :
  (cp_Type pkt = PacketTypeFinalization -> cp_BlockHash pkt ∈ finals) -> keeps I (HandleMessage pkt).
Proof.
  intros Hfin. unfold HandleMessage.
  destruct (Z.eqb_spec (cp_Type pkt) PacketTypeProposal); [apply keeps_HandleProposal|].
  destruct (Z.eqb_spec (cp_Type pkt) PacketTypeApproval); [apply keeps_HandleApproval|].
  destruct (Z.eqb_spec (cp_Type pkt) PacketTypeFinalization); [by apply keeps_HandleFinalization; auto|].
  by apply hoare_ret.
Qed.

Lemma keeps_receive data :
  (forall pkt, DeserializeConsensusPacket data = Ok pkt ->
     cp_Type pkt = PacketTypeFinalization -> cp_BlockHash pkt ∈ finals) ->
  keeps I (receive data).
Proof.
  intros Hfin. unfold receive. destruct (DeserializeConsensusPacket data) as [pkt| |];
    [|by apply hoare_ret|by apply keeps_lift].
  assert (forall f : Protocol -> Protocol, (forall cp, I cp -> I (f cp)) -> keeps I (modify f)) as Hmod
    by (intros f Hf cp Hcp; by apply Hf).
  apply (hoare_bind _ _ _ (fun _ => I)); [apply Hmod; intros; by apply set_pool_inv|intros _].
  apply (hoare_bind _ _ _ (fun _ => I)); [apply keeps_HandleMessage; by apply Hfin|intros _].
  apply Hmod. intros. by apply set_pool_inv.
Qed.
End Safety.

(** The hash of the finalization packet in a message, if it is one. *)
Definition finalization_in (data : bytes) : list bytes :=
  match DeserializeConsensusPacket data with
  | Ok pkt => if cp_Type pkt =? PacketTypeFinalization then [cp_BlockHash pkt] else []
  | _ => []
  end.

(** The life of a node with a fixed set of validators: calls of its exported
    methods and messages from the network, which may be any bytes. *)
Inductive reachable (vs : ValidatorSet) : list bytes -> Protocol -> Prop :=
| reach_new db net fin : reachable vs [] (NewProtocol vs db net fin)
| reach_propose finals cp d : reachable vs finals cp -> reachable vs finals (ProposeBlock d cp).1
| reach_approve finals cp h id : reachable vs finals cp -> reachable vs finals (ApproveProposal h id cp).1
| reach_finalize finals cp h : reachable vs finals cp -> reachable vs finals (FinalizeBlock h cp).1
| reach_receive finals cp data :
    reachable vs finals cp -> reachable vs (finals ++ finalization_in data) (receive data cp).1.

Lemma keeps_step vs q finals {A} (m : M A) cp :
  keeps (proto_inv vs q finals) m -> proto_inv vs q finals cp -> proto_inv vs q finals (m cp).1.
Proof. intros Hm Hcp. specialize (Hm cp Hcp). by destruct (m cp) as [cp' [| |]]. Qed.

Lemma proto_inv_weaken vs q finals finals' cp :
  proto_inv vs q finals cp -> proto_inv vs q (finals ++ finals') cp.
Proof.
  intros [Hv Hq Ha Hf]. split; [done..|]. intros h Hh. destruct (Hf h Hh); [by left|right].
  apply elem_of_app. by left.
Qed.

Lemma reachable_inv vs finals cp :
  validators_ok vs -> reachable vs finals cp -> proto_inv vs (QuorumSize vs) finals cp.
Proof.
  intros Hvs. induction 1 as [db net fin|finals cp d _ IH|finals cp h id _ IH|finals cp h _ IH|
    finals cp data _ IH].
  - split; cbn; [done..| |].
    + intros h id sig. unfold approvals_for. cbn. by rewrite lookup_empty.
    + intros h. unfold IsFinalized. cbn. by rewrite lookup_empty.
  - by apply keeps_step; [apply keeps_ProposeBlock|].
  - by apply keeps_step; [apply keeps_ApproveProposal|].
  - by apply keeps_step; [apply keeps_FinalizeBlock|].
  - apply keeps_step; [|by apply proto_inv_weaken]. apply keeps_receive; [done|].
    intros pkt Hpkt HT. unfold finalization_in. rewrite Hpkt, HT, Z.eqb_refl.
    apply elem_of_app. right. by left.
Qed.

(** C1: in every reachable state of a node, whatever arrives from the network,
    each recorded approval carries a signature of a registered validator on
    that block hash, and a block is finalized only if it has gathered a quorum
    of them or a finalization packet for it was received. *)
Theorem consensus_safety (vs : ValidatorSet) (finals : list bytes) (cp : Protocol) :
  validators_ok vs -> reachable vs finals cp ->
  (forall h id sig, approvals_for (cp_state cp) h !! id = Some sig -> signed_by vs h id sig) /\
  (forall h, IsFinalized (cp_state cp) h = true ->
     QuorumSize vs <= GetApprovalCount (cp_state cp) h \/ h ∈ finals).
Proof.
  intros Hvs [_ _ Ha Hf]%reachable_inv; [|done]. split; [done|].
  intros h Hh. destruct (Hf h Hh) as [Hq|]; [left|by right]. by apply Z.leb_le.
Qed.

(** C3: two blocks that two nodes (or one) with the same validators finalized by
    gathering approvals, rather than on the word of a finalization packet, have
    approvers in common: more than a third of the validators are recorded as
    approvers of the first block by the first node and of the second by the
    second, each with a signature of its own.  The quorum is the default one,
    with no other threshold configured. *)
Theorem finalized_blocks_share_approvers (vs : ValidatorSet) (finals1 finals2 : list bytes)
    (cp1 cp2 : Protocol) (h1 h2 : bytes) :
  validators_ok vs -> vs_quorumThreshold vs <= 0 ->
  reachable vs finals1 cp1 -> reachable vs finals2 cp2 ->
  IsFinalized (cp_state cp1) h1 = true -> h1 ∉ finals1 ->
  IsFinalized (cp_state cp2) h2 = true -> h2 ∉ finals2 ->
  exists common : gset PeerID,
    Z.of_nat (size (vs_validators vs)) < 3 * Z.of_nat (size common) /\
    forall id, id ∈ common -> exists sig1 sig2,
      approvals_for (cp_state cp1) h1 !! id = Some sig1 /\ signed_by vs h1 id sig1 /\
      approvals_for (cp_state cp2) h2 !! id = Some sig2 /\ signed_by vs h2 id sig2.
Proof.
  intros Hvs Hq Hr1 Hr2 F1 N1 F2 N2.
  destruct (reachable_inv _ _ _ Hvs Hr1) as [_ _ Ha1 Hf1].
  destruct (reachable_inv _ _ _ Hvs Hr2) as [_ _ Ha2 Hf2].
  destruct (Hf1 h1 F1) as [Q1|]; [|done]. destruct (Hf2 h2 F2) as [Q2|]; [|done].
  apply Z.leb_le in Q1, Q2.
  set (A cp h := dom (approvals_for (cp_state cp) h) : gset PeerID).
  assert (forall cp h, (forall h id sig, approvals_for (cp_state cp) h !! id = Some sig -> signed_by vs h id sig) ->
    A cp h ⊆ dom (vs_validators vs)) as Hsub.
  { intros cp h Ha id (sig & Hsig)%elem_of_dom. destruct (Ha h id sig Hsig) as (v & _ & Hv & _).
    apply elem_of_dom. by exists v. }
  exists (A cp1 h1 ∩ A cp2 h2). split.
  - assert (size (vs_validators vs) = size (dom (vs_validators vs) : gset PeerID)) as ->
      by (symmetry; apply size_dom).
    apply quorum_intersection; [done|by apply Hsub|by apply Hsub|..]; subst A; cbn beta;
      by rewrite size_dom.
  - intros id [[s1 H1]%elem_of_dom [s2 H2]%elem_of_dom]%elem_of_intersection.
    exists s1, s2. auto 10.
Qed.

(** * Packets that change nothing *)

(** A proposal or an approval whose claimed author is not a validator, or
    whose signature that validator's BLS signer does not accept for the block
    hash, leaves the node exactly as it was. *)
Theorem forged_packet_ignored (cp : Protocol) (pkt : ConsensusPacket) :
  let author := if cp_Type pkt =? PacketTypeProposal then cp_ProposerID pkt else cp_ValidatorID pkt in
  cp_Type pkt = PacketTypeProposal \/ cp_Type pkt = PacketTypeApproval ->
  match GetValidator (cp_validators cp) author with
  | None => True
  | Some v => exists s, Validator_Signer v BlsSignerType = Some s /\
      no_panic (Signer_Verify s (cp_BlockHash pkt) (cp_Signature pkt)) /\
      verifies s (cp_BlockHash pkt) (cp_Signature pkt) = false
  end ->
  HandleMessage pkt cp = (cp, Ok tt).
Proof.
  cbv zeta. intros HT Hauth. unfold HandleMessage.
  assert (forall v s k, Validator_Signer v BlsSignerType = Some s ->
    no_panic (Signer_Verify s (cp_BlockHash pkt) (cp_Signature pkt)) ->
    verifies s (cp_BlockHash pkt) (cp_Signature pkt) = false ->
    (valid ← check_signature v (cp_BlockHash pkt) (cp_Signature pkt); when valid k) cp = (cp, Ok tt)) as Hk.
  { intros v s k Hs Hp Hv. cbv [mbind io_bind]. unfold check_signature, call_Verify, verifies in *.
    rewrite Hs. by destruct (Signer_Verify s _ _) as [[]| |]. }
  destruct HT as [HT|HT]; rewrite HT in *.
  - cbn [Z.eqb Pos.eqb PacketTypeProposal] in *.
    unfold HandleProposal. unfold mbind at 1, io_bind at 1, get.
    destruct (HasProposal _ _); [done|].
    destruct (GetValidator _ _) as [v|]; [|done]. destruct Hauth as (s & Hs & Hp & Hv). by eapply Hk.
  - cbn [Z.eqb Pos.eqb PacketTypeProposal PacketTypeApproval] in *.
    unfold HandleApproval. unfold mbind at 1, io_bind at 1, get.
    destruct (GetValidator _ _) as [v|]; [|done]. destruct Hauth as (s & Hs & Hp & Hv). by eapply Hk.
Qed.

(** A finalization packet finalizes its block at once: no signature, no
    quorum, no known proposal and no known sender is asked for, and the block
    counts as finalized even when it could not be stored. *)
Theorem finalization_packet_unchecked (cp : Protocol) (pkt : ConsensusPacket) :
  cp_Type pkt = PacketTypeFinalization ->
  IsFinalized (cp_state (HandleMessage pkt cp).1) (cp_BlockHash pkt) = true.
Proof.
  intros HT. unfold HandleMessage. rewrite HT. cbn [Z.eqb Pos.eqb PacketTypeProposal
    PacketTypeApproval PacketTypeFinalization].
  set (F := fun cp : Protocol => IsFinalized (cp_state cp) (cp_BlockHash pkt) = true).
  assert (hoare (fun _ => True) (HandleFinalization pkt) (fun _ => F) F) as Hk.
  2:{ specialize (Hk cp I). by destruct (HandleFinalization pkt cp) as [cp' [| |]]. }
  unfold HandleFinalization. eapply hoare_bind; [apply hoare_get|]. intros cp0. cbn beta.
  destruct (IsFinalized (cp_state cp0) (cp_BlockHash pkt)) eqn:E0.
  { apply hoare_ret. by intros cp' [<- _]. }
  apply (hoare_bind _ _ _ (fun _ => F)).
  { apply hoare_logged, hoare_on_state. intros cp' _.
    pose proof (IsFinalized_FinalizeBlock (cp_state cp') (cp_BlockHash pkt) (cp_BlockHash pkt)) as Hf.
    rewrite bool_decide_eq_true_2 in Hf by done.
    by destruct (State_FinalizeBlock (cp_state cp') (cp_BlockHash pkt)) as [cs [| |]]. }
  intros stored. apply hoare_when; [intros _|done]. apply (hoare_bind _ _ _ (fun _ => F)).
  - destruct (cp_blockFinalizer cp0) as [fin|]; [|by apply hoare_ret]. apply hoare_logged.
    intros cp2 HF. cbv [mbind io_bind get io_lift call_finalizer].
    destruct (Db_Get _ _) as [d| |]; [|done..]. by destruct (fin _ _).
  - intros notified. apply hoare_when; [intros _|done].
    apply (hoare_bind _ _ _ (fun _ => F)); [|intros; by apply hoare_ret].
    by apply hoare_logged, keeps_Broadcast.
Qed.
End Consensus.
Arguments State : clear implicits.
Arguments Protocol : clear implicits.

(** * What the database holds *)
Section Stored.
Context {E : Type} `{MdbxLaws E} (Put_ok : forall (e : E) k v, is_ok (mdbx_Put e k v) = true).

Lemma Db_Set_ok (db : E) k v :
  exists db', Db_Set db k v = (db', Ok tt) /\ Db_Get db' k = Ok v.
Proof.
  pose proof (Db_Set_spec db k v) as HS. unfold Db_Set, env_Update in *.
  specialize (Put_ok db k v). destruct (mdbx_Put db k v) as [db'| |]; [|done..].
  exists db'. split; [done|]. by rewrite Db_Get_spec, HS, lookup_insert_eq.
Qed.

Lemma persist_ok (cs : State E) k v :
  exists cs', persist cs k v = (cs', Ok tt) /\ Db_Get (st_storage cs') k = Ok v.
Proof.
  unfold persist. destruct (Db_Set_ok (st_storage cs) k v) as (db & -> & Hget). by eexists.
Qed.

(** When the writes succeed, the block data of a proposal, the signature of each new
    approval and the mark of finalization are all stored under the block hash, each in place
    of the one before; so the block finalizer is never given the block data but
    the mark. *)
Theorem stored_block_overwritten (cs : State E) (prop appr : ConsensusPacket) (h : bytes)
    (cp : Protocol E) (fin : bytes -> bytes -> res unit) (pkt : ConsensusPacket) :
  (cp_Type prop = PacketTypeProposal -> exists cs', AddProposal cs prop = (cs', Ok tt) /\
     Db_Get (st_storage cs') (cp_BlockHash prop) = Ok (cp_BlockData prop)) /\
  (cp_Type appr = PacketTypeApproval ->
   approvals_for cs (cp_BlockHash appr) !! cp_ValidatorID appr = None ->
   exists cs', AddApproval cs appr = (cs', Ok tt) /\
     Db_Get (st_storage cs') (cp_BlockHash appr) = Ok (cp_Signature appr)) /\
  (exists cs', State_FinalizeBlock cs h = (cs', Ok tt) /\
     Db_Get (st_storage cs') h = Ok (str "finalized")) /\
  (cp_blockFinalizer cp = Some fin -> IsFinalized (cp_state cp) (cp_BlockHash pkt) = false ->
   cp_finalizer_calls (HandleFinalization pkt cp).1 =
     cp_finalizer_calls cp ++ [(cp_BlockHash pkt, str "finalized")]).
Proof.
  assert (forall cs h, exists cs', State_FinalizeBlock cs h = (cs', Ok tt) /\
     Db_Get (st_storage cs') h = Ok (str "finalized")) as Hfin.
  { intros cs0 h0. unfold State_FinalizeBlock, persist_finalized.
    destruct (persist_ok (put_finalized cs0 h0) h0 (str "finalized")) as (cs' & -> & Hget).
    by exists cs'. }
  split; [|split; [|split]].
  - intros HT. unfold AddProposal. rewrite HT, Z.eqb_refl. cbn [negb]. apply persist_ok.
  - intros HT Hnew. unfold AddApproval. rewrite HT, Z.eqb_refl. cbn [negb].
    unfold put_approval. rewrite Hnew. apply persist_ok.
  - apply Hfin.
  - intros Hcb Hnf. unfold HandleFinalization. cbv [mbind io_bind get logged on_state when].
    rewrite Hnf. destruct (Hfin (cp_state cp) (cp_BlockHash pkt)) as (cs' & -> & Hget).
    rewrite Hcb. cbn [set_state cp_state io_lift]. unfold io_lift. rewrite Hget. unfold call_finalizer.
    set (cp1 := log_finalizer _ _ _).
    assert (cp_finalizer_calls cp1 = cp_finalizer_calls cp ++ [(cp_BlockHash pkt, str "finalized")]) as Hc by done.
    destruct (fin _ _); [|done..].
    pose proof (keeps_Broadcast (E := E) (fun c => cp_finalizer_calls c = cp_finalizer_calls cp1)
      (finalization_packet (cp_BlockHash pkt))) as Hb.
    specialize (Hb ltac:(done) cp1 eq_refl). rewrite <- Hc.
    by destruct (BroadcastMessage _ cp1) as [cp2 [| |]].
Qed.
End Stored.

(** * Liveness *)
Section Liveness.
Context {E : Type} `{Mdbx E}.

(** A packet by which a validator of the node approves block [h]. *)
Definition valid_approval (vs : ValidatorSet) (h : bytes) (pkt : ConsensusPacket) : Prop :=
  cp_Type pkt = PacketTypeApproval /\ cp_BlockHash pkt = h /\
  exists v s, GetValidator vs (cp_ValidatorID pkt) = Some v /\
    Validator_Signer v BlsSignerType = Some s /\ Signer_Verify s h (cp_Signature pkt) = Ok true.

(** The approvals and the configuration of a node, which finalizing leaves alone. *)
Definition same_votes (cp cp' : Protocol E) : Prop :=
  st_approvals (cp_state cp') = st_approvals (cp_state cp) /\
  cp_validators cp' = cp_validators cp /\ cp_quorumThreshold cp' = cp_quorumThreshold cp.

Lemma finalize_if_quorum_spec (cp : Protocol E) h :
  same_votes cp (finalize_if_quorum h cp).1 /\
  (HasReachedQuorum (cp_state cp) h (cp_quorumThreshold cp) = true ->
   IsFinalized (cp_state (finalize_if_quorum h cp).1) h = true).
Proof.
  unfold finalize_if_quorum. cbv [mbind io_bind get when logged].
  destruct (HasReachedQuorum _ _ _) eqn:Hq; [|done].
  enough (hoare (fun c => c = cp) (FinalizeBlock h)
    (fun _ c => same_votes cp c /\ IsFinalized (cp_state c) h = true)
    (fun c => same_votes cp c /\ IsFinalized (cp_state c) h = true)) as Hk.
  { specialize (Hk cp eq_refl). destruct (FinalizeBlock h cp) as [cp' [| |]]; cbn; tauto. }
  unfold FinalizeBlock. eapply hoare_bind; [apply hoare_get|]. intros cp0. cbn beta.
  intros cp1 [-> ->]. destruct (IsFinalized (cp_state cp) h) eqn:Hf; [done|]. rewrite Hq. cbn [negb].
  revert cp Hq Hf. intros cp _ _.
  set (G := fun c : Protocol E => same_votes cp c /\ IsFinalized (cp_state c) h = true).
  enough (hoare (fun c => c = cp) (_ ← io_wrap "failed to finalize block"
      (on_state (fun cs => State_FinalizeBlock cs h));
    io_wrap "failed to broadcast finalization packet" (BroadcastMessage (finalization_packet h)))
    (fun _ => G) G) as Hk by by apply Hk.
  apply (hoare_bind _ _ _ (fun _ => G)); [|intros _; by apply hoare_wrap, keeps_Broadcast].
  apply hoare_wrap, hoare_on_state. intros c ->.
  assert (G (set_state cp (State_FinalizeBlock (cp_state cp) h).1)) as HG.
  { split; [split; [|done]|]; cbn.
    - by destruct (State_FinalizeBlock_proj (cp_state cp) h).
    - by rewrite IsFinalized_FinalizeBlock, bool_decide_eq_true_2. }
  by destruct (State_FinalizeBlock (cp_state cp) h) as [cs [| |]].
Qed.

(** What an approval that is accepted leaves: it is recorded, and if its record was
    stored the quorum is looked at. *)
Lemma handle_valid_approval (cp : Protocol E) h pkt :
  valid_approval (cp_validators cp) h pkt ->
  let cp' := (HandleMessage pkt cp).1 in
  cp_validators cp' = cp_validators cp /\ cp_quorumThreshold cp' = cp_quorumThreshold cp /\
  approvals_for (cp_state cp) h ⊆ approvals_for (cp_state cp') h /\
  is_Some (approvals_for (cp_state cp') h !! cp_ValidatorID pkt) /\
  (is_ok (AddApproval (cp_state cp) pkt).2 = true ->
   HasReachedQuorum (cp_state cp') h (cp_quorumThreshold cp) = true ->
   IsFinalized (cp_state cp') h = true).
Proof.
  intros (HT & Hh & v & s & Hv & Hs & Hver). unfold HandleMessage. rewrite HT.
  cbn [Z.eqb Pos.eqb PacketTypeProposal PacketTypeApproval].
  unfold HandleApproval. cbv [mbind io_bind get]. rewrite Hv. unfold check_signature, call_Verify.
  rewrite Hs, Hh, Hver. cbv [mret io_ret when]. cbv [logged on_state].
  pose proof (AddApproval_mono (cp_state cp) pkt h) as Hmono.
  pose proof (AddApproval_approvals (cp_state cp) pkt h HT) as Happ.
  rewrite bool_decide_eq_true_2 in Happ by done.
  destruct (AddApproval (cp_state cp) pkt) as [cs' r]. cbn [fst snd] in *.
  assert (is_Some (approvals_for cs' h !! cp_ValidatorID pkt)) as Hin.
  { rewrite Happ. destruct (approvals_for (cp_state cp) h !! cp_ValidatorID pkt) eqn:Hl; [eauto|].
    rewrite lookup_insert_eq. eauto. }
  destruct r as [[]|e|]; [|done..]. cbv zeta.
  destruct (finalize_if_quorum_spec (set_state cp cs') h) as [(Ev & E1 & E2) Hfin].
  set (cp' := (finalize_if_quorum h (set_state cp cs')).1) in *.
  assert (approvals_for (cp_state cp') h = approvals_for cs' h) as Ea
    by (unfold approvals_for; by rewrite Ev).
  rewrite E1, E2, Ea. do 4 (split; [done|]).
  unfold HasReachedQuorum in *. rewrite Ea. cbn in Hfin. intros _. apply Hfin.
Qed.

(** An approval that is recorded already is not stored again. *)
Lemma AddApproval_again (cs : State E) pkt :
  cp_Type pkt = PacketTypeApproval ->
  is_Some (approvals_for cs (cp_BlockHash pkt) !! cp_ValidatorID pkt) ->
  is_ok (AddApproval cs pkt).2 = true.
Proof.
  intros HT [sig Hs]. unfold AddApproval. rewrite HT, Z.eqb_refl. cbn [negb].
  unfold put_approval. by rewrite Hs.
Qed.

Definition handle_all (pkts : list ConsensusPacket) (cp : Protocol E) : Protocol E :=
  fold_left (fun cp pkt => (HandleMessage pkt cp).1) pkts cp.

Lemma handle_all_approvals pkts cp h :
  Forall (valid_approval (cp_validators cp) h) pkts ->
  cp_validators (handle_all pkts cp) = cp_validators cp /\
  cp_quorumThreshold (handle_all pkts cp) = cp_quorumThreshold cp /\
  approvals_for (cp_state cp) h ⊆ approvals_for (cp_state (handle_all pkts cp)) h /\
  forall id, id ∈ (cp_ValidatorID <$> pkts) ->
    is_Some (approvals_for (cp_state (handle_all pkts cp)) h !! id).
Proof.
  revert cp. induction pkts as [|pkt pkts IH]; intros cp Hall.
  { do 3 (split; [done|]). by intros id ?%elem_of_nil. }
  apply Forall_cons in Hall as [Hpkt Hall]. cbn [handle_all fold_left].
  destruct (handle_valid_approval cp h pkt Hpkt) as (E1 & E2 & Hsub & [sig Hin] & _).
  destruct (IH (HandleMessage pkt cp).1) as (F1 & F2 & Fsub & Fin); [by rewrite E1|].
  unfold handle_all in *. rewrite F1, F2. split; [done|]. split; [done|].
  split; [by etransitivity|]. intros id [->|Hid]%elem_of_cons; [|by apply Fin].
  exists sig. by eapply lookup_weaken.
Qed.

Lemma handled_quorum (cp : Protocol E) h pkts :
  Forall (valid_approval (cp_validators cp) h) pkts -> NoDup (cp_ValidatorID <$> pkts) ->
  cp_quorumThreshold cp <= Zlen pkts ->
  HasReachedQuorum (cp_state (handle_all pkts cp)) h (cp_quorumThreshold cp) = true.
Proof.
  intros Hall Hnd Hq. destruct (handle_all_approvals pkts cp h Hall) as (_ & _ & _ & Hin).
  unfold HasReachedQuorum. apply Z.leb_le. set (m := approvals_for _ h) in *.
  assert (length (cp_ValidatorID <$> pkts) <= size m)%nat as Hsize.
  { rewrite <- (size_dom (D := gset PeerID)).
    rewrite <- (size_list_to_set (C := gset PeerID)) by done.
    apply subseteq_size. intros id Hid%elem_of_list_to_set. by apply elem_of_dom, Hin. }
  rewrite length_fmap in Hsize. unfold Zlen in Hq. lia.
Qed.

(** C2: when a node has handled valid approvals of a block from as many
    different validators as its quorum asks for, in any order and on top of
    whatever happened before, all are recorded and the quorum is reached.  The
    block is then finalized if the last of them was stored; if the database
    failed on it, the quorum was not looked at, and handling any of the approvals
    once more finalizes the block, without a write.  The network may fail, and the
    database on every other write. *)
Theorem approvals_finalize (cp : Protocol E) (h : bytes) (pkts : list ConsensusPacket)
    (pkt : ConsensusPacket) :
  Forall (valid_approval (cp_validators cp) h) (pkts ++ [pkt]) ->
  NoDup (cp_ValidatorID <$> pkts ++ [pkt]) -> cp_quorumThreshold cp <= Zlen (pkts ++ [pkt]) ->
  HasReachedQuorum (cp_state (handle_all (pkts ++ [pkt]) cp)) h (cp_quorumThreshold cp) = true /\
  (is_ok (AddApproval (cp_state (handle_all pkts cp)) pkt).2 = true ->
   IsFinalized (cp_state (handle_all (pkts ++ [pkt]) cp)) h = true) /\
  (forall again, again ∈ pkts ++ [pkt] ->
   IsFinalized (cp_state (handle_all (pkts ++ [pkt; again]) cp)) h = true).
Proof.
  intros Hall Hnd Hq. pose proof (handled_quorum cp h _ Hall Hnd Hq) as Hquorum.
  destruct (handle_all_approvals _ cp h Hall) as (Ev & Eq & _ & Hin).
  split; [done|]. split.
  - unfold handle_all in *. rewrite fold_left_app in *. cbn [fold_left] in *.
    apply Forall_app in Hall as [Hall [Hpkt _]%Forall_cons].
    destruct (handle_all_approvals pkts cp h Hall) as (E1 & E2 & _). unfold handle_all in *.
    destruct (handle_valid_approval (fold_left (fun cp pkt => (HandleMessage pkt cp).1) pkts cp) h pkt)
      as (_ & _ & _ & _ & Hfin); [by rewrite E1|]. intros Hok. apply Hfin; [done|]. by rewrite E2.
  - intros again Hag. change (pkts ++ [pkt; again]) with (pkts ++ [pkt] ++ [again]).
    rewrite app_assoc. unfold handle_all in *. rewrite (fold_left_app _ _ [again]). cbn [fold_left].
    set (cp1 := fold_left _ (pkts ++ [pkt]) cp) in *.
    pose proof (proj1 (Forall_forall _ _) Hall again Hag) as Hv.
    destruct (handle_valid_approval cp1 h again) as (_ & _ & Hmono & _ & Hfin); [by rewrite Ev|].
    destruct Hv as (HT & Hh & _). apply Hfin.
    + apply AddApproval_again; [done|]. rewrite Hh. apply Hin, list_elem_of_fmap. by exists again.
    + rewrite Eq. by eapply HasReachedQuorum_mono.
Qed.
End Liveness.

(** * A concrete node

    Three validators whose toy signatures are the name of the signer followed
    by the message. *)
Definition toy_signer (id : string) : Signer := {|
  Signer_Sign d := if Zlen d =? 0 then Err (ErrMsg "data to sign is empty") else Ok (str "s" ++ str id ++ d);
  Signer_Type := BlsSignerType;
  Signer_Verify d sig := Ok (bool_decide (sig = str "s" ++ str id ++ d)) |}.

Lemma toy_signer_correct id : SignerCorrect (toy_signer id).
Proof.
  split; cbn; intros d.
  - intros Hd. destruct (Z.eqb_spec (Zlen d) 0) as [H0|_]; [by apply Zlen_0 in H0|eauto].
  - intros sig. destruct (Z.eqb_spec (Zlen d) 0); [done|]. intros [= <-].
    unfold verifies. cbn. by rewrite bool_decide_eq_true_2.
  - intros sig. destruct (Z.eqb_spec (Zlen d) 0); [done|]. by intros [= <-].
Qed.

Definition toy_account (id : string) : Account :=
  {| acc_ID := str id; acc_Address := ZeroAddress; acc_PeerID := str id; acc_Name := id;
     acc_PeerPrivateKey := []; acc_PeerPublicKey := [];
     acc_Signers := {[ BlsSignerType := toy_signer id ]}; acc_Comment := "" |}.
Definition vs_three : ValidatorSet :=
  SetLeader (AddValidator (AddValidator (AddValidator NewValidatorSet (toy_account "a"))
    (toy_account "b")) (toy_account "c")) (str "a").

Lemma validators_ok_new : validators_ok NewValidatorSet.
Proof. intros id v. unfold GetValidator, NewValidatorSet. cbn. by rewrite lookup_empty. Qed.
Lemma validators_ok_add vs account :
  validators_ok vs ->
  (forall s, acc_Signers account !! BlsSignerType = Some s -> SignerCorrect s) ->
  validators_ok (AddValidator vs account).
Proof.
  intros Hvs Hs id v. unfold GetValidator, AddValidator. cbn.
  intros [[<- <-]|[_ Hv]]%lookup_insert_Some; [done|by apply Hvs].
Qed.
Lemma validators_ok_leader vs id : validators_ok vs -> validators_ok (SetLeader vs id).
Proof. unfold SetLeader. by case_match. Qed.

Lemma vs_three_ok : validators_ok vs_three.
Proof.
  apply validators_ok_leader. repeat apply validators_ok_add; [apply validators_ok_new|..];
    (intros s; unfold toy_account; cbn [acc_Signers];
     intros [_ <-]%lookup_singleton_Some; apply toy_signer_correct).
Qed.

Definition node0 : Protocol MemDb := NewProtocol vs_three ∅ None None.
Definition approve (h : string) (id : string) (cp : Protocol MemDb) : Protocol MemDb :=
  (ApproveProposal (str h) (str id) cp).1.
Definition approve_by_all (h : string) (cp : Protocol MemDb) : Protocol MemDb :=
  approve h "c" (approve h "b" (approve h "a" cp)).
Lemma reachable_approve_all h finals cp :
  reachable vs_three finals cp -> reachable vs_three finals (approve_by_all h cp).
Proof. intros. unfold approve_by_all, approve. repeat apply reach_approve. done. Qed.

Definition node1 : Protocol MemDb := approve_by_all "two" (approve_by_all "one" node0).
Lemma node1_reachable : reachable vs_three [] node1.
Proof. do 2 apply reachable_approve_all. apply reach_new. Qed.

Lemma consensus_safety_witness :
  (forall h id sig, approvals_for (cp_state node1) h !! id = Some sig -> signed_by vs_three h id sig) /\
  (forall h, IsFinalized (cp_state node1) h = true ->
     QuorumSize vs_three <= GetApprovalCount (cp_state node1) h \/ h ∈ []).
Proof. apply (consensus_safety vs_three [] node1 vs_three_ok node1_reachable). Defined.

Definition node2 : Protocol MemDb := approve_by_all "two" node0.
Lemma finalized_blocks_share_approvers_witness :
  exists common : gset PeerID,
    Z.of_nat (size (vs_validators vs_three)) < 3 * Z.of_nat (size common) /\
    forall id, id ∈ common -> exists sig1 sig2,
      approvals_for (cp_state node1) (str "one") !! id = Some sig1 /\ signed_by vs_three (str "one") id sig1 /\
      approvals_for (cp_state node2) (str "two") !! id = Some sig2 /\ signed_by vs_three (str "two") id sig2.
Proof.
  apply (finalized_blocks_share_approvers vs_three [] [] node1 node2 (str "one") (str "two") vs_three_ok);
    [discriminate|apply node1_reachable|apply reachable_approve_all, reach_new
    |vm_compute; reflexivity|apply not_elem_of_nil|vm_compute; reflexivity|apply not_elem_of_nil].
Defined.

Definition packet (ty : Z) (author h sig : bytes) : ConsensusPacket :=
  {| cp_Type := ty; cp_Signer := ""; cp_ProposerID := author; cp_ValidatorID := author;
     cp_BlockHash := h; cp_BlockData := []; cp_Signature := sig |}.
Lemma forged_packet_ignored_witness :
  HandleMessage (packet PacketTypeApproval (str "b") (str "one") (str "forged")) node0 = (node0, Ok tt).
Proof.
  apply (forged_packet_ignored node0); [by right|].
  exists (toy_signer "b"). split; [reflexivity|]. by split.
Defined.

Lemma finalization_packet_unchecked_witness :
  IsFinalized (cp_state (HandleMessage (packet PacketTypeFinalization [] (str "one") []) node0).1)
    (str "one") = true.
Proof. by apply (finalization_packet_unchecked node0 (packet PacketTypeFinalization [] (str "one") [])). Defined.

Lemma stored_block_overwritten_witness :
  cp_finalizer_calls (HandleFinalization (packet PacketTypeFinalization [] (str "one") [])
    (NewProtocol vs_three (∅ : MemDb) None (Some (fun _ _ => Ok tt)))).1 =
    [(str "one", str "finalized")].
Proof.
  destruct (@stored_block_overwritten MemDb mem_mdbx mem_mdbx_laws (fun _ _ _ => eq_refl)
    (NewState ∅) (packet 1 [] [] []) (packet 2 [] [] []) []
    (NewProtocol vs_three (∅ : MemDb) None (Some (fun _ _ => Ok tt))) (fun _ _ => Ok tt)
    (packet PacketTypeFinalization [] (str "one") [])) as (_ & _ & _ & H).
  apply H; reflexivity.
Defined.

Definition approval_of (id : string) : ConsensusPacket :=
  packet PacketTypeApproval (str id) (str "one") (str "s" ++ str id ++ str "one").
Lemma approval_of_valid id :
  GetValidator vs_three (str id) = Some {| val_account := toy_account id |} ->
  valid_approval vs_three (str "one") (approval_of id).
Proof.
  intros Hget. split; [done|]. split; [done|].
  exists {| val_account := toy_account id |}, (toy_signer id).
  split; [exact Hget|]. split; [by apply lookup_singleton_eq|]. cbn. by rewrite bool_decide_eq_true_2.
Qed.
Lemma approvals_finalize_witness :
  IsFinalized (cp_state (handle_all ([approval_of "c"; approval_of "a"] ++ [approval_of "b"]) node0))
    (str "one") = true.
Proof.
  refine (proj1 (proj2 (approvals_finalize node0 (str "one") [approval_of "c"; approval_of "a"]
    (approval_of "b") _ _ _)) _).
  - repeat (apply Forall_cons; split); [..|apply Forall_nil; exact I];
      apply approval_of_valid; reflexivity.
  - apply (bool_decide_unpack _). vm_compute. exact I.
  - vm_compute. discriminate.
  - vm_compute. reflexivity.
Defined.
