(* ===== verification/StateThreads.v ===== *)
(** The writers of the consensus state as threads.

    [State.AddProposal], [State.AddApproval] and [State.FinalizeBlock] of
    [pkg/consensus/state.go] change a map under its lock and then, without the lock,
    write to the database.  Each is two steps here, for every component that holds
    such a state: the protocol of [pkg/consensus] and the module of [pkg/validator]. *)
From S2P Require Import Prelude Bytes Packets Storage Validators Consensus Threads.

(** A component that holds a state of the consensus. *)
Class HoldsState (E : Type) `{Mdbx E} (Node : Type) := {
  held : Node -> State E;
  hold : Node -> State E -> Node;
  hold_held n : hold n (held n) = n;
  held_hold n cs : held (hold n cs) = cs;
  hold_hold n cs cs' : hold (hold n cs) cs' = hold n cs';
}.

Module StateThreads.
Section Writers.
Context {E : Type} `{Mdbx E} {Node : Type} `{!HoldsState E Node} {mutex : Type} `{EqDecision mutex}.
Local Abbreviation T := (@T Node mutex).

Definition on_held {A} (f : State E -> State E * res A) : io Node A := fun n =>
  let '(cs, r) := f (held n) in (hold n cs, r).
(** A critical section of a map. *)
Definition section {A} (f : State E -> State E * A) : T A :=
  atom (on_held (fun cs => let '(cs, a) := f cs in (cs, Ok a))).

Definition AddProposal (msg : ConsensusPacket) : T unit :=
  if negb (cp_Type msg =? PacketTypeProposal)
  then pure (Err (ErrMsg "invalid packet type for proposal: %v"))
  else
    _ ← section (fun cs => (put_proposal cs msg, tt));
    atom (on_held (fun cs => persist cs (cp_BlockHash msg) (cp_BlockData msg))).

Definition AddApproval (msg : ConsensusPacket) : T unit :=
  if negb (cp_Type msg =? PacketTypeApproval)
  then pure (Err (ErrMsg "invalid packet type for approval: %v"))
  else
    new ← section (fun cs => put_approval cs msg);
    if new : bool
    then atom (on_held (fun cs => persist cs (cp_BlockHash msg) (cp_Signature msg)))
    else mret tt.

Definition FinalizeBlock (blockHash : bytes) : T unit :=
  _ ← section (fun cs => (put_finalized cs blockHash, tt));
  atom (on_held (fun cs => persist_finalized cs blockHash)).

(** * Alone *)
(** A critical section and what follows, as one method. *)
Lemma run_section {A B} (f : State E -> State E * A) (k : A -> T B) c n :
  run ((section f ≫= k) c) n = run (k (f (held n)).2 c) (hold n (f (held n)).1).
Proof.
  unfold section, on_held, atom. cbv [mbind T_bind]. cbn [run]. by destruct (f (held n)).
Qed.
Lemma run_on_held {A} (f : State E -> State E * res A) (c : res A -> @prog Node mutex) n cs :
  run (atom (on_held f) c) (hold n cs) = run (c (f cs).2) (hold n (f cs).1).
Proof. unfold on_held. cbn. rewrite held_hold. destruct (f cs). by rewrite hold_hold. Qed.

Lemma sim_state_AddProposal msg : sim (AddProposal msg) (on_held (fun cs => Consensus.AddProposal cs msg)).
Proof.
  intros c n. unfold AddProposal, Consensus.AddProposal, on_held at 2 3. destruct (negb _).
  - cbn. by rewrite hold_held.
  - rewrite run_section, run_on_held. by destruct (persist _ _ _).
Qed.
Lemma sim_state_AddApproval msg : sim (AddApproval msg) (on_held (fun cs => Consensus.AddApproval cs msg)).
Proof.
  intros c n. unfold AddApproval, Consensus.AddApproval, on_held at 2 3. destruct (negb _).
  - cbn. by rewrite hold_held.
  - rewrite run_section. destruct (put_approval (held n) msg) as [cs []]; cbn [fst snd]; [|done].
    rewrite run_on_held. by destruct (persist _ _ _).
Qed.
Lemma sim_state_State_FinalizeBlock h : sim (FinalizeBlock h) (on_held (fun cs => State_FinalizeBlock cs h)).
Proof.
  intros c n. unfold FinalizeBlock, State_FinalizeBlock, on_held at 2 3.
  rewrite run_section, run_on_held. by destruct (persist_finalized _ _).
Qed.

Lemma neutral_AddProposal l msg : neutral l (AddProposal msg).
Proof. unfold AddProposal, section. neutral_tac. Qed.
Lemma neutral_AddApproval l msg : neutral l (AddApproval msg).
Proof. unfold AddApproval, section. neutral_tac. Qed.
Lemma neutral_State_FinalizeBlock l h : neutral l (FinalizeBlock h).
Proof. unfold FinalizeBlock, section. neutral_tac. Qed.

(** * Under interference *)
(** What the other threads may do meanwhile: approvals and proposals are only added. *)
Definition grows (cs cs' : State E) : Prop :=
  (forall h, approvals_for cs h ⊆ approvals_for cs' h) /\
  (forall h, HasProposal cs h = true -> HasProposal cs' h = true).
#[export] Instance grows_PreOrder : PreOrder grows.
Proof.
  split; [by intros cs|]. intros cs1 cs2 cs3 [A1 P1] [A2 P2].
  split; [intros h; etrans; [apply A1|apply A2]|auto].
Qed.
Definition extends (n n' : Node) : Prop := grows (held n) (held n').
#[export] Instance extends_PreOrder : PreOrder extends.
Proof. split; [by intros n|]. intros n1 n2 n3 H1 H2. unfold extends in *. by etrans. Qed.

Lemma grows_same_maps cs cs' : same_maps cs cs' -> grows cs cs'.
Proof.
  intros Hm. pose proof Hm as (E1 & _). split; intros h.
  - by rewrite (same_maps_approvals _ _ h Hm).
  - unfold HasProposal. by rewrite E1.
Qed.
Lemma HasProposal_put (cs : State E) msg h :
  HasProposal (put_proposal cs msg) h = bool_decide (h = cp_BlockHash msg) || HasProposal cs h.
Proof.
  unfold HasProposal. cbn [put_proposal st_proposals]. destruct (decide (h = cp_BlockHash msg)) as [->|Hh].
  { rewrite lookup_insert_eq, (bool_decide_eq_true_2 (cp_BlockHash msg = _)) by done.
    by rewrite bool_decide_eq_true_2. }
  rewrite (bool_decide_eq_false_2 (h = _)) by done.
  by rewrite lookup_insert_ne by (by intros ?%(inj hash_key)).
Qed.
Lemma grows_put_proposal (cs : State E) msg : grows cs (put_proposal cs msg).
Proof. split; [done|]. intros h Hh. by rewrite HasProposal_put, Hh, orb_true_r. Qed.
Lemma grows_put_approval (cs : State E) msg : grows cs (put_approval cs msg).1.
Proof.
  split; [intros h; apply put_approval_mono|]. intros h. unfold HasProposal.
  by destruct (put_approval_proj cs msg) as [-> _].
Qed.

Section Safety.
Context (I : Node -> Prop).
(** The invariant looks at the three maps only, and not at how many proposals there are. *)
Context (I_maps : forall n cs, I n -> grows (held n) cs -> st_approvals cs = st_approvals (held n) ->
  st_finalized cs = st_finalized (held n) -> I (hold n cs)).
Local Abbreviation safe := (Threads.safe (mutex := mutex) I extends).
Local Abbreviation anywhere := (fun _ : Node => True).
Local Abbreviation any := (fun _ _ => True).

Lemma safe_section {A} P (f : State E -> State E * A) (Q : A -> Node -> Prop) :
  stable extends P -> (forall n, I n -> P n -> I (hold n (f (held n)).1)) ->
  (forall cs, grows cs (f cs).1) ->
  (forall n, I n -> P n -> Q (f (held n)).2 (hold n (f (held n)).1)) -> safe P (section f) Q.
Proof.
  intros Hst HI He HQ. apply safe_atom; [done|]. intros n Hn HP. specialize (HI n Hn HP).
  specialize (He (held n)). specialize (HQ n Hn HP). unfold on_held, extends.
  destruct (f (held n)) as [cs a]. cbn in *. rewrite held_hold. do 2 (split; [done|]). by intros ? [= <-].
Qed.
Lemma safe_same_maps {A} P (f : State E -> State E * res A) :
  stable extends P -> (forall cs, same_maps cs (f cs).1) -> safe P (atom (on_held f)) (fun _ => P).
Proof.
  intros Hst Hf. apply safe_atom; [done|]. intros n Hn HP.
  pose proof (Hf (held n)) as Hm. unfold on_held. destruct (f (held n)) as [cs r]. cbn in *.
  assert (extends n (hold n cs)) as He by (unfold extends; rewrite held_hold; by apply grows_same_maps).
  split; [apply I_maps; [done|by apply grows_same_maps|apply Hm..]|]. split; [done|].
  intros a _. by eapply Hst.
Qed.

Lemma safe_state_AddProposal msg :
  safe anywhere (AddProposal msg) (fun _ n => HasProposal (held n) (cp_BlockHash msg) = true).
Proof.
  unfold AddProposal. destruct (negb _); [by apply safe_pure|].
  apply (safe_bind_T _ _ _ (fun _ n => HasProposal (held n) (cp_BlockHash msg) = true)).
  - apply safe_section; [done|..].
    + intros n Hn _. apply I_maps; [done|apply grows_put_proposal|done..].
    + intros cs. apply grows_put_proposal.
    + intros n _ _. cbn [fst]. by rewrite held_hold, HasProposal_put, bool_decide_eq_true_2.
  - intros _. apply safe_same_maps; [|intros cs; apply same_maps_persist].
    intros n n' Hn He. by apply He.
Qed.
Lemma safe_state_AddApproval P msg :
  stable extends P -> (forall n, I n -> P n -> I (hold n (put_approval (held n) msg).1)) ->
  safe P (AddApproval msg) any.
Proof.
  intros Hst Hput. unfold AddApproval. destruct (negb _); [by apply safe_pure|].
  apply (safe_bind_T _ _ _ (fun _ => anywhere)).
  - apply safe_section; [done|done|intros; apply grows_put_approval|done].
  - intros []; [|by apply safe_ret_T]. eapply safe_post; [|done].
    apply safe_same_maps; [done|]. intros cs. apply same_maps_persist.
Qed.
Lemma safe_state_FinalizeBlock P h :
  stable extends P -> (forall n, I n -> P n -> I (hold n (put_finalized (held n) h))) ->
  safe P (FinalizeBlock h) any.
Proof.
  intros Hst Hput. unfold FinalizeBlock. apply (safe_bind_T _ _ _ (fun _ => anywhere)).
  - by apply safe_section.
  - intros _. eapply safe_post; [|done]. apply safe_same_maps; [done|].
    intros cs. apply same_maps_persist_finalized.
Qed.
End Safety.
End Writers.
End StateThreads.
