(* ===== verification/ConsensusThreads.v ===== *)
(** The goroutines of [pkg/consensus]: the methods of the protocol as
    interleaved threads.

    [Consensus.v] gives every method as one step.  The program runs a goroutine
    per message, next to the callers of the exported methods, and takes a lock
    in each method of the state and in the handlers.  Here they are threads of
    [Threads.v]: an action is one critical section of the state
    ([StateThreads.v]), one call of the network, the database or the finalizer, a
    lock or an unlock of one of the two mutexes of the protocol; the threads of a
    node share its state, and a step is an action of any thread.  A thread alone
    does what the method of [Consensus.v] does.  A panic ends the thread; the
    program would end as a whole. *)
From S2P Require Import Prelude Bytes Hashes Types Signatures Packets Storage Validators Consensus.
From S2P Require Import Threads StateThreads.

Module Concurrent.
Section Threads.
Context {E : Type} `{Mdbx E}.
Local Abbreviation Node := (Protocol E).

(** [cp.mutex] and [cp.approvalMutex]. *)
Inductive mutex := StateMutex | ApprovalMutex.
#[export] Instance mutex_eq_dec : EqDecision mutex.
Proof. solve_decision. Defined.
Local Abbreviation T := (@T Node mutex).
Local Abbreviation prog := (@prog Node mutex).
Local Abbreviation config := (@config Node mutex).
#[export] Program Instance Protocol_holds : HoldsState E Node := { held := cp_state; hold := set_state }.
Solve Obligations with by try intros [].

(** * protocol.go *)
Definition BroadcastMessage (pkt : ConsensusPacket) : T unit :=
  atom (Consensus.BroadcastMessage pkt).

Definition ProposeBlock (blockData : bytes) : T unit :=
  leader ← read (fun cp => CurrentLeader (cp_validators cp));
  match leader with
  | None => pure (Err ErrNotLeader)
  | Some leader =>
      isLeader ← read (fun cp => IsLeader (cp_validators cp) (Validator_PeerID leader));
      if negb isLeader then pure (Err ErrNotLeader)
      else
        let blockHash := HashData blockData in
        match Validator_Signer leader BlsSignerType with
        | None => pure (Err (ErrMsg "signer not found for type %v"))
        | Some signer =>
            signature ← wrapped "failed to sign block hash" (pure (Signer_Sign signer blockHash));
            let proposalPkt := {| cp_Type := PacketTypeProposal; cp_Signer := "";
              cp_ProposerID := Validator_PeerID leader; cp_ValidatorID := [];
              cp_BlockHash := blockHash; cp_BlockData := blockData;
              cp_Signature := signature |} in
            _ ← wrapped "failed to add proposal"
              (StateThreads.AddProposal proposalPkt);
            wrapped "failed to broadcast proposal packet" (BroadcastMessage proposalPkt)
        end
  end.

(** The lock of this method is commented out in the source. *)
Definition FinalizeBlock (blockHash : bytes) : T unit :=
  finalized ← read (fun cp => IsFinalized (cp_state cp) blockHash);
  if finalized : bool then mret tt
  else
    reached ← read (fun cp => HasReachedQuorum (cp_state cp) blockHash (cp_quorumThreshold cp));
    if negb reached then pure (Err ErrQuorumNotReached)
    else
      _ ← wrapped "failed to finalize block"
        (StateThreads.FinalizeBlock blockHash);
      wrapped "failed to broadcast finalization packet"
        (BroadcastMessage (finalization_packet blockHash)).

Definition finalize_if_quorum (blockHash : bytes) : T unit :=
  reached ← read (fun cp => HasReachedQuorum (cp_state cp) blockHash (cp_quorumThreshold cp));
  when reached (_ ← logged (FinalizeBlock blockHash); mret tt).

Definition ApproveProposal (blockHash : bytes) (approverID : PeerID) : T unit :=
  approver ← read (fun cp => GetValidator (cp_validators cp) approverID);
  match approver with
  | None => pure (Err (ErrMsg "approver validator not found"))
  | Some approver =>
      signature ← wrapped "failed to sign block hash"
        (pure (call_Sign (Validator_Signer approver BlsSignerType) blockHash));
      let approvalPkt := {| cp_Type := PacketTypeApproval; cp_Signer := ""; cp_ProposerID := [];
        cp_ValidatorID := Validator_PeerID approver; cp_BlockHash := blockHash;
        cp_BlockData := []; cp_Signature := signature |} in
      _ ← wrapped "failed to add approval packet"
        (StateThreads.AddApproval approvalPkt);
      _ ← wrapped "failed to broadcast approval packet" (BroadcastMessage approvalPkt);
      finalize_if_quorum blockHash
  end.

Definition check_signature (v : Validator) (hash sig : bytes) : T bool :=
  match call_Verify (Validator_Signer v BlsSignerType) hash sig with
  | Ok valid => mret valid
  | Err _ => mret false
  | Panic => pure Panic
  end.

Definition HandleProposal (pkt : ConsensusPacket) : T unit := locked StateMutex (
  exists_ ← read (fun cp => HasProposal (cp_state cp) (cp_BlockHash pkt));
  if exists_ : bool then mret tt
  else
    proposer ← read (fun cp => GetValidator (cp_validators cp) (cp_ProposerID pkt));
    match proposer with
    | None => mret tt
    | Some proposer =>
        valid ← check_signature proposer (cp_BlockHash pkt) (cp_Signature pkt);
        when valid (
          added ← logged (StateThreads.AddProposal pkt);
          when added (
            p2pNetwork ← read cp_p2pNetwork;
            match p2pNetwork with
            | None => pure Panic
            | Some net =>
                let nodeID := HostID net in
                isValidator ← read (fun cp => IsValidator (cp_validators cp) nodeID);
                when (isValidator && negb (bool_decide (nodeID = cp_ProposerID pkt)))
                  (_ ← logged (ApproveProposal (cp_BlockHash pkt) nodeID); mret tt)
            end))
    end).

Definition HandleApproval (pkt : ConsensusPacket) : T unit := locked ApprovalMutex (
  approver ← read (fun cp => GetValidator (cp_validators cp) (cp_ValidatorID pkt));
  match approver with
  | None => mret tt
  | Some approver =>
      valid ← check_signature approver (cp_BlockHash pkt) (cp_Signature pkt);
      when valid (
        added ← logged (StateThreads.AddApproval pkt);
        when added (finalize_if_quorum (cp_BlockHash pkt)))
  end).

Definition HandleFinalization (pkt : ConsensusPacket) : T unit := locked StateMutex (
  finalized ← read (fun cp => IsFinalized (cp_state cp) (cp_BlockHash pkt));
  if finalized : bool then mret tt
  else
    stored ← logged (StateThreads.FinalizeBlock (cp_BlockHash pkt));
    when stored (
      blockFinalizer ← read cp_blockFinalizer;
      notified ← match blockFinalizer with
                 | None => mret true
                 | Some fin =>
                     logged (
                       blockData ← atom (fun cp =>
                         (cp, Db_Get (st_storage (cp_state cp)) (cp_BlockHash pkt)));
                       atom (call_finalizer fin (cp_BlockHash pkt) blockData))
                 end;
      when notified (
        _ ← logged (BroadcastMessage (finalization_packet (cp_BlockHash pkt))); mret tt))).

Definition HandleMessage (pkt : ConsensusPacket) : T unit :=
  if cp_Type pkt =? PacketTypeProposal then HandleProposal pkt
  else if cp_Type pkt =? PacketTypeApproval then HandleApproval pkt
  else if cp_Type pkt =? PacketTypeFinalization then HandleFinalization pkt
  else mret tt.

(** A message from the network: the pool, then the goroutine. *)
Definition receive (data : bytes) : T unit :=
  match DeserializeConsensusPacket data with
  | Ok pkt =>
      _ ← atom (modify (fun cp => set_pool cp (AddMessage (cp_messagePool cp) pkt)));
      _ ← HandleMessage pkt;
      atom (modify (fun cp => set_pool cp (RemoveMessage (cp_messagePool cp) (cp_BlockHash pkt))))
  | Err _ => mret tt
  | Panic => pure Panic
  end.

(** * The threads of a node *)
Inductive job :=
| Receive (data : bytes)
| Propose (blockData : bytes)
| Approve (blockHash : bytes) (approverID : PeerID)
| Finalize (blockHash : bytes).
Definition thread_of (j : job) : T unit :=
  match j with
  | Receive data => receive data
  | Propose d => ProposeBlock d
  | Approve h id => ApproveProposal h id
  | Finalize h => FinalizeBlock h
  end.
Definition spawn (j : job) : prog := thread_of j (fun _ => Done).

Definition start (cp : Node) (jobs : list job) : config := start_threads cp (spawn <$> jobs).

Hint Extern 1 (sim (BroadcastMessage _) _) => apply sim_atom : sim.
(** The writers of the state. *)
Lemma sim_AddProposal pkt :
  sim (StateThreads.AddProposal pkt : T unit) (on_state (fun cs => AddProposal cs pkt)).
Proof. exact (StateThreads.sim_state_AddProposal pkt). Qed.
Lemma sim_AddApproval pkt :
  sim (StateThreads.AddApproval pkt : T unit) (on_state (fun cs => AddApproval cs pkt)).
Proof. exact (StateThreads.sim_state_AddApproval pkt). Qed.
Lemma sim_State_FinalizeBlock h :
  sim (StateThreads.FinalizeBlock h : T unit) (on_state (fun cs => State_FinalizeBlock cs h)).
Proof. exact (StateThreads.sim_state_State_FinalizeBlock h). Qed.
Hint Resolve sim_AddProposal sim_AddApproval sim_State_FinalizeBlock : sim.
#[local] Hint Resolve StateThreads.neutral_AddProposal StateThreads.neutral_AddApproval
  StateThreads.neutral_State_FinalizeBlock : neutral.

(** The methods read the whole state once and the threads field by field. *)
Ltac sim_get :=
  let c := fresh "c" in let cp := fresh "cp" in
  intros c cp; rewrite ?run_read;
  repeat change ((get ≫= ?k) cp) with (k cp cp); cbv beta.
Ltac sim_bind_tac :=
  match goal with |- run ((?t ≫= ?k) ?c) ?cp = _ => refine (sim_bind t k _ _ _ _ c cp); [|intros ?] end.

Lemma sim_FinalizeBlock h : sim (FinalizeBlock h) (Consensus.FinalizeBlock h).
Proof.
  unfold FinalizeBlock, Consensus.FinalizeBlock. sim_get.
  destruct (IsFinalized _ _); [done|]. rewrite run_read. destruct (negb _); [done|].
  sim_bind_tac; auto with sim.
Qed.
Lemma sim_finalize_if_quorum h : sim (finalize_if_quorum h) (Consensus.finalize_if_quorum h).
Proof.
  unfold finalize_if_quorum, Consensus.finalize_if_quorum. sim_get.
  destruct (HasReachedQuorum _ _ _); [|done]. unfold when, Prelude.when.
  sim_bind_tac; [|done]. apply sim_logged, sim_FinalizeBlock.
Qed.
Hint Resolve sim_FinalizeBlock sim_finalize_if_quorum : sim.

Lemma sim_ProposeBlock d : sim (ProposeBlock d) (Consensus.ProposeBlock d).
Proof.
  unfold ProposeBlock, Consensus.ProposeBlock. sim_get.
  destruct (CurrentLeader _) as [leader|]; [|done]. rewrite run_read.
  destruct (negb _); [done|]. cbv zeta. destruct (Validator_Signer _ _); [|done].
  sim_bind_tac; [apply (sim_wrapped _ _ (io_lift _)); auto with sim|].
  apply sim_bind; [|intros _]; auto with sim.
Qed.
Lemma sim_ApproveProposal h id : sim (ApproveProposal h id) (Consensus.ApproveProposal h id).
Proof.
  unfold ApproveProposal, Consensus.ApproveProposal. sim_get.
  destruct (GetValidator _ _) as [v|]; [|done].
  sim_bind_tac; [apply (sim_wrapped _ _ (io_lift _)); auto with sim|].
  cbv zeta. apply sim_bind; [auto with sim|intros _]. apply sim_bind; [|intros _]; auto with sim.
Qed.
Lemma sim_check_signature v h sig : sim (check_signature v h sig) (Consensus.check_signature v h sig).
Proof. unfold check_signature, Consensus.check_signature. by destruct (call_Verify _ _ _). Qed.
Hint Resolve sim_ProposeBlock sim_ApproveProposal sim_check_signature : sim.

(** A method of the state, with what follows. *)
Lemma run_on_state t (f : State E -> State E * res unit) (k : bool -> T unit) c cp :
  sim t (on_state f) ->
  run ((logged t ≫= k) c) cp =
    match f (cp_state cp) with
    | (cs, Ok _) => run (k true c) (set_state cp cs)
    | (cs, Err _) => run (k false c) (set_state cp cs)
    | (cs, Panic) => run (c Panic) (set_state cp cs)
    end.
Proof.
  intros Ht. erewrite run_bind by (apply sim_logged, Ht). unfold Prelude.logged, on_state.
  by destruct (f (cp_state cp)) as [cs [[]|e|]].
Qed.
Lemma method_on_state (f : State E -> State E * res unit) (k : bool -> io Node unit) cp :
  (Prelude.logged (on_state f) ≫= k) cp =
    match f (cp_state cp) with
    | (cs, Ok _) => k true (set_state cp cs)
    | (cs, Err _) => k false (set_state cp cs)
    | (cs, Panic) => (set_state cp cs, Panic)
    end.
Proof.
  cbv [mbind io_bind]. unfold Prelude.logged, on_state.
  by destruct (f (cp_state cp)) as [cs [[]|e|]].
Qed.

Lemma sim_HandleProposal pkt : sim (HandleProposal pkt) (Consensus.HandleProposal pkt).
Proof.
  apply sim_locked. unfold Consensus.HandleProposal. sim_get.
  destruct (HasProposal _ _); [done|]. rewrite run_read.
  destruct (GetValidator _ _) as [v|]; [|done].
  unfold check_signature, Consensus.check_signature.
  destruct (call_Verify _ _ _) as [[]|e|]; try done.
  rewrite run_ret, method_ret.
  rewrite when_true, method_when_true.
  rewrite (run_on_state _ _ _ _ _ (sim_AddProposal pkt)), method_on_state.
  destruct (AddProposal _ _) as [cs [[]|e|]]; [|done..]. rewrite when_true, method_when_true.
  rewrite run_read. cbn [cp_p2pNetwork set_state].
  destruct (cp_p2pNetwork cp) as [net|]; [|done]. cbv zeta. rewrite run_read.
  cbn [cp_validators set_state]. destruct (_ && _); [|done]. rewrite when_true, method_when_true.
  sim_bind_tac; [|done]. auto with sim.
Qed.

Lemma sim_HandleApproval pkt : sim (HandleApproval pkt) (Consensus.HandleApproval pkt).
Proof.
  apply sim_locked. unfold Consensus.HandleApproval. sim_get.
  destruct (GetValidator _ _) as [v|]; [|done].
  sim_bind_tac; [auto with sim|]. apply sim_when. apply sim_bind; [|intros ?]; auto with sim.
Qed.

Lemma sim_HandleFinalization pkt :
  sim (HandleFinalization pkt) (Consensus.HandleFinalization pkt).
Proof.
  apply sim_locked. unfold Consensus.HandleFinalization. sim_get.
  destruct (IsFinalized _ _); [done|].
  rewrite (run_on_state _ _ _ _ _ (sim_State_FinalizeBlock _)), method_on_state.
  destruct (State_FinalizeBlock _ _) as [cs [[]|e|]]; [|done..]. rewrite when_true, method_when_true.
  rewrite run_read. cbn [cp_blockFinalizer set_state]. revert c. generalize (set_state cp cs) as cp1.
  intros cp1 c. sim_bind_tac.
  - destruct (cp_blockFinalizer cp) as [fin|]; [|done]. apply sim_logged. clear c cp1.
    intros c cp1. cbv [mbind T_bind io_bind get io_lift]. unfold atom. cbn [run fst snd].
    by destruct (Db_Get _ _).
  - apply sim_when, sim_bind; [|intros _]; auto with sim.
Qed.

Lemma sim_HandleMessage pkt : sim (HandleMessage pkt) (Consensus.HandleMessage pkt).
Proof.
  unfold HandleMessage, Consensus.HandleMessage.
  destruct (_ =? _); [apply sim_HandleProposal|].
  destruct (_ =? _); [apply sim_HandleApproval|].
  destruct (_ =? _); [apply sim_HandleFinalization|done].
Qed.
Lemma sim_receive data : sim (receive data) (Consensus.receive data).
Proof.
  unfold receive, Consensus.receive. destruct (DeserializeConsensusPacket data); [|done..].
  apply sim_bind; [auto with sim|intros _].
  apply sim_bind; [apply sim_HandleMessage|intros _]. auto with sim.
Qed.

(** The method behind a thread. *)
Definition method_of (j : job) : io Node unit :=
  match j with
  | Receive data => Consensus.receive data
  | Propose d => Consensus.ProposeBlock d
  | Approve h id => Consensus.ApproveProposal h id
  | Finalize h => Consensus.FinalizeBlock h
  end.
Lemma run_spawn j cp : run (spawn j) cp = (method_of j cp).1.
Proof.
  assert (sim (thread_of j) (method_of j)) as Hs
    by (destruct j; cbn [thread_of method_of]; [apply sim_receive|auto with sim..]).
  unfold spawn. by rewrite Hs.
Qed.

Lemma neutral_Broadcast h pkt : neutral h (BroadcastMessage pkt).
Proof. apply neutral_atom. Qed.
#[local] Hint Resolve neutral_Broadcast : neutral.
Lemma neutral_FinalizeBlock h b : neutral h (FinalizeBlock b).
Proof. unfold FinalizeBlock. neutral_tac. Qed.
#[local] Hint Resolve neutral_FinalizeBlock : neutral.
Lemma neutral_finalize_if_quorum h b : neutral h (finalize_if_quorum b).
Proof. unfold finalize_if_quorum. neutral_tac. Qed.
#[local] Hint Resolve neutral_finalize_if_quorum : neutral.
Lemma neutral_ApproveProposal h b id : neutral h (ApproveProposal b id).
Proof. unfold ApproveProposal. neutral_tac. Qed.
#[local] Hint Resolve neutral_ApproveProposal : neutral.
Lemma neutral_ProposeBlock h d : neutral h (ProposeBlock d).
Proof. unfold ProposeBlock. neutral_tac. Qed.
Lemma neutral_check_signature h v d sig : neutral h (check_signature v d sig).
Proof. unfold check_signature. neutral_tac. Qed.
#[local] Hint Resolve neutral_ProposeBlock neutral_check_signature : neutral.
Lemma neutral_HandleMessage pkt : neutral None (HandleMessage pkt).
Proof.
  unfold HandleMessage, HandleProposal, HandleApproval, HandleFinalization.
  repeat case_match; try apply neutral_locked; neutral_tac.
Qed.
#[local] Hint Resolve neutral_HandleMessage : neutral.
Lemma spawn_disciplined j : disciplined None (spawn j).
Proof.
  assert (neutral None (thread_of j)) as Hn; [|by apply Hn].
  destruct j; cbn [thread_of]; [unfold receive|..]; neutral_tac.
Qed.

Lemma lock_inv_start cp jobs : lock_inv (start cp jobs).
Proof. apply lock_inv_start_threads, Forall_fmap, Forall_forall. intros j _. apply spawn_disciplined. Qed.

(** * Safety under interference *)
Local Abbreviation extends := (StateThreads.extends (Node := Node)).
#[local] Existing Instance StateThreads.extends_PreOrder.

Section Safety.
Context (vs : ValidatorSet) (q : Z) (finals : list bytes) (Hvs : validators_ok vs).
Local Abbreviation I := (proto_inv vs q finals).
Local Abbreviation safe := (Threads.safe (mutex := mutex) I extends).
Local Abbreviation stable := (Threads.stable extends).
Local Abbreviation safe_read := (Threads.safe_read (I := I) (extends := extends)).
Local Abbreviation anywhere := (fun _ : Node => True).
Local Abbreviation any := (fun _ _ => True).

Lemma stable_quorum h : stable (fun cp => HasReachedQuorum (cp_state cp) h q = true).
Proof. intros cp cp' Hq He. eapply HasReachedQuorum_mono; [apply He|done]. Qed.
Hint Resolve stable_quorum : core.

Lemma safe_Broadcast P pkt : safe P (BroadcastMessage pkt) any.
Proof.
  apply safe_any, safe_atom; [done|]. intros cp HI _.
  pose proof (keeps_Broadcast (fun cp' => I cp' /\ extends cp cp') pkt) as Hk.
  assert (forall cp' d, I cp' /\ extends cp cp' -> I (log_sent cp' d) /\ extends cp (log_sent cp' d))
    as Hl by (intros cp' d [[] ?]; by split).
  specialize (Hk Hl cp (conj HI (reflexivity cp))).
  destruct (Consensus.BroadcastMessage pkt cp) as [cp' [| |]]; cbn in *; naive_solver.
Qed.

(** Methods of the state. *)
Lemma I_maps cp cs :
  I cp -> StateThreads.grows (held cp) cs -> st_approvals cs = st_approvals (held cp) ->
  st_finalized cs = st_finalized (held cp) -> I (hold cp cs).
Proof. intros ? _. by apply proto_inv_state. Qed.
Lemma safe_AddProposal pkt : safe anywhere (StateThreads.AddProposal pkt) any.
Proof. eapply safe_post; [apply StateThreads.safe_state_AddProposal, I_maps|done]. Qed.
Lemma safe_AddApproval pkt :
  signed_by vs (cp_BlockHash pkt) (cp_ValidatorID pkt) (cp_Signature pkt) ->
  safe anywhere (StateThreads.AddApproval pkt) any.
Proof.
  intros Hs. apply StateThreads.safe_state_AddApproval; [apply I_maps|done|]. intros cp Hcp _.
  by apply proto_inv_put_approval.
Qed.
Lemma safe_State_FinalizeBlock P h :
  stable P -> (forall cp, P cp -> HasReachedQuorum (cp_state cp) h q = true \/ h ∈ finals) ->
  safe P (StateThreads.FinalizeBlock h) any.
Proof.
  intros Hst HP. apply StateThreads.safe_state_FinalizeBlock; [apply I_maps|done|].
  intros cp Hcp Hp. by apply proto_inv_put_finalized; auto.
Qed.
Lemma safe_read_any {A} (f : Node -> A) P : safe P (read f) any.
Proof. by apply safe_any, safe_read. Qed.

(** ** The methods *)
Lemma safe_FinalizeBlock P h : safe P (FinalizeBlock h) any.
Proof.
  apply safe_any. unfold FinalizeBlock. eapply safe_bind_T; [apply safe_read_any|intros b].
  cbn beta. destruct b; [by apply safe_ret_T|].
  apply (safe_bind_T _ _ _ (fun b cp => b = true -> HasReachedQuorum (cp_state cp) h q = true)).
  { apply safe_read; [done|]. by intros cp [_ <- _ _] _. }
  intros reached. destruct reached; cbn [negb]; [|by apply safe_pure].
  eapply safe_bind_T; [|intros ?; apply safe_wrapped, safe_Broadcast].
  apply safe_wrapped, safe_State_FinalizeBlock; [auto|]. intros cp Hq. left. by apply Hq.
Qed.
Lemma safe_finalize_if_quorum P h : safe P (finalize_if_quorum h) any.
Proof.
  apply safe_any. unfold finalize_if_quorum. eapply safe_bind_T; [apply safe_read_any|intros b].
  apply safe_when. intros _. eapply safe_bind_T; [|intros ?; by apply safe_ret_T].
  apply safe_logged, (safe_FinalizeBlock _ h).
Qed.

Lemma safe_ProposeBlock d : safe anywhere (ProposeBlock d) any.
Proof.
  unfold ProposeBlock. eapply safe_bind_T; [apply safe_read_any|intros [leader|]]; cbn beta;
    [|by apply safe_pure].
  eapply safe_bind_T; [apply safe_read_any|intros b]. cbn beta. destruct (negb b); [by apply safe_pure|].
  cbv zeta. destruct (Validator_Signer _ _) as [s|]; [|by apply safe_pure].
  apply (safe_bind_T _ _ _ any); [by apply safe_wrapped, safe_pure|intros sig].
  eapply safe_bind_T; [apply safe_wrapped, safe_AddProposal|intros ?].
  apply safe_wrapped, safe_Broadcast.
Qed.

Lemma safe_ApproveProposal P h id : safe P (ApproveProposal h id) any.
Proof.
  apply safe_any. unfold ApproveProposal.
  apply (safe_bind_T _ _ _ (fun v _ => v = GetValidator vs id)).
  { apply safe_read; [done|]. by intros cp [-> _ _ _] _. }
  intros [v|]; [|by apply safe_pure].
  apply (safe_bind_T _ _ _ (fun sig _ => signed_by vs h (Validator_PeerID v) sig)).
  - apply safe_wrapped, safe_pure. intros sig cp Hsig Hv. symmetry in Hv.
    destruct (Hvs id v Hv) as [-> Hcorrect]. exists v.
    destruct (Validator_Signer v BlsSignerType) as [s|] eqn:Hs; [|done].
    exists s. split; [done|]. split; [done|]. specialize (Hcorrect s eq_refl). by apply sign_verifies.
  - intros sig. cbv zeta. intros c H1 H2 H3 cp Hsig.
    refine (safe_bind_T anywhere _ _ any any _ _ c H1 H2 H3 cp Logic.I).
    + by apply safe_wrapped, safe_AddApproval.
    + intros _. eapply safe_bind_T; [apply safe_wrapped, safe_Broadcast|intros ?].
      apply safe_finalize_if_quorum.
Qed.

Lemma safe_check_signature P v h sig :
  safe P (check_signature v h sig) (fun valid cp => valid = true ->
    exists s, Validator_Signer v BlsSignerType = Some s /\ verifies s h sig = true).
Proof.
  unfold check_signature, call_Verify, verifies.
  destruct (Validator_Signer v BlsSignerType) as [s|]; [|by apply safe_pure].
  destruct (Signer_Verify s h sig) as [valid| |] eqn:Hver;
    [apply safe_ret_T|by apply safe_ret_T|by apply safe_pure].
  intros cp _ ->. exists s. by rewrite Hver.
Qed.

Lemma safe_HandleProposal pkt : safe anywhere (HandleProposal pkt) any.
Proof.
  apply safe_locked. eapply safe_bind_T; [apply safe_read_any|intros []]; cbn beta; [by apply safe_ret_T|].
  eapply safe_bind_T; [apply safe_read_any|intros [v|]]; cbn beta; [|by apply safe_ret_T].
  eapply safe_bind_T; [apply safe_check_signature|intros valid]. cbn beta. apply safe_when. intros _.
  apply safe_any. eapply safe_bind_T; [apply safe_logged, safe_AddProposal|intros added].
  apply safe_when. intros _. apply safe_any.
  eapply safe_bind_T; [apply safe_read_any|intros [net|]]; cbn beta; [|by apply safe_pure].
  cbv zeta. eapply safe_bind_T; [apply safe_read_any|intros b]. apply safe_when. intros _.
  eapply safe_bind_T; [|intros ?; by apply safe_ret_T]. apply safe_logged, (safe_ApproveProposal _ _ _).
Qed.

Lemma safe_HandleApproval pkt : safe anywhere (HandleApproval pkt) any.
Proof.
  apply safe_locked. apply (safe_bind_T _ _ _ (fun v _ => v = GetValidator vs (cp_ValidatorID pkt))).
  { apply safe_read; [done|]. by intros cp [-> _ _ _] _. }
  intros [v|]; [|by apply safe_ret_T]. intros c H1 H2 H3 cp Hv. symmetry in Hv.
  refine (safe_bind_T anywhere _ _ _ any (safe_check_signature _ _ _ _) _ c H1 H2 H3 cp Logic.I).
  intros valid. apply safe_when. intros ->. intros c' H1' H2' H3' cp' Hs.
  destruct (Hs eq_refl) as (s & Hsigner & Hver).
  refine (safe_bind_T anywhere _ _ _ any _ _ c' H1' H2' H3' cp' Logic.I).
  - apply safe_logged, safe_AddApproval. by exists v, s.
  - intros added. apply safe_when. intros _. apply safe_finalize_if_quorum.
Qed.

Lemma safe_HandleFinalization pkt :
  cp_BlockHash pkt ∈ finals -> safe anywhere (HandleFinalization pkt) any.
Proof.
  intros Hfin. apply safe_locked.
  eapply safe_bind_T; [apply safe_read_any|intros []]; cbn beta; [by apply safe_ret_T|].
  eapply safe_bind_T.
  { apply safe_logged, safe_State_FinalizeBlock; [apply stable_const|]. by right. }
  intros stored. apply safe_when. intros _. apply safe_any.
  eapply safe_bind_T; [apply safe_read_any|intros fin]. cbn beta.
  apply (safe_bind_T _ _ _ any).
  - destruct fin as [fin|]; [|by apply safe_ret_T]. apply safe_any.
    eapply safe_post; [apply (safe_logged _ _ anywhere)|done].
    apply (safe_bind_T _ _ _ any); [by apply safe_atom|]. intros d. apply safe_atom; [done|].
    intros cp Hcp _. split; [by apply (log_finalizer_inv vs q finals)|]. split; [|done].
    unfold call_finalizer, extends. done.
  - intros notified. apply safe_when. intros _.
    eapply safe_bind_T; [|intros ?; by apply safe_ret_T]. apply safe_logged, safe_Broadcast.
Qed.

Lemma safe_HandleMessage pkt :
  (cp_Type pkt = PacketTypeFinalization -> cp_BlockHash pkt ∈ finals) ->
  safe anywhere (HandleMessage pkt) any.
Proof.
  intros Hfin. unfold HandleMessage.
  destruct (_ =? _); [apply safe_HandleProposal|].
  destruct (_ =? _); [apply safe_HandleApproval|].
  destruct (Z.eqb_spec (cp_Type pkt) PacketTypeFinalization); [|by apply safe_ret_T].
  by apply safe_HandleFinalization, Hfin.
Qed.

Lemma safe_pool f : safe anywhere (atom (modify (fun cp => set_pool cp (f cp)))) any.
Proof. apply safe_atom; [done|]. intros cp Hcp _. split; [by apply set_pool_inv|]. split; [done|done]. Qed.
End Safety.

(** The finalization packets among the messages. *)
Definition finals_of (j : job) : list bytes :=
  match j with Receive data => finalization_in data | _ => [] end.

Lemma spawn_ok vs q finals j cp :
  validators_ok vs -> finals_of j ⊆ finals -> ok (proto_inv vs q finals) extends (spawn j) cp.
Proof.
  intros Hvs Hsub. assert (safe (proto_inv vs q finals) extends (fun _ => True) (thread_of j) (fun _ _ => True)) as Hs.
  { destruct j as [data|d|h id|h]; cbn [thread_of];
      [|by apply safe_ProposeBlock|by apply safe_ApproveProposal|by apply safe_FinalizeBlock].
    unfold receive, finals_of, finalization_in in *.
    destruct (DeserializeConsensusPacket data) as [pkt|e|]; [|by apply safe_ret_T|by apply safe_pure].
    eapply safe_bind_T; [apply safe_pool|intros ?].
    eapply safe_bind_T; [|intros ?; apply safe_pool].
    apply safe_HandleMessage; [done|]. intros Ht. apply Hsub. rewrite Ht, Z.eqb_refl. left. }
  by apply Hs.
Qed.

(** * The node with its threads *)
Lemma config_inv_start vs finals cp jobs :
  validators_ok vs -> reachable vs finals cp ->
  config_inv (proto_inv vs (QuorumSize vs) (finals ++ (jobs ≫= finals_of))) extends (start cp jobs).
Proof.
  intros Hvs Hr. split; [by apply proto_inv_weaken, reachable_inv|]. cbn.
  apply Forall_fmap, Forall_forall. intros j Hj. apply spawn_ok; [done|].
  intros h Hh. apply elem_of_app. right. apply list_elem_of_bind. by exists j.
Qed.

(** C14: the goroutines of a node, under every interleaving of their critical
    sections.  Whatever messages and calls a reachable node works on at once,
    every recorded approval carries a signature of a registered validator, and
    a finalized block has a quorum of approvals or was in a finalization packet.
    No set of threads deadlocks: they go on until all have ended, with both
    mutexes free; and they end under every schedule.  A thread alone does what
    the method does. *)
Theorem concurrent_handlers (vs : ValidatorSet) (finals : list bytes) (cp : Node)
    (jobs : list job) (c : config) :
  validators_ok vs -> reachable vs finals cp -> rtc thread_step (start cp jobs) c ->
  (forall h id sig, approvals_for (cp_state (c_state c)) h !! id = Some sig ->
     signed_by vs h id sig) /\
  (forall h, IsFinalized (cp_state (c_state c)) h = true ->
     QuorumSize vs <= GetApprovalCount (cp_state (c_state c)) h \/
     h ∈ finals ++ (jobs ≫= finals_of)) /\
  ((Forall (fun p => is_done p = true) (c_threads c) /\ forall m, c_locks c m = None) \/
   exists c', thread_step c c') /\
  Acc (fun c' c => thread_step c c') c /\
  (forall j, jobs = [j] -> Forall (fun p => is_done p = true) (c_threads c) ->
     c_state c = (method_of j cp).1).
Proof.
  intros Hvs Hr Hrun.
  destruct (config_inv_steps (I := proto_inv vs (QuorumSize vs) (finals ++ (jobs ≫= finals_of))) (extends := extends) _ _ Hrun)
    as [[_ _ Ha Hf] _]; [by apply config_inv_start|].
  pose proof (lock_inv_steps _ _ Hrun (lock_inv_start cp jobs)) as Hl.
  split; [done|]. split; [|split; [|split]].
  - intros h Hh. destruct (Hf h Hh) as [Hq|]; [left|by right]. by apply Z.leb_le.
  - by apply lock_inv_end.
  - apply thread_step_wf.
  - intros j -> Hd. rewrite <- run_spawn.
    destruct (run_thread_steps _ _ (spawn j) Hrun eq_refl) as (p & Ep & Hp).
    change (run (spawn j) cp) with (run (spawn j) (c_state (start cp [j]))).
    rewrite <- Hp. rewrite Ep in Hd. apply Forall_cons in Hd as [Hd _]. by destruct p.
Qed.
End Threads.
End Concurrent.

(** * Two threads that finalize

    Three validators approve a block on one node while a caller finalizes it.
    Without the lock that the source has commented out both pass the test that
    the block is not finalized yet, and the finalization is broadcast twice; no
    order of the whole methods does that. *)
Section Example.
Import Concurrent.
Definition quiet_net : Network := {| HostID := str "a"; net_Broadcast := fun _ _ => Ok tt |}.
Definition shared_node : Protocol MemDb := NewProtocol vs_three ∅ (Some quiet_net) None.
Definition four_jobs : list job :=
  [Approve (str "one") (str "a"); Approve (str "one") (str "b"); Approve (str "one") (str "c");
   Finalize (str "one")].
Definition race : list nat := [0; 0; 0; 0; 0; 1; 1; 1; 1; 1; 2; 2; 2; 2; 2; 2; 2; 3; 3; 3; 3; 3; 2; 2; 2]%nat.
Definition raced : option config := schedule (start shared_node four_jobs) race.
Definition finalizations (cp : Protocol MemDb) : nat :=
  length (filter (fun d => finalization_in d <> []) (cp_sent cp)).

Lemma finalized_twice :
  (finalizations ∘ c_state) <$> raced = Some 2%nat /\
  (forallb is_done ∘ c_threads) <$> raced = Some true /\
  finalizations (fold_left (fun cp j => (method_of j cp).1) four_jobs shared_node) = 1%nat.
Proof. by vm_compute. Qed.

Lemma concurrent_handlers_witness : exists c, raced = Some c /\
  IsFinalized (cp_state (c_state c)) (str "one") = true /\
  QuorumSize vs_three <= GetApprovalCount (cp_state (c_state c)) (str "one").
Proof.
  assert (match raced with Some c => IsFinalized (cp_state (c_state c)) (str "one") | None => false end
    = true) as Hb by (vm_compute; reflexivity).
  destruct raced as [c|] eqn:Er; [|discriminate Hb].
  destruct (concurrent_handlers vs_three [] shared_node four_jobs c) as (_ & Hf & _).
  - apply vs_three_ok.
  - apply reach_new.
  - exact (thread_schedule_steps _ race c Er).
  - exists c. split; [reflexivity|]. split; [exact Hb|].
    destruct (Hf (str "one") Hb) as [Hq|Hin]; [exact Hq|].
    exfalso. change (str "one" ∈ ([] : list bytes)) in Hin. exact (not_elem_of_nil _ Hin).
Defined.
End Example.
