(* ===== verification/GraphStore.v ===== *)
(** [pkg/graphmdbx]: the store that keeps the vertices and edges of a graph of
    the library [dominikbraun/graph] in a key-value database.

    A vertex [h] lives under ["vertex:" ++ h], an edge from [s] to [t] under
    ["edge:" ++ s ++ ":" ++ t], both as JSON.  JSON and the property types of
    the graph library are parameters ([StoreJson]).  Identifiers are bytes: the
    string itself, or the 32 bytes of a hash, which is written in hexadecimal. *)
From Stdlib Require Import Strings.Byte.
From S2P Require Import Prelude Bytes Types Storage.

(** * Strings: splitting at a separator ([strings.Split] with one byte) *)
Fixpoint split_on (sep : byte) (s : bytes) : list bytes :=
  match s with
  | [] => [[]]
  | c :: s =>
      if bool_decide (c = sep) then [] :: split_on sep s
      else match split_on sep s with
           | p :: ps => (c :: p) :: ps
           | [] => [[c]]
           end
  end.

Definition colon : byte := byte_of_Z 58.

Lemma split_on_none sep s : sep ∉ s -> split_on sep s = [s].
Proof.
  induction s as [|c s IH]; intros Hs; [done|]. apply not_elem_of_cons in Hs as [Hc Hs].
  cbn [split_on]. by rewrite bool_decide_eq_false_2, IH by congruence.
Qed.
Lemma split_on_app sep s r : sep ∉ s -> split_on sep (s ++ sep :: r) = s :: split_on sep r.
Proof.
  induction s as [|c s IH]; intros Hs; cbn [app split_on].
  - by rewrite bool_decide_eq_true_2.
  - apply not_elem_of_cons in Hs as [Hc Hs]. by rewrite bool_decide_eq_false_2, IH by congruence.
Qed.
(** What stands before the first separator is determined. *)
Lemma split_first {sep : byte} {s1 s2 r1 r2} :
  sep ∉ s1 -> sep ∉ s2 -> s1 ++ sep :: r1 = s2 ++ sep :: r2 -> s1 = s2 /\ r1 = r2.
Proof.
  revert s2. induction s1 as [|c s1 IH]; intros [|d s2] H1 H2; cbn [app].
  - by intros [= ->].
  - intros [= <- _]. by destruct H2; left.
  - intros [= -> _]. by destruct H1; left.
  - apply not_elem_of_cons in H1 as [_ H1], H2 as [_ H2].
    intros [= -> H]. by destruct (IH s2 H1 H2 H) as [-> ->].
Qed.

Lemma colon_not_hex data : colon ∉ hex_encode data.
Proof.
  induction data as [|b data IH]; cbn [hex_encode]; [apply not_elem_of_nil|].
  destruct (hex_value_digit b) as [H1 H2].
  assert (forall d, hex_value (hex_digit d) = Some d -> colon <> hex_digit d) as Hne.
  { intros d Hd E. by rewrite <- E in Hd. }
  rewrite !not_elem_of_cons. auto.
Qed.

(** * helpers.go *)

(** The kinds of identifier that [decodeID] distinguishes. *)
Inductive IDKind := StringID | HashID | OtherID (show : bytes -> bytes).

(** [fmt.Sprintf("%v", id)]. *)
Definition format_ID (k : IDKind) (id : bytes) : bytes :=
  match k with
  | StringID => id
  | HashID => Hash_String id
  | OtherID show => show id
  end.

Definition decodeID (k : IDKind) (idStr : bytes) : res bytes :=
  match k with
  | StringID => Ok idStr
  | HashID =>
      hashBytes ← wrap "failed to decode hex string" (hex_decode idStr);
      _ ← ensure (Zlen hashBytes =? HashSize)
        (ErrMsg "invalid hash length: expected %d bytes, got %d");
      wrap "failed to unmarshal hash from bytes" (Hash_UnmarshalBinary ZeroHash hashBytes)
  | OtherID _ => Err (ErrMsg "unsupported type for vertex ID")
  end.

(** * store.go *)
Definition ErrVertexNotFound : error := ErrMsg "vertex not found".
Definition ErrVertexAlreadyExists : error := ErrMsg "vertex already exists".
Definition ErrEdgeNotFound : error := ErrMsg "edge not found".
Definition ErrEdgeAlreadyExists : error := ErrMsg "edge already exists".

(** [encoding/json] on a vertex with its properties and on the properties of
    an edge. *)
Class StoreJson (T VP EP : Type) := {
  combinedVertex_Marshal : T -> VP -> res bytes;
  combinedVertex_Unmarshal : bytes -> res (T * VP);
  combinedEdge_Marshal : EP -> res bytes;
  combinedEdge_Unmarshal : bytes -> res EP;
}.
(** What was written is read back, for the values JSON can represent. *)
Class StoreJsonLaws (T VP EP : Type) `{StoreJson T VP EP} := {
  json_ok : T -> Prop;
  vertex_json_law v p b : json_ok v ->
    combinedVertex_Marshal v p = Ok b -> combinedVertex_Unmarshal b = Ok (v, p);
  vertex_json_no_panic v p : no_panic (combinedVertex_Marshal v p);
  edge_json_no_panic p : no_panic (combinedEdge_Marshal p);
}.
(** The [Data] of an edge is of any type, so not every edge comes back. *)
Definition edge_json_ok {T VP EP : Type} `{StoreJson T VP EP} (p : EP) : Prop :=
  forall b, combinedEdge_Marshal p = Ok b -> combinedEdge_Unmarshal b = Ok p.

(** The storage provider is the state of the calls. *)
Record Store := {
  gs_kind : IDKind;
  gs_vertexPrefix : bytes;
  gs_edgePrefix : bytes;
  gs_ctx : Context;
}.
Definition New (kind : IDKind) (vertexPrefix edgePrefix : bytes) (ctx : Context) : Store :=
  {| gs_kind := kind; gs_vertexPrefix := vertexPrefix; gs_edgePrefix := edgePrefix; gs_ctx := ctx |}.

Record Edge (EP : Type) := { e_Source : bytes; e_Target : bytes; e_Properties : EP }.
Arguments e_Source {EP}. Arguments e_Target {EP}. Arguments e_Properties {EP}.

Definition vertices_prefix (s : Store) : bytes := gs_vertexPrefix s ++ [colon].
Definition vertex_key (s : Store) (hash : bytes) : bytes :=
  vertices_prefix s ++ format_ID (gs_kind s) hash.
Definition edges_prefix (s : Store) : bytes := gs_edgePrefix s ++ [colon].
Definition outgoing_prefix (s : Store) (hash : bytes) : bytes :=
  edges_prefix s ++ format_ID (gs_kind s) hash ++ [colon].
Definition edge_key (s : Store) (sourceHash targetHash : bytes) : bytes :=
  outgoing_prefix s sourceHash ++ format_ID (gs_kind s) targetHash.

Section Store.
Context {P : Type} `{!Provider P}.
Context {T VP EP : Type} `{!StoreJson T VP EP}.
Implicit Types (s : Store).

Definition set_key (key value : bytes) : io P unit := fun p => Provider_Set p key value.
Definition delete_key (key : bytes) : io P unit := fun p => Provider_Delete p key.
Definition list_keys (fuel : nat) s (prefix : bytes) : io P (list bytes) :=
  io_read (fun p => Provider_ListKeysWithPrefix fuel p (gs_ctx s) prefix).

Definition Store_AddVertex s (hash : bytes) (value : T) (properties : VP) : io P unit :=
  combinedBytes ← io_wrap "failed to marshal vertex data"
    (io_lift (combinedVertex_Marshal value properties));
  io_wrap "failed to store vertex in MDBX" (set_key (vertex_key s hash) combinedBytes).

Definition Store_Vertex s (p : P) (hash : bytes) : res (T * VP) :=
  match Provider_Get p (vertex_key s hash) with
  | Err e => if errors_is e ErrKeyNotFound then Err ErrVertexNotFound
             else Err (ErrWrap "failed to retrieve vertex from MDBX" e)
  | Panic => Panic
  | Ok data => wrap "failed to unmarshal vertex data" (combinedVertex_Unmarshal data)
  end.

Definition put_edge (s : Store) (m1 m2 : string) (sourceHash targetHash : bytes)
    (properties : EP) : io P unit :=
  combinedBytes ← io_wrap m1 (io_lift (combinedEdge_Marshal properties));
  io_wrap m2 (set_key (edge_key s sourceHash targetHash) combinedBytes).
Definition Store_AddEdge s (sourceHash targetHash : bytes) (edge : Edge EP) : io P unit :=
  put_edge s "failed to marshal edge data" "failed to store edge in MDBX"
    sourceHash targetHash (e_Properties edge).
Definition Store_UpdateEdge s (sourceHash targetHash : bytes) (edge : Edge EP) : io P unit :=
  put_edge s "failed to marshal updated edge data" "failed to update edge in MDBX"
    sourceHash targetHash (e_Properties edge).
Definition Store_RemoveEdge s (sourceHash targetHash : bytes) : io P unit :=
  io_wrap "failed to delete edge from MDBX" (delete_key (edge_key s sourceHash targetHash)).

Definition Store_Edge s (p : P) (sourceHash targetHash : bytes) : res (Edge EP) :=
  match Provider_Get p (edge_key s sourceHash targetHash) with
  | Err e => if errors_is e ErrKeyNotFound then Err ErrEdgeNotFound
             else Err (ErrWrap "failed to retrieve edge from MDBX" e)
  | Panic => Panic
  | Ok data =>
      properties ← wrap "failed to unmarshal edge properties" (combinedEdge_Unmarshal data);
      Ok {| e_Source := sourceHash; e_Target := targetHash; e_Properties := properties |}
  end.

(** Is this key, split at colons, an edge to [hash]? *)
Definition incoming s (hash edgeKey : bytes) : bool :=
  match split_on colon edgeKey with
  | [_; _; target] => bool_decide (target = format_ID (gs_kind s) hash)
  | _ => false
  end.

(** The two loops of [RemoveVertex]. *)
Definition remove_edges (fuel : nat) s (hash : bytes) : io P unit :=
  outgoingKeys ← io_wrap "failed to list outgoing edges for vertex"
    (list_keys fuel s (outgoing_prefix s hash));
  _ ← io_iter (fun edgeKey =>
    io_wrap "failed to delete outgoing edge" (delete_key edgeKey)) outgoingKeys;
  allEdgeKeys ← io_wrap "failed to list all edges for incoming edge removal"
    (list_keys fuel s (edges_prefix s));
  io_iter (fun edgeKey =>
    if incoming s hash edgeKey
    then io_wrap "failed to delete incoming edge" (delete_key edgeKey)
    else mret tt) allEdgeKeys.
Definition Store_RemoveVertex (fuel : nat) s (hash : bytes) : io P unit :=
  _ ← io_wrap "failed to delete vertex from MDBX" (delete_key (vertex_key s hash));
  remove_edges fuel s hash.

Fixpoint decode_vertices s (keys : list bytes) : res (list bytes) :=
  match keys with
  | [] => Ok []
  | key :: keys =>
      id ← wrap "failed to decode vertex ID"
        (decodeID (gs_kind s) (trim_prefix key (vertices_prefix s)));
      vertices ← decode_vertices s keys;
      Ok (id :: vertices)
  end.
Definition Store_ListVertices (fuel : nat) s (p : P) : res (list bytes) :=
  keys ← wrap "failed to list vertex keys"
    (Provider_ListKeysWithPrefix fuel p (gs_ctx s) (vertices_prefix s));
  decode_vertices s keys.
Definition Store_VertexCount (fuel : nat) s (p : P) : res Z :=
  vertices ← wrap "failed to count vertices" (Store_ListVertices fuel s p);
  Ok (Zlen vertices).

(** Keys of another shape, and edges that cannot be read, are skipped. *)
Fixpoint decode_edges s (p : P) (keys : list bytes) : res (list (Edge EP)) :=
  match keys with
  | [] => Ok []
  | key :: keys =>
      match split_on colon (trim_prefix key (edges_prefix s)) with
      | [part0; part1] =>
          source ← wrap "failed to decode source ID" (decodeID (gs_kind s) part0);
          target ← wrap "failed to decode target ID" (decodeID (gs_kind s) part1);
          match Store_Edge s p source target with
          | Ok edge => edges ← decode_edges s p keys; Ok (edge :: edges)
          | Err _ => decode_edges s p keys
          | Panic => Panic
          end
      | _ => decode_edges s p keys
      end
  end.
Definition Store_ListEdges (fuel : nat) s (p : P) : res (list (Edge EP)) :=
  keys ← wrap "failed to list edge keys"
    (Provider_ListKeysWithPrefix fuel p (gs_ctx s) (edges_prefix s));
  decode_edges s p keys.
Definition Store_EdgeCount (fuel : nat) s (p : P) : res Z :=
  edges ← wrap "failed to count edges" (Store_ListEdges fuel s p);
  Ok (Zlen edges).
End Store.

(** * The graph the database stands for *)
Section spec.
Context {P : Type} `{!Provider P, !ProviderLaws P}.
Context {T VP EP : Type} `{!StoreJson T VP EP, !StoreJsonLaws T VP EP}.
Context (s : Store).
Implicit Types (p : P) (V : gmap bytes (T * VP)) (E : gmap (bytes * bytes) EP).

(** Identifiers that survive being written into a key. *)
Definition id_ok (h : bytes) : Prop :=
  decodeID (gs_kind s) (format_ID (gs_kind s) h) = Ok h /\ (colon ∉ format_ID (gs_kind s) h).

(** The prefixes of vertices and edges can be told apart. *)
Definition store_ok : Prop :=
  gs_ctx s = Background /\ (colon ∉ gs_vertexPrefix s) /\ (colon ∉ gs_edgePrefix s) /\
  gs_vertexPrefix s <> gs_edgePrefix s.

(** The database holds exactly the vertices [V] and the edges [E] (and keys
    with other prefixes). *)
Record graph_rep p V E : Prop := {
  rep_vertex h v : V !! h = Some v -> id_ok h /\
    exists b, provider_contents p !! vertex_key s h = Some b /\ combinedVertex_Unmarshal b = Ok v;
  rep_vertex_inv k : has_prefix k (vertices_prefix s) = true ->
    is_Some (provider_contents p !! k) -> exists h, is_Some (V !! h) /\ k = vertex_key s h;
  rep_edge e x : E !! e = Some x -> id_ok e.1 /\ id_ok e.2 /\
    exists b, provider_contents p !! edge_key s e.1 e.2 = Some b /\ combinedEdge_Unmarshal b = Ok x;
  rep_edge_inv k : has_prefix k (edges_prefix s) = true ->
    is_Some (provider_contents p !! k) -> exists e, is_Some (E !! e) /\ k = edge_key s e.1 e.2;
}.

Lemma format_ID_inj h1 h2 :
  id_ok h1 -> id_ok h2 -> format_ID (gs_kind s) h1 = format_ID (gs_kind s) h2 -> h1 = h2.
Proof. intros [H1 _] [H2 _] E. rewrite E in H1. congruence. Qed.
Lemma vertex_key_inj h1 h2 : id_ok h1 -> id_ok h2 -> vertex_key s h1 = vertex_key s h2 -> h1 = h2.
Proof. unfold vertex_key. intros ?? H%app_inv_head. by apply format_ID_inj. Qed.
Lemma edge_key_inj e1 e2 :
  id_ok e1.1 -> id_ok e1.2 -> id_ok e2.1 -> id_ok e2.2 ->
  edge_key s e1.1 e1.2 = edge_key s e2.1 e2.2 -> e1 = e2.
Proof.
  destruct e1 as [s1 t1], e2 as [s2 t2]. cbn. intros Hs1 Ht1 Hs2 Ht2.
  unfold edge_key, outgoing_prefix. rewrite <- !app_assoc. intros H%app_inv_head.
  apply split_first in H as [E1 E2]; [|apply Hs1|apply Hs2].
  f_equal; by apply format_ID_inj.
Qed.

Lemma key_prefix pre r : has_prefix (pre ++ r) pre = true.
Proof. apply has_prefix_spec. eauto. Qed.
Lemma vertex_key_prefix h : has_prefix (vertex_key s h) (vertices_prefix s) = true.
Proof. apply key_prefix. Qed.
Lemma edge_key_prefix e : has_prefix (edge_key s e.1 e.2) (edges_prefix s) = true.
Proof. unfold edge_key, outgoing_prefix. rewrite <- app_assoc. apply key_prefix. Qed.

Hypothesis Hs : store_ok.

Lemma prefixes_disjoint k :
  has_prefix k (vertices_prefix s) = true -> has_prefix k (edges_prefix s) = true -> False.
Proof.
  destruct Hs as (_ & Hv & He & Hne). unfold vertices_prefix, edges_prefix.
  intros [r1 ->]%has_prefix_spec [r2 H]%has_prefix_spec. rewrite <- !app_assoc in H.
  by apply split_first in H as [? _].
Qed.
Lemma vertex_edge_key h e : vertex_key s h <> edge_key s e.1 e.2.
Proof.
  intros H. eapply prefixes_disjoint; [apply (vertex_key_prefix h)|]. rewrite H. apply edge_key_prefix.
Qed.

(** ** Writing one key *)
Lemma rep_same p p' V E :
  provider_contents p' = provider_contents p -> graph_rep p V E -> graph_rep p' V E.
Proof. intros H []. split; by rewrite H. Qed.

Lemma rep_other p p' V E k b :
  has_prefix k (vertices_prefix s) = false -> has_prefix k (edges_prefix s) = false ->
  provider_contents p' = <[k := b]> (provider_contents p) -> graph_rep p V E -> graph_rep p' V E.
Proof.
  intros Hkv Hke H [H1 H2 H3 H4]. split; rewrite H.
  - intros h v Hh. rewrite lookup_insert_ne by (intros ->; by rewrite vertex_key_prefix in Hkv). eauto.
  - intros k' Hk'. rewrite lookup_insert_ne by congruence. eauto.
  - intros e x He. rewrite lookup_insert_ne by (intros ->; by rewrite edge_key_prefix in Hke). eauto.
  - intros k' Hk'. rewrite lookup_insert_ne by congruence. eauto.
Qed.

Lemma rep_put_vertex p p' V E h v b :
  id_ok h -> combinedVertex_Unmarshal b = Ok v ->
  provider_contents p' = <[vertex_key s h := b]> (provider_contents p) ->
  graph_rep p V E -> graph_rep p' (<[h := v]> V) E.
Proof.
  intros Hh Hb H [H1 H2 H3 H4]. split; rewrite H.
  - intros h' v' [[<- <-]|[Hne Hv]]%lookup_insert_Some.
    + split; [done|]. exists b. by rewrite lookup_insert_eq.
    + destruct (H1 h' v' Hv) as (Hok & b' & Hb' & Hu). split; [done|]. exists b'.
      rewrite lookup_insert_ne; [done|]. intros ?%vertex_key_inj; done.
  - intros k Hk. destruct (decide (k = vertex_key s h)) as [->|Hne].
    + intros _. exists h. by rewrite lookup_insert_eq.
    + rewrite lookup_insert_ne by done. intros (h' & Hh' & ->)%H2; [|done].
      exists h'. rewrite lookup_insert_ne; [done|]. by intros ->.
  - intros e x He. rewrite lookup_insert_ne by apply vertex_edge_key. eauto.
  - intros k Hk. rewrite lookup_insert_ne; [eauto|]. intros <-.
    by eapply prefixes_disjoint; [apply vertex_key_prefix|].
Qed.

Lemma rep_del_vertex p p' V E h :
  id_ok h -> provider_contents p' = delete (vertex_key s h) (provider_contents p) ->
  graph_rep p V E -> graph_rep p' (delete h V) E.
Proof.
  intros Hh H [H1 H2 H3 H4]. split; rewrite H.
  - intros h' v' [Hne Hv]%lookup_delete_Some.
    destruct (H1 h' v' Hv) as (Hok & b' & Hb' & Hu). split; [done|]. exists b'.
    rewrite lookup_delete_ne; [done|]. intros ?%vertex_key_inj; done.
  - intros k Hk [x [Hne Hx]%lookup_delete_Some].
    destruct (H2 k Hk ltac:(eauto)) as (h' & Hh' & ->). exists h'.
    rewrite lookup_delete_ne; [done|]. by intros ->.
  - intros e x He. rewrite lookup_delete_ne by apply vertex_edge_key. eauto.
  - intros k Hk [x [_ Hx]%lookup_delete_Some]. eauto.
Qed.

Lemma rep_put_edge p p' V E e x b :
  id_ok e.1 -> id_ok e.2 -> combinedEdge_Unmarshal b = Ok x ->
  provider_contents p' = <[edge_key s e.1 e.2 := b]> (provider_contents p) ->
  graph_rep p V E -> graph_rep p' V (<[e := x]> E).
Proof.
  intros He1 He2 Hb H [H1 H2 H3 H4]. split; rewrite H.
  - intros h v Hv. rewrite lookup_insert_ne by (apply not_eq_sym, vertex_edge_key). eauto.
  - intros k Hk. rewrite lookup_insert_ne; [eauto|]. intros <-.
    eapply prefixes_disjoint; [done|apply edge_key_prefix].
  - intros e' x' [[<- <-]|[Hne Hx]]%lookup_insert_Some.
    + split; [done|]. split; [done|]. exists b. by rewrite lookup_insert_eq.
    + destruct (H3 e' x' Hx) as (Hok1 & Hok2 & b' & Hb' & Hu). do 2 (split; [done|]). exists b'.
      rewrite lookup_insert_ne; [done|]. intros ?%edge_key_inj; done.
  - intros k Hk. destruct (decide (k = edge_key s e.1 e.2)) as [->|Hne].
    + intros _. exists e. by rewrite lookup_insert_eq.
    + rewrite lookup_insert_ne by done. intros (e' & He' & ->)%H4; [|done].
      exists e'. rewrite lookup_insert_ne; [done|]. by intros ->.
Qed.

Lemma rep_del_edge p p' V E e :
  id_ok e.1 -> id_ok e.2 ->
  provider_contents p' = delete (edge_key s e.1 e.2) (provider_contents p) ->
  graph_rep p V E -> graph_rep p' V (delete e E).
Proof.
  intros He1 He2 H [H1 H2 H3 H4]. split; rewrite H.
  - intros h v Hv. rewrite lookup_delete_ne by (apply not_eq_sym, vertex_edge_key). eauto.
  - intros k Hk [x [_ Hx]%lookup_delete_Some]. eauto.
  - intros e' x' [Hne Hx]%lookup_delete_Some.
    destruct (H3 e' x' Hx) as (Hok1 & Hok2 & b' & Hb' & Hu). do 2 (split; [done|]). exists b'.
    rewrite lookup_delete_ne; [done|]. intros ?%edge_key_inj; done.
  - intros k Hk [x [Hne Hx]%lookup_delete_Some].
    destruct (H4 k Hk ltac:(eauto)) as (e' & He' & ->). exists e'.
    rewrite lookup_delete_ne; [done|]. by intros ->.
Qed.

(** ** Reading *)
Lemma rep_Vertex p V E h :
  graph_rep p V E -> id_ok h ->
  Store_Vertex s p h = match V !! h with Some v => Ok v | None => Err ErrVertexNotFound end.
Proof.
  intros Hrep Hh. unfold Store_Vertex. rewrite Provider_Get_law.
  destruct (V !! h) as [v|] eqn:Hv.
  { destruct (rep_vertex _ _ _ Hrep h v Hv) as (_ & b & -> & Hb). by rewrite Hb. }
  destruct (provider_contents p !! vertex_key s h) as [b|] eqn:Hb; [|done].
  destruct (rep_vertex_inv _ _ _ Hrep _ (vertex_key_prefix h) ltac:(eauto)) as (h' & [v Hv'] & E').
  destruct (rep_vertex _ _ _ Hrep h' v Hv') as [Hh' _].
  apply vertex_key_inj in E' as <-; [congruence|done..].
Qed.

Lemma rep_Edge p V E a t :
  graph_rep p V E -> id_ok a -> id_ok t ->
  Store_Edge s p a t = match E !! (a, t) with
    | Some x => Ok {| e_Source := a; e_Target := t; e_Properties := x |}
    | None => Err ErrEdgeNotFound end.
Proof.
  intros Hrep Ha Ht. unfold Store_Edge. rewrite Provider_Get_law.
  destruct (E !! (a, t)) as [x|] eqn:Hx.
  { destruct (rep_edge _ _ _ Hrep (a, t) x Hx) as (_ & _ & b & Hk & Hb). cbn in Hk. by rewrite Hk, Hb. }
  destruct (provider_contents p !! edge_key s a t) as [b|] eqn:Hb; [|done].
  destruct (rep_edge_inv _ _ _ Hrep _ (edge_key_prefix (a, t)) ltac:(eauto)) as (e & [x He] & E').
  destruct (rep_edge _ _ _ Hrep e x He) as (? & ? & _).
  apply (edge_key_inj (a, t) e) in E' as <-; [congruence|done..].
Qed.

Lemma keys_with_prefix_spec p pre k :
  k ∈ keys_with_prefix (provider_contents p) pre <->
  is_Some (provider_contents p !! k) /\ has_prefix k pre = true.
Proof. unfold keys_with_prefix. rewrite list_elem_of_filter, elem_of_sorted_keys. tauto. Qed.
Lemma keys_with_prefix_NoDup m pre : NoDup (keys_with_prefix m pre).
Proof. apply NoDup_filter, sorted_keys_NoDup. Qed.

(** Keys that are all the images of something come from a list. *)
Lemma preimages {A} (f : A -> bytes) (Q : A -> Prop) keys :
  (forall k, k ∈ keys -> exists a, Q a /\ k = f a) ->
  exists l, keys = f <$> l /\ Forall Q l.
Proof.
  induction keys as [|k keys IH]; intros Hk; [by exists []|].
  destruct (Hk k) as (a & Ha & ->); [left|].
  destruct IH as (l & -> & Hl); [intros; apply Hk; by right|].
  exists (a :: l). split; [done|by constructor].
Qed.

Lemma rep_vertex_keys p V E :
  graph_rep p V E -> exists l, keys_with_prefix (provider_contents p) (vertices_prefix s) =
    vertex_key s <$> l /\ NoDup l /\ Forall id_ok l /\ forall h, h ∈ l <-> is_Some (V !! h).
Proof.
  intros Hrep.
  destruct (preimages (vertex_key s) (fun h => is_Some (V !! h))
    (keys_with_prefix (provider_contents p) (vertices_prefix s))) as (l & El & Hl).
  { intros k [Hk Hp]%keys_with_prefix_spec. by apply (rep_vertex_inv _ _ _ Hrep). }
  rewrite Forall_forall in Hl. exists l. split; [done|]. split; [|split].
  - apply (NoDup_fmap_1 (vertex_key s)). rewrite <- El. apply keys_with_prefix_NoDup.
  - apply Forall_forall. intros h Hh. destruct (Hl h Hh) as [v Hv]. by eapply rep_vertex.
  - intros h. split; [auto|]. intros [v Hv].
    destruct (rep_vertex _ _ _ Hrep h v Hv) as (Hok & b & Hb & _).
    assert (vertex_key s h ∈ vertex_key s <$> l) as Hin.
    { rewrite <- El. apply keys_with_prefix_spec. split; [eauto|apply vertex_key_prefix]. }
    apply list_elem_of_fmap in Hin as (h' & E' & Hin). destruct (Hl h' Hin) as [v' Hv'].
    apply vertex_key_inj in E' as ->; [done..|by eapply rep_vertex].
Qed.

Lemma rep_edge_keys p V E :
  graph_rep p V E -> exists l, keys_with_prefix (provider_contents p) (edges_prefix s) =
    (fun e => edge_key s e.1 e.2) <$> l /\ NoDup l /\ forall e, e ∈ l <-> is_Some (E !! e).
Proof.
  intros Hrep.
  destruct (preimages (fun e => edge_key s e.1 e.2) (fun e => is_Some (E !! e))
    (keys_with_prefix (provider_contents p) (edges_prefix s))) as (l & El & Hl).
  { intros k [Hk Hp]%keys_with_prefix_spec. by apply (rep_edge_inv _ _ _ Hrep). }
  rewrite Forall_forall in Hl. exists l. split; [done|]. split.
  - apply (NoDup_fmap_1 (fun e => edge_key s e.1 e.2)). rewrite <- El. apply keys_with_prefix_NoDup.
  - intros e. split; [auto|]. intros [x Hx].
    destruct (rep_edge _ _ _ Hrep e x Hx) as (Hok1 & Hok2 & b & Hb & _).
    assert (edge_key s e.1 e.2 ∈ (fun e => edge_key s e.1 e.2) <$> l) as Hin.
    { rewrite <- El. apply keys_with_prefix_spec. split; [eauto|apply edge_key_prefix]. }
    apply list_elem_of_fmap in Hin as (e' & E' & Hin). destruct (Hl e' Hin) as [x' Hx'].
    destruct (rep_edge _ _ _ Hrep e' x' Hx') as (? & ? & _).
    by apply edge_key_inj in E' as ->.
Qed.

Lemma decode_vertices_Ok l :
  Forall id_ok l -> decode_vertices s (vertex_key s <$> l) = Ok l.
Proof.
  induction 1 as [|h l [Hh _] _ IH]; [done|]. cbn [fmap list_fmap decode_vertices].
  assert (trim_prefix (vertex_key s h) (vertices_prefix s) = format_ID (gs_kind s) h) as ->
    by apply trim_prefix_app.
  rewrite Hh. cbn [wrap]. by rewrite bind_Ok, IH.
Qed.

Lemma rep_ListVertices fuel p V E :
  graph_rep p V E -> (size (provider_contents p) < fuel)%nat ->
  exists l, Store_ListVertices fuel s p = Ok l /\ NoDup l /\ forall h, h ∈ l <-> is_Some (V !! h).
Proof.
  intros Hrep Hf. destruct (rep_vertex_keys p V E Hrep) as (l & El & Hnd & Hok & Hl).
  exists l. split; [|done]. unfold Store_ListVertices. destruct Hs as (-> & _).
  rewrite Provider_List_law, El by done. cbn [wrap]. rewrite bind_Ok. by apply decode_vertices_Ok.
Qed.

Definition edge_of (E : gmap (bytes * bytes) EP) (e : bytes * bytes) : option (Edge EP) :=
  (fun x => {| e_Source := e.1; e_Target := e.2; e_Properties := x |}) <$> E !! e.

Lemma decode_edges_Ok p V E l :
  graph_rep p V E -> Forall (fun e => is_Some (E !! e)) l ->
  decode_edges s p ((fun e => edge_key s e.1 e.2) <$> l) = Ok (omap (edge_of E) l).
Proof.
  intros Hrep. induction 1 as [|[a t] l [x Hx] _ IH]; [done|].
  destruct (rep_edge _ _ _ Hrep (a, t) x Hx) as ([Ha Hac] & [Ht Htc] & _). cbn in Ha, Hac, Ht, Htc.
  cbn [fmap list_fmap decode_edges fst snd].
  assert (trim_prefix (edge_key s a t) (edges_prefix s) =
    format_ID (gs_kind s) a ++ colon :: format_ID (gs_kind s) t) as ->.
  { unfold edge_key, outgoing_prefix. by rewrite <- !app_assoc, trim_prefix_app. }
  rewrite split_on_app, split_on_none by done. cbn beta iota. rewrite Ha, Ht. cbn [wrap].
  rewrite !bind_Ok, (rep_Edge p V E), Hx, IH by done. cbn [omap list_omap].
  unfold edge_of at 2. by rewrite Hx.
Qed.

Lemma rep_ListEdges fuel p V E :
  graph_rep p V E -> (size (provider_contents p) < fuel)%nat ->
  exists l, Store_ListEdges fuel s p = Ok l /\ NoDup ((fun e => (e_Source e, e_Target e)) <$> l) /\
    forall e, e ∈ l <-> E !! (e_Source e, e_Target e) = Some (e_Properties e).
Proof.
  intros Hrep Hf. destruct (rep_edge_keys p V E Hrep) as (l & El & Hnd & Hl).
  assert (Forall (fun e => is_Some (E !! e)) l) as Hall by (apply Forall_forall; intros e; apply Hl).
  exists (omap (edge_of E) l). split; [|split].
  - unfold Store_ListEdges. destruct Hs as (-> & _).
    rewrite Provider_List_law, El by done. cbn [wrap]. rewrite bind_Ok. by eapply decode_edges_Ok.
  - assert ((fun e => (e_Source e, e_Target e)) <$> omap (edge_of E) l = l) as ->; [|done].
    clear -Hall. induction Hall as [|[a t] l [x Hx] _ IH]; [done|]. cbn. unfold edge_of at 1.
    rewrite Hx. cbn. f_equal. exact IH.
  - intros [a t x]. cbn. rewrite list_elem_of_omap. split.
    + intros ([a' t'] & _ & H). unfold edge_of in H. cbn in H.
      by apply fmap_Some in H as (x' & Hx & [= -> -> ->]).
    + intros Hx. exists (a, t). split; [apply Hl; eauto|]. unfold edge_of. by rewrite Hx.
Qed.

(** ** Writing *)
Lemma set_key_cases key b p :
  match set_key key b p with
  | (p', Ok _) => provider_contents p' = <[key := b]> (provider_contents p)
  | (p', Err _) => provider_contents p' = provider_contents p
  | (_, Panic) => False
  end.
Proof. apply Provider_Set_law. Qed.

Lemma rep_AddVertex p V E h v vp :
  graph_rep p V E -> id_ok h -> json_ok (EP := EP) v ->
  match Store_AddVertex s h v vp p with
  | (p', Ok _) => graph_rep p' (<[h := (v, vp)]> V) E
  | (p', Err _) => graph_rep p' V E
  | (_, Panic) => False
  end.
Proof.
  intros Hrep Hh Hv. unfold Store_AddVertex. cbv [mbind io_bind io_wrap io_lift].
  pose proof (vertex_json_no_panic v vp) as Hnp.
  destruct (combinedVertex_Marshal v vp) as [b|e|] eqn:Hb; cbn [wrap]; [|done|done].
  apply vertex_json_law in Hb; [|done].
  pose proof (set_key_cases (vertex_key s h) b p) as H1.
  destruct (set_key _ b p) as [p1 [u|e|]]; cbn [wrap]; [|by eapply rep_same|done].
  by eapply rep_put_vertex.
Qed.

Lemma rep_put_edge_call m1 m2 p V E h t x :
  graph_rep p V E -> id_ok h -> id_ok t ->
  match put_edge s m1 m2 h t x p with
  | (p', Ok _) => edge_json_ok x -> graph_rep p' V (<[(h, t) := x]> E)
  | (p', Err _) => graph_rep p' V E
  | (_, Panic) => False
  end.
Proof.
  intros Hrep Hh Ht. unfold put_edge. cbv [mbind io_bind io_wrap io_lift].
  pose proof (edge_json_no_panic x) as Hnp.
  destruct (combinedEdge_Marshal x) as [b|e|] eqn:Hb; cbn [wrap]; [|done|done].
  pose proof (set_key_cases (edge_key s h t) b p) as H1.
  destruct (set_key _ b p) as [p1 [u|e|]]; cbn [wrap]; [|by eapply rep_same|done].
  intros Hx. apply Hx in Hb. by eapply (rep_put_edge _ _ _ _ (h, t)).
Qed.
Lemma rep_AddEdge p V E h t (x : Edge EP) :
  graph_rep p V E -> id_ok h -> id_ok t ->
  match Store_AddEdge s h t x p with
  | (p', Ok _) => edge_json_ok (e_Properties x) -> graph_rep p' V (<[(h, t) := e_Properties x]> E)
  | (p', Err _) => graph_rep p' V E
  | (_, Panic) => False
  end.
Proof. apply rep_put_edge_call. Qed.

(** ** Removing *)

(** The graph without [h], and one from which some of that has been removed. *)
Definition without (h : bytes) (E : gmap (bytes * bytes) EP) : gmap (bytes * bytes) EP :=
  filter (fun ex => ex.1.1 <> h /\ ex.1.2 <> h) E.
Definition partly_without p V E (h : bytes) : Prop :=
  exists V' E', graph_rep p V' E' /\ (V' = V \/ V' = delete h V) /\
    without h E ⊆ E' /\ E' ⊆ E.

Lemma delete_key_cases key p :
  match delete_key key p with
  | (p', Ok _) => provider_contents p' = delete key (provider_contents p)
  | (p', Err _) => provider_contents p' = provider_contents p
  | (_, Panic) => False
  end.
Proof.
  unfold delete_key. pose proof (Provider_Delete_law p key) as H.
  destruct (Provider_Delete p key) as [p' [| |]]; [apply H|done|done].
Qed.

Lemma without_delete h E e : e.1 = h \/ e.2 = h -> forall E',
  without h E ⊆ E' -> without h E ⊆ delete e E'.
Proof.
  intros He E' HE. apply map_subseteq_spec. intros e' x Hx.
  rewrite lookup_delete_ne; [by eapply lookup_weaken|].
  intros ->. apply map_lookup_filter_Some in Hx as [_ [? ?]]. cbn in *. tauto.
Qed.

Lemma rep_RemoveEdge p V E h t :
  graph_rep p V E -> id_ok h -> id_ok t ->
  match Store_RemoveEdge s h t p with
  | (p', Ok _) => graph_rep p' V (delete (h, t) E)
  | (p', Err _) => graph_rep p' V E
  | (_, Panic) => False
  end.
Proof.
  intros Hrep Hh Ht. unfold Store_RemoveEdge, io_wrap.
  pose proof (delete_key_cases (edge_key s h t) p) as H1.
  destruct (delete_key _ p) as [p1 [[]|e|]]; cbn [wrap]; [|by eapply rep_same|done].
  by eapply (rep_del_edge _ _ _ _ (h, t)).
Qed.

(** Deleting an edge of [h] keeps the partial state. *)
Lemma partly_del_edge V E h e key text :
  key = edge_key s e.1 e.2 -> id_ok e.1 -> id_ok e.2 -> e.1 = h \/ e.2 = h ->
  io_keeps (fun p => partly_without p V E h) (io_wrap text (delete_key key)).
Proof.
  intros -> He1 He2 He. apply io_keeps_wrap. intros p (V' & E' & Hrep & HV & HE & HE').
  pose proof (delete_key_cases (edge_key s e.1 e.2) p) as Hdel.
  destruct (delete_key _ p) as [p' [[]| |]]; [exists V', (delete e E')|exists V', E'|done]; cbn.
  - split; [by eapply rep_del_edge|]. split; [done|]. split; [by apply without_delete|].
    etransitivity; [apply delete_subseteq|done].
  - split; [by eapply rep_same|]. done.
Qed.

Lemma incoming_edge h e :
  id_ok h -> id_ok e.1 -> id_ok e.2 -> incoming s h (edge_key s e.1 e.2) = bool_decide (e.2 = h).
Proof.
  intros Hh [_ He1] He2. destruct Hs as (_ & _ & Hc & _).
  unfold incoming, edge_key, outgoing_prefix, edges_prefix.
  rewrite <- !app_assoc. cbn [app]. rewrite split_on_app, split_on_app by done.
  rewrite split_on_none by apply He2. apply bool_decide_ext. split; [by apply format_ID_inj|by intros ->].
Qed.

Lemma outgoing_edge h e :
  id_ok h -> id_ok e.1 -> has_prefix (edge_key s e.1 e.2) (outgoing_prefix s h) = true <-> e.1 = h.
Proof.
  intros Hh He1. unfold edge_key, outgoing_prefix. split.
  - rewrite <- !app_assoc. intros [r H]%has_prefix_spec. rewrite <- !app_assoc in H.
    apply app_inv_head in H. apply split_first in H as [? _]; [|apply He1|apply Hh].
    by apply format_ID_inj.
  - intros ->. apply key_prefix.
Qed.

Lemma list_keys_keeps (I : P -> Prop) fuel pre text : io_keeps I (io_wrap text (list_keys fuel s pre)).
Proof. apply io_keeps_wrap, io_keeps_read. Qed.

(** Once deleted, a key stays deleted. *)
Lemma delete_loop (cond : bytes -> bool) text keys p p' :
  io_iter (fun k => if cond k then io_wrap text (delete_key k) else mret tt) keys p = (p', Ok tt) ->
  forall k, provider_contents p' !! k =
    (if decide (k ∈ keys /\ cond k = true) then None else provider_contents p !! k).
Proof.
  revert p. induction keys as [|key keys IH]; intros p; cbn [io_iter].
  { intros [= <-] k. rewrite decide_False; [done|]. intros [?%elem_of_nil _]. done. }
  intros (p1 & [] & Hdel & Hrest)%io_bind_inv k. rewrite (IH p1 Hrest). clear IH Hrest.
  assert (provider_contents p1 !! k =
    if decide (k = key /\ cond k = true) then None else provider_contents p !! k) as ->.
  { destruct (cond key) eqn:Hc.
    - apply io_wrap_inv in Hdel. pose proof (delete_key_cases key p) as H. rewrite Hdel in H. rewrite H.
      destruct (decide (k = key)) as [->|Hne].
      + by rewrite lookup_delete_eq, decide_True.
      + rewrite lookup_delete_ne, decide_False; [done| |done]. tauto.
    - injection Hdel as ->. rewrite decide_False; [done|]. intros [-> ?]. congruence. }
  repeat case_decide; try done; exfalso; rewrite elem_of_cons in *; tauto.
Qed.

(** A loop of removals, with the keys it removes. *)
Abbreviation removals cond text keys :=
  (io_iter (fun k => if (cond k : bool) then io_wrap text (delete_key k) else mret tt) keys).

Lemma removals_spec cond text keys p V E h :
  (forall k, k ∈ keys -> cond k = true ->
     exists e, k = edge_key s e.1 e.2 /\ id_ok e.1 /\ id_ok e.2 /\ (e.1 = h \/ e.2 = h)) ->
  partly_without p V E h ->
  match removals cond text keys p with
  | (p', Ok _) => partly_without p' V E h /\ provider_contents p' ⊆ provider_contents p /\
      forall k, k ∈ keys -> cond k = true -> provider_contents p' !! k = None
  | (p', Err _) => partly_without p' V E h
  | (_, Panic) => False
  end.
Proof.
  intros Hkeys Hp.
  assert (io_keeps (fun p => partly_without p V E h) (removals cond text keys)) as Hkeep.
  { apply io_keeps_iter. intros k Hk. destruct (cond k) eqn:Hc; [|apply io_keeps_ret].
    destruct (Hkeys k Hk Hc) as (e & He & ? & ? & ?). by eapply partly_del_edge. }
  specialize (Hkeep p Hp).
  pose proof (io_iter_no_panic (fun k => if cond k then io_wrap text (delete_key k) else mret tt)
    keys p) as Hnp.
  pose proof (delete_loop cond text keys p) as Hdel.
  destruct (removals cond text keys p) as [p' [[]|e|]]; [|done|].
  - specialize (Hdel p' eq_refl). split; [done|]. split.
    + apply map_subseteq_spec. intros k x. rewrite Hdel. by case_decide.
    + intros k Hk Hc. by rewrite Hdel, decide_True.
  - apply Hnp; [|done]. intros k p1. destruct (cond k); [|done]. unfold io_wrap.
    pose proof (delete_key_cases k p1) as H. destruct (delete_key k p1) as [p2 [| |]]; done.
Qed.

(** The second half of [RemoveVertex]. *)
Lemma partly_finished p V E h :
  id_ok h -> partly_without p V E h -> provider_contents p !! vertex_key s h = None ->
  (forall e, is_Some (E !! e) -> e.1 = h \/ e.2 = h ->
     provider_contents p !! edge_key s e.1 e.2 = None) ->
  graph_rep p (delete h V) (without h E).
Proof.
  intros Hh (V' & E' & Hrep & HV & HE & HE') Hv He.
  assert (V' = delete h V) as <-.
  { destruct HV as [->|]; [|done]. symmetry. apply delete_id.
    destruct (V !! h) as [v|] eqn:E1; [|done].
    destruct (rep_vertex _ _ _ Hrep h v E1) as (_ & b & Hb & _). congruence. }
  assert (without h E = E') as ->; [|done].
  apply (anti_symm (⊆)); [done|]. apply map_subseteq_spec. intros e x Hx.
  apply map_lookup_filter_Some. split; [by eapply lookup_weaken|]. cbn.
  assert (is_Some (E !! e)) as Hsome by (exists x; by eapply lookup_weaken).
  destruct (rep_edge _ _ _ Hrep e x Hx) as (_ & _ & b & Hb & _).
  split; intros Heq; rewrite He in Hb; auto; done.
Qed.

Lemma rep_edge_key p V E k :
  graph_rep p V E -> has_prefix k (edges_prefix s) = true -> is_Some (provider_contents p !! k) ->
  exists e, is_Some (E !! e) /\ k = edge_key s e.1 e.2 /\ id_ok e.1 /\ id_ok e.2.
Proof.
  intros Hrep Hp Hk. destruct (rep_edge_inv _ _ _ Hrep k Hp Hk) as (e & [x Hx] & ->).
  destruct (rep_edge _ _ _ Hrep e x Hx) as (? & ? & _). exists e. eauto.
Qed.

Lemma list_keys_Ok fuel pre text p :
  (size (provider_contents p) < fuel)%nat ->
  io_wrap text (list_keys fuel s pre) p = (p, Ok (keys_with_prefix (provider_contents p) pre)).
Proof.
  intros Hf. unfold io_wrap, list_keys, io_read. destruct Hs as (-> & _).
  by rewrite Provider_List_law.
Qed.

(** The keys the two loops remove are edges of [h]. *)
Lemma outgoing_keys p V E h :
  partly_without p V E h -> id_ok h ->
  forall k, k ∈ keys_with_prefix (provider_contents p) (outgoing_prefix s h) -> true = true ->
  exists e, k = edge_key s e.1 e.2 /\ id_ok e.1 /\ id_ok e.2 /\ (e.1 = h \/ e.2 = h).
Proof.
  intros (V' & E' & Hrep & _) Hh k [Hk Hpre]%keys_with_prefix_spec _.
  destruct (rep_edge_key _ _ _ k Hrep) as (e & _ & -> & ? & ?); [|done|].
  - unfold outgoing_prefix in Hpre. apply has_prefix_spec in Hpre as [r ->].
    rewrite <- app_assoc. apply key_prefix.
  - exists e. apply outgoing_edge in Hpre; eauto.
Qed.
Lemma incoming_keys p V E h :
  partly_without p V E h -> id_ok h ->
  forall k, k ∈ keys_with_prefix (provider_contents p) (edges_prefix s) -> incoming s h k = true ->
  exists e, k = edge_key s e.1 e.2 /\ id_ok e.1 /\ id_ok e.2 /\ (e.1 = h \/ e.2 = h).
Proof.
  intros (V' & E' & Hrep & _) Hh k [Hk Hpre]%keys_with_prefix_spec Hin.
  destruct (rep_edge_key _ _ _ k Hrep Hpre Hk) as (e & _ & -> & ? & ?).
  exists e. rewrite incoming_edge in Hin by done. apply bool_decide_eq_true in Hin. eauto.
Qed.

Lemma rep_remove_edges fuel p V E h :
  (forall e, is_Some (E !! e) -> id_ok e.1 /\ id_ok e.2) ->
  partly_without p V E h -> id_ok h -> (size (provider_contents p) < fuel)%nat ->
  provider_contents p !! vertex_key s h = None ->
  match remove_edges fuel s h p with
  | (p', Ok _) => graph_rep p' (delete h V) (without h E)
  | (p', Err _) => partly_without p' V E h
  | (_, Panic) => False
  end.
Proof.
  intros HE Hp Hh Hf Hv. unfold remove_edges. rewrite (io_bind_Ok _ _ _ _ _ (list_keys_Ok _ _ _ _ Hf)).
  set (keys1 := keys_with_prefix _ _).
  pose proof (removals_spec (fun _ => true) "failed to delete outgoing edge" keys1 p V E h
    (outgoing_keys p V E h Hp Hh) Hp) as H1.
  cbv [mbind io_bind] in *. cbn beta iota in H1.
  destruct (io_iter _ keys1 p) as [p1 [[]|e|]]; [|done|done].
  destruct H1 as (Hp1 & Hsub1 & Hgone1).
  assert (size (provider_contents p1) < fuel)%nat as Hf1 by (apply map_subseteq_size in Hsub1; lia).
  rewrite (list_keys_Ok _ _ _ _ Hf1). set (keys2 := keys_with_prefix _ _).
  pose proof (removals_spec (incoming s h) "failed to delete incoming edge" keys2 p1 V E h
    (incoming_keys p1 V E h Hp1 Hh) Hp1) as H2.
  destruct (io_iter _ keys2 p1) as [p2 [[]|e|]]; [|done|done].
  destruct H2 as (Hp2 & Hsub2 & Hgone2).
  apply partly_finished; [done|done| |].
  - eapply lookup_weaken_None; [exact Hv|by etransitivity].
  - intros e He He'. destruct (provider_contents p2 !! edge_key s e.1 e.2) as [b|] eqn:Hb; [|done].
    exfalso. pose proof (lookup_weaken _ _ _ _ Hb Hsub2) as Hb1.
    pose proof (lookup_weaken _ _ _ _ Hb1 Hsub1) as Hb0.
    destruct (HE e He) as [Hok1 Hok2]. destruct He' as [Heq|Heq].
    + rewrite Hgone1 in Hb1; [done| |done]. apply keys_with_prefix_spec. split; [eauto|].
      by apply outgoing_edge.
    + rewrite Hgone2 in Hb; [done| |by rewrite incoming_edge, Heq, bool_decide_eq_true_2].
      apply keys_with_prefix_spec. split; [eauto|apply edge_key_prefix].
Qed.

Lemma rep_RemoveVertex fuel p V E h :
  graph_rep p V E -> id_ok h -> (size (provider_contents p) < fuel)%nat ->
  match Store_RemoveVertex fuel s h p with
  | (p', Ok _) => graph_rep p' (delete h V) (without h E)
  | (p', Err _) => partly_without p' V E h
  | (_, Panic) => False
  end.
Proof.
  intros Hrep Hh Hf. assert (without h E ⊆ E) as Hsub by apply map_filter_subseteq.
  unfold Store_RemoveVertex. cbv [mbind io_bind]. unfold io_wrap at 1.
  pose proof (delete_key_cases (vertex_key s h) p) as H1.
  destruct (delete_key (vertex_key s h) p) as [p1 [[]|e|]]; cbn [wrap]; [| |done].
  - apply rep_remove_edges; [|exists (delete h V), E|done| |].
    + intros e [x Hx]. by destruct (rep_edge _ _ _ Hrep e x Hx) as (? & ? & _).
    + split; [by eapply rep_del_vertex|]. auto.
    + rewrite H1. eapply Nat.le_lt_trans; [apply map_subseteq_size, delete_subseteq|done].
    + rewrite H1. apply lookup_delete_eq.
  - exists V, E. split; [by eapply rep_same|]. auto.
Qed.

(** C8: the store implements a finite directed graph.  Let the database hold
    the vertices [V] and the edges [E].  Then every operation that succeeds
    changes the graph as its name says, and one that fails leaves it as it was
    (a failing [RemoveVertex] may leave it between the two); [Vertex] and
    [Edge] return what was stored or the library's not-found error; the lists
    are exactly the vertices and the edges, without repetition; and removing a
    vertex removes all edges from it and to it and no others.  The vertices and
    the edges are those that JSON reads back ([json_ok], [edge_json_ok]). *)
Theorem Store_refines_graph (fuel : nat) p V E (h t : bytes) (v : T) (vp : VP) (x : Edge EP) :
  graph_rep p V E -> id_ok h -> id_ok t -> json_ok (EP := EP) v ->
  (size (provider_contents p) < fuel)%nat ->
  (Store_Vertex s p h = match V !! h with Some v => Ok v | None => Err ErrVertexNotFound end) /\
  (Store_Edge s p h t = match E !! (h, t) with
     | Some x => Ok {| e_Source := h; e_Target := t; e_Properties := x |}
     | None => Err ErrEdgeNotFound end) /\
  (match Store_AddVertex s h v vp p with
   | (p', Ok _) => graph_rep p' (<[h := (v, vp)]> V) E
   | (p', Err _) => graph_rep p' V E
   | (_, Panic) => False
   end) /\
  (match Store_AddEdge s h t x p with
   | (p', Ok _) => edge_json_ok (e_Properties x) -> graph_rep p' V (<[(h, t) := e_Properties x]> E)
   | (p', Err _) => graph_rep p' V E
   | (_, Panic) => False
   end) /\
  (match Store_RemoveEdge s h t p with
   | (p', Ok _) => graph_rep p' V (delete (h, t) E)
   | (p', Err _) => graph_rep p' V E
   | (_, Panic) => False
   end) /\
  (match Store_RemoveVertex fuel s h p with
   | (p', Ok _) => graph_rep p' (delete h V) (filter (fun ex => ex.1.1 <> h /\ ex.1.2 <> h) E)
   | (p', Err _) => partly_without p' V E h
   | (_, Panic) => False
   end) /\
  (exists l, Store_ListVertices fuel s p = Ok l /\ NoDup l /\ forall h, h ∈ l <-> is_Some (V !! h)) /\
  (exists l, Store_ListEdges fuel s p = Ok l /\
     NoDup ((fun e => (e_Source e, e_Target e)) <$> l) /\
     forall e, e ∈ l <-> E !! (e_Source e, e_Target e) = Some (e_Properties e)).
Proof.
  intros Hrep Hh Ht Hv Hf.
  split; [by eapply rep_Vertex|]. split; [by eapply rep_Edge|].
  split; [by apply rep_AddVertex|]. split; [by apply rep_AddEdge|].
  split; [by apply rep_RemoveEdge|]. split; [by apply rep_RemoveVertex|].
  split; [by eapply rep_ListVertices|by eapply rep_ListEdges].
Qed.
End spec.

(** * The identifiers and prefixes of the ledger *)
Lemma hash_id_ok s h : gs_kind s = HashID -> Hash_ok h -> id_ok s h.
Proof.
  intros Hk Hh. unfold id_ok. rewrite Hk. cbn [format_ID decodeID]. unfold Hash_String.
  split; [|apply colon_not_hex]. rewrite hex_decode_encode. cbn [wrap]. rewrite bind_Ok.
  unfold Hash_UnmarshalBinary, Zlen, HashSize. unfold Hash_ok in Hh. rewrite Hh.
  cbn. by rewrite copy_into_exact.
Qed.
Lemma id_ok_hash s h : gs_kind s = HashID -> id_ok s h -> Hash_ok h.
Proof.
  intros Hk [Hd _]. rewrite Hk in Hd. cbn [format_ID decodeID] in Hd. unfold Hash_String in Hd.
  rewrite hex_decode_encode in Hd. cbn [wrap] in Hd. rewrite bind_Ok in Hd.
  apply bind_Ok_inv in Hd as ([] & Hl%ensure_Ok%Z.eqb_eq & _).
  unfold Zlen, HashSize in Hl. unfold Hash_ok. lia.
Qed.

(** String identifiers are not escaped: with a colon in them different edges
    share a key. *)
Lemma string_ids_ambiguous :
  let s := New StringID (str "vertex") (str "edge") Background in
  edge_key s (str "a:b") (str "c") = edge_key s (str "a") (str "b:c").
Proof. vm_compute. reflexivity. Qed.

Definition ledger_store : Store := New HashID (str "vertex") (str "edge") Background.
Lemma ledger_store_ok : store_ok ledger_store.
Proof.
  split; [done|]. unfold ledger_store, New, gs_vertexPrefix, gs_edgePrefix.
  repeat (split; [apply (bool_decide_unpack _); vm_compute; exact I|]).
  apply (bool_decide_unpack _). vm_compute. exact I.
Qed.

(** Vertices that are byte strings, which are their own encoding. *)
#[export] Instance bytes_json : StoreJson bytes unit unit := {
  combinedVertex_Marshal v _ := Ok v;
  combinedVertex_Unmarshal b := Ok (b, tt);
  combinedEdge_Marshal _ := Ok (str "{}");
  combinedEdge_Unmarshal _ := Ok tt;
}.
#[export] Program Instance bytes_json_laws : StoreJsonLaws bytes unit unit := {| json_ok _ := True |}.
Solve All Obligations with (cbn; intros; try destruct p; done || congruence).

Lemma rep_empty {P} `{ProviderLaws P} {T VP EP} `{!StoreJson T VP EP} s (p : P) :
  provider_contents p = ∅ -> graph_rep (T := T) (VP := VP) (EP := EP) s p ∅ ∅.
Proof. intros E. split; rewrite E; intros *; rewrite ?lookup_empty; done || by intros _ []. Qed.

Definition hash_a : bytes := byte_of_Z <$> seqZ 1 32.
Definition hash_b : bytes := byte_of_Z <$> seqZ 101 32.
Lemma Store_refines_graph_witness :
  match Store_AddEdge (EP := unit) ledger_store hash_a hash_b
    {| e_Source := hash_a; e_Target := hash_b; e_Properties := tt |} (∅ : MemDb) with
  | (p', Ok _) => edge_json_ok (T := bytes) (VP := unit) tt ->
      graph_rep (T := bytes) (VP := unit) ledger_store p' ∅ {[ (hash_a, hash_b) := tt ]}
  | (p', Err _) => graph_rep (T := bytes) (VP := unit) (EP := unit) ledger_store p' ∅ ∅
  | (_, Panic) => False
  end.
Proof.
  apply (Store_refines_graph (P := MemDb) (T := bytes) (VP := unit) (EP := unit) ledger_store
    ledger_store_ok 1 (∅ : MemDb) ∅ ∅ hash_a hash_b [] tt
    {| e_Source := hash_a; e_Target := hash_b; e_Properties := tt |}).
  - by apply rep_empty.
  - by apply hash_id_ok.
  - by apply hash_id_ok.
  - exact I.
  - vm_compute. lia.
Defined.
