(* ===== verification/Ledger.v ===== *)
(** [pkg/ledger]: balances and nonces, and the graph of blocks.

    The graph is one of the library [dominikbraun/graph], with [graphmdbx] as
    its store: the library is a parameter ([GraphLib], and an argument of the
    two functions that sort and search), whose documentation is
    [GraphLibLaws].  The storage provider is the state of the calls; the
    functions read the clock from the argument [now]. *)
From Stdlib Require Import Strings.Byte.
From S2P Require Import Prelude Bytes Hashes Types Signatures Transactions Blocks Storage GraphStore.

(** * state.go *)
Record State := {
  st_balances : gmap bytes Z;
  st_nonces : gmap bytes Z;
}.
Definition NewState : State := {| st_balances := ∅; st_nonces := ∅ |}.

Definition GetBalance (s : State) (address : Address) : Z :=
  default 0 (st_balances s !! Address_Hex address).
Definition UpdateBalance (s : State) (address : Address) (amount : Z) : State :=
  let addrStr := Address_Hex address in
  let currentBalance := default 0 (st_balances s !! addrStr) in
  let newBalance := i64 (i64 currentBalance + amount) in
  let newBalance := if newBalance <? 0 then 0 else newBalance in
  {| st_balances := <[addrStr := u64 newBalance]> (st_balances s); st_nonces := st_nonces s |}.
Definition GetNonce (s : State) (address : Address) : Z :=
  default 0 (st_nonces s !! Address_Hex address).
Definition IncrementNonce (s : State) (address : Address) : State :=
  let addrStr := Address_Hex address in
  {| st_balances := st_balances s;
     st_nonces := <[addrStr := u64 (default 0 (st_nonces s !! addrStr) + 1)]> (st_nonces s) |}.

(** The body of the loop of [applyBlock]. *)
Definition apply_tx (validatorID : Address) (s : State) (tx : Transaction) : State :=
  let s := UpdateBalance s (tx_Sender tx) (i64 (- i64 (u64 (tx_Amount tx + tx_Fee tx)))) in
  let s := IncrementNonce s (tx_Sender tx) in
  let s := UpdateBalance s (tx_Recipient tx) (i64 (tx_Amount tx)) in
  UpdateBalance s validatorID (i64 (tx_Fee tx)).
Definition applyBlock (s : State) (block : Block) : State :=
  fold_left (apply_tx (b_ValidatorID block)) (b_Transactions block) s.

(** The loop of [AddBlock] over the transactions of a genesis block. *)
Definition apply_allocations (s : State) (block : Block) : State :=
  fold_left (fun s tx => UpdateBalance s (tx_Recipient tx) (i64 (tx_Amount tx)))
    (b_Transactions block) s.

(** * constants.go, utils.go *)
Definition MaxTimeDrift : Z := 15 * 60.

Fixpoint blockHashMeetsTarget (hash target : Hash) : bool :=
  match hash, target with
  | h :: hash, t :: target =>
      if Z_of_byte h <? Z_of_byte t then true
      else if Z_of_byte t <? Z_of_byte h then false
      else blockHashMeetsTarget hash target
  | _, _ => true
  end.
Definition CalculateTarget (difficulty : Z) : Hash :=
  replicate (Z.to_nat HashSize) (byte_of_Z 255).

(** * The graph library *)
Class GraphLib (P EP : Type) := {
  g_AddVertex : Block -> io P unit;
  g_AddEdge : Hash -> Hash -> io P unit;
  g_Vertex : P -> Hash -> res Block;
  g_AdjacencyMap : P -> res (gmap Hash (gmap Hash (Edge EP)));
  g_CreatesCycle : P -> Hash -> Hash -> res bool;
}.

(** * ledger.go *)
Record Ledger (P : Type) := { l_storage : P; l_state : State }.
Arguments l_storage {P}. Arguments l_state {P}. Arguments Build_Ledger {P}.

Section Ledger.
Context {P EP : Type} `{!Provider P, !GraphLib P EP}.
Implicit Types (l : Ledger P).

Definition NewLedger (storage : P) : Ledger P := {| l_storage := storage; l_state := NewState |}.

Definition on_graph {A} (m : io P A) : io (Ledger P) A := fun l =>
  let '(p, r) := m (l_storage l) in ({| l_storage := p; l_state := l_state l |}, r).
Definition on_state (f : State -> State) : io (Ledger P) unit := fun l =>
  ({| l_storage := l_storage l; l_state := f (l_state l) |}, Ok tt).
(** [if err != nil && !errors.Is(err, target) { return fmt.Errorf(text, err) }]. *)
Definition tolerate {S} (target : error) (text : string) (m : io S unit) : io S unit := fun s =>
  match m s with
  | (s, Err e) => (s, if errors_is e target then Ok tt else Err (ErrWrap text e))
  | r => r
  end.

(** * block.go *)
Definition add_genesis_block (block : Block) : io (Ledger P) unit :=
  _ ← tolerate ErrVertexAlreadyExists "failed to add genesis block to graph"
    (on_graph (g_AddVertex block));
  value ← io_wrap "failed to serialize genesis block" (io_lift (Block_Serialize block));
  _ ← io_wrap "failed to store genesis block in database"
    (on_graph (set_key (Hash_Bytes (b_Hash block)) value));
  on_state (fun s => apply_allocations s block).

Definition add_next_block (block : Block) : io (Ledger P) unit :=
  _ ← on_state (fun s => applyBlock s block);
  _ ← tolerate ErrVertexAlreadyExists "failed to add vertex to graph"
    (on_graph (g_AddVertex block));
  createsCycle ← io_wrap "failed to check for cycles"
    (io_read (fun l => g_CreatesCycle (l_storage l) (b_PreviousHash block) (b_Hash block)));
  _ ← io_lift (ensure (negb createsCycle) (ErrMsg "adding block %s would create a cycle"));
  tolerate ErrEdgeAlreadyExists "failed to add edge from %s to %s"
    (on_graph (g_AddEdge (b_PreviousHash block) (b_Hash block))).

Definition Ledger_AddBlock (block : Block) : io (Ledger P) unit :=
  if IsZeroHash (b_PreviousHash block) then add_genesis_block block else add_next_block block.

Definition getBlock l (hash : Hash) : res Block :=
  wrap "failed to retrieve block from graph" (g_Vertex (l_storage l) hash).
Definition Ledger_GetBlock l (hash : Hash) : res Block := getBlock l hash.

(** The loops over the adjacency map visit it in the order [ord], and the edges
    of a vertex [h] in the order [iord h]. *)
Definition edges_in_order (m : gmap Hash (gmap Hash (Edge EP))) (ord : list Hash)
    (iord : Hash -> list Hash) : list (Edge EP) :=
  h ← ord; match m !! h with
           | Some edges => omap (fun t => edges !! t) (iord h)
           | None => []
           end.

Definition Ledger_GetBlockByIndex l (ord : list Hash) (iord : Hash -> list Hash) (index : Z)
    : res Block :=
  adjacencyMap ← wrap "failed to get adjacency map" (g_AdjacencyMap (l_storage l));
  (fix search (edges : list (Edge EP)) : res Block :=
     match edges with
     | [] => Err (ErrMsg "block with index %d not found")
     | edge :: edges =>
         match g_Vertex (l_storage l) (e_Target edge) with
         | Ok block => if b_Index block =? index then Ok block else search edges
         | Err _ => search edges
         | Panic => Panic
         end
     end) (edges_in_order adjacencyMap ord iord).

Fixpoint first_leaf l (m : gmap Hash (gmap Hash (Edge EP))) (ord : list Hash) : res Block :=
  match ord with
  | [] => Err (ErrMsg "failed to find the latest block")
  | blockHash :: ord =>
      match m !! blockHash with
      | Some edges =>
          if (size edges =? 0)%nat
          then wrap "failed to retrieve latest block from graph" (g_Vertex (l_storage l) blockHash)
          else first_leaf l m ord
      | None => first_leaf l m ord
      end
  end.
Definition Ledger_GetLatestBlock l (ord : list Hash) : res Block :=
  adjacencyMap ← wrap "failed to get adjacency map" (g_AdjacencyMap (l_storage l));
  first_leaf l adjacencyMap ord.

(** * chain.go *)
Definition Ledger_ValidateChain (TopologicalSort : P -> res (list Hash)) l : res bool :=
  match TopologicalSort (l_storage l) with
  | Ok _ => Ok true
  | Err e => if bool_decide (e = ErrMsg "graph contains at least one cycle")
             then Err (ErrMsg "ledger contains cycles")
             else Err (ErrWrap "failed to perform topological sort" e)
  | Panic => Panic
  end.

(** * traversal.go *)
Definition collect_block l (blocksMap : gmap Hash Block) (vertexID : Hash) : res (gmap Hash Block) :=
  match g_Vertex (l_storage l) vertexID with
  | Ok block => Ok (<[vertexID := block]> blocksMap)
  | Err _ => Ok blocksMap
  | Panic => Panic
  end.
Definition Ledger_ListBlocks l (ord ord2 : list Hash) (iord : Hash -> list Hash)
    (ord3 : gmap Hash Block -> list Hash) : res (list Block) :=
  adjacencyMap ← wrap "failed to get adjacency map" (g_AdjacencyMap (l_storage l));
  blocksMap ← fold_res (collect_block l) ∅ ord;
  blocksMap ← fold_res (fun (blocksMap : gmap Hash Block) edge =>
    match blocksMap !! e_Target edge with
    | Some _ => Ok blocksMap
    | None => collect_block l blocksMap (e_Target edge)
    end) blocksMap (edges_in_order adjacencyMap ord2 iord);
  Ok (omap (fun h => blocksMap !! h) (ord3 blocksMap)).

(** [BFS] threads the variables of the visiting closure. *)
Definition Ledger_TraverseSuccessors
    (BFS : forall S, P -> Hash -> (S -> Hash -> S * bool) -> S -> res S)
    l (hash : Hash) : res (list Block) :=
  r ← wrap "failed to traverse successors" (BFS _ (l_storage l) hash
    (fun '(visited, successors) u =>
       if Hash_Equal u hash then ((visited, successors), false)
       else if bool_decide (u ∈ visited) then ((visited, successors), false)
       else
         let visited := u :: visited in
         match g_Vertex (l_storage l) u with
         | Ok block => ((visited, successors ++ [block]), false)
         | _ => ((visited, successors), true)
         end) (([] : list Hash), ([] : list Block)));
  Ok r.2.

(** * transaction.go, over the list that [ListBlocks] returned *)
Fixpoint find_transaction (txID : Hash) (txs : list Transaction) : res Transaction :=
  match txs with
  | [] => Err (ErrMsg "transaction %s not found")
  | tx :: txs => if Hash_Equal (tx_ID tx) txID then Ok tx else find_transaction txID txs
  end.
Definition Ledger_GetTransaction (blocks : res (list Block)) (txID : Hash) : res Transaction :=
  blocks ← wrap "failed to list blocks" blocks;
  find_transaction txID (b ← blocks; b_Transactions b).
Definition Ledger_IterateTransactions {S} (blocks : res (list Block))
    (fn : S -> Transaction -> res S) (s : S) : res S :=
  blocks ← wrap "failed to list blocks" blocks;
  fold_res fn s (b ← blocks; b_Transactions b).
Definition Ledger_SeekTransactions (blocks : res (list Block)) (predicate : Transaction -> bool)
    : res (list Transaction) :=
  Ledger_IterateTransactions blocks (fun matchedTxs tx =>
    Ok (if predicate tx then matchedTxs ++ [tx] else matchedTxs)) [].

(** * validation.go *)
Definition validateTransaction (s : State) (tx : Transaction) (isGenesisBlock : bool) : res unit :=
  _ ← ensure (negb (Address_IsZero (tx_Sender tx)))
    (ErrMsg "transaction sender address is zero");
  _ ← ensure (negb (tx_Amount tx <=? 0)) (ErrMsg "transaction amount must be positive");
  _ ← ensure (negb (tx_Fee tx <? 0)) (ErrMsg "transaction fee cannot be negative");
  if negb isGenesisBlock then
    let senderBalance := GetBalance s (tx_Sender tx) in
    _ ← ensure (negb (senderBalance <? u64 (tx_Amount tx + tx_Fee tx)))
      (ErrMsg "sender has insufficient balance");
    let expectedNonce := u64 (GetNonce s (tx_Sender tx) + 1) in
    ensure (tx_Nonce tx =? expectedNonce)
      (ErrMsg "invalid transaction nonce: expected %d, got %d")
  else Ok tt.

Definition validateConsensusRules (block : Block) : res unit :=
  ensure (blockHashMeetsTarget (b_Hash block) (CalculateTarget (b_Difficulty block)))
    (ErrMsg "block hash does not meet difficulty target").

(** [ValidateBlock] has the same text here and in [pkg/chain], but for the
    allowed drift and the consensus rules. *)
Definition validate_block (drift : Z) (rules : Block -> res unit) (now : Z) l (block : Block)
    : res unit :=
  _ ← ensure (negb ((b_Index block =? 0) && negb (bool_decide (b_PreviousHash block = ZeroHash))))
    (ErrMsg "genesis block must have a zero previous hash");
  _ ← (if 0 <? b_Index block then
         prevBlock ← wrap "previous block not found" (Ledger_GetBlock l (b_PreviousHash block));
         ensure (b_Index block =? u64 (b_Index prevBlock + 1))
           (ErrMsg "block index %d is not sequential")
       else Ok tt);
  _ ← ensure (HashEqual (b_Hash block) (Block_ComputeHash block)) (ErrMsg "block hash is invalid");
  expectedMerkleRoot ← Block_ComputeMerkleRoot block;
  _ ← ensure (HashEqual (b_MerkleRoot block) expectedMerkleRoot)
    (ErrMsg "block Merkle root is invalid");
  _ ← ensure (negb (i64 (now + drift) <? b_Timestamp block))
    (ErrMsg "block timestamp %d is too far in the future");
  _ ← (if 0 <? b_Index block then
         prevBlock ← wrap "previous block not found" (getBlock l (b_PreviousHash block));
         ensure (negb (b_Timestamp block <? b_Timestamp prevBlock))
           (ErrMsg "block timestamp %d is not greater than previous block timestamp %d")
       else Ok tt);
  let isGenesisBlock := b_Index block =? 0 in
  _ ← fold_res (fun _ tx => wrap "invalid transaction"
        (validateTransaction (l_state l) tx isGenesisBlock)) tt (b_Transactions block);
  wrap "block does not meet consensus rules" (rules block).

Definition Ledger_ValidateBlock (now : Z) l (block : Block) : res unit :=
  validate_block MaxTimeDrift validateConsensusRules now l block.
End Ledger.

(** * Balances *)

(** Everything all accounts own together. *)
Definition total (m : gmap bytes Z) : Z := map_fold (fun _ v acc => v + acc) 0 m.
Definition supply (s : State) : Z := total (st_balances s).

Lemma total_empty : total ∅ = 0.
Proof. apply map_fold_empty. Qed.
Lemma total_insert_None m k v : m !! k = None -> total (<[k := v]> m) = v + total m.
Proof. intros Hk. unfold total. rewrite (map_fold_insert_L (fun _ v acc => v + acc) 0 k v m); [done|intros; lia|done]. Qed.
Lemma total_delete m k v : m !! k = Some v -> total m = v + total (delete k m).
Proof. intros Hk. unfold total. rewrite (map_fold_delete_L (fun _ v acc => v + acc) 0 k v m); [done|intros; lia|done]. Qed.
Lemma total_insert m k v : total (<[k := v]> m) = total m - default 0 (m !! k) + v.
Proof.
  destruct (m !! k) as [w|] eqn:Hk; cbn [default from_option].
  - rewrite <- insert_delete_eq, total_insert_None by apply lookup_delete_eq.
    rewrite (total_delete m k w Hk). unfold id. lia.
  - rewrite total_insert_None by done. lia.
Qed.

(** No balance is negative, and all of them together fit in an int64. *)
Definition state_ok (s : State) : Prop :=
  map_Forall (fun _ v => 0 <= v) (st_balances s) /\ supply s < 2 ^ 63.

Lemma total_nonneg m : map_Forall (fun _ v => 0 <= v) m -> 0 <= total m.
Proof.
  induction m as [|k v m Hk IH] using map_ind; intros Hm; [by rewrite total_empty|].
  apply map_Forall_insert in Hm as [Hv Hm]; [|done].
  rewrite total_insert_None by done. specialize (IH Hm). lia.
Qed.
Lemma balance_le_total m k : map_Forall (fun _ v => 0 <= v) m -> 0 <= default 0 (m !! k) <= total m.
Proof.
  intros Hm. pose proof (total_nonneg m Hm) as H0.
  destruct (m !! k) as [v|] eqn:Hk; cbn [default from_option]; unfold id; [|lia].
  rewrite (total_delete m k v Hk). pose proof (Hm k v Hk) as Hv. cbn in Hv.
  assert (0 <= total (delete k m)) by by apply total_nonneg, map_Forall_delete. lia.
Qed.
Lemma balance_bound s a : state_ok s -> 0 <= GetBalance s a <= supply s.
Proof. intros [Hm _]. by apply balance_le_total. Qed.

#[export] Instance Address_Hex_inj : Inj (=) (=) Address_Hex.
Proof. unfold Address_Hex. intros a b H%app_inv_head. by apply hex_encode_inj. Qed.

(** Adding to a balance, away from the limits of int64 and from zero. *)
Lemma UpdateBalance_exact s a amount :
  state_ok s -> is_i64 amount -> 0 <= GetBalance s a + amount -> supply s + amount < 2 ^ 63 ->
  let s' := UpdateBalance s a amount in
  state_ok s' /\ supply s' = supply s + amount /\ st_nonces s' = st_nonces s /\
  forall x, GetBalance s' x = GetBalance s x + if bool_decide (a = x) then amount else 0.
Proof.
  intros Hs Hamt Hlo Hhi s'. pose proof (balance_bound s a Hs) as Hb.
  destruct Hs as [Hm Hsup]. unfold is_i64 in Hamt.
  assert (st_balances s' = <[Address_Hex a := GetBalance s a + amount]> (st_balances s)) as E.
  { subst s'. unfold UpdateBalance. cbn [st_balances]. f_equal. fold (GetBalance s a).
    rewrite (i64_small (GetBalance s a)), i64_small by (unfold is_i64; lia).
    destruct (Z.ltb_spec (GetBalance s a + amount) 0); [lia|].
    apply u64_small. unfold is_u64. lia. }
  assert (supply s' = supply s + amount) as Esup.
  { unfold supply. rewrite E, total_insert. unfold GetBalance. lia. }
  split; [split|].
  - rewrite E. by apply map_Forall_insert_2; [lia|].
  - lia.
  - split; [done|]. split; [done|]. intros x. unfold GetBalance at 1. rewrite E.
    case_bool_decide as Hx; [subst x; by rewrite lookup_insert_eq|].
    rewrite lookup_insert_ne by (by intros ?%(inj _)). unfold GetBalance. lia.
Qed.

(** What a transaction changes on the account [x]. *)
Definition net (validatorID : Address) (x : Address) (tx : Transaction) : Z :=
  (if bool_decide (tx_Recipient tx = x) then tx_Amount tx else 0) +
  (if bool_decide (validatorID = x) then tx_Fee tx else 0) -
  (if bool_decide (tx_Sender tx = x) then tx_Amount tx + tx_Fee tx else 0).
Definition sent_by (x : Address) (tx : Transaction) : Z :=
  if bool_decide (tx_Sender tx = x) then 1 else 0.
Definition sum {A} (f : A -> Z) (l : list A) : Z := fold_right (fun a n => f a + n) 0 l.

Lemma sum_fmap {A B} (g : A -> B) (f : B -> Z) l : sum f (g <$> l) = sum (fun a => f (g a)) l.
Proof. unfold sum. induction l as [|a l IH]; cbn; [done|]. by rewrite IH. Qed.

(** Every transaction can be paid when its turn comes. *)
Fixpoint covered (validatorID : Address) (s : State) (txs : list Transaction) : Prop :=
  match txs with
  | [] => True
  | tx :: txs => tx_Amount tx + tx_Fee tx <= GetBalance s (tx_Sender tx) /\
                 covered validatorID (apply_tx validatorID s tx) txs
  end.

Lemma IncrementNonce_spec s a :
  st_balances (IncrementNonce s a) = st_balances s /\
  forall x, GetNonce (IncrementNonce s a) x =
    if bool_decide (a = x) then u64 (GetNonce s x + 1) else GetNonce s x.
Proof.
  split; [done|]. intros x. unfold GetNonce, IncrementNonce. cbn [st_nonces].
  case_bool_decide as Hx; [subst x; by rewrite lookup_insert_eq|].
  by rewrite lookup_insert_ne by (by intros ?%(inj _)).
Qed.

Definition nonces_ok (s : State) : Prop := forall x, is_u64 (GetNonce s x).

Lemma apply_tx_spec v s tx :
  state_ok s -> nonces_ok s -> 0 <= tx_Amount tx -> 0 <= tx_Fee tx ->
  tx_Amount tx + tx_Fee tx <= GetBalance s (tx_Sender tx) ->
  let s' := apply_tx v s tx in
  state_ok s' /\ nonces_ok s' /\ supply s' = supply s /\
  forall x, GetBalance s' x = GetBalance s x + net v x tx /\
            GetNonce s' x = u64 (GetNonce s x + sent_by x tx).
Proof.
  intros Hs Hn Ha Hf Hcov. unfold apply_tx.
  pose proof (balance_bound s (tx_Sender tx) Hs) as Hb. destruct (Hs) as [_ Hsup].
  assert (is_i64 (tx_Amount tx + tx_Fee tx)) as Hi by (unfold is_i64; lia).
  rewrite u64_small by (unfold is_u64; lia).
  rewrite (i64_small (tx_Amount tx + tx_Fee tx)) by done.
  rewrite !i64_small by (unfold is_i64 in *; lia).
  destruct (UpdateBalance_exact s (tx_Sender tx) (- (tx_Amount tx + tx_Fee tx))) as (H1 & E1 & N1 & B1);
    [done|unfold is_i64 in *; lia|lia|lia|].
  set (s1 := UpdateBalance s _ _) in *.
  destruct (IncrementNonce_spec s1 (tx_Sender tx)) as [Eb N2].
  set (s2 := IncrementNonce s1 _) in *.
  assert (state_ok s2) as H2 by (unfold state_ok, supply in *; by rewrite Eb).
  assert (supply s2 = supply s1) as E2 by (unfold supply; by rewrite Eb).
  assert (forall x, GetBalance s2 x = GetBalance s1 x) as B2 by (intros; unfold GetBalance; by rewrite Eb).
  destruct (UpdateBalance_exact s2 (tx_Recipient tx) (tx_Amount tx)) as (H3 & E3 & N3 & B3);
    [done|unfold is_i64 in *; lia|pose proof (balance_bound s2 (tx_Recipient tx) H2); lia|lia|].
  set (s3 := UpdateBalance s2 _ _) in *.
  destruct (UpdateBalance_exact s3 v (tx_Fee tx)) as (H4 & E4 & N4 & B4);
    [done|unfold is_i64 in *; lia|pose proof (balance_bound s3 v H3); lia|lia|].
  set (s4 := UpdateBalance s3 _ _) in *. cbv zeta.
  assert (forall x, GetNonce s4 x = u64 (GetNonce s x + sent_by x tx)) as HN.
  { intros x. assert (GetNonce s4 x = GetNonce s2 x) as -> by (unfold GetNonce; by rewrite N4, N3).
    rewrite N2. unfold sent_by, GetNonce at 1 2. rewrite N1. fold (GetNonce s x).
    case_bool_decide; [done|]. rewrite Z.add_0_r. symmetry. by apply u64_small. }
  split; [done|]. split; [intros x; rewrite HN; apply u64_range|]. split; [lia|].
  intros x. split; [|done]. rewrite B4, B3, B2, B1. unfold net. repeat case_bool_decide; lia.
Qed.

Lemma apply_txs_spec v txs s :
  state_ok s -> nonces_ok s -> Forall (fun tx => 0 <= tx_Amount tx /\ 0 <= tx_Fee tx) txs ->
  covered v s txs ->
  let s' := fold_left (apply_tx v) txs s in
  state_ok s' /\ nonces_ok s' /\ supply s' = supply s /\
  forall x, GetBalance s' x = GetBalance s x + sum (net v x) txs /\
            GetNonce s' x = u64 (GetNonce s x + sum (sent_by x) txs).
Proof.
  revert s. induction txs as [|tx txs IH]; intros s Hs Hn; cbn [fold_left covered sum fold_right].
  { intros _ _. do 3 (split; [done|]). intros x. split; [lia|].
    rewrite Z.add_0_r. symmetry. by apply u64_small. }
  intros [[Ha Hf] Htxs]%Forall_cons [Hcov Hrest].
  destruct (apply_tx_spec v s tx Hs Hn Ha Hf Hcov) as (Hs1 & Hn1 & E1 & B1).
  destruct (IH _ Hs1 Hn1 Htxs Hrest) as (Hs2 & Hn2 & E2 & B2).
  split; [done|]. split; [done|]. split; [lia|]. intros x.
  destruct (B1 x) as [Bx Nx], (B2 x) as [Bx2 Nx2]. fold (@sum Transaction) in *.
  rewrite Bx2, Bx, Nx2, Nx. unfold sum. split; [lia|].
  unfold u64. rewrite Zplus_mod_idemp_l. f_equal. lia.
Qed.

(** C6: applying a block moves money and creates none.  If every transaction
    can be paid when its turn comes, the sum of all balances is unchanged, no
    balance is negative or wraps, every account changes by exactly what it
    receives, earns in fees and spends, and its nonce by the number of
    transactions it sent. *)
Theorem applyBlock_conserves (s : State) (block : Block) :
  state_ok s -> nonces_ok s ->
  Forall (fun tx => 0 <= tx_Amount tx /\ 0 <= tx_Fee tx) (b_Transactions block) ->
  covered (b_ValidatorID block) s (b_Transactions block) ->
  supply (applyBlock s block) = supply s /\
  forall x, GetBalance (applyBlock s block) x =
              GetBalance s x + sum (net (b_ValidatorID block) x) (b_Transactions block) /\
            0 <= GetBalance (applyBlock s block) x /\
            GetNonce (applyBlock s block) x =
              u64 (GetNonce s x + sum (sent_by x) (b_Transactions block)).
Proof.
  intros Hs Hn Htxs Hcov.
  destruct (apply_txs_spec (b_ValidatorID block) _ s Hs Hn Htxs Hcov) as (Hs' & _ & E & B).
  split; [done|]. intros x. destruct (B x) as [Bx Nx]. split; [done|]. split; [|done].
  by apply balance_bound.
Qed.

(** ** What validation lets through *)
Lemma validateTransaction_Ok s tx :
  validateTransaction s tx false = Ok tt <->
  Address_IsZero (tx_Sender tx) = false /\ 0 < tx_Amount tx /\ 0 <= tx_Fee tx /\
  u64 (tx_Amount tx + tx_Fee tx) <= GetBalance s (tx_Sender tx) /\
  tx_Nonce tx = u64 (GetNonce s (tx_Sender tx) + 1).
Proof.
  unfold validateTransaction. cbn [negb]. cbv zeta.
  rewrite !ensure_bind, !ensure_Ok, !negb_true_iff, Z.leb_gt, !Z.ltb_ge, Z.eqb_eq. done.
Qed.

(** A deduction below zero is clamped. *)
Lemma UpdateBalance_clamped s a amount :
  state_ok s -> is_i64 amount -> GetBalance s a + amount < 0 ->
  let s' := UpdateBalance s a amount in
  state_ok s' /\ supply s' = supply s - GetBalance s a /\
  forall x, GetBalance s' x = if bool_decide (a = x) then 0 else GetBalance s x.
Proof.
  intros Hs Hamt Hlo s'. pose proof (balance_bound s a Hs) as Hb.
  destruct Hs as [Hm Hsup]. unfold is_i64 in Hamt.
  assert (st_balances s' = <[Address_Hex a := 0]> (st_balances s)) as E.
  { subst s'. unfold UpdateBalance. cbn [st_balances]. f_equal. fold (GetBalance s a).
    rewrite (i64_small (GetBalance s a)), i64_small by (unfold is_i64; lia).
    destruct (Z.ltb_spec (GetBalance s a + amount) 0); [done|lia]. }
  assert (supply s' = supply s - GetBalance s a) as Esup.
  { unfold supply. rewrite E, total_insert. unfold GetBalance. lia. }
  split; [split|].
  - rewrite E. by apply map_Forall_insert_2.
  - lia.
  - split; [done|]. intros x. unfold GetBalance at 1. rewrite E.
    case_bool_decide as Hx; [subst x; by rewrite lookup_insert_eq|].
    by rewrite lookup_insert_ne by (by intros ?%(inj _)).
Qed.

(** Paying [B] without fee from an empty account. *)
Lemma apply_tx_overdrawn v s tx :
  state_ok s -> GetBalance s (tx_Sender tx) = 0 -> 0 < tx_Amount tx -> tx_Fee tx = 0 ->
  supply s + tx_Amount tx < 2 ^ 63 -> tx_Recipient tx <> tx_Sender tx ->
  supply (apply_tx v s tx) = supply s + tx_Amount tx /\
  forall x, GetBalance (apply_tx v s tx) x =
    GetBalance s x + if bool_decide (tx_Recipient tx = x) then tx_Amount tx else 0.
Proof.
  intros Hs H0 Hpos Hfee Hsup Hne. unfold apply_tx. rewrite Hfee, Z.add_0_r.
  pose proof (balance_bound s (tx_Sender tx) Hs).
  rewrite u64_small by (unfold is_u64; lia). rewrite (i64_small (tx_Amount tx)) by (unfold is_i64; lia).
  rewrite (i64_small (- _)), (i64_small 0) by (unfold is_i64; lia).
  destruct (UpdateBalance_clamped s (tx_Sender tx) (- tx_Amount tx)) as (H1 & E1 & B1);
    [done|unfold is_i64; lia|lia|].
  set (s1 := UpdateBalance s _ _) in *.
  destruct (IncrementNonce_spec s1 (tx_Sender tx)) as [Eb _].
  set (s2 := IncrementNonce s1 _) in *.
  assert (state_ok s2) as H2 by (unfold state_ok, supply in *; by rewrite Eb).
  assert (supply s2 = supply s1) as E2 by (unfold supply; by rewrite Eb).
  assert (forall x, GetBalance s2 x = GetBalance s1 x) as B2 by (intros; unfold GetBalance; by rewrite Eb).
  destruct (UpdateBalance_exact s2 (tx_Recipient tx) (tx_Amount tx)) as (H3 & E3 & _ & B3);
    [done|unfold is_i64; lia|pose proof (balance_bound s2 (tx_Recipient tx) H2); lia|lia|].
  set (s3 := UpdateBalance s2 _ _) in *.
  destruct (UpdateBalance_exact s3 v 0) as (H4 & E4 & _ & B4);
    [done|done|pose proof (balance_bound s3 v H3); lia|lia|].
  split; [lia|]. intros x. rewrite B4, B3, B2, B1. repeat case_bool_decide; subst; lia.
Qed.

(** The transactions of a block are all validated against the state before
    the block: two payments of a sender's whole balance with one nonce are both
    valid, and applying them gives the recipient twice the balance: the clamp
    at zero creates the money that is missing. *)
Theorem double_spend_in_block (s : State) (block : Block) (t1 t2 : Transaction)
    (a r : Address) (B : Z) :
  state_ok s -> nonces_ok s -> Address_IsZero a = false -> GetBalance s a = B -> 0 < B ->
  supply s + B < 2 ^ 63 -> r <> a -> b_ValidatorID block <> a ->
  b_Transactions block = [t1; t2] ->
  Forall (fun tx => tx_Sender tx = a /\ tx_Recipient tx = r /\ tx_Amount tx = B /\ tx_Fee tx = 0 /\
                    tx_Nonce tx = u64 (GetNonce s a + 1)) [t1; t2] ->
  Forall (fun tx => validateTransaction s tx false = Ok tt) [t1; t2] /\
  GetBalance (applyBlock s block) a = 0 /\
  GetBalance (applyBlock s block) r = GetBalance s r + 2 * B /\
  supply (applyBlock s block) = supply s + B.
Proof.
  intros Hs Hn Hz HB Hpos Hsup Hra Hva Htxs Hall. pose proof (balance_bound s a Hs) as Hb.
  split.
  { eapply Forall_impl; [exact Hall|]. intros tx (E1 & _ & E2 & E3 & E4).
    apply validateTransaction_Ok. rewrite E1, E2, E3, E4, u64_small by (unfold is_u64; lia).
    split; [done|]. repeat split; lia. }
  apply Forall_cons in Hall as [(S1 & R1 & A1 & F1 & _) [(S2 & R2 & A2 & F2 & _) _]%Forall_cons].
  unfold applyBlock. rewrite Htxs. cbn [fold_left].
  destruct (apply_tx_spec (b_ValidatorID block) s t1) as (Hs1 & _ & E1 & B1);
    [done|done|lia|lia|rewrite S1; lia|].
  set (s1 := apply_tx _ s t1) in *.
  assert (forall x, GetBalance s1 x = GetBalance s x + net (b_ValidatorID block) x t1) as B1'
    by apply B1.
  unfold net in B1'. rewrite S1, R1, A1, F1 in B1'.
  assert (GetBalance s1 a = 0) as Ha.
  { rewrite B1', (bool_decide_eq_false_2 (r = a)), (bool_decide_eq_false_2 (b_ValidatorID block = a)),
      bool_decide_eq_true_2 by done. lia. }
  destruct (apply_tx_overdrawn (b_ValidatorID block) s1 t2) as (E2 & B2);
    [done|by rewrite S2|lia|done|lia|by rewrite R2, S2|].
  rewrite E2, !B2, R2, Ha, B1', A2.
  split; [|split]; [..|lia]; repeat case_bool_decide; try congruence; lia.
Qed.

(** The sum of amount and fee wraps: a transaction whose amount and fee add
    up to more than 2^64 is valid for a sender who can pay the remainder, and
    since the amount reads as a negative int64, applying it takes money from
    the recipient. *)
Theorem overflow_takes_from_recipient (v : Address) (s : State) (tx : Transaction) (k : Z) :
  state_ok s -> nonces_ok s -> Address_IsZero (tx_Sender tx) = false ->
  0 < k < 2 ^ 63 -> tx_Amount tx = 2 ^ 64 - k -> k <= tx_Fee tx ->
  tx_Fee tx - k <= GetBalance s (tx_Sender tx) -> supply s + tx_Fee tx < 2 ^ 63 ->
  tx_Nonce tx = u64 (GetNonce s (tx_Sender tx) + 1) ->
  tx_Recipient tx <> tx_Sender tx -> tx_Recipient tx <> v -> k <= GetBalance s (tx_Recipient tx) ->
  validateTransaction s tx false = Ok tt /\
  GetBalance (apply_tx v s tx) (tx_Recipient tx) = GetBalance s (tx_Recipient tx) - k.
Proof.
  intros Hs Hn Hz Hk Ha Hf Hcov Hsup Hnonce Hne Hv Hr.
  pose proof (balance_bound s (tx_Sender tx) Hs). destruct (Hs) as [_ Hsup'].
  assert (u64 (tx_Amount tx + tx_Fee tx) = tx_Fee tx - k) as Eu.
  { unfold u64. rewrite Ha. symmetry. apply Z.mod_unique with 1; lia. }
  split.
  { apply validateTransaction_Ok. rewrite Eu, Hnonce. split; [done|]. repeat split; lia. }
  unfold apply_tx. rewrite Eu.
  assert (i64 (tx_Amount tx) = - k) as ->.
  { rewrite <- (i64_u64 (- k)) by (unfold is_i64; lia). f_equal. rewrite Ha. unfold u64.
    apply Z.mod_unique with (-1); lia. }
  rewrite (i64_small (tx_Fee tx - k)), !i64_small by (unfold is_i64; lia).
  destruct (UpdateBalance_exact s (tx_Sender tx) (- (tx_Fee tx - k))) as (H1 & E1 & _ & B1);
    [done|unfold is_i64; lia|lia|lia|].
  set (s1 := UpdateBalance s _ _) in *.
  destruct (IncrementNonce_spec s1 (tx_Sender tx)) as [Eb _].
  set (s2 := IncrementNonce s1 _) in *.
  assert (state_ok s2) as H2 by (unfold state_ok, supply in *; by rewrite Eb).
  assert (supply s2 = supply s1) as E2 by (unfold supply; by rewrite Eb).
  assert (forall x, GetBalance s2 x = GetBalance s1 x) as B2 by (intros; unfold GetBalance; by rewrite Eb).
  assert (GetBalance s2 (tx_Recipient tx) = GetBalance s (tx_Recipient tx)) as Er.
  { rewrite B2, B1, bool_decide_eq_false_2 by done. lia. }
  destruct (UpdateBalance_exact s2 (tx_Recipient tx) (- k)) as (H3 & E3 & _ & B3);
    [done|unfold is_i64; lia|lia|lia|].
  set (s3 := UpdateBalance s2 _ _) in *.
  destruct (UpdateBalance_exact s3 v (tx_Fee tx)) as (_ & _ & _ & B4);
    [done|unfold is_i64; lia|pose proof (balance_bound s3 v H3); lia|lia|].
  rewrite B4, B3, bool_decide_eq_true_2, bool_decide_eq_false_2 by done. lia.
Qed.

(** * The documentation of the graph library *)

(** Every edge joins two vertices. *)
Definition edges_ok {VP EP : Type} (V : gmap bytes (Block * VP)) (E : gmap (bytes * bytes) EP) : Prop :=
  forall a t, is_Some (E !! (a, t)) -> is_Some (V !! a) /\ is_Some (V !! t).

(** Vertices and edges are kept in the store under the block hash; [AddEdge]
    needs both vertices and adds an edge that is not there yet, one without
    data, which JSON reads back; the errors of JSON and of the database are
    none of the library's; the adjacency map has an entry for every vertex, with
    its outgoing edges; an edge to a vertex without successors closes no cycle. *)
Class GraphLibLaws (P VP EP : Type) `{ProviderLaws P, !StoreJson Block VP EP, !GraphLib P EP} := {
  g_properties : VP;
  g_AddVertex_law b p : g_AddVertex b p = Store_AddVertex ledger_store (b_Hash b) b g_properties p;
  g_AddVertex_errors b p p' e :
    g_AddVertex b p = (p', Err e) -> errors_is e ErrVertexAlreadyExists = false;
  g_Vertex_law p h : g_Vertex p h = fst <$> Store_Vertex ledger_store p h;
  g_AddEdge_law a t p :
    (exists e, g_AddEdge a t p = (p, Err e)) \/
    exists x, edge_json_ok (T := Block) (VP := VP) (e_Properties x) /\
      g_AddEdge a t p = Store_AddEdge ledger_store a t x p;
  g_AddEdge_new_law a t p :
    is_ok (g_Vertex p a) = true -> is_ok (g_Vertex p t) = true ->
    Store_Edge ledger_store p a t = Err ErrEdgeNotFound ->
    exists x, edge_json_ok (T := Block) (VP := VP) (e_Properties x) /\
      g_AddEdge a t p = Store_AddEdge ledger_store a t x p;
  g_AdjacencyMap_law p V E : graph_rep ledger_store p V E -> edges_ok V E ->
    exists m, g_AdjacencyMap p = Ok m /\ (forall a, is_Some (m !! a) <-> is_Some (V !! a)) /\
      forall a edges t, m !! a = Some edges -> edges !! t = edge_of E (a, t);
  g_CreatesCycle_no_panic p a t : no_panic (g_CreatesCycle p a t);
  g_CreatesCycle_law p V E a t : graph_rep ledger_store p V E -> edges_ok V E ->
    is_Some (V !! a) -> is_Some (V !! t) -> a <> t -> (forall u, E !! (t, u) = None) ->
    g_CreatesCycle p a t = Ok false;
}.

(** * The blocks of a ledger *)
Section blocks.
Context {P VP EP : Type} `{GraphLibLaws P VP EP, !StoreJsonLaws Block VP EP}.
Implicit Types (p : P) (l : Ledger P) (b : Block).
Implicit Types (V : gmap bytes (Block * VP)) (E : gmap (bytes * bytes) EP).

(** [b] starts a chain, or follows a block of [V]. *)
Definition linked V b : Prop :=
  (b_PreviousHash b = ZeroHash /\ b_Index b = 0) \/
  exists parent vp, V !! b_PreviousHash b = Some (parent, vp) /\
    b_Index b = b_Index parent + 1 /\ b_Timestamp parent <= b_Timestamp b.

Record ledger_rep p V E : Prop := {
  lr_graph : graph_rep ledger_store p V E;
  lr_edges : edges_ok V E;
  lr_block h b vp : V !! h = Some (b, vp) -> Block_ok b /\ b_Hash b = h /\ Block_ComputeHash b = h;
  lr_link h b vp : V !! h = Some (b, vp) -> linked V b;
  lr_edge a t : is_Some (E !! (a, t)) -> a <> ZeroHash /\
    exists b vp, V !! t = Some (b, vp) /\ b_PreviousHash b = a;
}.

(** A block that can be stored: JSON can represent it, its hash as a key is
    neither in the range of the vertices nor in that of the edges, and it does
    not collide with the block stored under its hash, if any. *)
Record addable p b : Prop := {
  ad_ok : Block_ok b;
  ad_json : json_ok (EP := EP) b;
  ad_vertex : has_prefix (b_Hash b) (vertices_prefix ledger_store) = false;
  ad_edge : has_prefix (b_Hash b) (edges_prefix ledger_store) = false;
  ad_collision old : g_Vertex p (b_Hash b) = Ok old -> ~ collision [Block_preimage old] [Block_preimage b];
}.

Lemma ledger_Vertex p V E h :
  ledger_rep p V E -> Hash_ok h ->
  g_Vertex p h = match V !! h with Some (b, _) => Ok b | None => Err ErrVertexNotFound end.
Proof.
  intros Hrep Hh. rewrite g_Vertex_law, (rep_Vertex ledger_store p V E);
    [|apply Hrep|by apply hash_id_ok].
  by destruct (V !! h) as [[]|].
Qed.

(** The same header under the same hash. *)
Lemma same_header p V E b old vp :
  ledger_rep p V E -> addable p b -> Block_ComputeHash b = b_Hash b ->
  V !! b_Hash b = Some (old, vp) ->
  b_Index old = b_Index b /\ b_Timestamp old = b_Timestamp b /\ b_PreviousHash old = b_PreviousHash b.
Proof.
  intros Hrep Hb Hhash Hold. destruct (lr_block _ _ _ Hrep _ _ _ Hold) as (Hok & _ & Hhash').
  assert (Block_preimage old = Block_preimage b) as Hpre.
  { rewrite <- Hhash in Hhash'. unfold Block_ComputeHash in Hhash'.
    apply Sum256_commits in Hhash' as [|Hcol]; [done|]. exfalso. eapply ad_collision; [done| |done].
    rewrite (ledger_Vertex p V E), Hold by (done || by destruct (ad_ok _ _ Hb)). done. }
  apply Block_preimage_inj in Hpre as (? & ? & ? & _); [done..|apply (ad_ok _ _ Hb)].
Qed.

Lemma linked_insert V b c vp :
  (forall old vp', V !! b_Hash b = Some (old, vp') ->
     b_Index old = b_Index b /\ b_Timestamp old = b_Timestamp b) ->
  linked V c -> linked (<[b_Hash b := (b, vp)]> V) c.
Proof.
  intros Hsame [|(parent & vp' & Hp & Hi & Ht)]; [by left|right].
  destruct (decide (b_PreviousHash c = b_Hash b)) as [Heq|Hne].
  - exists b, vp. rewrite Heq, lookup_insert_eq. split; [done|].
    rewrite Heq in Hp. destruct (Hsame _ _ Hp). lia.
  - exists parent, vp'. by rewrite lookup_insert_ne.
Qed.

(** Storing a linked block keeps the ledger in order. *)
Lemma ledger_put_block p p' V E b vp :
  ledger_rep p V E -> addable p b -> Block_ComputeHash b = b_Hash b -> linked V b ->
  graph_rep ledger_store p' (<[b_Hash b := (b, vp)]> V) E ->
  ledger_rep p' (<[b_Hash b := (b, vp)]> V) E.
Proof.
  intros Hrep Hb Hhash Hlink Hgraph.
  assert (forall old vp', V !! b_Hash b = Some (old, vp') ->
    b_Index old = b_Index b /\ b_Timestamp old = b_Timestamp b /\
    b_PreviousHash old = b_PreviousHash b) as Hsame by (intros *; by eapply same_header).
  assert (forall c, linked V c -> linked (<[b_Hash b := (b, vp)]> V) c) as Hins.
  { intros c. apply linked_insert. intros old vp' Hold. destruct (Hsame old vp' Hold) as (? & ? & _). done. }
  split; [done| | | |].
  - intros a t Hat. destruct (lr_edges _ _ _ Hrep a t Hat) as [? ?].
    rewrite !lookup_insert_is_Some. destruct (decide (b_Hash b = a)), (decide (b_Hash b = t)); auto.
  - intros h c vp' [[<- [= <- <-]]|[_ Hc]]%lookup_insert_Some.
    + split; [apply (ad_ok _ _ Hb)|done].
    + by eapply lr_block.
  - intros h c vp' [[<- [= <- <-]]|[_ Hc]]%lookup_insert_Some; [by apply Hins|].
    apply Hins. by eapply lr_link.
  - intros a t Hat. destruct (lr_edge _ _ _ Hrep a t Hat) as (Ha & c & vp' & Hc & Hprev).
    split; [done|]. destruct (decide (t = b_Hash b)) as [->|Hne].
    + exists b, vp. rewrite lookup_insert_eq. split; [done|].
      destruct (Hsame c vp' Hc) as (_ & _ & <-). done.
    + exists c, vp'. by rewrite lookup_insert_ne.
Qed.

Lemma ledger_same p p' V E :
  graph_rep ledger_store p' V E -> ledger_rep p V E -> ledger_rep p' V E.
Proof. intros Hg []. by split. Qed.

Lemma ledger_AddVertex p V E b :
  ledger_rep p V E -> addable p b -> Block_ComputeHash b = b_Hash b -> linked V b ->
  match g_AddVertex b p with
  | (p', Ok _) => ledger_rep p' (<[b_Hash b := (b, g_properties)]> V) E
  | (p', Err _) => ledger_rep p' V E
  | (_, Panic) => False
  end.
Proof.
  intros Hrep Hb Hhash Hlink. rewrite g_AddVertex_law.
  pose proof (rep_AddVertex ledger_store ledger_store_ok p V E (b_Hash b) b g_properties) as Hadd.
  specialize (Hadd (lr_graph _ _ _ Hrep)).
  specialize (Hadd (hash_id_ok ledger_store _ eq_refl (b_Hash_ok _ (ad_ok _ _ Hb))) (ad_json _ _ Hb)).
  destruct (Store_AddVertex _ _ _ _ p) as [p' [u|e|]]; [|by eapply ledger_same|done].
  by eapply ledger_put_block.
Qed.

Lemma ledger_AddEdge p V E b vp :
  ledger_rep p V E -> V !! b_Hash b = Some (b, vp) -> b_PreviousHash b <> ZeroHash ->
  match g_AddEdge (b_PreviousHash b) (b_Hash b) p with
  | (p', Ok _) => exists x, ledger_rep p' V (<[(b_PreviousHash b, b_Hash b) := x]> E)
  | (p', Err _) => ledger_rep p' V E
  | (_, Panic) => False
  end.
Proof.
  intros Hrep Hb Hne.
  destruct (g_AddEdge_law (b_PreviousHash b) (b_Hash b) p) as [[e ->]|(x & Hx & ->)]; [done|].
  destruct (lr_block _ _ _ Hrep _ _ _ Hb) as ([] & _).
  pose proof (rep_AddEdge ledger_store ledger_store_ok p V E (b_PreviousHash b) (b_Hash b) x
    (lr_graph _ _ _ Hrep)) as Hadd.
  do 2 (specialize (Hadd ltac:(by apply hash_id_ok))).
  destruct (Store_AddEdge _ _ _ x p) as [p' [u|e|]]; [|by eapply ledger_same|done].
  specialize (Hadd Hx). exists (e_Properties x). destruct (Hrep) as [_ He Hbl Hli Hed]. split; [done| |done|done|].
  - intros a t [? [[[= <- <-] _]|[_ Hat]]%lookup_insert_Some]; [|by apply He].
    split; [|eauto]. destruct (Hli _ _ _ Hb) as [[? _]|(parent & vp' & Hp & _)]; [done|eauto].
  - intros a t [? [[[= <- <-] _]|[_ Hat]]%lookup_insert_Some]; [|by apply Hed].
    split; [done|]. by exists b, vp.
Qed.

(** ** [AddBlock] *)
Lemma IsZeroHash_ZeroHash h : Hash_ok h -> IsZeroHash h = bool_decide (h = ZeroHash).
Proof. intros Hh. unfold IsZeroHash. by rewrite Zlen_Hash. Qed.

(** What a call of [AddBlock] may leave behind. *)
Definition AddBlock_post V b (l' : Ledger P) (r : res unit) : Prop :=
  r <> Panic /\ exists V' E', ledger_rep (l_storage l') V' E' /\
    (V' = V \/ V' = <[b_Hash b := (b, g_properties)]> V) /\
    (r = Ok tt -> V' = <[b_Hash b := (b, g_properties)]> V).

Lemma post_same V E b l' e :
  ledger_rep (l_storage l') V E -> AddBlock_post V b l' (Err e).
Proof. intros Hrep. split; [done|]. exists V, E. split; [done|]. split; [by left|done]. Qed.
Lemma post_added V E b l' r :
  r <> Panic -> ledger_rep (l_storage l') (<[b_Hash b := (b, g_properties)]> V) E -> AddBlock_post V b l' r.
Proof. intros Hr Hrep. split; [done|]. exists (<[b_Hash b := (b, g_properties)]> V), E. auto. Qed.

(** The first step of both branches. *)
Lemma on_graph_AddVertex l V E b text :
  ledger_rep (l_storage l) V E -> addable (l_storage l) b -> Block_ComputeHash b = b_Hash b ->
  linked V b ->
  match tolerate ErrVertexAlreadyExists text (on_graph (g_AddVertex b)) l with
  | (l', Ok _) => ledger_rep (l_storage l') (<[b_Hash b := (b, g_properties)]> V) E /\
                  l_state l' = l_state l
  | (l', Err _) => ledger_rep (l_storage l') V E /\ l_state l' = l_state l
  | (_, Panic) => False
  end.
Proof.
  intros Hrep Hb Hhash Hlink. pose proof (ledger_AddVertex _ V E b Hrep Hb Hhash Hlink) as Hadd.
  unfold tolerate, on_graph. pose proof (g_AddVertex_errors b (l_storage l)) as Herr.
  destruct (g_AddVertex b (l_storage l)) as [p' [u|e|]]; [done| |done].
  by rewrite (Herr p' e eq_refl).
Qed.

Lemma add_genesis_block_post l V E b :
  ledger_rep (l_storage l) V E -> addable (l_storage l) b -> Block_ComputeHash b = b_Hash b ->
  linked V b ->
  let '(l', r) := add_genesis_block b l in
  AddBlock_post V b l' r /\
  (l_state l' = if is_ok r then apply_allocations (l_state l) b else l_state l).
Proof.
  intros Hrep Hb Hhash Hlink. unfold add_genesis_block. cbv [mbind io_bind].
  pose proof (on_graph_AddVertex l V E b "failed to add genesis block to graph" Hrep Hb Hhash Hlink) as K1.
  destruct (tolerate _ _ _ l) as [l1 [u|e|]]; [|destruct K1 as [??]; split; [by eapply post_same|done]|done].
  destruct K1 as [Hrep1 Hst]. unfold io_wrap at 1, io_lift.
  rewrite Block_Serialize_encoding by apply (ad_ok _ _ Hb). cbn [wrap].
  unfold io_wrap, on_graph. pose proof (set_key_cases (Hash_Bytes (b_Hash b)) (Block_encoding b) (l_storage l1)) as Hset.
  destruct (set_key _ _ (l_storage l1)) as [p2 [u2|e|]]; cbn [wrap]; [| |done].
  - unfold on_state. cbn. rewrite <- Hst. split; [|done]. eapply post_added; [done|]. cbn.
    eapply ledger_same; [|exact Hrep1].
    eapply rep_other; [apply (ad_vertex _ _ Hb)|apply (ad_edge _ _ Hb)|exact Hset|apply Hrep1].
  - cbn. split; [|done]. eapply post_added; [done|]. cbn.
    eapply ledger_same; [|exact Hrep1]. eapply rep_same; [exact Hset|apply Hrep1].
Qed.

Lemma add_next_block_post l V E b :
  ledger_rep (l_storage l) V E -> addable (l_storage l) b -> Block_ComputeHash b = b_Hash b ->
  linked V b -> b_PreviousHash b <> ZeroHash ->
  let '(l', r) := add_next_block b l in
  AddBlock_post V b l' r /\ l_state l' = applyBlock (l_state l) b.
Proof.
  intros Hrep Hb Hhash Hlink Hne. unfold add_next_block. cbv [mbind io_bind].
  set (l0 := {| l_storage := l_storage l; l_state := applyBlock (l_state l) b |}).
  change (on_state _ l) with (l0, Ok tt : res unit). cbv iota.
  pose proof (on_graph_AddVertex l0 V E b "failed to add vertex to graph" Hrep Hb Hhash Hlink) as K1.
  destruct (tolerate _ _ _ l0) as [l1 [u|e|]]; [|destruct K1 as [??]; split; [by eapply post_same|done]|done].
  destruct K1 as [Hrep1 Hst]. change (l_state l0) with (applyBlock (l_state l) b) in Hst.
  unfold io_wrap, io_read.
  pose proof (g_CreatesCycle_no_panic (l_storage l1) (b_PreviousHash b) (b_Hash b)) as Hnp.
  destruct (g_CreatesCycle _ _ _) as [c|e|]; cbn [wrap]; [|split; [by eapply post_added|done]|done].
  destruct c; cbn [negb ensure io_lift]; unfold io_lift; [split; [by eapply post_added|done]|].
  pose proof (ledger_AddEdge _ _ _ b g_properties Hrep1 (lookup_insert_eq _ _ _) Hne) as K2.
  unfold tolerate, on_graph.
  destruct (g_AddEdge _ _ (l_storage l1)) as [p2 [u2|e|]]; [destruct K2 as [x K2]| |done];
    (split; [eapply post_added; [|exact K2]; by try case_match|done]).
Qed.

(** ** [ValidateBlock] *)
Lemma fold_res_check {A} text (f : A -> res unit) (xs : list A) :
  fold_res (fun _ x => wrap text (f x)) tt xs = Ok tt <-> Forall (fun x => f x = Ok tt) xs.
Proof.
  induction xs as [|x xs IH]; cbn [fold_res]; [by split; [constructor|]|].
  rewrite Forall_cons, <- IH. destruct (f x) as [[]|e|]; cbn; naive_solver.
Qed.

(** The position of a block in the chain, as validation checks it. *)
Definition valid_position l b : Prop :=
  (b_Index b = 0 /\ b_PreviousHash b = ZeroHash) \/
  (0 < b_Index b /\ exists parent, Ledger_GetBlock l (b_PreviousHash b) = Ok parent /\
     b_Index b = u64 (b_Index parent + 1) /\ b_Timestamp parent <= b_Timestamp b).

Lemma unit_bind (m k : res unit) : (m ≫= fun _ => k) = Ok tt <-> m = Ok tt /\ k = Ok tt.
Proof. destruct m as [[]|?|]; cbn; naive_solver. Qed.
Lemma wrap_unit text (m : res unit) : wrap text m = Ok tt <-> m = Ok tt.
Proof. destruct m as [[]|?|]; cbn; naive_solver. Qed.
Lemma parent_check l b text (cond : Block -> bool) e :
  (if 0 <? b_Index b
   then prevBlock ← wrap text (Ledger_GetBlock l (b_PreviousHash b)); ensure (cond prevBlock) e
   else Ok tt) = Ok tt <->
  (0 < b_Index b -> exists parent, Ledger_GetBlock l (b_PreviousHash b) = Ok parent /\ cond parent = true).
Proof.
  destruct (Z.ltb_spec 0 (b_Index b)) as [Hlt|Hge]; [|split; [lia|done]].
  destruct (Ledger_GetBlock l (b_PreviousHash b)) as [parent|?|]; cbn [wrap].
  - rewrite bind_Ok, ensure_Ok. naive_solver.
  - cbn. naive_solver.
  - cbn. naive_solver.
Qed.

Lemma validate_block_Ok drift rules now l b :
  Block_ok b ->
  validate_block drift rules now l b = Ok tt <->
  valid_position l b /\ b_Hash b = Block_ComputeHash b /\ merkle_valid b /\
  b_Timestamp b <= i64 (now + drift) /\
  Forall (fun tx => validateTransaction (l_state l) tx (b_Index b =? 0) = Ok tt) (b_Transactions b) /\
  rules b = Ok tt.
Proof.
  intros Hok. destruct (b_Index_ok _ Hok) as [Hi _].
  unfold validate_block, merkle_valid, HashEqual. cbv zeta.
  destruct (merkle_root_Ok (tx_ID <$> b_Transactions b)) as (root & Hroot & _); [by apply Block_ids_ok|].
  unfold Block_ComputeMerkleRoot. rewrite Hroot. rewrite !unit_bind, bind_Ok, !unit_bind.
  change (getBlock l (b_PreviousHash b)) with (Ledger_GetBlock l (b_PreviousHash b)).
  rewrite !parent_check, fold_res_check, wrap_unit, !ensure_Ok, !bool_decide_eq_true, negb_true_iff,
    andb_false_iff, negb_false_iff, bool_decide_eq_true, negb_true_iff, Z.ltb_ge, Z.eqb_neq.
  setoid_rewrite Z.eqb_eq. setoid_rewrite negb_true_iff. setoid_rewrite Z.ltb_ge.
  unfold valid_position. split.
  - intros (Hp & Hi1 & -> & -> & Ht & Hi2 & Htxs & Hr). split; [|auto].
    destruct (decide (0 < b_Index b)) as [Hpos|Hpos].
    + right. split; [done|]. destruct (Hi1 Hpos) as (q & Hq & ?), (Hi2 Hpos) as (q' & Hq' & ?).
      rewrite Hq in Hq'. injection Hq' as <-. eauto.
    + left. destruct Hp; [lia|]. split; [lia|done].
  - intros (Hpos & -> & [= ->] & Ht & Htxs & Hr).
    destruct Hpos as [[E0 Hz]|(Hpos & q & Hq & ? & ?)].
    + rewrite E0 in *. repeat split; auto; lia.
    + split; [left; lia|]. split; [eauto|]. repeat split; eauto.
Qed.

Lemma validate_block_no_panic drift rules now l V E b :
  ledger_rep (l_storage l) V E -> Block_ok b -> (forall b, no_panic (rules b)) ->
  no_panic (validate_block drift rules now l b).
Proof.
  intros Hrep Hok Hrules.
  assert (no_panic (g_Vertex (l_storage l) (b_PreviousHash b))) as Hget.
  { rewrite (ledger_Vertex _ V E) by (done || by destruct Hok).
    by destruct (V !! _) as [[]|]. }
  assert (no_panic (Block_ComputeMerkleRoot b)) as Hroot.
  { unfold Block_ComputeMerkleRoot.
    by destruct (merkle_root_Ok (tx_ID <$> b_Transactions b)) as (? & -> & _); [apply Block_ids_ok|]. }
  assert (forall txs s g, no_panic (fold_res (fun _ tx => wrap "invalid transaction"
    (validateTransaction s tx g)) tt txs)) as Htxs.
  { induction txs as [|tx txs IH]; intros s g; [done|]. cbn [fold_res].
    apply no_panic_bind; [|intros [] _; apply IH]. unfold validateTransaction. no_panic_tac. }
  unfold validate_block, Ledger_GetBlock, getBlock. cbv zeta. no_panic_tac; auto.
Qed.

(** A block in a valid position is linked to the blocks of the ledger. *)
Lemma valid_position_linked l V E b :
  ledger_rep (l_storage l) V E -> Block_ok b -> valid_position l b -> linked V b.
Proof.
  intros Hrep Hok [[? ?]|(Hpos & parent & Hget & Hi & Ht)]; [by left|right].
  apply wrap_Ok_inv in Hget. rewrite (ledger_Vertex _ V E) in Hget by (done || by destruct Hok).
  destruct (V !! b_PreviousHash b) as [[q vp]|] eqn:Hq; [|done]. injection Hget as ->.
  exists parent, vp. split; [done|]. split; [|done].
  destruct (lr_block _ _ _ Hrep _ _ _ Hq) as ([[? Hlt] _] & _).
  destruct (decide (b_Index parent + 1 = 2 ^ 64)) as [E1|].
  - rewrite E1 in Hi. change (u64 (2 ^ 64)) with 0 in Hi. lia.
  - rewrite u64_small in Hi by (unfold is_u64; lia). done.
Qed.

(** ** Success *)

(** A storage and an encoder that never fail. *)
Definition reliable : Prop :=
  (forall (p : P) k v, is_ok (Provider_Set p k v).2 = true) /\
  (forall b (vp : VP), json_ok (EP := EP) b -> is_ok (combinedVertex_Marshal b vp) = true) /\
  (forall x : EP, is_ok (combinedEdge_Marshal x) = true).

Lemma is_ok_inv {A} (m : res A) : is_ok m = true -> exists a, m = Ok a.
Proof. destruct m; eauto; done. Qed.
Lemma set_key_reliable (p : P) key v :
  reliable -> exists p', set_key key v p = (p', Ok tt).
Proof.
  intros (Hset & _). specialize (Hset p key v). unfold set_key.
  destruct (Provider_Set p key v) as [p' r]. apply is_ok_inv in Hset as [[] Hr]. cbn in Hr. subst r. eauto.
Qed.
Lemma AddVertex_reliable (p : P) b :
  reliable -> json_ok (EP := EP) b -> exists p', g_AddVertex b p = (p', Ok tt).
Proof.
  intros Hrel Hj. rewrite g_AddVertex_law. unfold Store_AddVertex. cbv [mbind io_bind io_wrap io_lift].
  destruct (is_ok_inv _ (proj1 (proj2 Hrel) b g_properties Hj)) as [d ->]. cbn [wrap].
  destruct (set_key_reliable p (vertex_key ledger_store (b_Hash b)) d Hrel) as [p' ->]. eauto.
Qed.
Lemma AddEdge_reliable (p : P) a t (x : Edge EP) :
  reliable -> exists p', Store_AddEdge ledger_store a t x p = (p', Ok tt).
Proof.
  intros Hrel. unfold Store_AddEdge, put_edge. cbv [mbind io_bind io_wrap io_lift].
  destruct (is_ok_inv _ (proj2 (proj2 Hrel) (e_Properties x))) as [d ->]. cbn [wrap].
  destruct (set_key_reliable p (edge_key ledger_store a t) d Hrel) as [p' ->]. eauto.
Qed.

(** A new block can be linked to its predecessor. *)
Lemma new_edge p V E b vp :
  ledger_rep p (<[b_Hash b := (b, vp)]> V) E -> V !! b_Hash b = None ->
  (forall e, is_Some (E !! e) -> is_Some (V !! e.1) /\ is_Some (V !! e.2)) ->
  Block_ok b -> b_PreviousHash b <> ZeroHash -> is_Some (V !! b_PreviousHash b) ->
  g_CreatesCycle p (b_PreviousHash b) (b_Hash b) = Ok false /\
  exists x, g_AddEdge (b_PreviousHash b) (b_Hash b) p =
    Store_AddEdge ledger_store (b_PreviousHash b) (b_Hash b) x p.
Proof.
  intros Hrep Hnew HE Hok Hne [q Hq].
  assert (b_PreviousHash b <> b_Hash b) as Hdiff by congruence.
  assert (forall a, is_Some (E !! (a, b_Hash b)) \/ is_Some (E !! (b_Hash b, a)) -> False) as Hno.
  { intros a [Hx|Hx]; apply HE in Hx as [H1' H2']; cbn in *; rewrite Hnew in *; by destruct H1', H2'. }
  assert (forall a, E !! (b_Hash b, a) = None) as Hout.
  { intros a. apply eq_None_not_Some. intros ?. eapply Hno. eauto. }
  assert (is_Some (<[b_Hash b := (b, vp)]> V !! b_PreviousHash b)) as Hprev
    by (rewrite lookup_insert_ne by congruence; eauto).
  assert (is_Some (<[b_Hash b := (b, vp)]> V !! b_Hash b)) as Hself by (rewrite lookup_insert_eq; eauto).
  split; [eapply g_CreatesCycle_law; try done; apply Hrep|].
  edestruct g_AddEdge_new_law as (x & _ & Hx); [..|by exists x].
  - destruct Hprev as [[c ?] Hc]. by rewrite (ledger_Vertex _ _ _ _ Hrep), Hc by apply (b_PreviousHash_ok _ Hok).
  - destruct Hself as [[c ?] Hc]. by rewrite (ledger_Vertex _ _ _ _ Hrep), Hc by apply (b_Hash_ok _ Hok).
  - rewrite (rep_Edge ledger_store p _ E _ _ (lr_graph _ _ _ Hrep));
      [|apply hash_id_ok; [done|apply Hok]..].
    destruct (E !! (b_PreviousHash b, b_Hash b)) eqn:Hx; [exfalso; eapply Hno; eauto|done].
Qed.

Lemma AddBlock_succeeds l V E b :
  reliable -> ledger_rep (l_storage l) V E -> addable (l_storage l) b ->
  Block_ComputeHash b = b_Hash b -> linked V b -> V !! b_Hash b = None ->
  (Ledger_AddBlock b l).2 = Ok tt.
Proof.
  intros Hrel Hrep Hb Hhash Hlink Hnew. unfold Ledger_AddBlock.
  rewrite IsZeroHash_ZeroHash by apply (ad_ok _ _ Hb). case_bool_decide as Hz.
  - unfold add_genesis_block. cbv [mbind io_bind]. unfold tolerate, on_graph at 1.
    destruct (AddVertex_reliable (l_storage l) b Hrel (ad_json _ _ Hb)) as [p1 ->].
    unfold io_wrap at 1, io_lift. rewrite Block_Serialize_encoding by apply (ad_ok _ _ Hb). cbn [wrap].
    unfold io_wrap, on_graph.
    destruct (set_key_reliable p1 (Hash_Bytes (b_Hash b)) (Block_encoding b) Hrel) as [p2 E2].
    cbn [l_storage]. by rewrite E2.
  - unfold add_next_block. cbv [mbind io_bind].
    set (l0 := {| l_storage := l_storage l; l_state := applyBlock (l_state l) b |}).
    change (on_state _ l) with (l0, Ok tt : res unit). cbv iota.
    pose proof (on_graph_AddVertex l0 V E b "failed to add vertex to graph" Hrep Hb Hhash Hlink) as K1.
    unfold tolerate at 1, on_graph at 1. unfold tolerate, on_graph in K1.
    change (l_storage l0) with (l_storage l) in *.
    destruct (AddVertex_reliable (l_storage l) b Hrel (ad_json _ _ Hb)) as [p1 E1].
    rewrite E1 in *. destruct K1 as [Hrep1 _]. cbn [l_storage] in Hrep1.
    destruct Hlink as [[? _]|(q & vq & Hq & _)]; [done|].
    destruct (new_edge p1 V E b _ Hrep1 Hnew) as (Hc & x & Hx);
      [intros [a t] He; by apply (lr_edges _ _ _ Hrep)|apply (ad_ok _ _ Hb)|done|eauto|].
    unfold io_wrap, io_read. cbn [l_storage]. rewrite Hc. cbn [wrap negb ensure].
    unfold io_lift, tolerate, on_graph. cbn [l_storage]. rewrite Hx.
    destruct (AddEdge_reliable p1 (b_PreviousHash b) (b_Hash b) x Hrel) as [p2 ->]. done.
Qed.
End blocks.

(** * Concrete runs *)
Definition account_a : Address := replicate 20 (byte_of_Z 1).
Definition account_b : Address := replicate 20 (byte_of_Z 2).
Definition rich_state : State := UpdateBalance NewState account_a 1000.
Definition pay (amount fee : Z) : Transaction :=
  {| tx_ID := ZeroHash; tx_Sender := account_a; tx_Recipient := account_b; tx_Amount := amount;
     tx_Fee := fee; tx_Nonce := 1; tx_Timestamp := 0; tx_Signature := [];
     tx_SignatureType := BlsSignerType; tx_Payload := [] |}.
Definition block_of (txs : list Transaction) : Block :=
  {| b_Index := 1; b_Timestamp := 0; b_PreviousHash := ZeroHash; b_Hash := ZeroHash;
     b_MerkleRoot := ZeroHash; b_Signature := []; b_SignatureType := BlsSignerType;
     b_ValidatorID := account_b; b_Transactions := txs; b_Difficulty := 1; b_Version := 1;
     b_FinalizedBy := [] |}.

Lemma rich_state_ok : state_ok rich_state /\ nonces_ok rich_state /\ supply rich_state = 1000.
Proof.
  destruct (UpdateBalance_exact NewState account_a 1000) as (Hok & Hs & _).
  - split; [done|]. unfold supply. cbn. by rewrite total_empty.
  - unfold is_i64. lia.
  - apply Z.leb_le. vm_compute. reflexivity.
  - unfold supply. cbn [NewState st_balances]. rewrite total_empty. lia.
  - split; [done|]. split; [|unfold rich_state; rewrite Hs; unfold supply; cbn; by rewrite total_empty].
    intros x. unfold GetNonce. cbn. rewrite lookup_empty. cbn. unfold is_u64. lia.
Qed.

Lemma applyBlock_conserves_witness :
  supply (applyBlock rich_state (block_of [pay 300 5; pay 600 5])) = 1000 /\
  GetBalance (applyBlock rich_state (block_of [pay 300 5; pay 600 5])) account_b = 910.
Proof.
  destruct (applyBlock_conserves rich_state (block_of [pay 300 5; pay 600 5])) as [Hs Hb].
  - apply rich_state_ok.
  - apply rich_state_ok.
  - repeat apply Forall_cons_2; try apply Forall_nil_2; cbn; lia.
  - split; [apply Z.leb_le; vm_compute; reflexivity|].
    split; [apply Z.leb_le; vm_compute; reflexivity|exact I].
  - split; [rewrite Hs; apply rich_state_ok|]. destruct (Hb account_b) as [-> _].
    vm_compute. reflexivity.
Defined.

Lemma double_spend_in_block_witness :
  Forall (fun tx => validateTransaction rich_state tx false = Ok tt) [pay 1000 0; pay 1000 0] /\
  GetBalance (applyBlock rich_state (block_of [pay 1000 0; pay 1000 0])) account_b = 0 + 2 * 1000.
Proof.
  destruct rich_state_ok as (H1 & H2 & H3).
  destruct (double_spend_in_block rich_state (block_of [pay 1000 0; pay 1000 0]) (pay 1000 0) (pay 1000 0)
    account_a account_b 1000 H1 H2) as (Hv & _ & Hb & _);
    [vm_compute; reflexivity|vm_compute; reflexivity|lia|rewrite H3; lia
    |apply (bool_decide_unpack _); vm_compute; exact I
    |apply (bool_decide_unpack _); vm_compute; exact I|reflexivity| |].
  - repeat apply Forall_cons_2; try apply Forall_nil_2; (split; [reflexivity|]);
      (split; [reflexivity|]); (split; [reflexivity|]); (split; [reflexivity|]);
      vm_compute; reflexivity.
  - split; [exact Hv|exact Hb].
Defined.

(** The wrap-around on numbers: ten units are taken from the recipient. *)
Lemma overflow_example :
  let s := UpdateBalance rich_state account_b 500 in
  let tx := {| tx_ID := ZeroHash; tx_Sender := account_a; tx_Recipient := account_b;
               tx_Amount := 2 ^ 64 - 10; tx_Fee := 15; tx_Nonce := 1; tx_Timestamp := 0;
               tx_Signature := []; tx_SignatureType := BlsSignerType; tx_Payload := [] |} in
  validateTransaction s tx false = Ok tt /\
  GetBalance (apply_tx ZeroAddress s tx) account_b = 490.
Proof. vm_compute. by split. Qed.
