(* ===== verification/MemGraph.v ===== *)
(** A graph library for concrete runs: the parameters of [Ledger] instantiated
    on a finite map.  The operations follow the documentation of the library on
    top of the store of [GraphStore]; the encoding of blocks plays the part of
    JSON. *)
From S2P Require Import Prelude Bytes Hashes Types Signatures Transactions Blocks Storage GraphStore Ledger.

(** * Blocks as values of the store *)
Definition with_SignatureType (b : Block) (ty : SignerType) : Block :=
  {| b_Index := b_Index b; b_Timestamp := b_Timestamp b; b_PreviousHash := b_PreviousHash b;
     b_Hash := b_Hash b; b_MerkleRoot := b_MerkleRoot b; b_Signature := b_Signature b;
     b_SignatureType := ty; b_ValidatorID := b_ValidatorID b;
     b_Transactions := b_Transactions b; b_Difficulty := b_Difficulty b;
     b_Version := b_Version b; b_FinalizedBy := b_FinalizedBy b |}.

(** Unlike the binary encoding, JSON keeps the empty signature type of a block
    that nobody signed: a first byte tells. *)
Definition is_unsigned (b : Block) : bool := bool_decide (b_SignatureType b = ""%string).
#[export] Instance block_json : StoreJson Block unit unit := {
  combinedVertex_Marshal b _ :=
    match Block_Serialize b with
    | Ok d => Ok (byte_of_Z (if is_unsigned b then 0 else 1) :: d)
    | _ => Err (ErrMsg "unsupported value")
    end;
  combinedVertex_Unmarshal d :=
    match d with
    | [] => Err (ErrMsg "unexpected end of JSON input")
    | flag :: d =>
        b ← DeserializeBlock d;
        Ok (if Z_of_byte flag =? 0 then with_SignatureType b "" else b, tt)
    end;
  combinedEdge_Marshal _ := Ok (str "{}");
  combinedEdge_Unmarshal _ := Ok tt;
}.
#[export] Program Instance block_json_laws : StoreJsonLaws Block unit unit :=
  {| json_ok b := Block_ok b /\
       (Block_normalize b = b \/
        b_SignatureType b = ""%string /\ with_SignatureType (Block_normalize b) "" = b) |}.
Next Obligation.
  intros b [] d [Hok Hn]. cbn. rewrite Block_Serialize_encoding by done. intros [= <-].
  unfold DeserializeBlock. rewrite <- (app_nil_r (Block_encoding b)).
  erewrite reads_run; [|by apply DeserializeBlock_reads|done]. rewrite bind_Ok.
  unfold is_unsigned. case_bool_decide as Hty; cbn.
  - destruct Hn as [Hn|[_ Hn]]; [|by rewrite Hn]. apply (f_equal b_SignatureType) in Hn.
    cbn in Hn. by rewrite Hty in Hn.
  - destruct Hn as [Hn|[? _]]; [by rewrite Hn|done].
Qed.
Next Obligation. intros b []. cbn. by destruct (Block_Serialize b). Qed.
Next Obligation. done. Qed.

(** * The library *)
Definition mem_Vertex (p : MemDb) (h : Hash) : res Block :=
  fst <$> Store_Vertex (T := Block) (VP := unit) ledger_store p h.
Definition mem_AddVertex (b : Block) : io MemDb unit :=
  Store_AddVertex ledger_store (b_Hash b) b tt.

Definition mem_edge (a t : Hash) : Edge unit := {| e_Source := a; e_Target := t; e_Properties := tt |}.
Definition mem_AddEdge (a t : Hash) : io MemDb unit := fun p =>
  match mem_Vertex p a, mem_Vertex p t with
  | Ok _, Ok _ =>
      match Store_Edge (EP := unit) ledger_store p a t with
      | Err e => if bool_decide (e = ErrEdgeNotFound)
                 then Store_AddEdge ledger_store a t (mem_edge a t) p else (p, Err e)
      | _ => (p, Err ErrEdgeAlreadyExists)
      end
  | _, _ => (p, Err ErrVertexNotFound)
  end.

Definition outgoing (es : list (Edge unit)) (h : Hash) : gmap Hash (Edge unit) :=
  list_to_map ((fun e => (e_Target e, e)) <$> filter (fun e => e_Source e = h) es).
Definition mem_AdjacencyMap (p : MemDb) : res (gmap Hash (gmap Hash (Edge unit))) :=
  vs ← Store_ListVertices (S (size p)) ledger_store p;
  es ← Store_ListEdges (EP := unit) (S (size p)) ledger_store p;
  Ok (list_to_map ((fun h => (h, outgoing es h)) <$> vs)).

Fixpoint reaches (fuel : nat) (m : gmap Hash (gmap Hash (Edge unit))) (goal x : Hash) : bool :=
  match fuel with
  | O => false
  | S fuel => bool_decide (x = goal) ||
      match m !! x with
      | Some edges => existsb (reaches fuel m goal) (map_to_list edges).*1
      | None => false
      end
  end.
Definition mem_CreatesCycle (p : MemDb) (a t : Hash) : res bool :=
  match mem_AdjacencyMap p with
  | Ok m => Ok (bool_decide (a = t) || reaches (S (size p)) m a t)
  | _ => Err (ErrMsg "failed to get adjacency map")
  end.

#[export] Instance mem_graph : GraphLib MemDb unit := {
  g_AddVertex := mem_AddVertex;
  g_AddEdge := mem_AddEdge;
  g_Vertex := mem_Vertex;
  g_AdjacencyMap := mem_AdjacencyMap;
  g_CreatesCycle := mem_CreatesCycle;
}.

(** * The laws *)
Lemma list_to_map_image {A B} `{Countable A} (f : A -> B) (l : list A) a :
  NoDup l ->
  (list_to_map ((fun x => (x, f x)) <$> l) : gmap A B) !! a =
    if decide (a ∈ l) then Some (f a) else None.
Proof.
  intros Hnd.
  assert (((fun x => (x, f x)) <$> l).*1 = l) as E.
  { clear. induction l as [|x l IH]; cbn; [done|]. f_equal. exact IH. }
  case_decide as Hin.
  - apply elem_of_list_to_map_1; [by rewrite E|]. by apply (list_elem_of_fmap_2 (fun x => (x, f x))).
  - apply not_elem_of_list_to_map_1. by rewrite E.
Qed.

Lemma outgoing_lookup (E : gmap (bytes * bytes) unit) es a t :
  NoDup ((fun e => (e_Source e, e_Target e)) <$> es) ->
  (forall e, e ∈ es <-> E !! (e_Source e, e_Target e) = Some (e_Properties e)) ->
  outgoing es a !! t = edge_of E (a, t).
Proof.
  intros Hnd Hes. unfold outgoing.
  assert (NoDup ((fun e => (e_Target e, e)) <$> filter (fun e => e_Source e = a) es).*1) as Hnd'.
  { rewrite <- list_fmap_compose. unfold compose. cbn. clear Hes.
    induction es as [|e es IH]; [constructor|]. apply NoDup_cons in Hnd as [Hnin Hnd].
    rewrite filter_cons. case_decide as He; [|by apply IH]. cbn. constructor; [|by apply IH].
    intros (e' & Heq & [He' Hin]%list_elem_of_filter)%list_elem_of_fmap. apply Hnin.
    apply list_elem_of_fmap. exists e'. split; [congruence|done]. }
  destruct (edge_of E (a, t)) as [e|] eqn:He; unfold edge_of in He; cbn in He.
  - apply fmap_Some in He as (x & Hx & ->). apply elem_of_list_to_map_1; [done|].
    apply list_elem_of_fmap. exists {| e_Source := a; e_Target := t; e_Properties := x |}.
    split; [done|]. apply list_elem_of_filter. split; [done|]. by apply Hes.
  - destruct (E !! (a, t)) eqn:Hx; [done|]. apply not_elem_of_list_to_map_1.
    rewrite <- list_fmap_compose. intros (e & -> & [Ha Hin]%list_elem_of_filter)%list_elem_of_fmap.
    cbn in *. apply Hes in Hin. subst a. congruence.
Qed.

Lemma mem_AdjacencyMap_spec (p : MemDb) (V : gmap bytes (Block * unit)) (E : gmap (bytes * bytes) unit) :
  graph_rep ledger_store p V E ->
  exists m, mem_AdjacencyMap p = Ok m /\ (forall a, is_Some (m !! a) <-> is_Some (V !! a)) /\
    forall a edges t, m !! a = Some edges -> edges !! t = edge_of E (a, t).
Proof.
  intros Hrep. unfold mem_AdjacencyMap.
  destruct (rep_ListVertices ledger_store ledger_store_ok (S (size p)) p V E Hrep) as (vs & -> & Hnd & Hvs);
    [cbn; unfold id; lia|].
  destruct (rep_ListEdges ledger_store ledger_store_ok (S (size p)) p V E Hrep) as (es & -> & Hnd' & Hes);
    [cbn; unfold id; lia|].
  rewrite !bind_Ok. eexists. split; [done|]. split.
  - intros a. rewrite list_to_map_image, <- Hvs by done. case_decide; split; try done; try (by intros []); eauto.
  - intros a edges t. rewrite list_to_map_image by done. case_decide; [|done]. intros [= <-].
    by apply outgoing_lookup.
Qed.

Lemma mem_CreatesCycle_spec (p : MemDb) (V : gmap bytes (Block * unit)) (E : gmap (bytes * bytes) unit) a t :
  graph_rep ledger_store p V E -> a <> t -> (forall u, E !! (t, u) = None) ->
  mem_CreatesCycle p a t = Ok false.
Proof.
  intros Hrep Hne Hleaf. unfold mem_CreatesCycle.
  destruct (mem_AdjacencyMap_spec p V E Hrep) as (m & -> & _ & Hm).
  rewrite bool_decide_eq_false_2 by done. cbn [orb reaches]. rewrite bool_decide_eq_false_2 by done.
  destruct (m !! t) as [edges|] eqn:Ht; [|done].
  assert (edges = ∅) as ->; [|done]. apply map_empty. intros u. rewrite (Hm t edges u Ht).
  unfold edge_of. cbn. by rewrite Hleaf.
Qed.

Lemma mem_AddVertex_errors b p p' e :
  mem_AddVertex b p = (p', Err e) -> errors_is e ErrVertexAlreadyExists = false.
Proof.
  unfold mem_AddVertex, Store_AddVertex. cbv [mbind io_bind io_wrap io_lift].
  cbn [combinedVertex_Marshal block_json]. destruct (Block_Serialize b) as [d|e'|]; cbn [wrap];
    [done|by intros [= <- <-]..].
Qed.

Lemma mem_AddEdge_cases a t p :
  (exists e, mem_AddEdge a t p = (p, Err e)) \/
  exists x, edge_json_ok (T := Block) (VP := unit) (e_Properties x) /\
    mem_AddEdge a t p = Store_AddEdge ledger_store a t x p.
Proof.
  unfold mem_AddEdge. destruct (mem_Vertex p a), (mem_Vertex p t); eauto.
  destruct (Store_Edge _ _ _ _) as [|e|]; eauto. case_bool_decide; [|eauto].
  right. exists (mem_edge a t). split; [by intros d [= <-]|done].
Qed.

#[export] Instance mem_graph_laws : GraphLibLaws MemDb unit unit.
Proof.
  unshelve refine {| g_properties := tt |}; cbn.
  - done.
  - apply mem_AddVertex_errors.
  - done.
  - apply mem_AddEdge_cases.
  - intros a t p Ha Ht Hno. exists (mem_edge a t). unfold mem_AddEdge.
    destruct (is_ok_inv _ Ha) as [? ->], (is_ok_inv _ Ht) as [? ->]. rewrite Hno.
    rewrite bool_decide_eq_true_2 by done. split; [by intros d [= <-]|done].
  - intros p V E Hrep _. by apply mem_AdjacencyMap_spec.
  - intros p a t. unfold mem_CreatesCycle. by destruct (mem_AdjacencyMap p).
  - intros p V E a t Hrep _ _ _. by apply mem_CreatesCycle_spec with V.
Defined.
