(* ===== verification/Genesis.v ===== *)
(** [pkg/genesis]: the configuration of the first block and the block made from
    it.  [LoadGenesis] is in [PeerNode.v]; the loops over
    the map of allocations take its order as an argument. *)
From S2P Require Import Prelude Bytes Hashes Types Signatures Transactions Blocks Ledger.
Import Sha256.

Record Config := { cfg_ChainID : Z }.
Record AllocItem := { al_Balance : bytes }.
Record Genesis := {
  gen_Config : Config;
  gen_Alloc : gmap bytes AllocItem;
  gen_Difficulty : Z;
  gen_Timestamp : Z;
  gen_ExtraData : bytes;
}.

(** The loop of [Validate], over the entries in the order met. *)
Fixpoint validate_alloc (alloc : gmap bytes AllocItem) (ord : list bytes) : res unit :=
  match ord with
  | [] => Ok tt
  | addr :: ord =>
      match alloc !! addr with
      | Some item =>
          _ ← ensure (negb (bool_decide (addr = []))) (ErrMsg "allocation address cannot be empty");
          _ ← ensure (negb (bool_decide (al_Balance item = [])))
            (ErrMsg "balance for address %s cannot be empty");
          validate_alloc alloc ord
      | None => validate_alloc alloc ord
      end
  end.
Definition Genesis_Validate (ord : list bytes) (g : Genesis) : res unit :=
  _ ← ensure (negb (cfg_ChainID (gen_Config g) =? 0))
    (ErrMsg "chainId must be greater than zero");
  _ ← ensure (negb (gen_Difficulty g =? 0)) (ErrMsg "difficulty must be greater than zero");
  _ ← ensure (negb (gen_Timestamp g =? 0)) (ErrMsg "timestamp must be set");
  _ ← ensure (negb (size (gen_Alloc g) =? 0)%nat) (ErrMsg "alloc must have at least one account");
  validate_alloc (gen_Alloc g) ord.

(** [new(big.Int).SetString(s, 10)]: an optional sign and decimal digits, at
    least one. *)
Fixpoint decimal_digits (acc : Z) (s : bytes) : option Z :=
  match s with
  | [] => Some acc
  | c :: s =>
      let d := Z_of_byte c - 48 in
      if (0 <=? d) && (d <? 10) then decimal_digits (10 * acc + d) s else None
  end.
Definition decimal_number (s : bytes) : option Z :=
  match s with [] => None | _ => decimal_digits 0 s end.
Definition SetString10 (s : bytes) : option Z :=
  match s with
  | c :: s' =>
      if Z_of_byte c =? 45 then Z.opp <$> decimal_number s'
      else if Z_of_byte c =? 43 then decimal_number s'
      else decimal_number s
  | [] => None
  end.
(** [Uint64] of a [big.Int]: the low 64 bits of the absolute value. *)
Definition big_Uint64 (x : Z) : Z := u64 (Z.abs x).

Definition genesis_transaction (mAddr : Address) (g : Genesis) (addrStr : bytes) (item : AllocItem)
    : res Transaction :=
  address ← wrap "invalid address %s" (FromHex addrStr);
  match SetString10 (al_Balance item) with
  | None => Err (ErrMsg "invalid balance format for address %s: %s")
  | Some balance =>
      Ok {| tx_ID := Sum256 (str "alloc-" ++ addrStr); tx_Sender := mAddr; tx_Recipient := address;
            tx_Amount := big_Uint64 balance; tx_Fee := 0; tx_Nonce := 0;
            tx_Timestamp := gen_Timestamp g; tx_Payload := str "Initial allocation";
            tx_Signature := []; tx_SignatureType := BlsSignerType |}
  end.

Fixpoint genesis_transactions (mAddr : Address) (g : Genesis) (ord : list bytes)
    : res (list Transaction) :=
  match ord with
  | [] => Ok []
  | addrStr :: ord =>
      match gen_Alloc g !! addrStr with
      | Some item =>
          tx ← genesis_transaction mAddr g addrStr item;
          txs ← genesis_transactions mAddr g ord;
          Ok (tx :: txs)
      | None => genesis_transactions mAddr g ord
      end
  end.
Definition CreateGenesisBlock (now : Z) (ord : list bytes) (mAddr : Address) (g : Genesis)
    : res Block :=
  genesisTransactions ← genesis_transactions mAddr g ord;
  wrap "failed to create genesis block"
    (NewBlock now 0 ZeroHash genesisTransactions mAddr (gen_Difficulty g)).

(** * What the genesis block allocates *)

(** The address and the amount that an entry of the configuration stands for. *)
Definition allocation (g : Genesis) (addrStr : bytes) : option (Address * Z) :=
  item ← gen_Alloc g !! addrStr;
  balance ← SetString10 (al_Balance item);
  match FromHex addrStr with
  | Ok a => Some (a, big_Uint64 balance)
  | _ => None
  end.

(** Balances after crediting amounts that fit. *)
Lemma apply_allocations_spec txs s :
  state_ok s -> Forall (fun tx => 0 <= tx_Amount tx) txs -> supply s + sum tx_Amount txs < 2 ^ 63 ->
  let s' := fold_left (fun s tx => UpdateBalance s (tx_Recipient tx) (i64 (tx_Amount tx))) txs s in
  state_ok s' /\ supply s' = supply s + sum tx_Amount txs /\
  forall x, GetBalance s' x = GetBalance s x +
    sum (fun tx => if bool_decide (tx_Recipient tx = x) then tx_Amount tx else 0) txs.
Proof.
  revert s. induction txs as [|tx txs IH]; intros s Hs.
  { cbn. intros _ _. split; [done|]. split; [lia|]. intros x. lia. }
  intros [Ha Htxs]%Forall_cons. unfold sum. cbn [fold_right fold_left]. fold (sum tx_Amount txs).
  intros Hsum.
  assert (0 <= sum tx_Amount txs) as Hpos.
  { clear -Htxs. induction Htxs as [|tx0 txs0 H0]; cbn in *; [done|]. unfold sum in *. lia. }
  pose proof (balance_bound s (tx_Recipient tx) Hs) as Hb.
  assert (is_i64 (tx_Amount tx)) as Hi by (unfold is_i64; lia).
  rewrite i64_small by done.
  destruct (UpdateBalance_exact s (tx_Recipient tx) (tx_Amount tx)) as (H1 & E1 & _ & B1);
    [done|done|lia|lia|].
  destruct (IH _ H1 Htxs) as (H2 & E2 & B2); [lia|].
  split; [done|]. split; [lia|]. intros x. rewrite B2, B1. unfold sum. lia.
Qed.

Lemma genesis_transaction_Ok mAddr g addrStr item :
  gen_Alloc g !! addrStr = Some item ->
  match genesis_transaction mAddr g addrStr item with
  | Ok tx => allocation g addrStr = Some (tx_Recipient tx, tx_Amount tx) /\
             tx_Sender tx = mAddr /\ (Address_ok mAddr -> is_i64 (gen_Timestamp g) -> Transaction_ok tx)
  | Err _ => allocation g addrStr = None
  | Panic => False
  end.
Proof.
  intros Hitem. unfold genesis_transaction, allocation. rewrite Hitem.
  pose proof (FromHex_spec addrStr) as [Hnp Hhex].
  destruct (FromHex addrStr) as [a|e|] eqn:Ha; cbn; [|by destruct (SetString10 _)|done].
  destruct (SetString10 (al_Balance item)) as [z|]; cbn; [|done].
  split; [done|]. split; [done|]. intros. split; cbn; try done;
    first [apply Sum256_ok|apply u64_range|by apply Hhex].
Qed.

Lemma genesis_transactions_Ok mAddr g ord :
  (forall a, a ∈ ord -> is_Some (gen_Alloc g !! a)) ->
  match genesis_transactions mAddr g ord with
  | Ok txs => (fun tx => (tx_Recipient tx, tx_Amount tx)) <$> txs = omap (allocation g) ord /\
              Forall (fun a => is_Some (allocation g a)) ord /\
              (Address_ok mAddr -> is_i64 (gen_Timestamp g) -> Forall Transaction_ok txs)
  | Err _ => exists a, a ∈ ord /\ allocation g a = None
  | Panic => False
  end.
Proof.
  induction ord as [|a ord IH]; intros Hord; cbn [genesis_transactions]; [by repeat split|].
  destruct (Hord a) as [item Hitem]; [left|]. rewrite Hitem.
  pose proof (genesis_transaction_Ok mAddr g a item Hitem) as Hone.
  destruct (genesis_transaction mAddr g a item) as [tx|e|]; cbn; [|exists a; split; [left|done]|done].
  specialize (IH ltac:(intros; apply Hord; by right)).
  destruct (genesis_transactions mAddr g ord) as [txs|e|]; cbn; [| |done].
  - destruct Hone as (Hone & _ & Hok), IH as (E & Hall & IH). rewrite Hone. cbn.
    split; [by f_equal|]. split; [constructor; eauto|]. intros. constructor; auto.
  - destruct IH as (b & ? & ?). exists b. split; [by right|done].
Qed.

(** The genesis block.  When every entry of the configuration is an address
    with a decimal balance, the block is created: it is well formed, has index
    0, no predecessor, the time of its creation, its own hash and Merkle root,
    and if the amounts fit in an int64 together, applying it to an empty ledger
    gives every account the sum of its entries.  Otherwise there is an error;
    nothing makes it panic. *)
Theorem CreateGenesisBlock_spec (now : Z) (ord : list bytes) (mAddr : Address) (g : Genesis) :
  is_order (gen_Alloc g) ord -> is_i64 now -> Address_ok mAddr -> is_i64 (gen_Timestamp g) ->
  is_u64 (gen_Difficulty g) -> Z.of_nat (size (gen_Alloc g)) < 2 ^ 32 ->
  match CreateGenesisBlock now ord mAddr g with
  | Ok b =>
      Block_ok b /\ b_Index b = 0 /\ b_PreviousHash b = ZeroHash /\ b_Timestamp b = now /\
      b_Hash b = Block_ComputeHash b /\ merkle_valid b /\
      (sum snd (omap (allocation g) ord) < 2 ^ 63 ->
       forall x, GetBalance (apply_allocations NewState b) x =
         sum (fun e => if bool_decide (e.1 = x) then e.2 else 0) (omap (allocation g) ord))
  | Err _ => ord = [] \/ exists a, a ∈ ord /\ allocation g a = None
  | Panic => False
  end.
Proof.
  intros Hord Hnow Hm Hts Hdiff Hsize. unfold CreateGenesisBlock.
  pose proof (genesis_transactions_Ok mAddr g ord) as Htxs.
  specialize (Htxs ltac:(intros a Ha; by apply (is_order_elem _ _ _ Hord))).
  destruct (genesis_transactions mAddr g ord) as [txs|e|]; cbn; [|by right|done].
  destruct Htxs as (Hmap & Hall & Hok). specialize (Hok Hm Hts).
  assert (length txs = length ord) as Hlen.
  { apply (f_equal length) in Hmap. rewrite length_fmap in Hmap. rewrite Hmap. clear -Hall.
    induction Hall as [|a ord [x Hx] _ IH]; [done|]. cbn. rewrite Hx. cbn. by rewrite IH. }
  pose proof (NewBlock_ok now 0 ZeroHash txs mAddr (gen_Difficulty g)) as Hnew.
  specialize (Hnew Hnow ltac:(done) ZeroHash_ok Hok).
  specialize (Hnew ltac:(unfold Zlen; rewrite Hlen, (is_order_length _ _ Hord); lia) Hm Hdiff).
  destruct (NewBlock _ _ _ _ _ _) as [b|e|]; cbn; [|left|done].
  - destruct Hnew as (_ & Hb & Hmr & Hh & Hi & Hp & Htx & _ & Ht & _).
    do 6 (split; [done|]). intros Hsum x. unfold apply_allocations. rewrite Htx.
    destruct (apply_allocations_spec txs NewState) as (_ & _ & B).
    + split; [done|]. unfold supply. cbn. by rewrite total_empty.
    + eapply Forall_impl; [exact Hok|]. intros tx []. unfold is_u64 in *. lia.
    + unfold supply. cbn [NewState st_balances]. rewrite total_empty.
      rewrite <- Hmap, sum_fmap in Hsum. exact Hsum.
    + rewrite B, <- Hmap, sum_fmap. done.
  - subst txs. by destruct ord.
Qed.

Definition genesis_example : Genesis := {|
  gen_Config := {| cfg_ChainID := 1 |};
  gen_Alloc := {[ str "0x0101010101010101010101010101010101010101" := {| al_Balance := str "1000" |};
                  str "0202020202020202020202020202020202020202" := {| al_Balance := str "+25" |} ]};
  gen_Difficulty := 1; gen_Timestamp := 1700000000; gen_ExtraData := [] |}.
Definition genesis_order : list bytes := (map_to_list (gen_Alloc genesis_example)).*1.
Lemma CreateGenesisBlock_spec_witness :
  exists b, CreateGenesisBlock 1700000100 genesis_order ZeroAddress genesis_example = Ok b /\
    GetBalance (apply_allocations NewState b) (replicate 20 (byte_of_Z 1)) = 1000.
Proof.
  pose proof (CreateGenesisBlock_spec 1700000100 genesis_order ZeroAddress genesis_example
    (is_order_exists _) ltac:(done) ZeroAddress_ok ltac:(done) ltac:(done) ltac:(vm_compute; reflexivity))
    as H.
  destruct (CreateGenesisBlock 1700000100 genesis_order ZeroAddress genesis_example) as [b|e|] eqn:E.
  - exists b. split; [reflexivity|]. destruct H as (_ & _ & _ & _ & _ & _ & H).
    rewrite H by (vm_compute; reflexivity). vm_compute. reflexivity.
  - apply (f_equal is_ok) in E. vm_compute in E. discriminate E.
  - destruct H.
Defined.

Example Genesis_Validate_example : Genesis_Validate genesis_order genesis_example = Ok tt.
Proof. vm_compute. reflexivity. Qed.

(** An allocation of 2^63 or more is accepted, and leaves its account empty. *)
Lemma big_allocation_lost (a : Address) (amount : Z) :
  2 ^ 63 < amount < 2 ^ 64 -> GetBalance (UpdateBalance NewState a (i64 amount)) a = 0.
Proof.
  intros Hamt.
  assert (i64 amount = amount - 2 ^ 64) as ->.
  { unfold i64, signed. rewrite Z.mod_small by lia. cbv zeta.
    by destruct (Z.ltb_spec amount (2 ^ (64 - 1))); [lia|]. }
  destruct (UpdateBalance_clamped NewState a (amount - 2 ^ 64)) as (_ & _ & B).
  - split; [done|]. unfold supply. cbn. by rewrite total_empty.
  - unfold is_i64. lia.
  - unfold GetBalance, NewState. cbn [st_balances]. rewrite lookup_empty. cbn [default from_option]. lia.
  - by rewrite B, bool_decide_eq_true_2.
Qed.
