(* ===== verification/Chain.v ===== *)
(** [pkg/chain]: the blockchain on top of the ledger: validation of blocks,
    the head, and the search for the genesis block at start.  Methods run under
    the lock [bc.mu], so each is one step. *)
From S2P Require Import Prelude Bytes Hashes Types Signatures Transactions Blocks Storage.
From S2P Require Import GraphStore Ledger MemGraph Genesis.
Import Sha256.

(** * constants.go *)
Definition MaxTimeDrift : Z := 5 * 60.

(** * chain.go *)
Record Blockchain (P : Type) := {
  bc_ledger : Ledger P;
  bc_head : option Block;
  bc_genesisBlock : option Block;
}.
Arguments bc_ledger {P}. Arguments bc_head {P}. Arguments bc_genesisBlock {P}.

Section Blockchain.
Context {P EP : Type} `{!Provider P, !GraphLib P EP}.
Implicit Types (l : Ledger P) (bc : Blockchain P).

(** The loop of [setup] back to the beginning of the chain. *)
Fixpoint traverse (fuel : nat) l (currentBlock : Block) : res Block :=
  match fuel with
  | O => Panic
  | S fuel =>
      if bool_decide (b_PreviousHash currentBlock = ZeroHash) then Ok currentBlock
      else
        currentBlock ← wrap "failed to traverse to genesis block"
          (Ledger_GetBlock l (b_PreviousHash currentBlock));
        traverse fuel l currentBlock
  end.

(** [latest] is what [GetLatestBlock] returned; nil is [None]. *)
Definition setup (fuel : nat) (now : Z) (gord : list bytes) (genesisConfig : Genesis)
    (latest : res (option Block)) : io (Ledger P) (Blockchain P) :=
  latestBlock ← io_wrap "failed to get latest block" (io_lift latest);
  match latestBlock with
  | None =>
      genesisBlock ← io_wrap "failed to create genesis block"
        (io_lift (CreateGenesisBlock now gord ZeroAddress genesisConfig));
      _ ← io_wrap "failed to add genesis block to ledger" (Ledger_AddBlock genesisBlock);
      io_read (fun l => Ok {| bc_ledger := l; bc_head := Some genesisBlock;
                              bc_genesisBlock := Some genesisBlock |})
  | Some latestBlock =>
      io_read (fun l =>
        currentBlock ← traverse fuel l latestBlock;
        Ok {| bc_ledger := l; bc_head := Some latestBlock; bc_genesisBlock := Some currentBlock |})
  end.
Definition NewBlockchain (fuel : nat) (now : Z) (ord gord : list bytes) (genesisConfig : Genesis)
    : io (Ledger P) (Blockchain P) := fun l =>
  setup fuel now gord genesisConfig (Some <$> Ledger_GetLatestBlock l ord) l.

Definition ErrNoGenesisBlock : error := ErrMsg "no genesis block found".
Definition GetChainHeight bc : res Z :=
  match bc_head bc with
  | None => Err ErrNoGenesisBlock
  | Some head => Ok (b_Index head)
  end.

(** * validation.go *)
Definition Blockchain_validateConsensusRules (block : Block) : res unit := Ok tt.
Definition Blockchain_ValidateBlock (now : Z) bc (block : Block) : res unit :=
  validate_block MaxTimeDrift Blockchain_validateConsensusRules now (bc_ledger bc) block.

(** * blocks.go, organization.go *)
Definition on_ledger {A} (m : io (Ledger P) A) : io (Blockchain P) A := fun bc =>
  let '(l, r) := m (bc_ledger bc) in
  ({| bc_ledger := l; bc_head := bc_head bc; bc_genesisBlock := bc_genesisBlock bc |}, r).
Definition set_head (block : Block) : io (Blockchain P) unit := fun bc =>
  ({| bc_ledger := bc_ledger bc; bc_head := Some block; bc_genesisBlock := bc_genesisBlock bc |}, Ok tt).

Definition Blockchain_AddBlock (now : Z) (block : Block) : io (Blockchain P) unit :=
  _ ← io_read (fun bc => Blockchain_ValidateBlock now bc block);
  _ ← on_ledger (Ledger_AddBlock block);
  set_head block.

(** Without a head [bc.head.Hash] dereferences nil. *)
Definition HandleIncomingBlock (now : Z) (block : Block) : io (Blockchain P) unit :=
  _ ← io_read (fun bc => Blockchain_ValidateBlock now bc block);
  head ← io_read (fun bc => match bc_head bc with Some head => Ok head | None => Panic end);
  if Hash_Equal (b_PreviousHash block) (b_Hash head)
  then _ ← on_ledger (Ledger_AddBlock block); set_head block
  else io_lift (Err (ErrMsg
    "block does not extend the current chain and fork handling not implemented")).
End Blockchain.

(** * Starting on a ledger *)
Section chain.
Context {P VP EP : Type} `{GraphLibLaws P VP EP, !StoreJsonLaws Block VP EP}.
Implicit Types (p : P) (l : Ledger P) (bc : Blockchain P) (b : Block).
Implicit Types (V : gmap bytes (Block * VP)) (E : gmap (bytes * bytes) EP).

(** The order in which the runtime visits the adjacency map. *)
Definition adjacency_order p (ord : list Hash) : Prop :=
  forall m, g_AdjacencyMap (EP := EP) p = Ok m -> is_order m ord.

Definition leaf E (h : Hash) : Prop := forall u, E !! (h, u) = None.

Lemma traverse_Ok fuel l V E b vp :
  ledger_rep (l_storage l) V E -> V !! b_Hash b = Some (b, vp) ->
  (Z.to_nat (b_Index b) < fuel)%nat ->
  exists g vp, traverse fuel l b = Ok g /\ b_PreviousHash g = ZeroHash /\ V !! b_Hash g = Some (g, vp).
Proof.
  intros Hrep. revert b vp. induction fuel as [|fuel IH]; intros b vp Hvp Hf; [lia|].
  cbn [traverse]. case_bool_decide as Hz; [eauto|].
  destruct (lr_link _ _ _ Hrep _ _ _ Hvp) as [[? _]|(parent & vp' & Hp & Hi & _)]; [done|].
  destruct (lr_block _ _ _ Hrep _ _ _ Hp) as (Hok & Hh & _).
  destruct (lr_block _ _ _ Hrep _ _ _ Hvp) as (Hokb & _).
  unfold Ledger_GetBlock, getBlock. rewrite (ledger_Vertex _ V E), Hp by (done || apply Hokb).
  cbn [wrap]. rewrite bind_Ok. apply (IH parent vp'); [by rewrite Hh|].
  destruct (b_Index_ok _ Hok). lia.
Qed.

(** A finite ledger has a block without successors. *)
Lemma leaf_exists V E p h b vp :
  ledger_rep p V E -> V !! h = Some (b, vp) -> exists h' b' vp', V !! h' = Some (b', vp') /\ leaf E h'.
Proof.
  intros Hrep. destruct (g_AdjacencyMap_law p V E) as (m & _ & Hdom & Hm); [apply Hrep..|].
  assert (forall k, 0 <= k -> forall h b vp, V !! h = Some (b, vp) -> 2 ^ 64 - b_Index b <= k ->
    exists h' b' vp', V !! h' = Some (b', vp') /\ leaf E h') as Hind.
  { intros k Hk. pattern k. apply natlike_ind; [| |done].
    - intros h1 b1 vp1 Hb1 Hle. destruct (lr_block _ _ _ Hrep _ _ _ Hb1) as ([[_ ?]] & _). lia.
    - intros j Hj IH h1 b1 vp1 Hb1 Hle.
      destruct (proj2 (Hdom h1) ltac:(eauto)) as [edges Hedges].
      destruct (decide (edges = ∅)) as [->|(u & e & Hu)%map_choose].
      + exists h1, b1, vp1. split; [done|]. intros u. specialize (Hm h1 ∅ u Hedges).
        rewrite lookup_empty in Hm. unfold edge_of in Hm. cbn in Hm. by destruct (E !! (h1, u)).
      + rewrite (Hm h1 edges u Hedges) in Hu. unfold edge_of in Hu. cbn in Hu.
        apply fmap_Some in Hu as (x & Hx & _).
        destruct (lr_edge _ _ _ Hrep h1 u ltac:(eauto)) as (Hne & c & vpc & Hc & Hprev).
        apply (IH u c vpc Hc). destruct (lr_link _ _ _ Hrep _ _ _ Hc) as [[? _]|(q & vq & Hq & Hi & _)];
          [congruence|]. rewrite Hprev, Hb1 in Hq. injection Hq as <- <-. lia. }
  intros Hb. apply (Hind (2 ^ 64 - b_Index b)) with h b vp; [|done|lia].
  destruct (lr_block _ _ _ Hrep _ _ _ Hb) as ([[_ ?]] & _). lia.
Qed.

Lemma first_leaf_Ok l V E (m : gmap Hash (gmap Hash (Edge EP))) ord :
  ledger_rep (l_storage l) V E -> (forall h, h ∈ ord -> is_Some (m !! h) -> is_Some (V !! h)) ->
  (forall a edges t, m !! a = Some edges -> edges !! t = edge_of E (a, t)) ->
  (exists h, h ∈ ord /\ is_Some (m !! h) /\ leaf E h) ->
  exists h b vp, first_leaf l m ord = Ok b /\ V !! h = Some (b, vp) /\ leaf E h.
Proof.
  intros Hrep Hdom Hm. induction ord as [|h ord IH]; intros (h0 & Hin & Hsome & Hleaf);
    [by apply elem_of_nil in Hin|].
  cbn [first_leaf]. destruct (m !! h) as [edges|] eqn:Hedges.
  - destruct (Nat.eqb_spec (size edges) 0) as [Hz|Hnz].
    + apply map_size_empty_inv in Hz as ->.
      destruct (Hdom h ltac:(left) ltac:(eauto)) as [[b vp] Hb]. exists h, b, vp.
      rewrite (ledger_Vertex _ V E), Hb; [|done|].
      * split; [done|]. split; [done|]. intros u. specialize (Hm h ∅ u Hedges).
        rewrite lookup_empty in Hm. unfold edge_of in Hm. cbn in Hm. by destruct (E !! (h, u)).
      * destruct (lr_block _ _ _ Hrep _ _ _ Hb) as ([] & <- & _). done.
    + apply IH; [intros; apply Hdom; [by right|done]|].
      apply elem_of_cons in Hin as [->|Hin]; [|by exists h0].
      exfalso. apply Hnz. apply map_size_empty_iff, map_empty. intros u.
      rewrite (Hm h edges u Hedges). unfold edge_of. cbn. by rewrite Hleaf.
  - apply IH; [intros; apply Hdom; [by right|done]|].
    apply elem_of_cons in Hin as [->|Hin]; [|by exists h0]. destruct Hsome. congruence.
Qed.

Lemma GetLatestBlock_Ok l V E ord :
  ledger_rep (l_storage l) V E -> adjacency_order (l_storage l) ord ->
  match Ledger_GetLatestBlock l ord with
  | Ok b => exists vp, V !! b_Hash b = Some (b, vp) /\ leaf E (b_Hash b)
  | Err e => V = ∅ /\ e = ErrMsg "failed to find the latest block"
  | Panic => False
  end.
Proof.
  intros Hrep Hord. unfold Ledger_GetLatestBlock.
  destruct (g_AdjacencyMap_law (l_storage l) V E) as (m & Em & Hdom & Hm); [apply Hrep..|].
  specialize (Hord m Em). rewrite Em. cbn [wrap]. rewrite bind_Ok.
  destruct (map_choose_or_empty V) as [(h & [b vp] & Hb)|HV].
  - destruct (leaf_exists V E _ h b vp Hrep Hb) as (h' & b' & vp' & Hb' & Hleaf).
    destruct (first_leaf_Ok l V E m ord) as (h1 & b1 & vp1 & -> & Hb1 & Hl1); [done| |done| |].
    + intros h1 _ ?. by apply Hdom.
    + exists h'. split; [apply (is_order_elem _ _ _ Hord), Hdom; eauto|].
      split; [apply Hdom; eauto|done].
    + exists vp1. destruct (lr_block _ _ _ Hrep _ _ _ Hb1) as (_ & -> & _). done.
  - destruct ord as [|h ord]; [done|]. exfalso.
    assert (is_Some (m !! h)) as Hh by (apply (is_order_elem _ _ _ Hord); left).
    apply Hdom in Hh. subst V. rewrite lookup_empty in Hh. by destruct Hh.
Qed.

Lemma NewBlockchain_lemma (fuel : nat) (now : Z) (ord gord : list bytes) (cfg : Genesis) l V E :
  ledger_rep (l_storage l) V E -> adjacency_order (l_storage l) ord ->
  (forall h b vp, V !! h = Some (b, vp) -> (Z.to_nat (b_Index b) < fuel)%nat) ->
  (V = ∅ -> NewBlockchain fuel now ord gord cfg l =
     (l, Err (ErrWrap "failed to get latest block" (ErrMsg "failed to find the latest block")))) /\
  (V <> ∅ -> exists head genesis vp vp',
     NewBlockchain fuel now ord gord cfg l =
       (l, Ok {| bc_ledger := l; bc_head := Some head; bc_genesisBlock := Some genesis |}) /\
     V !! b_Hash head = Some (head, vp) /\ leaf E (b_Hash head) /\
     V !! b_Hash genesis = Some (genesis, vp') /\ b_PreviousHash genesis = ZeroHash).
Proof.
  intros Hrep Hord Hfuel. unfold NewBlockchain, setup.
  pose proof (GetLatestBlock_Ok l V E ord Hrep Hord) as Hlatest.
  destruct (Ledger_GetLatestBlock l ord) as [head|e|]; [| |done].
  - destruct Hlatest as (vp & Hhead & Hleaf). split; [by intros ->|intros _].
    destruct (traverse_Ok fuel l V E head vp) as (g & vp' & Hg & Hz & Hgv); [done..|by eapply Hfuel|].
    exists head, g, vp, vp'. split; [|done].
    cbv [mbind io_bind]. unfold io_wrap, io_lift. cbn [fmap res_fmap wrap]. unfold io_read.
    by rewrite Hg.
  - destruct Hlatest as [-> ->]. by split.
Qed.

(** C7: starting a blockchain on a ledger whose blocks are linked, in whatever
    order the map of blocks is visited.  On an empty ledger it fails, because
    asking an empty ledger for its latest block is an error, so the genesis
    block of the configuration is never created.  On any other ledger it
    succeeds without changing it: the head is a stored block without
    successors, the walk back to the beginning ends within as many steps as the
    index of the head says, and the genesis block has no predecessor. *)
Theorem NewBlockchain_spec (fuel : nat) (now : Z) (ord gord : list bytes) (cfg : Genesis) l V E :
  ledger_rep (l_storage l) V E -> adjacency_order (l_storage l) ord ->
  (forall h b vp, V !! h = Some (b, vp) -> (Z.to_nat (b_Index b) < fuel)%nat) ->
  (V = ∅ -> NewBlockchain fuel now ord gord cfg l =
     (l, Err (ErrWrap "failed to get latest block" (ErrMsg "failed to find the latest block")))) /\
  (V <> ∅ -> exists head genesis vp vp',
     NewBlockchain fuel now ord gord cfg l =
       (l, Ok {| bc_ledger := l; bc_head := Some head; bc_genesisBlock := Some genesis |}) /\
     V !! b_Hash head = Some (head, vp) /\ leaf E (b_Hash head) /\
     V !! b_Hash genesis = Some (genesis, vp') /\ b_PreviousHash genesis = ZeroHash).
Proof. apply NewBlockchain_lemma. Qed.

(** * The invariant of the chain *)

(** The head is stored, up to its transactions and signatures. *)
Definition head_stored V bc : Prop :=
  exists head b vp, bc_head bc = Some head /\ V !! b_Hash head = Some (b, vp) /\
    b_Index b = b_Index head /\ b_PreviousHash b = b_PreviousHash head.
Definition chain_rep bc V E : Prop :=
  ledger_rep (l_storage (bc_ledger bc)) V E /\ head_stored V bc.

Lemma valid_block_facts drift rules now l V E b :
  ledger_rep (l_storage l) V E -> addable (VP := VP) (l_storage l) b ->
  validate_block drift rules now l b = Ok tt ->
  Block_ComputeHash b = b_Hash b /\ linked V b.
Proof.
  intros Hrep Hb Hv. apply validate_block_Ok in Hv as (Hpos & -> & _); [|apply (ad_ok _ _ Hb)].
  split; [done|]. eapply valid_position_linked; [done|apply (ad_ok _ _ Hb)|done].
Qed.

Lemma Ledger_AddBlock_post l V E b :
  ledger_rep (l_storage l) V E -> addable (l_storage l) b -> Block_ComputeHash b = b_Hash b ->
  linked V b ->
  let '(l', r) := Ledger_AddBlock b l in
  AddBlock_post V b l' r /\
  (r = Ok tt \/ b_PreviousHash b <> ZeroHash ->
   l_state l' = if bool_decide (b_PreviousHash b = ZeroHash)
                then apply_allocations (l_state l) b else applyBlock (l_state l) b).
Proof.
  intros Hrep Hb Hhash Hlink. unfold Ledger_AddBlock.
  rewrite IsZeroHash_ZeroHash by apply (ad_ok _ _ Hb). case_bool_decide as Hz.
  - pose proof (add_genesis_block_post l V E b Hrep Hb Hhash Hlink) as Hpost.
    destruct (add_genesis_block b l) as [l' r]. destruct Hpost as [Hpost Hst]. split; [done|].
    intros [->|?]; [exact Hst|done].
  - pose proof (add_next_block_post l V E b Hrep Hb Hhash Hlink Hz) as Hpost.
    destruct (add_next_block b l) as [l' r]. destruct Hpost as [Hpost Hst]. done.
Qed.

Lemma head_stored_insert bc bc' V E b vp :
  chain_rep bc V E -> addable (VP := VP) (l_storage (bc_ledger bc)) b -> Block_ComputeHash b = b_Hash b ->
  bc_head bc' = bc_head bc -> head_stored (<[b_Hash b := (b, vp)]> V) bc'.
Proof.
  intros [Hrep (head & c & vpc & Hhead & Hc & Hi & Hp)] Hb Hhash Heq.
  unfold head_stored. rewrite Heq. exists head.
  destruct (decide (b_Hash head = b_Hash b)) as [E1|Hne].
  - exists b, vp. split; [done|]. rewrite E1, lookup_insert_eq. split; [done|].
    rewrite E1 in Hc. destruct (same_header _ _ _ _ _ _ Hrep Hb Hhash Hc) as (? & _ & ?). split; congruence.
  - exists c, vpc. by rewrite lookup_insert_ne.
Qed.

(** Adding a validated block: the common end of [AddBlock] and
    [HandleIncomingBlock]. *)
Lemma extend_chain bc V E b :
  chain_rep bc V E -> addable (l_storage (bc_ledger bc)) b -> Block_ComputeHash b = b_Hash b ->
  linked V b ->
  let '(bc', r) := (_ ← on_ledger (Ledger_AddBlock b); set_head b) bc in
  r <> Panic /\ (exists V' E', chain_rep bc' V' E') /\
  (r = Ok tt -> bc_head bc' = Some b /\ Ledger_GetBlock (bc_ledger bc') (b_Hash b) = Ok b) /\
  (r <> Ok tt -> bc_head bc' = bc_head bc) /\
  (r = Ok tt \/ b_PreviousHash b <> ZeroHash ->
   l_state (bc_ledger bc') = if bool_decide (b_PreviousHash b = ZeroHash)
     then apply_allocations (l_state (bc_ledger bc)) b else applyBlock (l_state (bc_ledger bc)) b) /\
  (reliable (P := P) (VP := VP) (EP := EP) -> V !! b_Hash b = None -> r = Ok tt).
Proof.
  intros Hrep Hb Hhash Hlink. cbv [mbind io_bind on_ledger].
  pose proof (Ledger_AddBlock_post (bc_ledger bc) V E b (proj1 Hrep) Hb Hhash Hlink) as Hpost.
  pose proof (fun Hrel => AddBlock_succeeds (bc_ledger bc) V E b Hrel (proj1 Hrep) Hb Hhash Hlink) as Hsucc.
  destruct (Ledger_AddBlock b (bc_ledger bc)) as [l' r].
  destruct Hpost as ((Hnp & V' & E' & Hrep' & HV & Hok) & Hst).
  destruct r as [[]|e|]; [| |done].
  - specialize (Hok eq_refl) as ->. unfold set_head. cbn. split; [done|]. split; [|split; [|done]].
    + exists (<[b_Hash b := (b, g_properties)]> V), E'. split; [done|].
      exists b, b, g_properties. cbn. by rewrite lookup_insert_eq.
    + intros _. split; [done|].
      unfold Ledger_GetBlock, getBlock. rewrite (ledger_Vertex _ _ _ _ Hrep') by apply (ad_ok _ _ Hb).
      by rewrite lookup_insert_eq.
  - split; [done|]. split; [|split; [done|split; [done|by split]]]. exists V', E'. split; [done|].
    destruct HV as [->| ->]; [exact (proj2 Hrep)|]. by eapply head_stored_insert.
Qed.

Lemma AddBlock_keeps now bc V E b :
  chain_rep bc V E -> addable (VP := VP) (l_storage (bc_ledger bc)) b ->
  (Blockchain_AddBlock now b bc).2 <> Panic /\ exists V' E', chain_rep (Blockchain_AddBlock now b bc).1 V' E'.
Proof.
  intros Hrep Hb. unfold Blockchain_AddBlock. cbv [mbind io_bind io_read].
  destruct (Blockchain_ValidateBlock now bc b) as [[]|e|] eqn:Hv; [|eauto|].
  - destruct (valid_block_facts _ _ _ _ _ _ _ (proj1 Hrep) Hb Hv) as [Hhash Hlink].
    pose proof (extend_chain bc V E b Hrep Hb Hhash Hlink) as Hext. cbv [mbind io_bind] in Hext.
    destruct (on_ledger _ bc) as [bc' [u|e|]]; [|by destruct Hext as (? & ? & _)..].
    destruct (set_head b bc') as [bc2 r]. by destruct Hext as (? & ? & _).
  - exfalso. apply (validate_block_no_panic MaxTimeDrift Blockchain_validateConsensusRules now
      (bc_ledger bc) V E b); [apply Hrep|apply (ad_ok _ _ Hb)|done|exact Hv].
Qed.

Lemma HandleIncomingBlock_cases now bc V E b :
  chain_rep bc V E -> addable (VP := VP) (l_storage (bc_ledger bc)) b ->
  HandleIncomingBlock now b bc =
    match Blockchain_ValidateBlock now bc b, bc_head bc with
    | Ok _, Some head =>
        if Hash_Equal (b_PreviousHash b) (b_Hash head) then Blockchain_AddBlock now b bc
        else (bc, Err (ErrMsg
          "block does not extend the current chain and fork handling not implemented"))
    | Ok _, None => (bc, Panic)
    | Err e, _ => (bc, Err e)
    | Panic, _ => (bc, Panic)
    end.
Proof.
  intros Hrep Hb. unfold HandleIncomingBlock, Blockchain_AddBlock. cbv [mbind io_bind io_read].
  destruct (Blockchain_ValidateBlock now bc b) as [[]|e|]; [|done..].
  destruct (bc_head bc) as [head|]; [|done]. by destruct (Hash_Equal _ _).
Qed.

Lemma HandleIncomingBlock_keeps now bc V E b :
  chain_rep bc V E -> addable (VP := VP) (l_storage (bc_ledger bc)) b ->
  (HandleIncomingBlock now b bc).2 <> Panic /\
  exists V' E', chain_rep (HandleIncomingBlock now b bc).1 V' E'.
Proof.
  intros Hrep Hb. rewrite (HandleIncomingBlock_cases now bc V E) by done.
  pose proof (AddBlock_keeps now bc V E b Hrep Hb) as [Hnp Hkeep].
  destruct (Blockchain_ValidateBlock now bc b) as [[]|e|] eqn:Hv; [| |].
  - destruct (proj2 Hrep) as (head & ? & ? & -> & _). destruct (Hash_Equal _ _); [done|]. cbn. eauto.
  - cbn. eauto.
  - exfalso. apply Hnp. unfold Blockchain_AddBlock. cbv [mbind io_bind io_read]. by rewrite Hv.
Qed.

(** A blockchain that was started on a ledger of linked blocks, and then asked
    to add any blocks, at any times and in any way. *)
Inductive reachable : Blockchain P -> Prop :=
| reach_new fuel now ord gord cfg l V E bc :
    ledger_rep (VP := VP) (l_storage l) V E -> adjacency_order (l_storage l) ord ->
    (forall h b vp, V !! h = Some (b, vp) -> (Z.to_nat (b_Index b) < fuel)%nat) ->
    NewBlockchain fuel now ord gord cfg l = (l, Ok bc) -> reachable bc
| reach_add now b bc :
    reachable bc -> addable (VP := VP) (l_storage (bc_ledger bc)) b ->
    reachable (Blockchain_AddBlock now b bc).1
| reach_incoming now b bc :
    reachable bc -> addable (VP := VP) (l_storage (bc_ledger bc)) b ->
    reachable (HandleIncomingBlock now b bc).1.

Lemma reachable_rep bc : reachable bc -> exists V E, chain_rep bc V E.
Proof.
  induction 1 as [fuel now ord gord cfg l V E bc Hrep Hord Hfuel Hnew|now b bc _ (V & E & Hrep) Hb
    |now b bc _ (V & E & Hrep) Hb].
  - exists V, E. destruct (NewBlockchain_lemma fuel now ord gord cfg l V E Hrep Hord Hfuel) as [H0' H1'].
    destruct (decide (V = ∅)) as [HV|HV]; [by rewrite H0' in Hnew|].
    destruct (H1' HV) as (head & g & vp & vp' & Hnew' & Hhead & _).
    rewrite Hnew' in Hnew. injection Hnew as <-. split; [done|].
    by exists head, head, vp.
  - by apply (AddBlock_keeps now bc V E b).
  - by apply (HandleIncomingBlock_keeps now bc V E b).
Qed.

(** C4: in every reachable state of the blockchain there is a head, and a block
    with its header is stored; every stored block is found under its own hash,
    which is the hash of its header, and either starts a chain with index 0
    and no predecessor, or its predecessor is stored too, with the index just
    below and no later time. *)
Theorem chain_reachable_inv bc :
  reachable bc ->
  (exists head b, bc_head bc = Some head /\ Ledger_GetBlock (bc_ledger bc) (b_Hash head) = Ok b /\
     b_Index b = b_Index head /\ b_PreviousHash b = b_PreviousHash head) /\
  forall h b, Hash_ok h -> Ledger_GetBlock (bc_ledger bc) h = Ok b ->
    b_Hash b = h /\ Block_ComputeHash b = h /\
    ((b_PreviousHash b = ZeroHash /\ b_Index b = 0) \/
     exists parent, Ledger_GetBlock (bc_ledger bc) (b_PreviousHash b) = Ok parent /\
       b_Index b = b_Index parent + 1 /\ b_Timestamp parent <= b_Timestamp b).
Proof.
  intros (V & E & Hrep & head & b & vp & Hhead & Hb & Hi & Hp)%reachable_rep.
  assert (forall h, Hash_ok h -> Ledger_GetBlock (bc_ledger bc) h =
    match V !! h with Some (b, _) => Ok b
    | None => Err (ErrWrap "failed to retrieve block from graph" ErrVertexNotFound) end) as Hget.
  { intros h Hh. unfold Ledger_GetBlock, getBlock. rewrite (ledger_Vertex _ V E) by done.
    by destruct (V !! h) as [[]|]. }
  split.
  - exists head, b. destruct (lr_block _ _ _ Hrep _ _ _ Hb) as ([] & Hbh & _).
    split; [done|]. rewrite Hget by by rewrite <- Hbh. by rewrite Hb.
  - intros h c Hh. rewrite Hget by done. destruct (V !! h) as [[c' vpc]|] eqn:Hc; [|done]. intros [= ->].
    destruct (lr_block _ _ _ Hrep _ _ _ Hc) as (Hok & ? & ?). split; [done|]. split; [done|].
    destruct (lr_link _ _ _ Hrep _ _ _ Hc) as [|(parent & vq & Hq & ? & ?)]; [by left|right].
    exists parent. rewrite Hget by apply (b_PreviousHash_ok _ Hok). by rewrite Hq.
Qed.

Lemma Blockchain_AddBlock_cases (now : Z) bc b :
  reachable bc -> addable (VP := VP) (l_storage (bc_ledger bc)) b ->
  (Blockchain_ValidateBlock now bc b = Ok tt <->
     valid_position (bc_ledger bc) b /\ b_Hash b = Block_ComputeHash b /\ merkle_valid b /\
     b_Timestamp b <= i64 (now + MaxTimeDrift) /\
     Forall (fun tx => validateTransaction (l_state (bc_ledger bc)) tx (b_Index b =? 0) = Ok tt)
       (b_Transactions b)) /\
  (Blockchain_ValidateBlock now bc b <> Ok tt ->
     exists e, Blockchain_AddBlock now b bc = (bc, Err e) /\ HandleIncomingBlock now b bc = (bc, Err e)) /\
  (Blockchain_ValidateBlock now bc b = Ok tt ->
     let '(bc', r) := Blockchain_AddBlock now b bc in
     r <> Panic /\
     (r = Ok tt -> bc_head bc' = Some b /\ Ledger_GetBlock (bc_ledger bc') (b_Hash b) = Ok b) /\
     (r <> Ok tt -> bc_head bc' = bc_head bc) /\
     (r = Ok tt \/ b_PreviousHash b <> ZeroHash ->
      l_state (bc_ledger bc') = if bool_decide (b_PreviousHash b = ZeroHash)
        then apply_allocations (l_state (bc_ledger bc)) b else applyBlock (l_state (bc_ledger bc)) b) /\
     (reliable (P := P) (VP := VP) (EP := EP) ->
      is_ok (Ledger_GetBlock (bc_ledger bc) (b_Hash b)) = false -> r = Ok tt)) /\
  (forall head, bc_head bc = Some head -> Blockchain_ValidateBlock now bc b = Ok tt ->
     HandleIncomingBlock now b bc =
       if bool_decide (b_PreviousHash b = b_Hash head) then Blockchain_AddBlock now b bc
       else (bc, Err (ErrMsg
         "block does not extend the current chain and fork handling not implemented"))).
Proof.
  intros (V & E & Hrep)%reachable_rep Hb.
  pose proof (HandleIncomingBlock_cases now bc V E b Hrep Hb) as Hcases.
  pose proof (AddBlock_keeps now bc V E b Hrep Hb) as [Hnp _].
  split; [|split; [|split]].
  - unfold Blockchain_ValidateBlock. rewrite validate_block_Ok by apply (ad_ok _ _ Hb).
    unfold Blockchain_validateConsensusRules. tauto.
  - intros Hv. rewrite Hcases. unfold Blockchain_AddBlock in *. cbv [mbind io_bind io_read] in *.
    destruct (Blockchain_ValidateBlock now bc b) as [[]|e|]; [done|eauto|done].
  - intros Hv. destruct (valid_block_facts _ _ _ _ _ _ _ (proj1 Hrep) Hb Hv) as [Hhash Hlink].
    pose proof (extend_chain bc V E b Hrep Hb Hhash Hlink) as Hext.
    unfold Blockchain_AddBlock. rewrite (io_bind_Ok _ _ bc bc tt) by (unfold io_read; by rewrite Hv).
    destruct ((_ ← on_ledger (Ledger_AddBlock b); set_head b) bc) as [bc' r].
    destruct Hext as (? & _ & ? & ? & ? & Hsucc). do 4 (split; [done|]). intros Hrel Hnew.
    apply Hsucc; [done|]. unfold Ledger_GetBlock, getBlock in Hnew.
    rewrite (ledger_Vertex _ V E) in Hnew by (apply Hrep || apply (ad_ok _ _ Hb)).
    by destruct (V !! b_Hash b) as [[]|].
  - intros head Hhead Hv. rewrite Hcases, Hv, Hhead. done.
Qed.

(** C5: adding a block to a reachable blockchain, on every branch.  Validation
    accepts exactly the blocks that follow a stored block (or start a chain
    with index 0 and no predecessor), carry their own hash and Merkle root, are
    not more than five minutes ahead of the clock, and whose transactions are
    each valid in the current state.  A rejected block changes nothing.  An
    accepted one whose storage succeeds becomes the head and is found under its
    hash; with a reliable storage it does succeed if its hash is new.  When
    storing fails the head stays, but the balances have already changed if the
    block has a predecessor.  [HandleIncomingBlock] does the same for blocks
    that follow the head, and refuses all others without a change. *)
Theorem Blockchain_AddBlock_spec (now : Z) bc b :
  reachable bc -> addable (VP := VP) (l_storage (bc_ledger bc)) b ->
  (Blockchain_ValidateBlock now bc b = Ok tt <->
     valid_position (bc_ledger bc) b /\ b_Hash b = Block_ComputeHash b /\ merkle_valid b /\
     b_Timestamp b <= i64 (now + MaxTimeDrift) /\
     Forall (fun tx => validateTransaction (l_state (bc_ledger bc)) tx (b_Index b =? 0) = Ok tt)
       (b_Transactions b)) /\
  (Blockchain_ValidateBlock now bc b <> Ok tt ->
     exists e, Blockchain_AddBlock now b bc = (bc, Err e) /\ HandleIncomingBlock now b bc = (bc, Err e)) /\
  (Blockchain_ValidateBlock now bc b = Ok tt ->
     let '(bc', r) := Blockchain_AddBlock now b bc in
     r <> Panic /\
     (r = Ok tt -> bc_head bc' = Some b /\ Ledger_GetBlock (bc_ledger bc') (b_Hash b) = Ok b) /\
     (r <> Ok tt -> bc_head bc' = bc_head bc) /\
     (r = Ok tt \/ b_PreviousHash b <> ZeroHash ->
      l_state (bc_ledger bc') = if bool_decide (b_PreviousHash b = ZeroHash)
        then apply_allocations (l_state (bc_ledger bc)) b else applyBlock (l_state (bc_ledger bc)) b) /\
     (reliable (P := P) (VP := VP) (EP := EP) ->
      is_ok (Ledger_GetBlock (bc_ledger bc) (b_Hash b)) = false -> r = Ok tt)) /\
  (forall head, bc_head bc = Some head -> Blockchain_ValidateBlock now bc b = Ok tt ->
     HandleIncomingBlock now b bc =
       if bool_decide (b_PreviousHash b = b_Hash head) then Blockchain_AddBlock now b bc
       else (bc, Err (ErrMsg
         "block does not extend the current chain and fork handling not implemented"))).
Proof. apply Blockchain_AddBlock_cases. Qed.
End chain.

(** * A concrete chain *)
Lemma ledger_rep_empty {P VP EP} `{GraphLibLaws P VP EP} (p : P) :
  provider_contents p = ∅ -> ledger_rep (VP := VP) (EP := EP) p ∅ ∅.
Proof.
  intros Hp. split; [by apply rep_empty|intros a t [x Hx]|intros h b vp Hx|intros h b vp Hx
    |intros a t [x Hx]]; by rewrite lookup_empty in Hx.
Qed.

Definition set_signer (b : Block) : Block :=
  {| b_Index := b_Index b; b_Timestamp := b_Timestamp b; b_PreviousHash := b_PreviousHash b;
     b_Hash := b_Hash b; b_MerkleRoot := b_MerkleRoot b; b_Signature := b_Signature b;
     b_SignatureType := BlsSignerType; b_ValidatorID := b_ValidatorID b;
     b_Transactions := b_Transactions b; b_Difficulty := b_Difficulty b;
     b_Version := b_Version b; b_FinalizedBy := b_FinalizedBy b |}.
Definition block_or_example (r : res Block) : Block :=
  match r with Ok b => set_signer b | _ => block_example end.

Definition genesis_block : Block := Eval vm_compute in
  block_or_example (CreateGenesisBlock 1700000100 genesis_order ZeroAddress genesis_example).
Definition account1 : Address := replicate 20 (byte_of_Z 1).
Definition account2 : Address := replicate 20 (byte_of_Z 2).
Definition payment : Transaction := Eval vm_compute in
  {| tx_ID := Sum256 (str "payment"); tx_Sender := account1; tx_Recipient := account2;
     tx_Amount := 300; tx_Fee := 5; tx_Nonce := 1; tx_Timestamp := 1700000200; tx_Signature := str "s";
     tx_SignatureType := BlsSignerType; tx_Payload := [] |}.
Definition next_block : Block := Eval vm_compute in
  block_or_example (NewBlock 1700000200 1 (b_Hash genesis_block) [payment] account2 1).

Definition ledger1 : Ledger MemDb := (Ledger_AddBlock genesis_block (NewLedger ∅)).1.
Definition order_of (p : MemDb) : list Hash :=
  match mem_AdjacencyMap p with Ok m => (map_to_list m).*1 | _ => [] end.
Definition empty_chain : Blockchain MemDb :=
  {| bc_ledger := NewLedger ∅; bc_head := None; bc_genesisBlock := None |}.
Definition start : Ledger MemDb * res (Blockchain MemDb) :=
  NewBlockchain 1 1700000150 (order_of (l_storage ledger1)) [] genesis_example ledger1.
Definition chain1 : Blockchain MemDb :=
  match start.2 with Ok bc => bc | _ => empty_chain end.

Ltac range_tac := vm_compute; (reflexivity || (split; [discriminate|reflexivity])).
Ltac block_ok_tac :=
  split; try range_tac; repeat apply Forall_cons_2; try apply Forall_nil_2; split; range_tac.
Lemma genesis_block_ok : Block_ok genesis_block.
Proof. block_ok_tac. Qed.
Lemma next_block_ok : Block_ok next_block.
Proof. block_ok_tac. Qed.

(** The blocks can be stored in a database that does not have them. *)
Lemma example_addable (p : MemDb) b :
  Block_ok b -> json_ok (EP := unit) b ->
  has_prefix (b_Hash b) (vertices_prefix ledger_store) = false ->
  has_prefix (b_Hash b) (edges_prefix ledger_store) = false ->
  is_ok (g_Vertex p (b_Hash b)) = false -> addable (VP := unit) (EP := unit) p b.
Proof.
  intros Hok Hn Hv He Hnew. split; [done..|].
  intros old Hold. by rewrite Hold in Hnew.
Qed.
Lemma genesis_block_addable : addable (VP := unit) (EP := unit) (∅ : MemDb) genesis_block.
Proof. apply example_addable; [apply genesis_block_ok|by split; [apply genesis_block_ok|left]|vm_compute; reflexivity..]. Qed.

Lemma ledger1_rep : exists E,
  ledger_rep (VP := unit) (EP := unit) (l_storage ledger1) {[ b_Hash genesis_block := (genesis_block, tt) ]} E.
Proof.
  pose proof (Ledger_AddBlock_post (NewLedger (∅ : MemDb)) ∅ ∅ genesis_block
    (ledger_rep_empty (∅ : MemDb) eq_refl) genesis_block_addable
    ltac:(vm_compute; reflexivity) ltac:(left; split; reflexivity)) as Hpost.
  assert ((Ledger_AddBlock genesis_block (NewLedger (∅ : MemDb))).2 = Ok tt) as Hok
    by (vm_compute; reflexivity).
  unfold ledger1. destruct (Ledger_AddBlock genesis_block (NewLedger ∅)) as [l r].
  destruct Hpost as ((_ & V & E & Hrep & _ & HV) & _). exists E. rewrite (HV Hok) in Hrep. exact Hrep.
Qed.

Lemma ledger1_order : adjacency_order (EP := unit) (l_storage ledger1) (order_of (l_storage ledger1)).
Proof.
  intros m Hm. unfold order_of. change (mem_AdjacencyMap (l_storage ledger1) = Ok m) in Hm.
  rewrite Hm. apply is_order_exists.
Qed.
Lemma ledger1_fuel h b (vp : unit) :
  ({[ b_Hash genesis_block := (genesis_block, tt) ]} : gmap bytes (Block * unit)) !! h = Some (b, vp) ->
  (Z.to_nat (b_Index b) < 1)%nat.
Proof. intros [_ [= <- _]]%lookup_singleton_Some. vm_compute. lia. Qed.

Lemma NewBlockchain_spec_witness :
  exists head genesis, NewBlockchain 1 1700000150 (order_of (l_storage ledger1)) [] genesis_example ledger1 =
    (ledger1, Ok {| bc_ledger := ledger1; bc_head := Some head; bc_genesisBlock := Some genesis |}) /\
    b_PreviousHash genesis = ZeroHash.
Proof.
  destruct ledger1_rep as [E Hrep].
  destruct (NewBlockchain_spec 1 1700000150 (order_of (l_storage ledger1)) [] genesis_example ledger1
    _ E Hrep ledger1_order ledger1_fuel) as [_ H].
  destruct H as (head & genesis & vp & vp' & H & _ & _ & _ & Hz); [apply insert_non_empty|].
  exists head, genesis. split; [exact H|exact Hz].
Defined.

Lemma chain1_reachable : reachable (VP := unit) (EP := unit) chain1.
Proof.
  destruct ledger1_rep as [E Hrep].
  destruct (NewBlockchain_lemma 1 1700000150 (order_of (l_storage ledger1)) [] genesis_example ledger1
    _ E Hrep ledger1_order ledger1_fuel) as [_ H].
  destruct H as (head & genesis & vp & vp' & H & _); [apply insert_non_empty|].
  eapply (reach_new 1 1700000150 (order_of (l_storage ledger1)) [] genesis_example ledger1);
    [exact Hrep|apply ledger1_order|apply ledger1_fuel|].
  unfold chain1, start. rewrite H. reflexivity.
Qed.
Lemma next_block_addable :
  addable (VP := unit) (EP := unit) (l_storage (bc_ledger chain1)) next_block.
Proof. apply example_addable; [apply next_block_ok|by split; [apply next_block_ok|left]|vm_compute; reflexivity..]. Qed.

Definition chain2 : Blockchain MemDb := (Blockchain_AddBlock 1700000250 next_block chain1).1.
Lemma chain_reachable_inv_witness :
  exists head b, bc_head chain2 = Some head /\ Ledger_GetBlock (bc_ledger chain2) (b_Hash head) = Ok b /\
    b_Index b = b_Index head /\ b_PreviousHash b = b_PreviousHash head.
Proof.
  apply (chain_reachable_inv (VP := unit) (EP := unit) chain2).
  apply reach_add; [apply chain1_reachable|apply next_block_addable].
Defined.

Lemma Blockchain_AddBlock_spec_witness :
  bc_head chain2 = Some next_block /\ Ledger_GetBlock (bc_ledger chain2) (b_Hash next_block) = Ok next_block.
Proof.
  destruct (Blockchain_AddBlock_spec (VP := unit) (EP := unit) 1700000250 chain1 next_block
    chain1_reachable next_block_addable) as (_ & _ & H & _).
  specialize (H ltac:(vm_compute; reflexivity)).
  assert ((Blockchain_AddBlock 1700000250 next_block chain1).2 = Ok tt) as Hok
    by (vm_compute; reflexivity).
  unfold chain2. destruct (Blockchain_AddBlock 1700000250 next_block chain1) as [bc r].
  destruct H as (_ & H & _). apply H. exact Hok.
Defined.
