(* ===== verification/Sharding.v ===== *)
(** [pkg/sharding]: shards ([shard.go]) and their manager ([manager.go]).

    A [*Shard] is identified with its key in [ShardManager.Shards]: the map is
    filled once, by [NewShardManager], and no method replaces a pointer in it.
    The order in which a loop visits a Go map is an argument: a list of the
    keys for the shards, a reordering of lists for the validators of a shard.
    [peer.ID.String] belongs to libp2p and is a parameter.  An [int] has 64 bits,
    so the 32 bits of a hash are not negative as an [int]. *)
From S2P Require Import Prelude Bytes Hashes Packets.

(** * shard.go *)
Record Shard := {
  Shard_ID : Z;
  shard_validators : gset PeerID;
  shard_data : gmap bytes bytes;
}.

Definition NewShard (id : Z) : Shard :=
  {| Shard_ID := id; shard_validators := ∅; shard_data := ∅ |}.

Definition shard_set_validators (s : Shard) (vs : gset PeerID) : Shard :=
  {| Shard_ID := Shard_ID s; shard_validators := vs; shard_data := shard_data s |}.

Definition Shard_AddValidator (s : Shard) (v : PeerID) : Shard :=
  shard_set_validators s (shard_validators s ∪ {[v]}).
Definition Shard_RemoveValidator (s : Shard) (v : PeerID) : Shard :=
  shard_set_validators s (shard_validators s ∖ {[v]}).
Definition Shard_HasValidator (s : Shard) (v : PeerID) : bool :=
  bool_decide (v ∈ shard_validators s).
Definition Shard_ClearValidators (s : Shard) : Shard := shard_set_validators s ∅.
Definition StoreData (s : Shard) (key value : bytes) : Shard :=
  {| Shard_ID := Shard_ID s; shard_validators := shard_validators s;
     shard_data := <[key := value]> (shard_data s) |}.
Definition RetrieveData (s : Shard) (key : bytes) : option bytes := shard_data s !! key.

(** [vord] is the order in which this call ranges over the validators. *)
Definition ListValidators (vord : list PeerID -> list PeerID) (s : Shard) : list PeerID :=
  vord (elements (shard_validators s)).

(** * manager.go *)
Section Sharding.
Context (peer_String : PeerID -> bytes).

Record ShardManager := {
  ShardCount : Z;
  Shards : gmap Z Shard;
}.

Definition set_shard (sm : ShardManager) (id : Z) (s : Shard) : ShardManager :=
  {| ShardCount := ShardCount sm; Shards := <[id := s]> (Shards sm) |}.

Definition NewShardManager (shardCount : Z) : ShardManager :=
  {| ShardCount := shardCount;
     Shards := foldl (fun m i => <[i := NewShard i]> m) ∅ (seqZ 0 shardCount) |}.

Definition hashValidator (v : PeerID) : Z := Fnv.Sum32a (peer_String v).
Definition hashData (key : bytes) : Z := Fnv.Sum32a key.

(** [hash % sm.ShardCount]: a division by zero panics. *)
Definition modulo_count (sm : ShardManager) (hash : Z) : res Z :=
  if ShardCount sm =? 0 then Panic else Ok (Z.rem hash (ShardCount sm)).

(** [shardID := hash(v) % count; sm.Shards[shardID].AddValidator(v)]: the
    method locks a nil shard when there is none. *)
Definition add_to_home (v : PeerID) : io ShardManager Z := fun sm =>
  match modulo_count sm (hashValidator v) with
  | Ok shardID =>
      match Shards sm !! shardID with
      | Some shard => (set_shard sm shardID (Shard_AddValidator shard v), Ok shardID)
      | None => (sm, Panic)
      end
  | Err e => (sm, Err e)
  | Panic => (sm, Panic)
  end.

Definition shard_has (sm : ShardManager) (v : PeerID) (id : Z) : bool :=
  match Shards sm !! id with
  | Some s => Shard_HasValidator s v
  | None => false
  end.

(** The first shard, in the order of this loop, that has the validator. *)
Definition assigned_shard (ord : list Z) (sm : ShardManager) (v : PeerID) : option Z :=
  head (base.filter (fun id => shard_has sm v id = true) ord).

Definition AssignValidator (ord : list Z) (v : PeerID) : io ShardManager Z := fun sm =>
  match assigned_shard ord sm v with
  | Some shardID => (sm, Ok shardID)
  | None => add_to_home v sm
  end.

Definition ShardManager_RemoveValidator (ord : list Z) (v : PeerID) : io ShardManager unit :=
  fun sm =>
  match assigned_shard ord sm v ≫= fun id => (id,.) <$> Shards sm !! id with
  | Some (id, shard) => (set_shard sm id (Shard_RemoveValidator shard v), Ok tt)
  | None => (sm, Err (ErrMsg "validator %s is not assigned to any shard"))
  end.

Definition GetShard (sm : ShardManager) (shardID : Z) : res Shard :=
  match Shards sm !! shardID with
  | Some shard => Ok shard
  | None => Err (ErrMsg "invalid shard ID: %d")
  end.
Definition GetValidatorsInShard (vord : list PeerID -> list PeerID) (sm : ShardManager)
    (shardID : Z) : res (list PeerID) :=
  match Shards sm !! shardID with
  | Some shard => Ok (ListValidators vord shard)
  | None => Err (ErrMsg "invalid shard ID")
  end.
Definition GetShardForData (sm : ShardManager) (key : bytes) : res Shard :=
  shardID ← modulo_count sm (hashData key);
  match Shards sm !! shardID with
  | Some shard => Ok shard
  | None => Err (ErrMsg "invalid shard ID")
  end.

(** Storing through the pointer that [GetShardForData] returns. *)
Definition store_at (id : Z) (key value : bytes) (sm : ShardManager) : ShardManager :=
  match Shards sm !! id with
  | Some shard => set_shard sm id (StoreData shard key value)
  | None => sm
  end.

(** The first loop of [RebalanceShards]: list and clear every shard. *)
Definition collect_step (vord : list PeerID -> list PeerID)
    (acc : list PeerID * ShardManager) (id : Z) : list PeerID * ShardManager :=
  match Shards acc.2 !! id with
  | Some shard =>
      (acc.1 ++ ListValidators vord shard, set_shard acc.2 id (Shard_ClearValidators shard))
  | None => acc
  end.
Definition collect (vord : list PeerID -> list PeerID) (ord : list Z) (sm : ShardManager) :
    list PeerID * ShardManager :=
  foldl (collect_step vord) ([], sm) ord.

Definition RebalanceShards (vord : list PeerID -> list PeerID) (ord : list Z) :
    io ShardManager unit := fun sm =>
  let '(allValidators, sm) := collect vord ord sm in
  io_iter (fun v => _ ← add_to_home v; mret tt) allValidators sm.

(** The operations a client of the manager performs. *)
Inductive shard_op :=
| OpAssign (ord : list Z) (v : PeerID)
| OpRemove (ord : list Z) (v : PeerID)
| OpRebalance (vord : list PeerID -> list PeerID) (ord : list Z)
| OpStore (id : Z) (key value : bytes).

Definition shard_step (sm : ShardManager) (op : shard_op) : ShardManager :=
  match op with
  | OpAssign ord v => (AssignValidator ord v sm).1
  | OpRemove ord v => (ShardManager_RemoveValidator ord v sm).1
  | OpRebalance vord ord => (RebalanceShards vord ord sm).1
  | OpStore id key value => store_at id key value sm
  end.

(** The orders of a step are orders of the maps it ranges over. *)
Definition op_ok (sm : ShardManager) (op : shard_op) : Prop :=
  match op with
  | OpAssign ord _ | OpRemove ord _ => is_order (Shards sm) ord
  | OpRebalance vord ord => is_order (Shards sm) ord /\ forall l, vord l ≡ₚ l
  | OpStore _ _ _ => True
  end.

Inductive shards_reachable (n : Z) : ShardManager -> Prop :=
| sr_new : shards_reachable n (NewShardManager n)
| sr_step sm op :
    shards_reachable n sm -> op_ok sm op -> shards_reachable n (shard_step sm op).

(** * The reference placement: a stateless function of the validator *)
Definition home (n : Z) (v : PeerID) : Z := hashValidator v mod n.

(** The state the operations keep: the shards are [0 .. n-1], each under its
    own number, and hold only validators whose hash falls there. *)
Record placed (n : Z) (sm : ShardManager) : Prop := {
  pl_count : ShardCount sm = n;
  pl_dom : forall id, is_Some (Shards sm !! id) <-> 0 <= id < n;
  pl_id : forall id s, Shards sm !! id = Some s -> Shard_ID s = id;
  pl_home : forall id s v,
    Shards sm !! id = Some s -> v ∈ shard_validators s -> home n v = id;
}.

Lemma ShardManager_eq sm sm' :
  ShardCount sm = ShardCount sm' -> Shards sm = Shards sm' -> sm = sm'.
Proof. destruct sm, sm'. cbn. by intros -> ->. Qed.

Lemma Shard_eq s s' :
  Shard_ID s = Shard_ID s' -> shard_validators s = shard_validators s' ->
  shard_data s = shard_data s' -> s = s'.
Proof. destruct s, s'. cbn. by intros -> -> ->. Qed.

Lemma home_range n v : 0 < n -> 0 <= home n v < n.
Proof. intros Hn. by apply Z.mod_pos_bound. Qed.

Lemma new_shards (m : gmap Z Shard) (l : list Z) :
  let m' := foldl (fun m i => <[i := NewShard i]> m) m l in
  forall id, m' !! id = if decide (id ∈ l) then Some (NewShard id) else m !! id.
Proof.
  cbn zeta. revert m. induction l as [|i l IH]; intros m id; cbn [foldl].
  { by rewrite decide_False by apply not_elem_of_nil. }
  rewrite IH. destruct (decide (id ∈ l)) as [Hl|Hl].
  { rewrite decide_True; [done|by right]. }
  destruct (decide (id = i)) as [->|Hne].
  - rewrite lookup_insert_eq, decide_True; [done|left].
  - rewrite lookup_insert_ne by done. rewrite decide_False; [done|].
    by rewrite not_elem_of_cons.
Qed.

Lemma NewShardManager_lookup n id :
  Shards (NewShardManager n) !! id = if decide (0 <= id < n) then Some (NewShard id) else None.
Proof.
  unfold NewShardManager. cbn [Shards]. rewrite new_shards, lookup_empty.
  destruct (decide (id ∈ seqZ 0 n)) as [Hin|Hin]; rewrite elem_of_seqZ in Hin;
    [rewrite decide_True by lia|rewrite decide_False by lia]; done.
Qed.

Lemma placed_new n : placed n (NewShardManager n).
Proof.
  split; [done|..]; intros id; [|intros s|intros s v]; rewrite NewShardManager_lookup;
    destruct (decide _) as [Hd|Hd]; try done.
  - intros [= <-]. done.
  - intros [= <-]. cbn. set_solver.
Qed.

(** Changing one shard keeps the placement if what is added belongs there. *)
Lemma placed_set n sm id s s' :
  placed n sm -> Shards sm !! id = Some s -> Shard_ID s' = Shard_ID s ->
  (forall v, v ∈ shard_validators s' -> v ∈ shard_validators s \/ home n v = id) ->
  placed n (set_shard sm id s').
Proof.
  intros [Hc Hd Hi Hh] Hs Hid Hv.
  split; [done|..]; cbn; intros id'; [|intros s1|intros s1 v];
    (destruct (decide (id = id')) as [<-|Hne];
      [rewrite lookup_insert_eq|rewrite lookup_insert_ne by done]).
  - rewrite <- Hd, Hs. by split; eauto.
  - done.
  - intros [= <-]. rewrite Hid. by apply Hi.
  - apply Hi.
  - intros [= <-] Hin. destruct (Hv v Hin); [by eapply Hh|done].
  - apply Hh.
Qed.

Lemma modulo_count_placed n sm v :
  0 < n -> placed n sm -> modulo_count sm (hashValidator v) = Ok (home n v).
Proof.
  intros Hn Hp. unfold modulo_count. rewrite (pl_count _ _ Hp).
  rewrite (proj2 (Z.eqb_neq n 0)) by lia. unfold home. f_equal.
  apply Z.rem_mod_nonneg; [|lia]. apply Fnv.Sum32a_range.
Qed.

Lemma add_to_home_placed n v sm :
  0 < n -> placed n sm -> exists s, Shards sm !! home n v = Some s /\
  add_to_home v sm = (set_shard sm (home n v) (Shard_AddValidator s v), Ok (home n v)).
Proof.
  intros Hn Hp. pose proof (proj2 (pl_dom _ _ Hp (home n v)) (home_range n v Hn)) as [s Hs].
  exists s. split; [done|]. unfold add_to_home.
  by rewrite (modulo_count_placed n) by done; rewrite Hs.
Qed.

Lemma add_to_home_keeps n v sm : 0 < n -> placed n sm -> placed n (add_to_home v sm).1.
Proof.
  intros Hn Hp. destruct (add_to_home_placed n v sm Hn Hp) as (s & Hs & ->).
  eapply placed_set; [done..|]. cbn. set_solver.
Qed.

Lemma shard_has_spec sm v id :
  shard_has sm v id = true <-> exists s, Shards sm !! id = Some s /\ v ∈ shard_validators s.
Proof.
  unfold shard_has. destruct (Shards sm !! id) as [s|]; [|naive_solver].
  unfold Shard_HasValidator. rewrite bool_decide_eq_true. naive_solver.
Qed.

Lemma placed_order n sm : placed n sm -> is_order (Shards sm) (seqZ 0 n).
Proof.
  intros Hp. unfold is_order. apply NoDup_Permutation.
  - apply NoDup_seqZ.
  - apply NoDup_fst_map_to_list.
  - intros id. rewrite elem_of_seqZ, Z.add_0_l. rewrite <- (pl_dom _ _ Hp id).
    symmetry. apply (is_order_elem (Shards sm)), is_order_exists.
Qed.

(** Whatever the order, the search finds a validator in its home shard only. *)
Lemma assigned_shard_placed n ord sm v :
  0 < n -> placed n sm -> is_order (Shards sm) ord ->
  assigned_shard ord sm v = if shard_has sm v (home n v) then Some (home n v) else None.
Proof.
  intros Hn Hp Hord. unfold assigned_shard.
  assert (forall id, id ∈ base.filter (fun id => shard_has sm v id = true) ord ->
    id = home n v /\ shard_has sm v id = true) as Hall.
  { intros id. rewrite list_elem_of_filter. intros [Hh _]. split; [|done].
    apply shard_has_spec in Hh as (s & Hs & Hv). symmetry. by eapply (pl_home _ _ Hp). }
  destruct (base.filter _ ord) as [|id l] eqn:Hf.
  - destruct (shard_has sm v (home n v)) eqn:Hh; [|done].
    assert (home n v ∈ @nil Z) as Hin; [|by apply not_elem_of_nil in Hin].
    rewrite <- Hf, list_elem_of_filter. split; [done|].
    apply (is_order_elem _ _ _ Hord). apply shard_has_spec in Hh as (s & -> & _). eauto.
  - destruct (Hall id ltac:(left)) as [-> ->]. done.
Qed.

Lemma set_shard_same sm id s : Shards sm !! id = Some s -> set_shard sm id s = sm.
Proof. intros Hs. apply ShardManager_eq; [done|]. cbn. by rewrite insert_id. Qed.

Lemma Shard_AddValidator_in s v : v ∈ shard_validators s -> Shard_AddValidator s v = s.
Proof. intros Hv. apply Shard_eq; [done| |done]. cbn. set_solver. Qed.

(** The search before the assignment never changes the outcome. *)
Lemma AssignValidator_placed n ord sm v :
  0 < n -> placed n sm -> is_order (Shards sm) ord ->
  AssignValidator ord v sm = add_to_home v sm.
Proof.
  intros Hn Hp Hord. unfold AssignValidator.
  rewrite (assigned_shard_placed n) by done.
  destruct (shard_has sm v (home n v)) eqn:Hh; [|done].
  apply shard_has_spec in Hh as (s & Hs & Hv).
  destruct (add_to_home_placed n v sm Hn Hp) as (s' & Hs' & ->). simplify_eq.
  rewrite Shard_AddValidator_in by done. by rewrite set_shard_same.
Qed.

Lemma ShardManager_RemoveValidator_placed n ord sm v :
  0 < n -> placed n sm -> is_order (Shards sm) ord ->
  ShardManager_RemoveValidator ord v sm =
    match Shards sm !! home n v with
    | Some s => if bool_decide (v ∈ shard_validators s)
                then (set_shard sm (home n v) (Shard_RemoveValidator s v), Ok tt)
                else (sm, Err (ErrMsg "validator %s is not assigned to any shard"))
    | None => (sm, Err (ErrMsg "validator %s is not assigned to any shard"))
    end.
Proof.
  intros Hn Hp Hord. unfold ShardManager_RemoveValidator.
  rewrite (assigned_shard_placed n) by done. unfold shard_has.
  destruct (Shards sm !! home n v) as [s|] eqn:Hs; [|done]. unfold Shard_HasValidator.
  destruct (bool_decide _); [|done]. cbn. by rewrite Hs.
Qed.

(** ** Rebalancing *)
Definition cleared (sm : ShardManager) (ids : list Z) : gmap Z Shard :=
  map_imap (fun id s => Some (if decide (id ∈ ids) then Shard_ClearValidators s else s))
    (Shards sm).

Lemma cleared_lookup sm ids id :
  cleared sm ids !! id = (fun s => if decide (id ∈ ids) then Shard_ClearValidators s else s)
                         <$> Shards sm !! id.
Proof. unfold cleared. rewrite map_lookup_imap. by destruct (Shards sm !! id). Qed.

Lemma collect_spec vord ord sm :
  (forall l, vord l ≡ₚ l) -> NoDup ord ->
  let '(vs, sm') := collect vord ord sm in
  (forall v, v ∈ vs <-> exists id s, id ∈ ord /\ Shards sm !! id = Some s /\ v ∈ shard_validators s)
  /\ ShardCount sm' = ShardCount sm /\ Shards sm' = cleared sm ord.
Proof.
  intros Hvord. unfold collect. induction ord as [|id ord IH] using rev_ind.
  { intros _. cbn. split; [|split; [done|]].
    - intros v. split; [by intros ?%not_elem_of_nil|]. intros (id & s & Hin & _). set_solver.
    - apply map_eq. intros id. rewrite cleared_lookup. by destruct (Shards sm !! id). }
  intros (Hnd & Hdisj & _)%NoDup_app. specialize (IH Hnd).
  assert (id ∉ ord) as Hid by (intros Hin; by apply (Hdisj id Hin), list_elem_of_singleton).
  rewrite foldl_app. cbn. destruct (foldl _ _ ord) as [vs sm']. destruct IH as (Hvs & Hc & Hsh).
  unfold collect_step. cbn. rewrite Hsh, cleared_lookup.
  destruct (Shards sm !! id) as [s|] eqn:Hs; cbn; [rewrite decide_False by done; cbn|].
  - split; [|split; [done|]].
    + intros v. unfold ListValidators. rewrite elem_of_app, Hvs, Hvord, elem_of_elements. split.
      * intros [(id' & s' & ? & ? & ?)|Hv]; [exists id', s'|exists id, s]; set_solver.
      * intros (id' & s' & Hin & Hs' & Hv). rewrite elem_of_app, list_elem_of_singleton in Hin.
        destruct Hin as [Hin| ->]; [left; eauto|right]. by simplify_eq.
    + cbn. rewrite Hsh. apply map_eq. intros id'. destruct (decide (id = id')) as [<-|Hne].
      * rewrite lookup_insert_eq, cleared_lookup, Hs. cbn. rewrite decide_True by set_solver. done.
      * rewrite lookup_insert_ne by done. rewrite !cleared_lookup.
        destruct (Shards sm !! id') as [s'|]; [cbn|done]. f_equal.
        destruct (decide (id' ∈ ord)), (decide (id' ∈ ord ++ [id])); set_solver.
  - split; [|split; [done|]].
    + intros v. rewrite Hvs. split.
      * intros (id' & s' & ? & ? & ?). exists id', s'. set_solver.
      * intros (id' & s' & Hin & Hs' & Hv). rewrite elem_of_app, list_elem_of_singleton in Hin.
        destruct Hin as [Hin| ->]; [eauto|congruence].
    + rewrite Hsh. apply map_eq. intros id'. rewrite !cleared_lookup.
      destruct (Shards sm !! id') as [s'|] eqn:Hs'; [cbn|done]. f_equal.
      assert (id' <> id) by congruence.
      destruct (decide (id' ∈ ord)), (decide (id' ∈ ord ++ [id])); set_solver.
Qed.

(** Adding validators to their home shards, one by one. *)
Lemma readd_spec n vs sm :
  0 < n -> placed n sm ->
  exists sm', io_iter (fun v => _ ← add_to_home v; mret tt) vs sm = (sm', Ok tt) /\
  ShardCount sm' = n /\
  forall id, Shards sm' !! id =
    (fun s => shard_set_validators s
       (shard_validators s ∪ list_to_set (base.filter (fun v => home n v = id) vs)))
    <$> Shards sm !! id.
Proof.
  intros Hn. revert sm. induction vs as [|v vs IH]; intros sm Hp; cbn [io_iter].
  { exists sm. split; [done|]. split; [apply Hp|]. intros id.
    destruct (Shards sm !! id) as [s|]; [|done]. cbn. f_equal. apply Shard_eq; [done| |done].
    cbn. set_solver. }
  destruct (add_to_home_placed n v sm Hn Hp) as (s & Hs & E).
  pose proof (add_to_home_keeps n v sm Hn Hp) as Hp'. rewrite E in Hp'.
  destruct (IH _ Hp') as (sm' & Hrun & Hc & Hsh). exists sm'. split.
  { erewrite io_bind_Ok; [exact Hrun|]. by erewrite io_bind_Ok by exact E. }
  split; [done|]. intros id. rewrite Hsh. cbn [fst set_shard Shards].
  rewrite filter_cons. destruct (decide (home n v = id)) as [<-|Hne].
  - rewrite lookup_insert_eq, Hs. cbn. f_equal. apply Shard_eq; [done| |done]. cbn. set_solver.
  - by rewrite lookup_insert_ne.
Qed.

Lemma RebalanceShards_placed n vord ord sm :
  0 < n -> placed n sm -> is_order (Shards sm) ord -> (forall l, vord l ≡ₚ l) ->
  RebalanceShards vord ord sm = (sm, Ok tt).
Proof.
  intros Hn Hp Hord Hvord. unfold RebalanceShards.
  pose proof (collect_spec vord ord sm Hvord (is_order_NoDup _ _ Hord)) as Hcol.
  destruct (collect vord ord sm) as [vs sm1]. destruct Hcol as (Hvs & Hc & Hsh).
  assert (forall id s, Shards sm !! id = Some s -> id ∈ ord) as Hall.
  { intros id s Hs. apply (is_order_elem _ _ _ Hord). eauto. }
  assert (forall id, Shards sm1 !! id = Shard_ClearValidators <$> Shards sm !! id) as Hcl.
  { intros id. rewrite Hsh, cleared_lookup. destruct (Shards sm !! id) eqn:Hs; [|done].
    cbn. by rewrite decide_True by eauto. }
  assert (placed n sm1) as Hp1.
  { split; [by rewrite Hc; apply Hp|..]; intros id; [|intros s|intros s v]; rewrite Hcl.
    - rewrite fmap_is_Some. apply Hp.
    - intros (s1 & Hs1 & ->)%fmap_Some. cbn. by apply Hp.
    - intros (s1 & Hs1 & ->)%fmap_Some. cbn. set_solver. }
  destruct (readd_spec n vs sm1 Hn Hp1) as (sm2 & -> & Hc2 & Hsh2). f_equal.
  apply ShardManager_eq; [by rewrite Hc2; symmetry; apply Hp|].
  apply map_eq. intros id. rewrite Hsh2, Hcl.
  destruct (Shards sm !! id) as [s|] eqn:Hs; [|done]. cbn. f_equal.
  apply Shard_eq; [done| |done]. cbn. apply leibniz_equiv. intros v.
  rewrite elem_of_union, elem_of_list_to_set, list_elem_of_filter, Hvs. split.
  - intros [?|[Hh (id' & s' & _ & Hs' & Hv)]]; [set_solver|].
    assert (id' = id) as -> by (rewrite <- Hh; symmetry; by eapply (pl_home _ _ Hp)). by simplify_eq.
  - intros Hv. right. split; [by eapply (pl_home _ _ Hp)|]. eauto 6.
Qed.

Lemma placed_step n sm op :
  0 < n -> placed n sm -> op_ok sm op -> placed n (shard_step sm op).
Proof.
  intros Hn Hp. destruct op as [ord v|ord v|vord ord|id key value]; cbn.
  - intros Hord. rewrite (AssignValidator_placed n) by done. by apply add_to_home_keeps.
  - intros Hord. rewrite (ShardManager_RemoveValidator_placed n) by done.
    destruct (Shards sm !! home n v) as [s|] eqn:Hs; [|done].
    case_bool_decide; [|done]. cbn. eapply placed_set; [done..|]. cbn. set_solver.
  - intros [Hord Hv]. by rewrite (RebalanceShards_placed n).
  - intros _. unfold store_at. destruct (Shards sm !! id) as [s|] eqn:Hs; [|done].
    eapply placed_set; [done..|]. cbn. set_solver.
Qed.

Lemma reachable_placed n sm : 0 < n -> shards_reachable n sm -> placed n sm.
Proof. intros Hn. induction 1; [apply placed_new|by apply placed_step]. Qed.

(** C29: sharding is a stateless function.  On every manager that operations
    can lead to, and for every iteration order of its maps, assigning a
    validator gives exactly the shard its hash selects (the search for an
    earlier assignment changes neither the state nor the result), every listed
    validator of a shard hashes to that shard, and rebalancing is the identity
    on the whole state: it does not maintain the load balance that the comment
    of [RebalanceShards] promises, and the hash modulo the number of shards is
    not the consistent hashing of the comment of [AssignValidator]. *)
Theorem sharding_is_hash n sm ord vord v :
  0 < n -> shards_reachable n sm -> is_order (Shards sm) ord -> (forall l, vord l ≡ₚ l) ->
  (exists s, Shards sm !! home n v = Some s /\
     AssignValidator ord v sm =
       (set_shard sm (home n v) (Shard_AddValidator s v), Ok (home n v))) /\
  RebalanceShards vord ord sm = (sm, Ok tt) /\
  (forall id vs, GetValidatorsInShard vord sm id = Ok vs ->
     0 <= id < n /\ NoDup vs /\ Forall (fun v => home n v = id) vs).
Proof.
  intros Hn Hr Hord Hvord. pose proof (reachable_placed n sm Hn Hr) as Hp.
  split; [|split].
  - destruct (add_to_home_placed n v sm Hn Hp) as (s & Hs & E). exists s. split; [done|].
    by rewrite (AssignValidator_placed n).
  - by apply (RebalanceShards_placed n).
  - intros id vs. unfold GetValidatorsInShard.
    destruct (Shards sm !! id) as [s|] eqn:Hs; [|done]. intros [= <-]. unfold ListValidators.
    split; [apply (pl_dom _ _ Hp); eauto|]. rewrite Hvord. split; [apply NoDup_elements|].
    apply Forall_forall. intros u Hu. rewrite elem_of_elements in Hu.
    by eapply (pl_home _ _ Hp).
Qed.

(** Without shards every assignment of a validator panics: a division by
    zero, or a nil shard for a negative count. *)
Lemma AssignValidator_no_shards n ord v :
  n <= 0 -> (AssignValidator ord v (NewShardManager n)).2 = Panic.
Proof.
  intros Hn. assert (forall id, Shards (NewShardManager n) !! id = None) as Hnone.
  { intros id. rewrite NewShardManager_lookup. by rewrite decide_False by lia. }
  unfold AssignValidator, assigned_shard.
  destruct (base.filter _ ord) as [|id l] eqn:Hf; cbn [head].
  - unfold add_to_home, modulo_count. cbn [ShardCount NewShardManager].
    destruct (n =? 0); [done|]. by rewrite Hnone.
  - assert (id ∈ id :: l) as Hin by left. rewrite <- Hf, list_elem_of_filter in Hin.
    destruct Hin as [Hh _]. unfold shard_has in Hh. by rewrite Hnone in Hh.
Qed.

(** Data goes to the shard its key hashes to. *)
Lemma GetShardForData_placed n sm key :
  0 < n -> placed n sm ->
  exists s, GetShardForData sm key = Ok s /\ Shard_ID s = hashData key mod n.
Proof.
  intros Hn Hp. unfold GetShardForData, modulo_count. rewrite (pl_count _ _ Hp).
  rewrite (proj2 (Z.eqb_neq n 0)) by lia. rewrite bind_Ok.
  rewrite Z.rem_mod_nonneg by (lia || apply Fnv.Sum32a_range).
  destruct (proj2 (pl_dom _ _ Hp (hashData key mod n))) as [s Hs].
  { by apply Z.mod_pos_bound. }
  rewrite Hs. exists s. split; [done|]. by apply (pl_id _ _ Hp).
Qed.
End Sharding.

(** Three shards, peer IDs printed as they are, two validators. *)
Definition shards_example : ShardManager :=
  (AssignValidator id [2; 0; 1] (str "dave")
    (AssignValidator id [0; 1; 2] (str "alice") (NewShardManager 3)).1).1.

Lemma three_shards (sm : ShardManager) ord :
  (map_to_list (Shards sm)).*1 ≡ₚ [0; 1; 2] -> ord ≡ₚ [0; 1; 2] -> is_order (Shards sm) ord.
Proof. unfold is_order. by intros -> ->. Qed.

Lemma shards_example_reachable : shards_reachable id 3 shards_example.
Proof.
  apply (sr_step id 3 _ (OpAssign [2; 0; 1] (str "dave"))); [|apply three_shards].
  - apply (sr_step id 3 _ (OpAssign [0; 1; 2] (str "alice"))); [constructor|].
    apply three_shards; [|done]. apply (bool_decide_unpack _). vm_compute. exact I.
  - apply (bool_decide_unpack _). vm_compute. exact I.
  - apply (bool_decide_unpack _). vm_compute. exact I.
Qed.

Lemma sharding_is_hash_witness :
  (AssignValidator id [1; 2; 0] (str "alice") shards_example).2 =
    Ok (home id 3 (str "alice")) /\
  RebalanceShards id reverse [1; 2; 0] shards_example = (shards_example, Ok tt) /\
  home id 3 (str "alice") <> home id 3 (str "dave").
Proof.
  assert (is_order (Shards shards_example) [1; 2; 0]) as Hord.
  { apply three_shards; apply (bool_decide_unpack _); vm_compute; exact I. }
  destruct (sharding_is_hash id 3 shards_example [1; 2; 0] reverse (str "alice"))
    as ((s & _ & E) & R & _).
  - lia.
  - apply shards_example_reachable.
  - exact Hord.
  - intros l. apply reverse_Permutation.
  - split; [by rewrite E|]. split; [exact R|]. apply Z.eqb_neq. vm_compute. reflexivity.
Defined.
