(* ===== verification/StateManager.v ===== *)
(** The managers of service states: [pkg/validator/state.go],
    [pkg/node/state.go], [pkg/runtime/state.go] and [pkg/sequencer/state.go].

    The four files declare the same manager over different state types; the
    shared code is a Section over the state type and over the states that
    notify waiters, and a Module per package instantiates it.  A channel is a
    number, [make(chan struct{})] a fresh one; the set of closed channels is
    part of the state.  [WaitForState] gives up its lock and blocks, so it is
    a machine whose steps are the sections between two lock operations; calls
    of [SetState] and steps of any number of waiters interleave freely, and a
    timeout may fire whenever a waiter is blocked.  Logging and metrics are
    left out. *)
From S2P Require Import Prelude.

(** Where a call of [WaitForState] is. *)
Inductive phase (State : Type) :=
| Begin
| AwaitAdded (ch : N)
| Recheck
| Compare (state : State)
| Register
| AwaitState (ch : N)
| Done (r : res unit).
Arguments Begin {State}.
Arguments AwaitAdded {State} ch.
Arguments Recheck {State}.
Arguments Compare {State} state.
Arguments Register {State}.
Arguments AwaitState {State} ch.
Arguments Done {State} r.

Section Manager.
Context {State : Type} `{EqDecision State}.
(** The zero value of the state type, and the states on which [SetState]
    closes the channel of the service. *)
Context (zero : State) (notifies : State -> bool).

Record StateManager := {
  serviceStates : gmap string State;
  waitChans : gmap string N;
  closed_chans : gset N;
  next_chan : N;
}.

Definition NewStateManager : StateManager :=
  {| serviceStates := ∅; waitChans := ∅; closed_chans := ∅; next_chan := 0%N |}.

(** [close(ch)] of a closed channel panics. *)
Definition SetState (sm : StateManager) (stateType : string) (state : State) :
    res StateManager :=
  let states := <[stateType := state]> (serviceStates sm) in
  match (if notifies state then waitChans sm !! stateType else None) with
  | None =>
      Ok {| serviceStates := states; waitChans := waitChans sm;
            closed_chans := closed_chans sm; next_chan := next_chan sm |}
  | Some ch =>
      if decide (ch ∈ closed_chans sm) then Panic
      else
        Ok {| serviceStates := states; waitChans := delete stateType (waitChans sm);
              closed_chans := {[ch]} ∪ closed_chans sm; next_chan := next_chan sm |}
  end.

(** A missing key reads as the zero value. *)
Definition GetState (sm : StateManager) (stateType : string) : State :=
  default zero (serviceStates sm !! stateType).

(** [ch := make(chan struct{}); sm.waitChans[stateType] = ch]. *)
Definition make_wait (sm : StateManager) (stateType : string) : StateManager :=
  {| serviceStates := serviceStates sm;
     waitChans := <[stateType := next_chan sm]> (waitChans sm);
     closed_chans := closed_chans sm; next_chan := (next_chan sm + 1)%N |}.

(** Using the channel of a service, or making it. *)
Definition register_wait (sm : StateManager) (stateType : string) :
    StateManager * phase State :=
  match waitChans sm !! stateType with
  | Some ch => (sm, AwaitState ch)
  | None => (make_wait sm stateType, AwaitState (next_chan sm))
  end.

(** One step of [WaitForState] of the validator, the node and the runtime;
    [None] when the call is blocked on an open channel or has returned. *)
Definition wait_step (stateType : string) (desiredState : State) (sm : StateManager)
    (p : phase State) : option (StateManager * phase State) :=
  match p with
  | Begin =>
      match serviceStates sm !! stateType with
      | None => Some (make_wait sm stateType, AwaitAdded (next_chan sm))
      | Some state => Some (sm, Compare state)
      end
  | AwaitAdded ch => if decide (ch ∈ closed_chans sm) then Some (sm, Recheck) else None
  | Recheck => Some (sm, Compare (GetState sm stateType))
  | Compare state =>
      if decide (state = desiredState) then Some (sm, Done (Ok tt)) else Some (sm, Register)
  | Register => Some (register_wait sm stateType)
  | AwaitState ch => if decide (ch ∈ closed_chans sm) then Some (sm, Done (Ok tt)) else None
  | Done _ => None
  end.

(** One step of [WaitForState] of the sequencer, which looks at the state and
    registers under one lock, and looks again when it is woken. *)
Definition seq_wait_step (st : string) (desiredState : State) (sm : StateManager)
    (p : phase State) : option (StateManager * phase State) :=
  match p with
  | Begin =>
      if decide (serviceStates sm !! st = Some desiredState) then Some (sm, Done (Ok tt))
      else Some (register_wait sm st)
  | AwaitState ch => if decide (ch ∈ closed_chans sm) then Some (sm, Recheck) else None
  | Recheck =>
      Some (sm, Done (if decide (GetState sm st = desiredState) then Ok tt
                      else Err (ErrMsg "sequencer did not reach desired state: %s")))
  | _ => None
  end.

(** What a call returns when its timer fires. *)
Definition on_timeout (p : phase State) : option (res unit) :=
  match p with
  | AwaitAdded _ => Some (Err (ErrMsg "node component %s did not appear within %v"))
  | AwaitState _ => Some (Err (ErrMsg "service %s did not reach state %s within %v"))
  | _ => None
  end.
Definition seq_on_timeout (p : phase State) : option (res unit) :=
  match p with
  | AwaitState _ => Some (Err (ErrMsg "timeout waiting for sequencer to reach state: %s"))
  | _ => None
  end.

(** * Invariant *)
(** A notifying state was set for the service. *)
Definition notified (h : list (string * State)) (st : string) : Prop :=
  exists s, notifies s = true /\ (st, s) ∈ h.

Record mgr_ok (h : list (string * State)) (sm : StateManager) : Prop := {
  mo_open : forall st ch, waitChans sm !! st = Some ch ->
    (ch ∉ closed_chans sm) /\ (ch < next_chan sm)%N;
  mo_inj : forall st st' ch,
    waitChans sm !! st = Some ch -> waitChans sm !! st' = Some ch -> st = st';
  mo_closed : forall ch, ch ∈ closed_chans sm -> (ch < next_chan sm)%N;
  mo_states : forall st s, serviceStates sm !! st = Some s -> (st, s) ∈ h;
  mo_tracked : forall st s, (st, s) ∈ h -> is_Some (serviceStates sm !! st);
}.

(** A channel some waiter of service [st] holds. *)
Record chan_ok (h : list (string * State)) (sm : StateManager) (st : string) (ch : N) : Prop := {
  co_made : (ch < next_chan sm)%N;
  co_own : forall st', waitChans sm !! st' = Some ch -> st' = st;
  co_closed : ch ∈ closed_chans sm -> notified h st;
}.

Definition phase_ok (h : list (string * State)) (sm : StateManager) (st : string)
    (desired : State) (p : phase State) : Prop :=
  match p with
  | AwaitAdded ch | AwaitState ch => chan_ok h sm st ch
  | Recheck => notified h st
  | Compare s => (st, s) ∈ h
  | Done (Ok _) => (st, desired) ∈ h \/ notified h st
  | Done Panic => False
  | _ => True
  end.

(** What the step of a waiter does to the manager. *)
Record sm_le (sm sm' : StateManager) : Prop := {
  le_next : (next_chan sm <= next_chan sm')%N;
  le_closed : closed_chans sm' = closed_chans sm;
  le_states : serviceStates sm' = serviceStates sm;
  le_chans : forall st ch, waitChans sm' !! st = Some ch ->
    waitChans sm !! st = Some ch \/ (next_chan sm <= ch)%N;
}.

Lemma phase_ok_le h sm sm' st d p : sm_le sm sm' -> phase_ok h sm st d p -> phase_ok h sm' st d p.
Proof.
  intros [Hn Hc Hs Hw]. assert (forall ch, chan_ok h sm st ch -> chan_ok h sm' st ch) as Hch.
  { intros ch [H1 H2 H3]. split; [lia| |by rewrite Hc].
    intros st' H. destruct (Hw _ _ H); [by apply H2|lia]. }
  destruct p; cbn; auto.
Qed.

Lemma sm_le_refl sm : sm_le sm sm.
Proof. split; [lia|done|done|by left]. Qed.

Lemma sm_le_make sm st : sm_le sm (make_wait sm st).
Proof.
  split; cbn; [lia|done|done|]. intros st' ch.
  destruct (decide (st = st')) as [<-|Hne].
  - rewrite lookup_insert_eq. intros [= <-]. right. lia.
  - rewrite lookup_insert_ne by done. by left.
Qed.

Lemma make_wait_ok h sm st :
  mgr_ok h sm -> mgr_ok h (make_wait sm st) /\ chan_ok h (make_wait sm st) st (next_chan sm).
Proof.
  intros [H1 H2 H3 H4 H5]. split; split; cbn; [..|lia| |].
  - intros st' ch. destruct (decide (st = st')) as [<-|Hne].
    + rewrite lookup_insert_eq. intros [= <-]. split; [|lia]. intros ?%H3. lia.
    + rewrite lookup_insert_ne by done. intros H. destruct (H1 _ _ H). split; [done|lia].
  - intros st1 st2 ch. destruct (decide (st = st1)) as [<-|Hne1], (decide (st = st2)) as [<-|Hne2];
      rewrite ?lookup_insert_eq, ?lookup_insert_ne by done; [done| | |apply H2].
    + intros [= <-] H. destruct (H1 _ _ H). lia.
    + intros H [= <-]. destruct (H1 _ _ H). lia.
  - intros ch H. specialize (H3 _ H). lia.
  - done.
  - done.
  - intros st'. destruct (decide (st = st')) as [<-|Hne]; [done|].
    rewrite lookup_insert_ne by done. intros H. destruct (H1 _ _ H). lia.
  - intros H. specialize (H3 _ H). lia.
Qed.

Lemma register_wait_ok h sm st :
  mgr_ok h sm ->
  let '(sm', p) := register_wait sm st in
  mgr_ok h sm' /\ sm_le sm sm' /\ forall d, phase_ok h sm' st d p.
Proof.
  intros Hm. unfold register_wait. destruct (waitChans sm !! st) as [ch|] eqn:Hch.
  - split; [done|]. split; [apply sm_le_refl|]. intros d. destruct (mo_open _ _ Hm _ _ Hch).
    split; [done| |done]. intros st' H'. by eapply mo_inj.
  - destruct (make_wait_ok h sm st Hm). split; [done|]. split; [apply sm_le_make|done].
Qed.

Lemma SetState_ok h sm st state :
  mgr_ok h sm -> exists sm', SetState sm st state = Ok sm' /\
  mgr_ok (h ++ [(st, state)]) sm' /\
  (forall st' d p, phase_ok h sm st' d p -> phase_ok (h ++ [(st, state)]) sm' st' d p).
Proof.
  intros Hm. unfold SetState.
  assert (forall st' s, <[st:=state]> (serviceStates sm) !! st' = Some s -> (st', s) ∈ h ++ [(st, state)])
    as Hst.
  { intros st' s. destruct (decide (st = st')) as [<-|Hne].
    - rewrite lookup_insert_eq. intros [= <-]. set_solver.
    - rewrite lookup_insert_ne by done. intros ?%(mo_states _ _ Hm). set_solver. }
  assert (forall st' s, (st', s) ∈ h ++ [(st, state)] -> is_Some (<[st:=state]> (serviceStates sm) !! st'))
    as Htr.
  { intros st' s. rewrite elem_of_app, list_elem_of_singleton, lookup_insert_is_Some.
    destruct (decide (st = st')); [by left|]. intros [H|[= -> ->]]; [|done].
    right. split; [done|]. by eapply mo_tracked. }
  assert (forall st', notified h st' -> notified (h ++ [(st, state)]) st') as Hnot.
  { intros st' (s & ? & ?). exists s. set_solver. }
  assert (forall st' d p sm', (forall ch, chan_ok h sm st' ch -> chan_ok (h ++ [(st, state)]) sm' st' ch) ->
     phase_ok h sm st' d p -> phase_ok (h ++ [(st, state)]) sm' st' d p) as Hph.
  { intros st' d p sm' Hch. destruct p as [| | |s| | |[u|e|]]; cbn; try done; auto.
    - set_solver.
    - intros [?|?]; [left; set_solver|right; auto]. }
  destruct (if notifies state then _ else None) as [ch|] eqn:Hch.
  - destruct (notifies state) eqn:Hn; [|done]. destruct (mo_open _ _ Hm _ _ Hch) as [Hop Hlt].
    rewrite decide_False by done. eexists. split; [done|]. destruct Hm as [H1 H2 H3 H4 H5].
    split; [split; cbn; [..|done|done]|].
    + intros st' ch'. rewrite lookup_delete_Some. intros [Hne H']. destruct (H1 _ _ H') as [? ?].
      split; [|done]. intros [->%elem_of_singleton|?]%elem_of_union; [|done]. by apply Hne, (H2 _ _ ch).
    + intros st1 st2 ch'. rewrite !lookup_delete_Some. intros [_ ?] [_ ?]. by eapply H2.
    + intros ch' [->%elem_of_singleton|?]%elem_of_union; [done|by apply H3].
    + intros st' d p. apply Hph. intros ch' [G1 G2 G3]. split; cbn; [done| |].
      * intros st2. rewrite lookup_delete_Some. intros [_ ?]. by apply G2.
      * intros [->%elem_of_singleton|?]%elem_of_union; [|by apply Hnot, G3].
        rewrite <- (G2 _ Hch). exists state. set_solver.
  - eexists. split; [done|]. destruct Hm as [H1 H2 H3 H4 H5]. split; [by split|].
    intros st' d p. apply Hph. intros ch' [G1 G2 G3]. split; cbn; [done..|auto].
Qed.

Lemma SetState_states sm sm' st state :
  SetState sm st state = Ok sm' -> serviceStates sm' = <[st := state]> (serviceStates sm).
Proof.
  unfold SetState. destruct (if notifies state then _ else None); [case_decide; [done|]|];
    by intros [= <-].
Qed.

(** * A manager, its waiters, and the calls of SetState so far *)
Section System.
Context (step : string -> State -> StateManager -> phase State ->
                option (StateManager * phase State))
        (timeout : phase State -> option (res unit)).

Record waiter := { w_type : string; w_desired : State; w_phase : phase State }.
Record sys := {
  mgr : StateManager;
  waiters : gmap N waiter;
  history : list (string * State);
}.

Definition set_phase (w : waiter) (p : phase State) : waiter :=
  {| w_type := w_type w; w_desired := w_desired w; w_phase := p |}.
Definition move (s : sys) (i : N) (sm : StateManager) (w : waiter) : sys :=
  {| mgr := sm; waiters := <[i := w]> (waiters s); history := history s |}.

Definition sys_init : sys := {| mgr := NewStateManager; waiters := ∅; history := [] |}.

Inductive sys_step : sys -> sys -> Prop :=
| step_set s st state sm :
    SetState (mgr s) st state = Ok sm ->
    sys_step s {| mgr := sm; waiters := waiters s; history := history s ++ [(st, state)] |}
| step_call s i st desired :
    waiters s !! i = None ->
    sys_step s (move s i (mgr s) {| w_type := st; w_desired := desired; w_phase := Begin |})
| step_wait s i w sm p :
    waiters s !! i = Some w ->
    step (w_type w) (w_desired w) (mgr s) (w_phase w) = Some (sm, p) ->
    sys_step s (move s i sm (set_phase w p))
| step_timeout s i w r :
    waiters s !! i = Some w -> timeout (w_phase w) = Some r ->
    sys_step s (move s i (mgr s) (set_phase w (Done r))).

(** The same steps as a function, for running schedules. *)
Inductive sys_op :=
| OSet (st : string) (state : State)
| OCall (i : N) (st : string) (desired : State)
| OWait (i : N)
| OTimeout (i : N).

Definition exec (s : sys) (op : sys_op) : option sys :=
  match op with
  | OSet st state =>
      match SetState (mgr s) st state with
      | Ok sm => Some {| mgr := sm; waiters := waiters s; history := history s ++ [(st, state)] |}
      | _ => None
      end
  | OCall i st desired =>
      match waiters s !! i with
      | None => Some (move s i (mgr s) {| w_type := st; w_desired := desired; w_phase := Begin |})
      | Some _ => None
      end
  | OWait i =>
      w ← waiters s !! i;
      '(sm, p) ← step (w_type w) (w_desired w) (mgr s) (w_phase w);
      Some (move s i sm (set_phase w p))
  | OTimeout i =>
      w ← waiters s !! i;
      r ← timeout (w_phase w);
      Some (move s i (mgr s) (set_phase w (Done r)))
  end.
Definition schedule (s : sys) (ops : list sys_op) : option sys :=
  foldl (fun o op => s ← o; exec s op) (Some s) ops.

Lemma exec_step s op s' : exec s op = Some s' -> sys_step s s'.
Proof.
  destruct op as [st state|i st d|i|i]; cbn.
  - destruct (SetState _ _ _) eqn:E; [|done..]. intros [= <-]. by constructor.
  - destruct (waiters s !! i) eqn:E; [done|]. intros [= <-]. by constructor.
  - destruct (waiters s !! i) as [w|] eqn:E; [|done]. cbn.
    destruct (step _ _ _ _) as [[sm p]|] eqn:Es; [|done]. intros [= <-]. by econstructor.
  - destruct (waiters s !! i) as [w|] eqn:E; [|done]. cbn.
    destruct (timeout _) as [r|] eqn:Es; [|done]. intros [= <-]. by eapply step_timeout.
Qed.

Lemma schedule_steps s ops s' : schedule s ops = Some s' -> rtc sys_step s s'.
Proof.
  unfold schedule. revert s. induction ops as [|op ops IH]; intros s; cbn.
  { by intros [= <-]. }
  destruct (exec s op) as [s1|] eqn:E.
  - intros H. eapply rtc_l; [by apply (exec_step _ op)|by apply IH].
  - intros H. exfalso. clear IH E. induction ops; cbn in H; [done|auto].
Qed.

Definition sys_reachable : sys -> Prop := rtc sys_step sys_init.

(** Both machines keep what the other waiters rely on. *)
Definition step_keeps : Prop := forall h st d sm p sm' p',
  mgr_ok h sm -> phase_ok h sm st d p -> step st d sm p = Some (sm', p') ->
  mgr_ok h sm' /\ sm_le sm sm' /\ phase_ok h sm' st d p'.
Definition timeout_errs : Prop := forall p r, timeout p = Some r -> exists e, r = Err e.

Definition sys_ok (s : sys) : Prop :=
  mgr_ok (history s) (mgr s) /\
  forall i w, waiters s !! i = Some w ->
    phase_ok (history s) (mgr s) (w_type w) (w_desired w) (w_phase w).

Lemma sys_step_ok s s' : step_keeps -> timeout_errs -> sys_ok s -> sys_step s s' -> sys_ok s'.
Proof.
  intros Hstep Htime [Hm Hw] Hs. destruct Hs as [s st state sm Hset|s i st d _|s i w sm p Hi Hp|s i w r Hi Hr].
  - destruct (SetState_ok _ _ st state Hm) as (sm' & E & Hm' & Hph).
    rewrite Hset in E. injection E as <-.
    split; [done|]. intros i w Hi. cbn in *. by apply Hph, (Hw i).
  - split; [done|]. intros j w. cbn. rewrite lookup_insert_Some.
    intros [[_ <-]|[_ Hj]]; [done|by apply (Hw j)].
  - destruct (Hstep _ _ _ _ _ _ _ Hm (Hw _ _ Hi) Hp) as (Hm' & Hle & Hph).
    split; [done|]. intros j w'. cbn. rewrite lookup_insert_Some.
    intros [[_ <-]|[_ Hj]]; [done|]. by eapply phase_ok_le, Hw.
  - split; [done|]. intros j w'. cbn. rewrite lookup_insert_Some.
    intros [[_ <-]|[_ Hj]]; [|by apply (Hw j)]. destruct (Htime _ _ Hr) as [e ->]. done.
Qed.

Lemma sys_init_ok : sys_ok sys_init.
Proof.
  split; [split; cbn|]; intros *; rewrite ?lookup_empty; try done; set_solver.
Qed.

Lemma sys_reachable_ok s : step_keeps -> timeout_errs -> sys_reachable s -> sys_ok s.
Proof.
  intros Hstep Htime. apply (rtc_ind_r sys_ok); [apply sys_init_ok|].
  intros ??? Hxy. intros. by eapply sys_step_ok.
Qed.
End System.

Lemma wait_step_keeps : step_keeps wait_step.
Proof.
  intros h st d sm p sm' p' Hm Hp. destruct p as [|ch| |s| |ch|r]; cbn; try done.
  - destruct (serviceStates sm !! st) as [s|] eqn:Hs; intros [= <- <-].
    + split; [done|]. split; [apply sm_le_refl|]. by apply (mo_states _ _ Hm).
    + destruct (make_wait_ok h sm st Hm). split; [done|]. by split; [apply sm_le_make|].
  - case_decide as Hc; [|done]. intros [= <- <-].
    split; [done|]. split; [apply sm_le_refl|]. by apply Hp.
  - intros [= <- <-]. split; [done|]. split; [apply sm_le_refl|]. cbn.
    destruct Hp as (s & _ & Hin). unfold GetState.
    destruct (mo_tracked _ _ Hm _ _ Hin) as [s' Hs']. rewrite Hs'. cbn. by apply (mo_states _ _ Hm).
  - case_decide as Hd; intros [= <- <-]; (split; [done|]); (split; [apply sm_le_refl|]); [|done].
    subst. by left.
  - intros [= E]. pose proof (register_wait_ok h sm st Hm) as Hr. rewrite E in Hr.
    destruct Hr as (? & ? & ?). by split_and!.
  - case_decide as Hc; [|done]. intros [= <- <-].
    split; [done|]. split; [apply sm_le_refl|]. right. by apply Hp.
Qed.

Lemma seq_wait_step_keeps : step_keeps seq_wait_step.
Proof.
  intros h st d sm p sm' p' Hm Hp. destruct p as [|ch| |s| |ch|r]; cbn; try done.
  - case_decide as Hd.
    + intros [= <- <-]. split; [done|]. split; [apply sm_le_refl|]. left. by apply (mo_states _ _ Hm).
    + intros [= E]. pose proof (register_wait_ok h sm st Hm) as Hr. rewrite E in Hr.
      destruct Hr as (? & ? & ?). by split_and!.
  - intros [= <- <-]. split; [done|]. split; [apply sm_le_refl|].
    case_decide as Hd; [|done]. cbn. left. rewrite <- Hd. unfold GetState.
    destruct Hp as (s & _ & Hin). destruct (mo_tracked _ _ Hm _ _ Hin) as [s' Hs'].
    rewrite Hs'. cbn. by apply (mo_states _ _ Hm).
  - case_decide as Hc; [|done]. intros [= <- <-].
    split; [done|]. split; [apply sm_le_refl|]. by apply Hp.
Qed.

Lemma on_timeout_errs : timeout_errs on_timeout.
Proof. intros p r. destruct p; cbn; try done; intros [= <-]; eauto. Qed.
Lemma seq_on_timeout_errs : timeout_errs seq_on_timeout.
Proof. intros p r. destruct p; cbn; try done; intros [= <-]; eauto. Qed.

(** * What the machines promise *)
Abbreviation reachable := (sys_reachable wait_step on_timeout).
Abbreviation seq_reachable := (sys_reachable seq_wait_step seq_on_timeout).
Abbreviation waits := (rtc (sys_step wait_step on_timeout)).

Lemma reachable_ok s : reachable s -> sys_ok s.
Proof. apply sys_reachable_ok; [apply wait_step_keeps|apply on_timeout_errs]. Qed.
Lemma seq_reachable_ok s : seq_reachable s -> sys_ok s.
Proof. apply sys_reachable_ok; [apply seq_wait_step_keeps|apply seq_on_timeout_errs]. Qed.

(** Waiter [i] is blocked on channel [ch], which nobody will close, or has
    timed out. *)
Definition abandoned (ch : N) (s : sys) (i : N) : Prop :=
  exists w, waiters s !! i = Some w /\
  match w_phase w with
  | AwaitAdded c => c = ch /\ (ch < next_chan (mgr s))%N /\ (ch ∉ closed_chans (mgr s)) /\
                    forall st, waitChans (mgr s) !! st <> Some ch
  | Done (Err _) => True
  | _ => False
  end.

(** No call of [SetState] closes a channel that is not registered. *)
Lemma SetState_unregistered sm sm' st state ch :
  SetState sm st state = Ok sm' -> (ch ∉ closed_chans sm) ->
  (forall st', waitChans sm !! st' <> Some ch) ->
  next_chan sm' = next_chan sm /\ (ch ∉ closed_chans sm') /\
  forall st', waitChans sm' !! st' <> Some ch.
Proof.
  unfold SetState. intros Hset Hcl Hnone.
  destruct (if notifies state then _ else None) as [c|] eqn:Hch.
  - destruct (notifies state); [|done]. case_decide; [done|]. injection Hset as <-. cbn.
    split; [done|]. split.
    + intros [->%elem_of_singleton|?]%elem_of_union; [by eapply Hnone|done].
    + intros st'. rewrite lookup_delete_Some. intros [_ H']. by eapply Hnone.
  - injection Hset as <-. done.
Qed.

Lemma abandoned_stable ch s s' i :
  sys_ok s -> abandoned ch s i -> sys_step wait_step on_timeout s s' -> abandoned ch s' i.
Proof.
  intros [Hm Hph] (w & Hw & Hp) Hs.
  destruct Hs as [s st state sm Hset|s j st d Hj|s j w' sm p Hj Hstep|s j w' r Hj Hr].
  - exists w. split; [done|]. destruct (w_phase w) as [|c| | | | |[]]; try done. cbn in *.
    destruct Hp as (-> & Hlt & Hcl & Hnone).
    by destruct (SetState_unregistered _ _ _ _ _ Hset Hcl Hnone) as (-> & ? & ?).
  - exists w. split; [|done]. cbn. by rewrite lookup_insert_ne by congruence.
  - destruct (decide (i = j)) as [<-|Hne].
    + simplify_eq. destruct (w_phase w) as [|c| | | | |[]]; cbn in Hstep; try done.
      destruct Hp as (-> & _ & Hcl & _). by rewrite decide_False in Hstep.
    + exists w. split; [cbn; by rewrite lookup_insert_ne|].
      destruct (w_phase w) as [|c| | | | |[]]; try done. destruct Hp as (-> & Hlt & Hcl & Hnone).
      destruct (wait_step_keeps _ _ _ _ _ _ _ Hm (Hph _ _ Hj) Hstep) as (_ & [Hn Hc _ Hch] & _).
      cbn. split; [done|]. split; [lia|]. split; [by rewrite Hc|]. intros st H'.
      destruct (Hch _ _ H'); [by eapply Hnone|lia].
  - destruct (decide (i = j)) as [<-|Hne].
    + exists (set_phase w' (Done r)). simplify_eq. split; [by cbn; rewrite lookup_insert_eq|].
      cbn. destruct (on_timeout_errs _ _ Hr) as [e ->]. done.
    + exists w. split; [cbn; by rewrite lookup_insert_ne|done].
Qed.

Lemma abandoned_forever ch s s' i :
  sys_ok s -> abandoned ch s i -> waits s s' -> abandoned ch s' i.
Proof.
  intros Hok Ha Hr. induction Hr as [s|s s1 s' Hs Hr IH]; [done|]. apply IH.
  - eapply sys_step_ok; [apply wait_step_keeps|apply on_timeout_errs|done..].
  - by eapply abandoned_stable.
Qed.

(** Two waiters for one untracked service.  The second call replaces the
    channel the first one is blocked on, so in every later state, however
    often the service is started, the first call is still blocked or has
    returned its timeout error. *)
Theorem second_waiter_abandons_first s s' i j w w' ch sm p :
  reachable s -> i <> j ->
  waiters s !! i = Some w -> w_phase w = AwaitAdded ch ->
  waiters s !! j = Some w' -> w_phase w' = Begin -> w_type w' = w_type w ->
  serviceStates (mgr s) !! w_type w = None ->
  wait_step (w_type w') (w_desired w') (mgr s) (w_phase w') = Some (sm, p) ->
  waits (move s j sm (set_phase w' p)) s' ->
  exists v, waiters s' !! i = Some v /\
    (w_phase v = AwaitAdded ch \/ exists e, w_phase v = Done (Err e)).
Proof.
  intros Hr Hij Hi Hch Hj Hb Ht Hun Hstep Hrun.
  pose proof (reachable_ok s Hr) as [Hm Hph].
  assert (sys_ok (move s j sm (set_phase w' p))) as Hok.
  { eapply sys_step_ok; [apply wait_step_keeps|apply on_timeout_errs|by split|].
    by apply step_wait. }
  pose proof (Hph _ _ Hi) as Hc. rewrite Hch in Hc. destruct Hc as [Hlt Hown Hcl].
  assert (abandoned ch (move s j sm (set_phase w' p)) i) as Ha.
  { exists w. split; [cbn; by rewrite lookup_insert_ne|]. rewrite Hch.
    rewrite Hb in Hstep. cbn in Hstep. rewrite Ht, Hun in Hstep. injection Hstep as <- <-.
    cbn. split; [done|]. split; [lia|]. split.
    - intros Hin. destruct (Hcl Hin) as (st & _ & Hst).
      destruct (mo_tracked _ _ Hm _ _ Hst). congruence.
    - intros st. destruct (decide (w_type w = st)) as [<-|Hne].
      + rewrite lookup_insert_eq. intros [= ?]. lia.
      + rewrite lookup_insert_ne by done. by intros ?%Hown. }
  destruct (abandoned_forever ch _ s' i Hok Ha Hrun) as (v & Hv & Hp). exists v.
  split; [done|]. destruct (w_phase v) as [|c| | | | |[]]; try done; [left|right]; [|eauto].
  by destruct Hp as [-> _].
Qed.

(** C32: the manager under any interleaving of calls.  [SetState] never closes
    a channel twice, so it never panics; a waiter that returns without an
    error saw its state set or a notifying state set; and a waiter blocked on
    the registered channel of its service returns without an error at its next
    step after [SetState] with a notifying state. *)
Theorem WaitForState_spec s :
  reachable s ->
  (forall st state, exists sm, SetState (mgr s) st state = Ok sm) /\
  (forall i w, waiters s !! i = Some w -> w_phase w = Done (Ok tt) ->
     (w_type w, w_desired w) ∈ history s \/ notified (history s) (w_type w)) /\
  (forall i w ch state sm, waiters s !! i = Some w -> w_phase w = AwaitState ch ->
     waitChans (mgr s) !! w_type w = Some ch -> notifies state = true ->
     SetState (mgr s) (w_type w) state = Ok sm ->
     wait_step (w_type w) (w_desired w) sm (AwaitState ch) = Some (sm, Done (Ok tt))).
Proof.
  intros Hr. destruct (reachable_ok s Hr) as [Hm Hph]. split; [|split].
  - intros st state. destruct (SetState_ok _ _ st state Hm) as (sm & ? & _). eauto.
  - intros i w Hi Hd. specialize (Hph i w Hi). by rewrite Hd in Hph.
  - intros i w ch state sm _ _ Hch Hn. unfold SetState. rewrite Hn, Hch.
    case_decide; [done|]. intros [= <-]. cbn. rewrite decide_True; [done|set_solver].
Qed.

(** a call of the sequencer's [WaitForState] that returns without an
    error does so in a state where the service is in the desired state, and no
    call of its [SetState] panics. *)
Theorem seq_WaitForState_exact s i w sm :
  seq_reachable s -> waiters s !! i = Some w ->
  seq_wait_step (w_type w) (w_desired w) (mgr s) (w_phase w) = Some (sm, Done (Ok tt)) ->
  sm = mgr s /\ serviceStates (mgr s) !! w_type w = Some (w_desired w) /\
  forall st state, exists sm', SetState (mgr s) st state = Ok sm'.
Proof.
  intros Hr Hi Hs. destruct (seq_reachable_ok s Hr) as [Hm Hph].
  assert (forall st state, exists sm', SetState (mgr s) st state = Ok sm') as Hset.
  { intros st state. destruct (SetState_ok _ _ st state Hm) as (sm' & ? & _). eauto. }
  specialize (Hph i w Hi). destruct (w_phase w) as [|ch| |st| |ch|r]; cbn in Hs; try done.
  - case_decide as Hd; [|unfold register_wait in Hs; by destruct (waitChans _ !! _)].
    injection Hs as <-. done.
  - case_decide as Hd; [|done]. injection Hs as <-. destruct Hph as (st & _ & Hin).
    destruct (mo_tracked _ _ Hm _ _ Hin) as [st' Hst']. unfold GetState in Hd.
    rewrite Hst' in Hd. cbn in Hd. by subst.
  - by case_decide.
Qed.

(** * A call with no other thread running
    [WaitForState] of the caller alone: it runs until it returns or blocks,
    and when it blocks the timer fires. *)
Fixpoint wait_alone (fuel : nat) (stateType : string) (desiredState : State)
    (sm : StateManager) (p : phase State) : StateManager * res unit :=
  match fuel, p with
  | _, Done r => (sm, r)
  | O, _ => (sm, Err (ErrMsg "out of fuel"))
  | S fuel, _ =>
      match wait_step stateType desiredState sm p with
      | Some (sm, p) => wait_alone fuel stateType desiredState sm p
      | None => match on_timeout p with
                | Some r => (sm, r)
                | None => (sm, Panic)
                end
      end
  end.
Definition WaitForState (stateType : string) (desiredState : State) (sm : StateManager) :
    StateManager * res unit :=
  wait_alone 5 stateType desiredState sm Begin.

Lemma wait_alone_step n st d sm p sm' p' :
  wait_step st d sm p = Some (sm', p') ->
  wait_alone (S n) st d sm p = wait_alone n st d sm' p'.
Proof. intros Hs. cbn [wait_alone]. rewrite Hs. by destruct p. Qed.
Lemma wait_alone_timeout n st d sm p r :
  wait_step st d sm p = None -> on_timeout p = Some r ->
  wait_alone (S n) st d sm p = (sm, r).
Proof. intros Hs Hr. cbn [wait_alone]. rewrite Hs, Hr. by destruct p. Qed.

(** Alone, the call returns without an error exactly when the service already
    is in the desired state; it never runs out of steps. *)
Lemma WaitForState_alone h st d sm :
  mgr_ok h sm -> exists sm',
  (WaitForState st d sm = (sm', Ok tt) /\ serviceStates sm !! st = Some d \/
   exists p, WaitForState st d sm = (sm', default Panic (on_timeout p)) /\
     is_Some (on_timeout p) /\ serviceStates sm !! st <> Some d) /\
  serviceStates sm' = serviceStates sm /\ mgr_ok h sm'.
Proof.
  intros Hm. unfold WaitForState.
  destruct (serviceStates sm !! st) as [s|] eqn:Hs.
  - erewrite wait_alone_step by (cbn; by rewrite Hs).
    destruct (decide (s = d)) as [->|Hne].
    + erewrite wait_alone_step by (cbn; by rewrite decide_True). exists sm. split; [by left|done].
    + erewrite wait_alone_step by (cbn; by rewrite decide_False).
      pose proof (register_wait_ok h sm st Hm) as Hr.
      destruct (register_wait sm st) as [sm' p] eqn:E. destruct Hr as (Hm' & [_ _ Hst _] & _).
      erewrite wait_alone_step by (cbn; by rewrite E).
      exists sm'. split; [right|done]. exists p.
      assert (exists ch, p = AwaitState ch /\ ch ∉ closed_chans sm') as (ch & -> & Hch).
      { unfold register_wait in E. destruct (waitChans sm !! st) as [ch|] eqn:Hc; injection E as <- <-.
        - exists ch. split; [done|]. by apply (mo_open _ _ Hm st).
        - exists (next_chan sm). split; [done|]. cbn. intros ?%(mo_closed _ _ Hm). lia. }
      split; [|split; [by eexists|congruence]].
      by erewrite wait_alone_timeout by (cbn; by rewrite ?decide_False by done).
  - erewrite wait_alone_step by (cbn; by rewrite Hs).
    destruct (make_wait_ok h sm st Hm) as [Hm' _].
    exists (make_wait sm st). split; [right|done]. exists (AwaitAdded (next_chan sm)).
    split; [|split; [by eexists|done]].
    erewrite wait_alone_timeout; [done| |done]. cbn.
    by rewrite decide_False by (intros ?%(mo_closed _ _ Hm); lia).
Qed.
End Manager.

(** * The four packages *)
Definition NodeStateType : string := "node".
Definition ValidatorStateType : string := "validator".
Definition ConsensusStateType : string := "consensus".
Definition SequencerStateType : string := "sequencer".
Definition ProducerStateType : string := "producer".

(** [pkg/validator/state.go]. *)
Module ValidatorStates.
Inductive State :=
| Uninitialized | Initializing | Initialized | Starting | Started | Failed | Stopping | Stopped.
#[global] Instance State_eq_dec : EqDecision State.
Proof. solve_decision. Defined.

Definition State_String (s : State) : string :=
  match s with
  | Uninitialized => "uninitialized"
  | Initializing => "initializing"
  | Initialized => "initialized"
  | Starting => "starting"
  | Started => "started"
  | Failed => "failed"
  | Stopped => "stopped"
  | _ => "unknown"
  end.

Definition notifies (s : State) : bool := bool_decide (s = Started).
Definition Manager : Type := StateManager (State := State).
Definition New : Manager := NewStateManager.
Definition Set_ (sm : Manager) (stateType : string) (state : State) : res Manager :=
  SetState notifies sm stateType state.
Definition Get (sm : Manager) (stateType : string) : State :=
  GetState Uninitialized sm stateType.
Definition Wait (stateType : string) (desired : State) (sm : Manager) : Manager * res unit :=
  WaitForState Uninitialized stateType desired sm.

(** "stopping" is missing from the cases of [String]. *)
Example Stopping_is_unknown : State_String Stopping = "unknown"%string.
Proof. reflexivity. Qed.
End ValidatorStates.

(** [pkg/node/state.go]. *)
Module NodeStates.
Inductive State :=
| Uninitialized | Initializing | Initialized | Starting | Started | Failed | Stopping | Stopped.
#[global] Instance State_eq_dec : EqDecision State.
Proof. solve_decision. Defined.

Definition State_String (s : State) : string :=
  match s with
  | Uninitialized => "uninitialized"
  | Initializing => "initializing"
  | Initialized => "initialized"
  | Starting => "starting"
  | Started => "started"
  | Failed => "failed"
  | Stopped => "stopped"
  | _ => "unknown"
  end.

Definition notifies (s : State) : bool := bool_decide (s = Started).
Definition Manager : Type := StateManager (State := State).
Definition New : Manager := NewStateManager.
Definition Set_ (sm : Manager) (stateType : string) (state : State) : res Manager :=
  SetState notifies sm stateType state.
Definition Get (sm : Manager) (stateType : string) : State :=
  GetState Uninitialized sm stateType.
Definition Wait (stateType : string) (desired : State) (sm : Manager) : Manager * res unit :=
  WaitForState Uninitialized stateType desired sm.
End NodeStates.

(** [pkg/runtime/state.go]: without [Stopping]. *)
Module ServiceStates.
Inductive State :=
| Uninitialized | Initializing | Initialized | Starting | Started | Failed | Stopped.
#[global] Instance State_eq_dec : EqDecision State.
Proof. solve_decision. Defined.

Definition State_String (s : State) : string :=
  match s with
  | Uninitialized => "uninitialized"
  | Initializing => "initializing"
  | Initialized => "initialized"
  | Starting => "starting"
  | Started => "started"
  | Failed => "failed"
  | Stopped => "stopped"
  end.

Definition notifies (s : State) : bool := bool_decide (s = Started).
Definition Manager : Type := StateManager (State := State).
Definition New : Manager := NewStateManager.
Definition Set_ (sm : Manager) (service : string) (state : State) : res Manager :=
  SetState notifies sm service state.
Definition Get (sm : Manager) (service : string) : State :=
  GetState Uninitialized sm service.
Definition Wait (service : string) (desired : State) (sm : Manager) : Manager * res unit :=
  WaitForState Uninitialized service desired sm.
End ServiceStates.

(** [pkg/sequencer/state.go]: three states notify, and [WaitForState] is the
    other machine. *)
Module SequencerStates.
Inductive State :=
| Uninitialized | Initializing | Initialized | Starting | Started | Produced | Failed
| Stopping | Stopped.
#[global] Instance State_eq_dec : EqDecision State.
Proof. solve_decision. Defined.

Definition State_String (s : State) : string :=
  match s with
  | Uninitialized => "uninitialized"
  | Initializing => "initializing"
  | Initialized => "initialized"
  | Starting => "starting"
  | Started => "started"
  | Produced => "produced"
  | Failed => "failed"
  | Stopping => "stopping"
  | Stopped => "stopped"
  end.

Definition notifies (s : State) : bool :=
  bool_decide (s = Started) || bool_decide (s = Stopped) || bool_decide (s = Failed).
Definition Manager : Type := StateManager (State := State).
Definition New : Manager := NewStateManager.
Definition Set_ (sm : Manager) (st : string) (state : State) : res Manager :=
  SetState notifies sm st state.
Definition Get (sm : Manager) (st : string) : State := GetState Uninitialized sm st.
Definition wait_step (st : string) (desired : State) (sm : Manager) (p : phase State) :
    option (Manager * phase State) := seq_wait_step Uninitialized st desired sm p.
End SequencerStates.

(** * Schedules *)
Section Schedules.
Import ValidatorStates.
Local Abbreviation vexec := (schedule notifies (wait_step Uninitialized) on_timeout sys_init).

(** Two waiters for a service nobody has set, before the second one's first
    step. *)
Definition two_waiters : list (sys_op (State := State)) :=
  [OCall 0 ConsensusStateType Started; OWait 0; OCall 1 ConsensusStateType Started].

Lemma WaitForState_spec_witness :
  exists s sm, vexec [OSet ConsensusStateType Starting; OCall 0 ConsensusStateType Started;
                      OWait 0; OWait 0; OWait 0] = Some s /\
  SetState notifies (mgr s) ConsensusStateType Started = Ok sm /\
  wait_step Uninitialized ConsensusStateType Started sm (AwaitState 0) = Some (sm, Done (Ok tt)).
Proof.
  eexists _, _. split; [vm_compute; reflexivity|]. split; [vm_compute; reflexivity|].
  match goal with |- wait_step _ _ _ ?sm' _ = _ =>
    set (sm := sm') end.
  eassert (sys_reachable notifies (wait_step Uninitialized) on_timeout _) as Hr.
  { eapply (schedule_steps _ _ _ _ [OSet ConsensusStateType Starting; OCall 0 ConsensusStateType Started;
                      OWait 0; OWait 0; OWait 0]). vm_compute. reflexivity. }
  destruct (WaitForState_spec Uninitialized notifies _ Hr) as (_ & _ & Hwake).
  eapply (Hwake 0%N {| w_type := ConsensusStateType; w_desired := Started; w_phase := AwaitState 0 |}
            0%N Started); vm_compute; reflexivity.
Defined.

Lemma second_waiter_abandons_first_witness :
  exists s', vexec (two_waiters ++ [OWait 1; OSet ConsensusStateType Started; OWait 1]) = Some s' /\
  exists v, waiters s' !! 0%N = Some v /\
    (w_phase v = AwaitAdded 0 \/ exists e, w_phase v = Done (Err e)).
Proof.
  eexists. split; [vm_compute; reflexivity|].
  eapply (second_waiter_abandons_first Uninitialized notifies _ _ 0 1
    {| w_type := ConsensusStateType; w_desired := Started; w_phase := AwaitAdded 0 |}
    {| w_type := ConsensusStateType; w_desired := Started; w_phase := Begin |} 0).
  - eapply (schedule_steps _ _ _ _ two_waiters). vm_compute. reflexivity.
  - done.
  - vm_compute. reflexivity.
  - reflexivity.
  - vm_compute. reflexivity.
  - reflexivity.
  - reflexivity.
  - vm_compute. reflexivity.
  - vm_compute. reflexivity.
  - eapply (schedule_steps _ _ _ _ [OSet ConsensusStateType Started; OWait 1]).
    vm_compute. reflexivity.
Defined.

(** A start between the comparison and the registration is missed: the waiter
    blocks on a fresh channel of a service that has started. *)
Example missed_start :
  exists s w, vexec [OSet ConsensusStateType Starting; OCall 0 ConsensusStateType Started;
    OWait 0; OWait 0; OSet ConsensusStateType Started; OWait 0] = Some s /\
  waiters s !! 0%N = Some w /\
  Get (mgr s) ConsensusStateType = Started /\
  wait_step Uninitialized (w_type w) (w_desired w) (mgr s) (w_phase w) = None.
Proof. do 2 eexists. split; [vm_compute; reflexivity|]. repeat split; vm_compute; reflexivity. Qed.

(** Waiting for [Stopped] succeeds when the service starts. *)
Example wrong_state :
  exists s w, vexec [OSet ConsensusStateType Starting; OCall 0 ConsensusStateType Stopped;
    OWait 0; OWait 0; OWait 0; OSet ConsensusStateType Started; OWait 0] = Some s /\
  waiters s !! 0%N = Some w /\ w_phase w = Done (Ok tt) /\
  Get (mgr s) ConsensusStateType = Started.
Proof. do 2 eexists. split; [vm_compute; reflexivity|]. repeat split; vm_compute; reflexivity. Qed.
End Schedules.

(** A waiter for [Stopped], woken by it and about to look again. *)
Definition seq_ops : list (sys_op (State := SequencerStates.State)) :=
  [OSet SequencerStateType SequencerStates.Initializing;
   OCall 0 SequencerStateType SequencerStates.Stopped; OWait 0;
   OSet SequencerStateType SequencerStates.Stopped; OWait 0].
Definition seq_example : sys :=
  default sys_init
    (schedule SequencerStates.notifies SequencerStates.wait_step seq_on_timeout sys_init seq_ops).

Lemma seq_WaitForState_exact_witness :
  SequencerStates.wait_step SequencerStateType SequencerStates.Stopped (mgr seq_example) Recheck =
    Some (mgr seq_example, Done (Ok tt)) /\
  serviceStates (mgr seq_example) !! SequencerStateType = Some SequencerStates.Stopped.
Proof.
  assert (SequencerStates.wait_step SequencerStateType SequencerStates.Stopped (mgr seq_example)
            Recheck = Some (mgr seq_example, Done (Ok tt))) as Hs by (vm_compute; reflexivity).
  split; [exact Hs|].
  destruct (seq_WaitForState_exact SequencerStates.Uninitialized SequencerStates.notifies
    seq_example 0 {| w_type := SequencerStateType; w_desired := SequencerStates.Stopped;
                     w_phase := Recheck |} (mgr seq_example)) as (_ & H & _).
  - apply (schedule_steps _ SequencerStates.wait_step _ _ seq_ops). vm_compute. reflexivity.
  - vm_compute. reflexivity.
  - exact Hs.
  - exact H.
Defined.
