(* ===== verification/ValidatorNode.v ===== *)
(** [pkg/validator]: the consensus module that a validator runs
    ([consensus.go]) and the validator itself ([validator.go]).

    The module is one state: the proposal, approval and finalization maps of
    [pkg/consensus], the channel between the network listener and the message
    processor, the set of processed messages, the current leader.  Its
    goroutines are steps on it: [listen] and [enqueue] are one turn of
    [listenToNetwork], [process] one turn of [processMessages], [elect] one
    tick of [leaderElectionRoutine], [ProposeBlock] one tick of a running
    [proposeBlocks]; [NodeThreads.v] has the calls inside them interleave.
    The outcome of publishing on the topic is a given
    function of what was published before.  Cancelled contexts and logging
    are left out. *)
From S2P Require Import Prelude Bytes Hashes Types Signatures Packets Storage Validators.
From S2P Require Import Consensus StateManager Sharding.

Module Node.
Import ValidatorStates.

Section Node.
Context {E : Type} `{Mdbx E}.
(** [peer.ID.String] of libp2p, and the topic. *)
Context (peer_String : PeerID -> bytes) (topic_Publish : list bytes -> bytes -> res unit).

Record Consensus := {
  identity : Account;
  state : Consensus.State E;
  stateMgr : ValidatorStates.Manager;
  pending : option ConsensusPacket;
  messageChan : list ConsensusPacket;
  processedMsgs : gset bytes;
  validatorSet : ValidatorSet;
  currentLeader : PeerID;
  collector : Collector;
  proposers : nat;
  published : list bytes;
}.

(** [make(chan *packets.ConsensusPacket, 1000)]. *)
Definition chan_capacity : Z := 1000.

(** Setting a state logs and notifies; the manager never panics. *)
Definition NewConsensus (did : Account) (store : E) (vs : ValidatorSet) (mc : Collector)
    (sm : ValidatorStates.Manager) : res Consensus :=
  sm ← Set_ sm ConsensusStateType Uninitialized;
  Ok {| identity := did; state := Consensus.NewState store; stateMgr := sm; pending := None;
        messageChan := []; processedMsgs := ∅; validatorSet := vs; currentLeader := [];
        collector := mc; proposers := 0; published := [] |}.

Definition with_state (n : Consensus) (cs : Consensus.State E) : Consensus :=
  {| identity := identity n; state := cs; stateMgr := stateMgr n; pending := pending n;
     messageChan := messageChan n; processedMsgs := processedMsgs n;
     validatorSet := validatorSet n; currentLeader := currentLeader n;
     collector := collector n; proposers := proposers n; published := published n |}.
Definition with_manager (n : Consensus) (sm : ValidatorStates.Manager) : Consensus :=
  {| identity := identity n; state := state n; stateMgr := sm; pending := pending n;
     messageChan := messageChan n; processedMsgs := processedMsgs n;
     validatorSet := validatorSet n; currentLeader := currentLeader n;
     collector := collector n; proposers := proposers n; published := published n |}.
Definition with_queue (n : Consensus) (p : option ConsensusPacket) (c : list ConsensusPacket)
    (seen : gset bytes) : Consensus :=
  {| identity := identity n; state := state n; stateMgr := stateMgr n; pending := p;
     messageChan := c; processedMsgs := seen; validatorSet := validatorSet n;
     currentLeader := currentLeader n; collector := collector n; proposers := proposers n;
     published := published n |}.
Definition with_leader (n : Consensus) (vs : ValidatorSet) (mc : Collector) (leader : PeerID)
    (k : nat) : Consensus :=
  {| identity := identity n; state := state n; stateMgr := stateMgr n; pending := pending n;
     messageChan := messageChan n; processedMsgs := processedMsgs n; validatorSet := vs;
     currentLeader := leader; collector := mc; proposers := k; published := published n |}.
Definition log_published (n : Consensus) (d : bytes) : Consensus :=
  {| identity := identity n; state := state n; stateMgr := stateMgr n; pending := pending n;
     messageChan := messageChan n; processedMsgs := processedMsgs n;
     validatorSet := validatorSet n; currentLeader := currentLeader n;
     collector := collector n; proposers := proposers n; published := published n ++ [d] |}.

Definition setCurrentLeader (leaderID : PeerID) : io Consensus unit := fun n =>
  (with_leader n (validatorSet n) (collector n) leaderID (proposers n), Ok tt).

(** Running a method of the shared state. *)
Definition on_state (f : Consensus.State E -> Consensus.State E * res unit) : io Consensus unit :=
  fun n => let '(cs, r) := f (state n) in (with_state n cs, r).

(** * Signing and publishing *)
Definition Sign (signType : SignerType) (data : bytes) : io Consensus bytes := fun n =>
  (n, wrap "failed to sign message" (Account_Sign (identity n) signType data)).

(** The packet is never nil. *)
Definition BroadcastMessage (pkt : ConsensusPacket) : io Consensus unit := fun n =>
  match wrap "failed to serialize consensus packet" (ConsensusPacket_Serialize pkt) with
  | Ok d => (log_published n d, topic_Publish (published n) d)
  | Err e => (n, Err e)
  | Panic => (n, Panic)
  end.

Definition with_signature (pkt : ConsensusPacket) (sig : bytes) : ConsensusPacket :=
  {| cp_Type := cp_Type pkt; cp_Signer := cp_Signer pkt; cp_ProposerID := cp_ProposerID pkt;
     cp_ValidatorID := cp_ValidatorID pkt; cp_BlockHash := cp_BlockHash pkt;
     cp_BlockData := cp_BlockData pkt; cp_Signature := sig |}.

Definition proposal (n : Consensus) (blockData : bytes) : ConsensusPacket :=
  {| cp_Type := PacketTypeProposal; cp_Signer := BlsSignerType;
     cp_ProposerID := acc_PeerID (identity n); cp_ValidatorID := [];
     cp_BlockHash := HashData blockData; cp_BlockData := blockData; cp_Signature := [] |}.
(** Approvals and finalizations differ in their type only. *)
Definition vote (n : Consensus) (ty : Z) (blockHash : bytes) : ConsensusPacket :=
  {| cp_Type := ty; cp_Signer := BlsSignerType; cp_ProposerID := [];
     cp_ValidatorID := acc_PeerID (identity n); cp_BlockHash := blockHash;
     cp_BlockData := []; cp_Signature := [] |}.

Definition ProposeBlock (blockData : bytes) : io Consensus unit :=
  proposalPkt ← io_read (fun n => Ok (proposal n blockData));
  signature ← io_wrap "failed to sign proposal packet"
    (Sign (cp_Signer proposalPkt) (cp_BlockHash proposalPkt ++ blockData));
  let proposalPkt := with_signature proposalPkt signature in
  _ ← io_wrap "failed to broadcast proposal packet" (BroadcastMessage proposalPkt);
  io_wrap "failed to add proposal to state" (on_state (fun cs => AddProposal cs proposalPkt)).

Definition ApproveProposal (blockHash : bytes) : io Consensus unit :=
  approvalPkt ← io_read (fun n => Ok (vote n PacketTypeApproval blockHash));
  signature ← io_wrap "failed to sign approval packet" (Sign (cp_Signer approvalPkt) blockHash);
  let approvalPkt := with_signature approvalPkt signature in
  _ ← io_wrap "failed to broadcast approval packet" (BroadcastMessage approvalPkt);
  io_wrap "failed to add approval to state" (on_state (fun cs => AddApproval cs approvalPkt)).

Definition FinalizeBlock (blockHash : bytes) : io Consensus unit :=
  finalizationPkt ← io_read (fun n => Ok (vote n PacketTypeFinalization blockHash));
  signature ← io_wrap "failed to sign finalization packet"
    (Sign (cp_Signer finalizationPkt) blockHash);
  let finalizationPkt := with_signature finalizationPkt signature in
  _ ← io_wrap "failed to broadcast finalization packet" (BroadcastMessage finalizationPkt);
  io_wrap "failed to finalize block" (on_state (fun cs => State_FinalizeBlock cs blockHash)).

(** * Receiving *)
(** What the signature of a packet must cover, and whose it must be. *)
Definition signed_data (pkt : ConsensusPacket) : res (bytes * PeerID) :=
  if cp_Type pkt =? PacketTypeProposal
  then Ok (cp_BlockHash pkt ++ cp_BlockData pkt, cp_ProposerID pkt)
  else if (cp_Type pkt =? PacketTypeApproval) || (cp_Type pkt =? PacketTypeFinalization)
  then Ok (cp_BlockHash pkt, cp_ValidatorID pkt)
  else Err (ErrMsg "unknown packet type: %d").

Definition verifySignature (n : Consensus) (pkt : ConsensusPacket) : res bool :=
  '(dataToVerify, signerID) ← signed_data pkt;
  match GetValidator (validatorSet n) signerID with
  | None => Err (ErrMsg "validator not found: %s")
  | Some validator =>
      call_Verify (Validator_Signer validator (cp_Signer pkt)) dataToVerify (cp_Signature pkt)
  end.

(** [fmt.Sprintf("%s:%x", pkt.ValidatorID, pkt.BlockHash)]. *)
Definition msgID (pkt : ConsensusPacket) : bytes :=
  peer_String (cp_ValidatorID pkt) ++ str ":" ++ hex_encode (cp_BlockHash pkt).

(** One message of the topic, up to the send on the channel. *)
Definition listen (data : bytes) : io Consensus unit := fun n =>
  match DeserializeConsensusPacket data with
  | Panic => (n, Panic)
  | Err _ => (n, Ok tt)
  | Ok pkt =>
      match verifySignature n pkt with
      | Panic => (n, Panic)
      | Ok true =>
          if bool_decide (msgID pkt ∈ processedMsgs n) then (n, Ok tt)
          else (with_queue n (Some pkt) (messageChan n) ({[msgID pkt]} ∪ processedMsgs n), Ok tt)
      | _ => (n, Ok tt)
      end
  end.

(** The send, when the channel has room. *)
Definition enqueue : io Consensus unit := fun n =>
  match pending n with
  | Some pkt => (with_queue n None (messageChan n ++ [pkt]) (processedMsgs n), Ok tt)
  | None => (n, Ok tt)
  end.

Definition handleProposal (pkt : ConsensusPacket) : io Consensus unit := fun n =>
  if negb (bool_decide (cp_ProposerID pkt = currentLeader n)) then (n, Ok tt)
  else
    match logged (on_state (fun cs => AddProposal cs pkt)) n with
    | (n, Ok true) =>
        if IsValidator (validatorSet n) (acc_PeerID (identity n))
        then (_ ← logged (ApproveProposal (cp_BlockHash pkt)); mret tt) n
        else (n, Ok tt)
    | (n, Panic) => (n, Panic)
    | (n, _) => (n, Ok tt)
    end.

Definition handleApproval (pkt : ConsensusPacket) : io Consensus unit := fun n =>
  match logged (on_state (fun cs => AddApproval cs pkt)) n with
  | (n, Ok true) =>
      if bool_decide (acc_PeerID (identity n) = currentLeader n) &&
         (HasReachedQuorum (state n) (cp_BlockHash pkt) (QuorumSize (validatorSet n)) &&
          negb (IsFinalized (state n) (cp_BlockHash pkt)))
      then (_ ← logged (FinalizeBlock (cp_BlockHash pkt)); mret tt) n
      else (n, Ok tt)
  | (n, Panic) => (n, Panic)
  | (n, _) => (n, Ok tt)
  end.

Definition handleFinalization (pkt : ConsensusPacket) : io Consensus unit :=
  _ ← logged (on_state (fun cs => State_FinalizeBlock cs (cp_BlockHash pkt))); mret tt.

Definition handle (pkt : ConsensusPacket) : io Consensus unit :=
  if cp_Type pkt =? PacketTypeProposal then handleProposal pkt
  else if cp_Type pkt =? PacketTypeApproval then handleApproval pkt
  else if cp_Type pkt =? PacketTypeFinalization then handleFinalization pkt
  else mret tt.

(** One receive from the channel. *)
Definition process : io Consensus unit := fun n =>
  match messageChan n with
  | [] => (n, Ok tt)
  | pkt :: rest => handle pkt (with_queue n (pending n) rest (processedMsgs n))
  end.

(** * Leader election *)
(** One tick; every tick that elects this node starts one more goroutine that
    proposes blocks until the module is shut down. *)
Definition elect (ord : list PeerID) : io Consensus unit := fun n =>
  let '(vs, mc) := ElectLeader (validatorSet n) (collector n) ord in
  match CurrentLeader vs with
  | None => (with_leader n vs mc (currentLeader n) (proposers n), Ok tt)
  | Some leader =>
      let id := Validator_PeerID leader in
      (with_leader n vs mc id
         (if bool_decide (id = acc_PeerID (identity n)) then S (proposers n) else proposers n),
       Ok tt)
  end.

(** * Starting and stopping *)
Definition set_state (st : ValidatorStates.State) : io Consensus unit := fun n =>
  match Set_ (stateMgr n) ConsensusStateType st with
  | Ok sm => (with_manager n sm, Ok tt)
  | Err e => (n, Err e)
  | Panic => (n, Panic)
  end.
Definition Start : io Consensus unit :=
  _ ← set_state Starting; set_state Started.
(** After the context is cancelled and the goroutines have ended. *)
Definition Shutdown : io Consensus unit :=
  _ ← set_state Stopping; set_state Stopped.

(** * Steps of the running module *)
Inductive node_step : Consensus -> Consensus -> Prop :=
| ns_listen data n : pending n = None -> node_step n (listen data n).1
| ns_enqueue n : Zlen (messageChan n) < chan_capacity -> node_step n (enqueue n).1
| ns_process n : node_step n (process n).1
| ns_elect ord n : is_order (vs_validators (validatorSet n)) ord -> node_step n (elect ord n).1
| ns_propose d n : (0 < proposers n)%nat -> node_step n (ProposeBlock d n).1.
Definition runs : Consensus -> Consensus -> Prop := rtc node_step.

(** * Authenticity *)
(** A signature of a validator of [V] on a block hash, with any of its
    signers.  Approvals and finalizations sign the same bytes, the hash alone, so
    the signature does not say which of the two it was made for. *)
Definition vouched (V : gmap PeerID Validator) (h : bytes) (id : PeerID) (sig : bytes) : Prop :=
  exists v ty, V !! id = Some v /\ call_Verify (Validator_Signer v ty) h sig = Ok true.

(** The approval that account [a] signs. *)
Definition own_approval (a : Account) (h : bytes) (id : PeerID) (sig : bytes) : Prop :=
  id = acc_PeerID a /\ Account_Sign a BlsSignerType h = Ok sig.

(** [F]: the hashes of the finalization packets that the listener let pass. *)
Record node_inv (V : gmap PeerID Validator) (q : Z) (a : Account) (F : bytes -> Prop)
    (n : Consensus) : Prop := {
  ni_validators : vs_validators (validatorSet n) = V;
  ni_quorum : QuorumSize (validatorSet n) = q;
  ni_identity : identity n = a;
  ni_queue : forall pkt, pending n = Some pkt \/ pkt ∈ messageChan n ->
    verifySignature n pkt = Ok true /\ (cp_Type pkt = PacketTypeFinalization -> F (cp_BlockHash pkt));
  ni_approvals : forall h id sig, approvals_for (state n) h !! id = Some sig ->
    own_approval a h id sig /\ HasProposal (state n) h = true \/ vouched V h id sig;
  ni_finalized : forall h, IsFinalized (state n) h = true ->
    F h \/ q <= Z.of_nat (size (approvals_for (state n) h));
}.

Lemma verifySignature_validators n n' pkt :
  vs_validators (validatorSet n') = vs_validators (validatorSet n) ->
  verifySignature n' pkt = verifySignature n pkt.
Proof. unfold verifySignature, GetValidator. by intros ->. Qed.

Lemma verified_vote n pkt :
  verifySignature n pkt = Ok true -> cp_Type pkt <> PacketTypeProposal ->
  vouched (vs_validators (validatorSet n)) (cp_BlockHash pkt) (cp_ValidatorID pkt)
    (cp_Signature pkt).
Proof.
  unfold verifySignature, signed_data. intros Hv Ht. apply Z.eqb_neq in Ht. rewrite Ht in Hv.
  destruct (_ || _); [|done]. rewrite bind_Ok in Hv. unfold GetValidator in Hv.
  destruct (_ !! _) as [v|] eqn:Hval; [|done]. exists v, (cp_Signer pkt). done.
Qed.

Section Invariant.
Context (V : gmap PeerID Validator) (q : Z) (a : Account) (F : bytes -> Prop).
Local Abbreviation I := (node_inv V q a F).

Lemma inv_log n d : I n -> I (log_published n d).
Proof. intros []. by split. Qed.

(** A change of the maps that records only what may be recorded. *)
Lemma inv_state n cs :
  I n ->
  (forall h, HasProposal (state n) h = true -> HasProposal cs h = true) ->
  (forall h id sig, approvals_for cs h !! id = Some sig ->
     approvals_for (state n) h !! id = Some sig \/
     own_approval a h id sig /\ HasProposal cs h = true \/ vouched V h id sig) ->
  (forall h, approvals_for (state n) h ⊆ approvals_for cs h) ->
  (forall h, IsFinalized cs h = true -> IsFinalized (state n) h = true \/
     F h \/ q <= Z.of_nat (size (approvals_for cs h))) ->
  I (with_state n cs).
Proof.
  intros [Hv Hq Hm Hp Ha Hf] H0 H1 H2 H3. split; cbn; [done..| |].
  - intros h id sig Hs. destruct (H1 _ _ _ Hs) as [Ho|?]; [|done].
    destruct (Ha _ _ _ Ho) as [[? ?]|?]; [left|by right]. auto.
  - intros h Hs. destruct (H3 _ Hs) as [Ho|?]; [|done]. destruct (Hf _ Ho) as [?|Hle]; [by left|].
    right. pose proof (map_subseteq_size _ _ (H2 h)). lia.
Qed.
Lemma inv_put_approval n pkt :
  I n ->
  own_approval a (cp_BlockHash pkt) (cp_ValidatorID pkt) (cp_Signature pkt) /\
    HasProposal (state n) (cp_BlockHash pkt) = true \/
  vouched V (cp_BlockHash pkt) (cp_ValidatorID pkt) (cp_Signature pkt) ->
  I (with_state n (put_approval (state n) pkt).1).
Proof.
  intros Hn Hpkt. destruct (put_approval_proj (state n) pkt) as [E1 E2].
  assert (forall h, HasProposal (put_approval (state n) pkt).1 h = HasProposal (state n) h) as Ep
    by (intros h; unfold HasProposal; by rewrite E1).
  apply inv_state; [done|intros h; by rewrite Ep| |intros h; apply put_approval_mono|].
  - intros h id sig. rewrite put_approval_approvals, Ep. case_bool_decide as Hh; [subst h|by left].
    destruct (approvals_for (state n) _ !! cp_ValidatorID pkt); [by left|].
    intros [[<- <-]|[_ ?]]%lookup_insert_Some; [by right|by left].
  - intros h. unfold IsFinalized. rewrite E2. by left.
Qed.

(** The reason to finalize a block. *)
Definition justified (h : bytes) (n : Consensus) : Prop :=
  F h \/ q <= Z.of_nat (size (approvals_for (state n) h)).
Lemma inv_put_finalized n h : I n -> justified h n -> I (with_state n (put_finalized (state n) h)).
Proof.
  intros Hn Hj. apply inv_state; [done|done|by left|done|]. intros h'.
  unfold IsFinalized. cbn [put_finalized st_finalized]. destruct (decide (h' = h)) as [->|Hne]; [by right|].
  rewrite lookup_insert_ne by (by intros ?%(inj hash_key)). by left.
Qed.

(** The queue: taking a packet, or putting one that may be there. *)
Lemma inv_queue n p c seen :
  I n -> (forall pkt, p = Some pkt \/ pkt ∈ c -> verifySignature n pkt = Ok true /\
    (cp_Type pkt = PacketTypeFinalization -> F (cp_BlockHash pkt))) ->
  I (with_queue n p c seen).
Proof. intros [] Hq. by split. Qed.
Lemma inv_leader n vs mc leader k :
  I n -> vs_validators vs = vs_validators (validatorSet n) ->
  vs_quorumThreshold vs = vs_quorumThreshold (validatorSet n) -> I (with_leader n vs mc leader k).
Proof.
  intros [Hv Hq Hm Hpk Ha Hf] E1 E2.
  split; cbn; [by rewrite E1|by rewrite <- Hq; unfold QuorumSize; rewrite E1, E2|done| |done|done].
  intros pkt Hin. destruct (Hpk pkt Hin) as [<- ?]. split; [by apply verifySignature_validators|done].
Qed.

(** The listener lets pass what verifies. *)
Lemma inv_listen n data :
  I n ->
  (forall pkt, DeserializeConsensusPacket data = Ok pkt -> cp_Type pkt = PacketTypeFinalization ->
     vouched V (cp_BlockHash pkt) (cp_ValidatorID pkt) (cp_Signature pkt) -> F (cp_BlockHash pkt)) ->
  I (listen data n).1.
Proof.
  intros Hn HF. unfold listen. destruct (DeserializeConsensusPacket data) as [pkt|e|] eqn:Hd; try done.
  destruct (verifySignature n pkt) as [[]|e|] eqn:Hv; try done.
  case_bool_decide; [done|]. apply inv_queue; [done|].
  intros pkt' [[= <-]|Hin]; [|apply (ni_queue _ _ _ _ _ Hn); by right]. split; [done|].
  intros Ht. apply HF; [done..|]. rewrite <- (ni_validators _ _ _ _ _ Hn).
  apply verified_vote; [done|]. by rewrite Ht.
Qed.
Lemma inv_enqueue n : I n -> I (enqueue n).1.
Proof.
  intros Hn. unfold enqueue. destruct (pending n) as [pkt|] eqn:Hp; [|done].
  apply inv_queue; [done|]. intros pkt' [?|Hin]; [done|]. apply (ni_queue _ _ _ _ _ Hn).
  apply elem_of_app in Hin as [?| ->%list_elem_of_singleton]; [by right|by left].
Qed.
End Invariant.

Lemma ElectLeader_validators vs mc ord :
  vs_validators (ElectLeader vs mc ord).1 = vs_validators vs /\
  vs_quorumThreshold (ElectLeader vs mc ord).1 = vs_quorumThreshold vs.
Proof.
  unfold ElectLeader. destruct (size _ =? 0)%nat; [done|].
  destruct (fold_left _ _ _) as [[s id] mc']. by case_bool_decide.
Qed.

Lemma node_inv_weaken V q a (F F' : bytes -> Prop) n :
  (forall h, F h -> F' h) -> node_inv V q a F n -> node_inv V q a F' n.
Proof.
  intros HF [? ? ? Hq ? Hf]. split; try done.
  - intros pkt Hp. destruct (Hq pkt Hp). auto.
  - intros h Hh. destruct (Hf h Hh); auto.
Qed.
Lemma fresh_inv n store F :
  state n = Consensus.NewState store -> pending n = None -> messageChan n = [] ->
  node_inv (vs_validators (validatorSet n)) (QuorumSize (validatorSet n)) (identity n) F n.
Proof.
  intros Es Ep Em. split; [done..| | |].
  - rewrite Ep, Em. intros pkt [?|?%not_elem_of_nil]; done.
  - rewrite Es. intros h id sig. unfold approvals_for. cbn. by rewrite lookup_empty.
  - rewrite Es. done.
Qed.
Lemma NewConsensus_inv did store vs mc sm n F :
  NewConsensus did store vs mc sm = Ok n ->
  node_inv (vs_validators (validatorSet n)) (QuorumSize (validatorSet n)) (identity n) F n.
Proof. unfold NewConsensus. intros H'. res_inv. by apply (fresh_inv _ store). Qed.

(** * Replay and deduplication *)
(** Sending a packet through the listener and the processor. *)
Definition deliver (data : bytes) (n : Consensus) : Consensus :=
  (process (enqueue (listen data n).1).1).1.

Definition as_type (ty : Z) (pkt : ConsensusPacket) : ConsensusPacket :=
  {| cp_Type := ty; cp_Signer := cp_Signer pkt; cp_ProposerID := cp_ProposerID pkt;
     cp_ValidatorID := cp_ValidatorID pkt; cp_BlockHash := cp_BlockHash pkt;
     cp_BlockData := cp_BlockData pkt; cp_Signature := cp_Signature pkt |}.

Lemma listen_accepts n pkt data rest :
  ConsensusPacket_ok pkt -> ConsensusPacket_Serialize pkt = Ok data ->
  verifySignature n (ConsensusPacket_normalize pkt (cp_Signature pkt)) = Ok true ->
  (msgID pkt ∉ processedMsgs n) ->
  listen (data ++ rest) n =
    (with_queue n (Some (ConsensusPacket_normalize pkt (cp_Signature pkt))) (messageChan n)
       ({[msgID pkt]} ∪ processedMsgs n), Ok tt).
Proof.
  intros Hok Hser Hv Hnew. destruct (ConsensusPacket_reads_back pkt rest Hok) as (d & Hd & Hde).
  rewrite Hser in Hd. injection Hd as <-. unfold listen. rewrite Hde, Hv.
  change (msgID (ConsensusPacket_normalize pkt (cp_Signature pkt))) with (msgID pkt).
  by rewrite bool_decide_eq_false_2.
Qed.

Lemma deliver_handles n pkt data :
  ConsensusPacket_ok pkt -> ConsensusPacket_Serialize pkt = Ok data ->
  verifySignature n (ConsensusPacket_normalize pkt (cp_Signature pkt)) = Ok true ->
  (msgID pkt ∉ processedMsgs n) -> messageChan n = [] ->
  deliver data n =
    (handle (ConsensusPacket_normalize pkt (cp_Signature pkt))
      (with_queue n None [] ({[msgID pkt]} ∪ processedMsgs n))).1.
Proof.
  intros Hok Hser Hv Hnew Hc. unfold deliver. rewrite <- (app_nil_r data).
  rewrite (listen_accepts n pkt) by done. unfold enqueue, process. cbn. by rewrite Hc.
Qed.

(** C30: a signature of an approval is a signature of a finalization.  Whoever
    has seen one validator's approval of a block can change the type of the
    packet: a validator that has not yet seen the approval finalizes the block,
    whatever the quorum. *)
Theorem replayed_approval_finalizes n pkt :
  ConsensusPacket_ok pkt -> cp_Type pkt = PacketTypeApproval ->
  normalize_signer (cp_Signer pkt) = cp_Signer pkt ->
  verifySignature n pkt = Ok true -> (msgID pkt ∉ processedMsgs n) -> messageChan n = [] ->
  exists data, ConsensusPacket_Serialize (as_type PacketTypeFinalization pkt) = Ok data /\
    IsFinalized (state (deliver data n)) (cp_BlockHash pkt) = true /\
    approvals_for (state (deliver data n)) (cp_BlockHash pkt) =
      approvals_for (state n) (cp_BlockHash pkt).
Proof.
  intros Hok Ht Hs Hv Hnew Hc.
  assert (ConsensusPacket_ok (as_type PacketTypeFinalization pkt)) as Hok' by (by destruct Hok).
  eexists. split; [apply ConsensusPacket_Serialize_head|].
  erewrite deliver_handles; [|exact Hok'|apply ConsensusPacket_Serialize_head| |done|done].
  - unfold handle. cbn. unfold handleFinalization.
    set (n1 := with_queue _ _ _ _).
    assert (state n1 = state n) as En by done.
    assert (forall m, (((_ ← logged m; mret tt) : io Consensus unit) n1).1 = (m n1).1) as Hl.
    { intros m. cbv [mbind io_bind]. unfold logged. by destruct (m n1) as [? []]. }
    rewrite Hl. unfold on_state. rewrite En. cbn [cp_BlockHash as_type ConsensusPacket_normalize].
    destruct (State_FinalizeBlock_proj (state n) (cp_BlockHash pkt)) as [E1 _].
    pose proof (IsFinalized_FinalizeBlock (state n) (cp_BlockHash pkt) (cp_BlockHash pkt)) as Hf.
    destruct (State_FinalizeBlock (state n) (cp_BlockHash pkt)) as [cs r]. cbn in *.
    split; [by rewrite Hf, bool_decide_eq_true_2|]. unfold approvals_for. by rewrite E1.
  - rewrite <- Hv. unfold verifySignature, signed_data. rewrite Ht. cbn. by rewrite Hs.
Qed.

(** What the handlers leave alone. *)
Lemma handle_untouched (P : Consensus -> Prop) :
  (forall n cs, P n -> P (with_state n cs)) -> (forall n d, P n -> P (log_published n d)) ->
  (forall d, io_keeps P (ProposeBlock d)) /\ (forall pkt, io_keeps P (handle pkt)).
Proof.
  intros Hst Hlog.
  assert (forall f, io_keeps P (on_state f)) as Hos.
  { intros f n Hn. unfold on_state. destruct (f (state n)). by apply Hst. }
  assert (forall m, io_keeps P m -> io_keeps P (logged m)) as Hlg.
  { intros m Hm n Hn. specialize (Hm n Hn). unfold logged. by destruct (m n) as [? []]. }
  assert (forall pkt, io_keeps P (BroadcastMessage pkt)) as Hb.
  { intros pkt n Hn. unfold BroadcastMessage. destruct (wrap _ _); [by apply Hlog|done..]. }
  assert (forall ty d, io_keeps P (Sign ty d)) as Hsg by (by intros ?? n).
  assert (forall h, io_keeps P (ApproveProposal h)) as Ha.
  { intros h. unfold ApproveProposal. repeat (apply io_keeps_bind; [auto with peerdns|intros ?]).
    auto with peerdns. }
  assert (forall h, io_keeps P (FinalizeBlock h)) as Hf.
  { intros h. unfold FinalizeBlock. repeat (apply io_keeps_bind; [auto with peerdns|intros ?]).
    auto with peerdns. }
  split; [intros d|intros pkt].
  { unfold ProposeBlock. repeat (apply io_keeps_bind; [auto with peerdns|intros ?]).
    auto with peerdns. }
  unfold handle. destruct (_ =? _); [|destruct (_ =? _); [|destruct (_ =? _)]].
  - intros n Hn. unfold handleProposal. destruct (negb _); [done|].
    pose proof (Hlg _ (Hos (fun cs => AddProposal cs pkt)) n Hn) as Hl.
    destruct (logged _ n) as [n1 [[]|e|]]; try done. destruct (IsValidator _ _); [|done].
    apply io_keeps_bind; [auto|intros _; apply io_keeps_ret|done].
  - intros n Hn. unfold handleApproval.
    pose proof (Hlg _ (Hos (fun cs => AddApproval cs pkt)) n Hn) as Hl.
    destruct (logged _ n) as [n1 [[]|e|]]; try done. destruct (_ && _); [|done].
    apply io_keeps_bind; [auto|intros _; apply io_keeps_ret|done].
  - unfold handleFinalization. apply io_keeps_bind; [auto|intros _; apply io_keeps_ret].
  - apply io_keeps_ret.
Qed.

Lemma runs_processed n n' : runs n n' -> processedMsgs n ⊆ processedMsgs n'.
Proof.
  intros Hr. induction Hr as [n|n n1 n' Hs _ IH]; [done|]. etrans; [|exact IH]. clear IH n'.
  destruct (handle_untouched (fun n' => processedMsgs n ⊆ processedMsgs n')) as [Hp Hh]; [done..|].
  destruct Hs as [data n _|n _|n|ord n _|d n _].
  - unfold listen. repeat case_match; try done. cbn. set_solver.
  - unfold enqueue. by case_match.
  - unfold process. destruct (messageChan n); [done|]. by apply Hh.
  - unfold elect. destruct (ElectLeader _ _ _). by destruct (CurrentLeader _).
  - by apply Hp.
Qed.

(** One message per validator and block.  Once a packet of a validator
    about a block has been accepted, every later packet of that validator about
    that block is dropped, of whatever type: a validator's finalization that
    follows its approval changes nothing. *)
Theorem finalization_after_approval_dropped n n' appr fin data :
  ConsensusPacket_ok appr -> ConsensusPacket_Serialize appr = Ok data ->
  verifySignature n (ConsensusPacket_normalize appr (cp_Signature appr)) = Ok true ->
  (msgID appr ∉ processedMsgs n) -> runs (listen data n).1 n' ->
  ConsensusPacket_ok fin -> cp_ValidatorID fin = cp_ValidatorID appr ->
  cp_BlockHash fin = cp_BlockHash appr ->
  exists data', ConsensusPacket_Serialize fin = Ok data' /\ (listen data' n').1 = n'.
Proof.
  intros Hok Hser Hv Hnew Hrun Hfin Hid Hh.
  rewrite <- (app_nil_r data), (listen_accepts n appr) in Hrun by done.
  pose proof (runs_processed _ _ Hrun) as Hsub. cbn in Hsub.
  destruct (ConsensusPacket_reads_back fin [] Hfin) as (d & Hd & Hde).
  exists d. split; [done|]. rewrite app_nil_r in Hde. unfold listen. rewrite Hde.
  destruct (verifySignature n' _) as [[]|e|]; try done.
  assert (msgID (ConsensusPacket_normalize fin (cp_Signature fin)) = msgID appr) as ->.
  { unfold msgID. cbn. by rewrite Hid, Hh. }
  rewrite bool_decide_eq_true_2; [done|]. set_solver.
Qed.

(** A packet naming a registered validator and a signer type that the
    validator's account lacks panics the listener: the nil signer is called. *)
Theorem unknown_signer_panics n pkt d id v :
  ConsensusPacket_ok pkt -> signed_data pkt = Ok (d, id) ->
  GetValidator (validatorSet n) id = Some v ->
  Validator_Signer v (normalize_signer (cp_Signer pkt)) = None ->
  exists data, ConsensusPacket_Serialize pkt = Ok data /\ (listen data n).2 = Panic.
Proof.
  intros Hok Hsd Hval Hnone.
  destruct (ConsensusPacket_reads_back pkt [] Hok) as (data & Hd & Hde). exists data.
  split; [done|]. rewrite app_nil_r in Hde. unfold listen. rewrite Hde.
  assert (exists d', signed_data (ConsensusPacket_normalize pkt (cp_Signature pkt)) = Ok (d', id))
    as [d' Hsd'].
  { revert Hsd. unfold signed_data. cbn. repeat case_match; try done; intros [= <- <-]; eauto. }
  unfold verifySignature. rewrite Hsd', bind_Ok.
  cbn [cp_Signer cp_Signature ConsensusPacket_normalize]. by rewrite Hval, Hnone.
Qed.

(** A proposal in the state stays there through the node's approval. *)
Lemma ApproveProposal_proposals h k pkt :
  io_keeps (fun n => st_proposals (state n) !! k = Some pkt) (ApproveProposal h).
Proof.
  unfold ApproveProposal. apply io_keeps_bind; [apply io_keeps_read|intros a].
  apply io_keeps_bind; [by apply io_keeps_wrap; intros n|intros sig].
  apply io_keeps_bind; [apply io_keeps_wrap|intros _; apply io_keeps_wrap].
  - intros n Hn. unfold BroadcastMessage. by destruct (wrap _ _).
  - intros n Hn. unfold on_state. pose proof (AddApproval_proposals (state n) (with_signature a sig)) as Ea.
    destruct (AddApproval _ _). cbn in *. by rewrite Ea.
Qed.

Lemma handleProposal_stores n pkt :
  cp_ProposerID pkt = currentLeader n -> cp_Type pkt = PacketTypeProposal ->
  st_proposals (state (handleProposal pkt n).1) !! hash_key (cp_BlockHash pkt) = Some pkt.
Proof.
  intros Hl Ht. unfold handleProposal. rewrite bool_decide_eq_true_2 by done. cbn [negb].
  assert (st_proposals (AddProposal (state n) pkt).1 !! hash_key (cp_BlockHash pkt) = Some pkt) as Ha.
  { unfold AddProposal. rewrite Ht. cbn [negb Z.eqb Pos.eqb PacketTypeProposal].
    destruct (persist_proj (put_proposal (state n) pkt) (cp_BlockHash pkt) (cp_BlockData pkt)) as (-> & _).
    cbn. by rewrite lookup_insert_eq. }
  unfold logged at 1, on_state. destruct (AddProposal (state n) pkt) as [cs [[]|e|]]; try done.
  destruct (IsValidator _ _); [|done].
  pose proof (ApproveProposal_proposals (cp_BlockHash pkt) _ _ (with_state n cs) Ha) as Hk.
  cbv [mbind io_bind]. unfold logged. by destruct (ApproveProposal _ _) as [? []].
Qed.

(** A proposal reaches the other validators.  What a node publishes when it
    proposes a block is accepted by every validator that has the proposer
    registered with a correct signer and as its leader, and puts the proposal,
    with the block data, in its state. *)
Theorem proposal_delivered a a' b d s :
  ProposeBlock d a = (a', Ok tt) ->
  acc_Signers (identity a) !! BlsSignerType = Some s -> SignerCorrect s ->
  (forall sig, Signer_Sign s (HashData d ++ d) = Ok sig -> short sig) ->
  short (acc_PeerID (identity a)) -> short d ->
  GetValidator (validatorSet b) (acc_PeerID (identity a)) = Some {| val_account := identity a |} ->
  currentLeader b = acc_PeerID (identity a) -> messageChan b = [] ->
  (msgID (proposal a d) ∉ processedMsgs b) ->
  exists data pkt, published a' = published a ++ [data] /\
    st_proposals (state (deliver data b)) !! hash_key (HashData d) = Some pkt /\
    cp_BlockData pkt = d /\ cp_ProposerID pkt = acc_PeerID (identity a).
Proof.
  intros Hp Hs Hcor Hsig Hid Hd Hval Hlead Hch Hnew. unfold ProposeBlock in Hp.
  erewrite io_bind_Ok in Hp by reflexivity.
  apply io_bind_inv in Hp as (a1 & sig & Hsg & Hp). apply io_wrap_inv in Hsg.
  unfold Sign, Account_Sign in Hsg. cbn in Hsg. rewrite Hs in Hsg.
  injection Hsg as <- Hsg. apply wrap_Ok_inv in Hsg.
  cbn zeta in Hp. set (pkt := with_signature (proposal a d) sig) in *.
  apply io_bind_inv in Hp as (a2 & [] & Hb & Hp). apply io_wrap_inv in Hb, Hp.
  assert (ConsensusPacket_ok pkt) as Hok.
  { split; cbn; try done. by eapply Hsig. }
  destruct (ConsensusPacket_reads_back pkt [] Hok) as (data & Hser & _).
  unfold BroadcastMessage in Hb. rewrite Hser, wrap_Ok in Hb. injection Hb as <- _.
  unfold on_state in Hp. destruct (AddProposal _ pkt) as [cs r]. injection Hp as <- _.
  exists data, pkt. split; [done|].
  assert (ConsensusPacket_normalize pkt (cp_Signature pkt) = pkt) as Hnorm by done.
  rewrite (deliver_handles b pkt data), Hnorm; [|done..| |done|done].
  - split; [|done]. by apply handleProposal_stores.
  - rewrite Hnorm. unfold verifySignature.
    assert (signed_data pkt = Ok (HashData d ++ d, acc_PeerID (identity a))) as -> by done.
    rewrite bind_Ok. cbv beta iota. rewrite Hval.
    change (Validator_Signer _ (cp_Signer pkt)) with (acc_Signers (identity a) !! BlsSignerType).
    rewrite Hs. cbn.
    pose proof (sign_verifies _ _ Hsg) as Hver. unfold verifies in Hver.
    by destruct (Signer_Verify s _ _) as [[]| |].
Qed.

(** The steps of the running module leave the state manager alone. *)
Lemma runs_stateMgr n n' : runs n n' -> stateMgr n' = stateMgr n.
Proof.
  intros Hr. induction Hr as [n|n n1 n' Hs _ IH]; [done|]. rewrite IH. clear IH n'.
  destruct (handle_untouched (fun n' => stateMgr n' = stateMgr n)) as [Hp Hh]; [done..|].
  destruct Hs as [data n _|n _|n|ord n _|d n _].
  - unfold listen. by repeat case_match.
  - unfold enqueue. by case_match.
  - unfold process. destruct (messageChan n); [done|]. by apply Hh.
  - unfold elect. destruct (ElectLeader _ _ _). by destruct (CurrentLeader _).
  - by apply Hp.
Qed.
End Node.
End Node.

(** * validator.go *)
Module ValidatorService.
Import ValidatorStates.

Section Service.
Context {E : Type} `{Mdbx E} (peer_String : PeerID -> bytes).

(** The validator and its consensus module share one state manager, which is
    the one of the module here. *)
Record Validator := {
  v_did : Account;
  v_shardManager : ShardManager;
  v_consensus : Node.Consensus (E := E);
}.

(** [db] is the outcome of [sm.GetDb("consensus")]; a new shard manager has no
    assignments to search, so the order of its shards does not matter. *)
Definition NewValidator (shardCount : Z) (did : Account) (db : res E) (vs : ValidatorSet)
    (mc : Collector) : res Validator :=
  sm ← Set_ New ValidatorStateType Uninitialized;
  if negb (IsValidator vs (acc_PeerID did))
  then Err (ErrMsg "validator not found for peer ID %s")
  else
    let shardManager := NewShardManager shardCount in
    let '(shardManager, r) :=
      AssignValidator peer_String (seqZ 0 shardCount) (acc_PeerID did) shardManager in
    _ ← wrap "failed to assign validator to shard" r;
    consensusDb ← db;
    vConsensus ← Node.NewConsensus did consensusDb vs mc sm;
    sm ← Set_ (Node.stateMgr vConsensus) ValidatorStateType Initialized;
    Ok {| v_did := did; v_shardManager := shardManager;
          v_consensus := Node.with_manager vConsensus sm |}.

Definition with_consensus (v : Validator) (c : Node.Consensus) : Validator :=
  {| v_did := v_did v; v_shardManager := v_shardManager v; v_consensus := c |}.
Definition on_consensus {A} (m : io (Node.Consensus (E := E)) A) : io Validator A := fun v =>
  let '(c, r) := m (v_consensus v) in (with_consensus v c, r).

Definition set_state (st : State) : io (Node.Consensus (E := E)) unit := fun n =>
  match Set_ (Node.stateMgr n) ValidatorStateType st with
  | Ok sm => (Node.with_manager n sm, Ok tt)
  | Err e => (n, Err e)
  | Panic => (n, Panic)
  end.

Definition Start : io Validator unit :=
  _ ← on_consensus (set_state Starting);
  _ ← on_consensus Node.Start;
  on_consensus (set_state Started).

(** [WaitForState(ConsensusStateType, Stopped, 10*time.Second)]. *)
Definition await_stopped : io (Node.Consensus (E := E)) (res unit) := fun n =>
  let '(sm, r) := Wait ConsensusStateType Stopped (Node.stateMgr n) in
  (Node.with_manager n sm, Ok r).

Definition Shutdown : io Validator unit :=
  _ ← on_consensus (set_state Stopping);
  _ ← on_consensus Node.Shutdown;
  r ← on_consensus await_stopped;
  match r with
  | Err e => _ ← on_consensus (set_state Failed);
             io_lift (Err (ErrWrap "failed to wait for consensus started state" e))
  | Panic => io_lift Panic
  | Ok _ => on_consensus (set_state Stopped)
  end.

Definition state_of (v : Validator) (ty : string) : State := Get (Node.stateMgr (v_consensus v)) ty.

Lemma NewValidator_shards shardCount v : 0 < shardCount ->
  let '(sm, r) := AssignValidator peer_String (seqZ 0 shardCount) v (NewShardManager shardCount) in
  r = Ok (home peer_String shardCount v) /\
  assigned_shard (seqZ 0 shardCount) sm v = Some (home peer_String shardCount v).
Proof.
  intros Hn. pose proof (placed_new peer_String shardCount) as Hp.
  rewrite (AssignValidator_placed peer_String shardCount) by first [done|by apply (placed_order peer_String)].
  pose proof (add_to_home_keeps peer_String _ v _ Hn Hp) as Hp'.
  destruct (add_to_home_placed peer_String _ v _ Hn Hp) as (s & Hs & E1). rewrite E1 in Hp' |- *.
  split; [done|]. cbn in Hp'. rewrite (assigned_shard_placed peer_String shardCount);
    [|done|done|by apply (placed_order peer_String shardCount)].
  assert (shard_has (set_shard (NewShardManager shardCount) (home peer_String shardCount v)
    (Shard_AddValidator s v)) v (home peer_String shardCount v) = true) as ->; [|done].
  apply (shard_has_spec peer_String). eexists. split; [cbn; by rewrite lookup_insert_eq|]. cbn. set_solver.
Qed.

(** Runs of state changes. *)
Definition after (sm : Manager) (ops : list (string * State)) : res Manager :=
  fold_res (fun sm op => Set_ sm op.1 op.2) sm ops.
Definition with_mgr (v : Validator) (sm : Manager) : Validator :=
  with_consensus v (Node.with_manager (v_consensus v) sm).

Lemma Start_run v sm :
  after (Node.stateMgr (v_consensus v))
    [(ValidatorStateType, Starting); (ConsensusStateType, Starting);
     (ConsensusStateType, Started); (ValidatorStateType, Started)] = Ok sm ->
  Start v = (with_mgr v sm, Ok tt).
Proof.
  unfold after. cbn [fold_res fst snd]. intros Ha. res_inv.
  unfold Start, on_consensus, Node.Start, Node.set_state, set_state.
  cbv [mbind io_bind mret io_ret]. rewrite E0. cbn [v_consensus with_consensus Node.stateMgr Node.with_manager].
  rewrite E1. cbn [Node.stateMgr Node.with_manager]. rewrite E2. cbn [v_consensus with_consensus Node.stateMgr Node.with_manager].
  by rewrite E3.
Qed.

Lemma Shutdown_run v sm sm1 sm2 :
  after (Node.stateMgr (v_consensus v))
    [(ValidatorStateType, Stopping); (ConsensusStateType, Stopping);
     (ConsensusStateType, Stopped)] = Ok sm ->
  Wait ConsensusStateType Stopped sm = (sm1, Ok tt) ->
  Set_ sm1 ValidatorStateType Stopped = Ok sm2 ->
  Shutdown v = (with_mgr v sm2, Ok tt).
Proof.
  unfold after. cbn [fold_res fst snd]. intros Ha Hw Hs. res_inv.
  unfold Shutdown, on_consensus, Node.Shutdown, Node.set_state, set_state, await_stopped.
  cbv [mbind io_bind mret io_ret]. rewrite E0. cbn [v_consensus with_consensus Node.stateMgr Node.with_manager].
  rewrite E1. cbn [Node.stateMgr Node.with_manager]. rewrite E2. cbn [v_consensus with_consensus Node.stateMgr Node.with_manager].
  rewrite Hw. cbn [v_consensus with_consensus Node.stateMgr Node.with_manager]. by rewrite Hs.
Qed.

(** The life of a validator.  A new validator is initialized and sits in
    the shard its peer ID hashes to; starting it starts the consensus module;
    whatever the module then does, shutting down returns without an error and
    leaves both stopped. *)
Theorem validator_lifecycle shardCount did db vs mc v topic :
  0 < shardCount -> NewValidator shardCount did db vs mc = Ok v ->
  state_of v ValidatorStateType = Initialized /\
  assigned_shard (seqZ 0 shardCount) (v_shardManager v) (acc_PeerID did) =
    Some (home peer_String shardCount (acc_PeerID did)) /\
  exists v1, Start v = (v1, Ok tt) /\
    state_of v1 ValidatorStateType = Started /\ state_of v1 ConsensusStateType = Started /\
    forall c, Node.runs peer_String topic (v_consensus v1) c ->
    exists v2, Shutdown (with_consensus v1 c) = (v2, Ok tt) /\
      state_of v2 ValidatorStateType = Stopped /\ state_of v2 ConsensusStateType = Stopped /\
      Node.state (v_consensus v2) = Node.state c.
Proof.
  intros Hn Hnew. unfold NewValidator in Hnew.
  apply bind_Ok_inv in Hnew as (sm0 & Hsm0 & Hnew). vm_compute in Hsm0. injection Hsm0 as <-.
  destruct (negb _); [done|]. cbv zeta in Hnew.
  pose proof (NewValidator_shards shardCount (acc_PeerID did) Hn) as Hsh.
  destruct (AssignValidator _ _ _ _) as [shards r]. destruct Hsh as [-> Hsh].
  rewrite wrap_Ok, bind_Ok in Hnew.
  apply bind_Ok_inv in Hnew as (store & -> & Hnew).
  apply bind_Ok_inv in Hnew as (c0 & Hc0 & Hnew). unfold Node.NewConsensus in Hc0.
  apply bind_Ok_inv in Hc0 as (sm1 & Hsm1 & [= <-]). vm_compute in Hsm1. injection Hsm1 as <-.
  apply bind_Ok_inv in Hnew as (sm2 & Hsm2 & [= <-]). vm_compute in Hsm2. injection Hsm2 as <-.
  split; [reflexivity|]. split; [exact Hsh|].
  eexists. split; [apply Start_run; vm_compute; reflexivity|].
  split; [reflexivity|]. split; [reflexivity|].
  intros c Hruns. apply Node.runs_stateMgr in Hruns.
  eexists. split.
  { eapply Shutdown_run.
    - cbn [v_consensus with_mgr with_consensus Node.stateMgr Node.with_manager] in Hruns |- *.
      rewrite Hruns. vm_compute. reflexivity.
    - vm_compute. reflexivity.
    - vm_compute. reflexivity. }
  split; [reflexivity|]. by split.
Qed.
End Service.
End ValidatorService.

(** * A concrete validator *)
Section Example.
Import Node.
Definition topic_ok : list bytes -> bytes -> res unit := fun _ _ => Ok tt.
Definition example_node (id : string) : Node.Consensus (E := MemDb) :=
  {| identity := toy_account id; state := NewState ∅;
     stateMgr := ValidatorStates.New; pending := None; messageChan := []; processedMsgs := ∅;
     validatorSet := vs_three; currentLeader := str "a";
     collector := {| mc_metrics := ∅; mc_weights := zero_Metrics |};
     proposers := 1; published := [] |}.

Definition example_approval : ConsensusPacket :=
  {| cp_Type := PacketTypeApproval; cp_Signer := BlsSignerType; cp_ProposerID := [];
     cp_ValidatorID := str "b"; cp_BlockHash := str "hash"; cp_BlockData := [];
     cp_Signature := str "sb" ++ str "hash" |}.
Lemma example_approval_ok : ConsensusPacket_ok example_approval.
Proof. by split. Qed.
Lemma example_fresh pkt : msgID id pkt ∉ processedMsgs (example_node "c").
Proof. cbn. set_solver. Qed.

Lemma replayed_approval_finalizes_witness :
  exists data, ConsensusPacket_Serialize (as_type PacketTypeFinalization example_approval) = Ok data /\
    IsFinalized (state (deliver id topic_ok data (example_node "c"))) (str "hash") = true /\
    approvals_for (state (deliver id topic_ok data (example_node "c"))) (str "hash") =
      approvals_for (state (example_node "c")) (str "hash").
Proof.
  apply (replayed_approval_finalizes id topic_ok (example_node "c") example_approval).
  - apply example_approval_ok.
  - reflexivity.
  - reflexivity.
  - vm_compute. reflexivity.
  - apply example_fresh.
  - reflexivity.
Defined.

Lemma finalization_after_approval_dropped_witness :
  exists data data', ConsensusPacket_Serialize example_approval = Ok data /\
    ConsensusPacket_Serialize (as_type PacketTypeFinalization example_approval) = Ok data' /\
    (listen id data' (listen id data (example_node "c")).1).1 = (listen id data (example_node "c")).1.
Proof.
  destruct (finalization_after_approval_dropped id topic_ok (example_node "c")
    (listen id (ConsensusPacket_head example_approval ++ put_signature (str "sb" ++ str "hash"))
       (example_node "c")).1
    example_approval (as_type PacketTypeFinalization example_approval)
    (ConsensusPacket_head example_approval ++ put_signature (str "sb" ++ str "hash")))
    as (data' & Hd & Hl).
  - apply example_approval_ok.
  - reflexivity.
  - vm_compute. reflexivity.
  - apply example_fresh.
  - apply rtc_refl.
  - by split.
  - reflexivity.
  - reflexivity.
  - exists (ConsensusPacket_head example_approval ++ put_signature (str "sb" ++ str "hash")), data'.
    split; [reflexivity|]. split; [exact Hd|exact Hl].
Defined.

Definition ed25519_approval : ConsensusPacket :=
  {| cp_Type := PacketTypeApproval; cp_Signer := Ed25519SignerType; cp_ProposerID := [];
     cp_ValidatorID := str "b"; cp_BlockHash := str "hash"; cp_BlockData := [];
     cp_Signature := str "any" |}.
Lemma unknown_signer_panics_witness :
  exists data, ConsensusPacket_Serialize ed25519_approval = Ok data /\
    (listen id data (example_node "c")).2 = Panic.
Proof.
  apply (unknown_signer_panics id (example_node "c") ed25519_approval (str "hash") (str "b")
    {| val_account := toy_account "b" |}).
  - by split.
  - reflexivity.
  - reflexivity.
  - vm_compute. reflexivity.
Defined.

Lemma proposal_delivered_witness :
  exists data pkt,
    published (ProposeBlock topic_ok (str "block") (example_node "a")).1 = [data] /\
    st_proposals (state (deliver id topic_ok data (example_node "c")))
      !! hash_key (HashData (str "block")) = Some pkt /\
    cp_BlockData pkt = str "block".
Proof.
  destruct (proposal_delivered id topic_ok (example_node "a")
    (ProposeBlock topic_ok (str "block") (example_node "a")).1 (example_node "c") (str "block")
    (toy_signer "a")) as (data & pkt & H1 & H2 & H3 & _).
  - assert ((ProposeBlock topic_ok (str "block") (example_node "a")).2 = Ok tt) as <-
      by (vm_compute; reflexivity). apply surjective_pairing.
  - vm_compute. reflexivity.
  - apply toy_signer_correct.
  - intros sig Hs. vm_compute in Hs. injection Hs as <-. vm_compute. reflexivity.
  - vm_compute. reflexivity.
  - vm_compute. reflexivity.
  - vm_compute. reflexivity.
  - reflexivity.
  - reflexivity.
  - apply example_fresh.
  - exists data, pkt. split; [exact H1|]. split; [exact H2|exact H3].
Defined.
End Example.

Lemma validator_lifecycle_witness :
  exists v v1 v2,
    ValidatorService.NewValidator id 4 (toy_account "a") (Ok (∅ : MemDb)) vs_three
      {| mc_metrics := ∅; mc_weights := zero_Metrics |} = Ok v /\
    ValidatorService.Start v = (v1, Ok tt) /\ ValidatorService.Shutdown v1 = (v2, Ok tt) /\
    ValidatorService.state_of v2 ConsensusStateType = ValidatorStates.Stopped.
Proof.
  assert (is_ok (ValidatorService.NewValidator id 4 (toy_account "a") (Ok (∅ : MemDb)) vs_three
      {| mc_metrics := ∅; mc_weights := zero_Metrics |}) = true) as Hok by (vm_compute; reflexivity).
  destruct (ValidatorService.NewValidator id 4 (toy_account "a") (Ok (∅ : MemDb)) vs_three
      {| mc_metrics := ∅; mc_weights := zero_Metrics |}) as [v|e|] eqn:Hv.
  - destruct (ValidatorService.validator_lifecycle id 4 _ _ _ _ v topic_ok ltac:(lia) Hv)
      as (_ & _ & v1 & Hs & _ & _ & Hrun).
    destruct (Hrun (ValidatorService.v_consensus v1)) as (v2 & Hd & _ & Hc & _).
    + apply rtc_refl.
    + exists v, v1, v2. split; [reflexivity|]. split; [exact Hs|].
      destruct v1. split; [exact Hd|exact Hc].
  - discriminate Hok.
  - discriminate Hok.
Defined.
