(* ===== verification/NodeThreads.v ===== *)
(** The goroutines of the consensus module of [pkg/validator/consensus.go], with the
    calls of each as steps.

    [ValidatorNode.v] makes the handling of a packet, an election and a proposal one
    step each.  The module runs them in goroutines of their own: one that processes
    the packets, one that elects leaders, and one that proposes blocks for every
    election that this node won.  They share the maps, which have locks, and the
    current leader, which has none.  Here their calls interleave as they may; the
    listener, which shares only the channel, stays as it is.  A goroutine alone does
    what the method of [ValidatorNode.v] does. *)
From S2P Require Import Prelude Bytes Types Signatures Packets Storage Validators Consensus.
From S2P Require Import StateManager ValidatorNode Threads StateThreads.

Module NodeConcurrent.
Import Node.
Section Goroutines.
Context {E : Type} `{Mdbx E}.
Context (peer_String : PeerID -> bytes) (topic_Publish : list bytes -> bytes -> res unit).
Local Abbreviation Node := (Node.Consensus (E := E)).
Local Abbreviation T := (@T Node Empty_set).
Local Abbreviation prog := (@prog Node Empty_set).
#[export] Program Instance Node_holds : HoldsState E Node := { held := state; hold := with_state }.
Solve Obligations with by try intros [].

(** * The methods *)
Definition BroadcastMessage (pkt : ConsensusPacket) : T unit :=
  atom (Node.BroadcastMessage topic_Publish pkt).
(** A packet is signed, broadcast, and then recorded. *)
Definition sign_and_record (make : Node -> ConsensusPacket) (data : ConsensusPacket -> bytes)
    (record : ConsensusPacket -> T unit) (signing broadcasting recording : string) : T unit :=
  pkt ← read make;
  signature ← wrapped signing (atom (Sign (cp_Signer pkt) (data pkt)));
  let pkt := with_signature pkt signature in
  _ ← wrapped broadcasting (BroadcastMessage pkt);
  wrapped recording (record pkt).

Definition ProposeBlock (blockData : bytes) : T unit :=
  sign_and_record (fun n => proposal n blockData) (fun pkt => cp_BlockHash pkt ++ blockData)
    StateThreads.AddProposal
    "failed to sign proposal packet" "failed to broadcast proposal packet" "failed to add proposal to state".
Definition ApproveProposal (blockHash : bytes) : T unit :=
  sign_and_record (fun n => vote n PacketTypeApproval blockHash) (fun _ => blockHash)
    StateThreads.AddApproval
    "failed to sign approval packet" "failed to broadcast approval packet" "failed to add approval to state".
Definition FinalizeBlock (blockHash : bytes) : T unit :=
  sign_and_record (fun n => vote n PacketTypeFinalization blockHash) (fun _ => blockHash)
    (fun _ => StateThreads.FinalizeBlock blockHash)
    "failed to sign finalization packet" "failed to broadcast finalization packet" "failed to finalize block".

Definition handleProposal (pkt : ConsensusPacket) : T unit :=
  leader ← read currentLeader;
  if negb (bool_decide (cp_ProposerID pkt = leader)) then mret tt
  else
    added ← logged (StateThreads.AddProposal pkt);
    when added (
      isValidator ← read (fun n => IsValidator (validatorSet n) (acc_PeerID (identity n)));
      when isValidator (_ ← logged (ApproveProposal (cp_BlockHash pkt)); mret tt)).

Definition handleApproval (pkt : ConsensusPacket) : T unit :=
  added ← logged (StateThreads.AddApproval pkt);
  when added (
    isLeader ← read (fun n => bool_decide (acc_PeerID (identity n) = currentLeader n));
    when isLeader (
      quorumSize ← read (fun n => QuorumSize (validatorSet n));
      reached ← read (fun n => HasReachedQuorum (state n) (cp_BlockHash pkt) quorumSize);
      when reached (
        finalized ← read (fun n => IsFinalized (state n) (cp_BlockHash pkt));
        when (negb finalized) (_ ← logged (FinalizeBlock (cp_BlockHash pkt)); mret tt)))).

Definition handleFinalization (pkt : ConsensusPacket) : T unit :=
  _ ← logged (StateThreads.FinalizeBlock (cp_BlockHash pkt)); mret tt.

Definition handle (pkt : ConsensusPacket) : T unit :=
  if cp_Type pkt =? PacketTypeProposal then handleProposal pkt
  else if cp_Type pkt =? PacketTypeApproval then handleApproval pkt
  else if cp_Type pkt =? PacketTypeFinalization then handleFinalization pkt
  else mret tt.

(** One tick of the elections. *)
Definition elect (ord : list PeerID) : T unit :=
  _ ← atom (fun n =>
    let '(vs, mc) := ElectLeader (validatorSet n) (collector n) ord in
    (with_leader n vs mc (currentLeader n) (proposers n), Ok tt));
  leader ← read (fun n => CurrentLeader (validatorSet n));
  match leader with
  | None => mret tt
  | Some leader =>
      _ ← atom (setCurrentLeader (Validator_PeerID leader));
      me ← read (fun n => acc_PeerID (identity n));
      if bool_decide (Validator_PeerID leader = me)
      then atom (fun n =>
        (with_leader n (validatorSet n) (collector n) (currentLeader n) (S (proposers n)), Ok tt))
      else mret tt
  end.

(** * Alone *)
Local Abbreviation spawned t := (t (fun _ => Done) : prog).

(** The writers of the state. *)
Lemma sim_node_AddProposal pkt :
  sim (StateThreads.AddProposal pkt : T unit) (on_state (fun cs => AddProposal cs pkt)).
Proof. exact (StateThreads.sim_state_AddProposal pkt). Qed.
Lemma sim_node_AddApproval pkt :
  sim (StateThreads.AddApproval pkt : T unit) (on_state (fun cs => AddApproval cs pkt)).
Proof. exact (StateThreads.sim_state_AddApproval pkt). Qed.
Lemma sim_node_State_FinalizeBlock h :
  sim (StateThreads.FinalizeBlock h : T unit) (on_state (fun cs => State_FinalizeBlock cs h)).
Proof. exact (StateThreads.sim_state_State_FinalizeBlock h). Qed.

Lemma sim_sign_and_record make data record record' signing broadcasting recording :
  (forall pkt, sim (record pkt) (record' pkt)) ->
  sim (sign_and_record make data record signing broadcasting recording)
    (pkt ← io_read (fun n => Ok (make n));
     signature ← io_wrap signing (Sign (cp_Signer pkt) (data pkt));
     _ ← io_wrap broadcasting (Node.BroadcastMessage topic_Publish (with_signature pkt signature));
     io_wrap recording (record' (with_signature pkt signature))).
Proof.
  intros Hr. unfold sign_and_record. apply (sim_bind _ _ (io_read (fun n => Ok (make n)))); [done|intros pkt].
  apply sim_bind; [apply sim_wrapped, sim_atom|intros sig]. cbv zeta.
  apply sim_bind; [apply sim_wrapped, sim_atom|intros _]. apply sim_wrapped, Hr.
Qed.

Lemma sim_node_ProposeBlock d : sim (ProposeBlock d) (Node.ProposeBlock topic_Publish d).
Proof.
  unfold ProposeBlock, Node.ProposeBlock. cbv zeta.
  apply (sim_sign_and_record _ _ _ (fun pkt => on_state (fun cs => AddProposal cs pkt))).
  intros pkt. apply sim_node_AddProposal.
Qed.
Lemma sim_node_ApproveProposal h : sim (ApproveProposal h) (Node.ApproveProposal topic_Publish h).
Proof.
  unfold ApproveProposal, Node.ApproveProposal. cbv zeta.
  apply (sim_sign_and_record _ _ _ (fun pkt => on_state (fun cs => AddApproval cs pkt))).
  intros pkt. apply sim_node_AddApproval.
Qed.
Lemma sim_node_FinalizeBlock h : sim (FinalizeBlock h) (Node.FinalizeBlock topic_Publish h).
Proof.
  unfold FinalizeBlock, Node.FinalizeBlock. cbv zeta.
  apply (sim_sign_and_record _ _ _ (fun _ => on_state (fun cs => State_FinalizeBlock cs h))).
  intros _. apply sim_node_State_FinalizeBlock.
Qed.

(** The branches of the handlers differ in their nesting only. *)
Lemma sim_handleProposal pkt : sim (handleProposal pkt) (Node.handleProposal topic_Publish pkt).
Proof.
  intros c n. unfold handleProposal, Node.handleProposal. rewrite run_read.
  destruct (negb _); [done|]. erewrite run_bind by apply sim_logged, sim_node_AddProposal.
  destruct (Prelude.logged _ n) as [n1 [[]|e|]] eqn:El; [|done| |done].
  - rewrite when_true, run_read. destruct (IsValidator _ _); [|done]. rewrite when_true.
    refine (sim_bind _ _ (Prelude.logged _) (fun _ => mret tt) _ _ c n1); [|done].
    apply sim_logged, sim_node_ApproveProposal.
  - exfalso. unfold Prelude.logged in El. by destruct (on_state _ n) as [? []].
Qed.

Lemma sim_handleApproval pkt : sim (handleApproval pkt) (Node.handleApproval topic_Publish pkt).
Proof.
  intros c n. unfold handleApproval, Node.handleApproval.
  erewrite run_bind by apply sim_logged, sim_node_AddApproval.
  destruct (Prelude.logged _ n) as [n1 [[]|e|]] eqn:El; [|done| |done].
  - rewrite when_true, run_read. destruct (bool_decide _); [|done].
    rewrite when_true, !run_read. destruct (HasReachedQuorum _ _ _); [|done].
    rewrite when_true, run_read. destruct (IsFinalized _ _); [done|].
    refine (sim_bind _ _ (Prelude.logged _) (fun _ => mret tt) _ _ c n1); [|done].
    apply sim_logged, sim_node_FinalizeBlock.
  - exfalso. unfold Prelude.logged in El. by destruct (on_state _ n) as [? []].
Qed.

Lemma sim_handle pkt : sim (handle pkt) (Node.handle topic_Publish pkt).
Proof.
  unfold handle, Node.handle. destruct (_ =? _); [apply sim_handleProposal|].
  destruct (_ =? _); [apply sim_handleApproval|]. destruct (_ =? _); [|done].
  apply sim_bind; [apply sim_logged, sim_node_State_FinalizeBlock|done].
Qed.

Lemma sim_elect ord : sim (elect ord) (Node.elect ord).
Proof.
  intros c n. unfold elect, Node.elect. erewrite run_bind by apply sim_atom. cbv beta.
  destruct (ElectLeader _ _ _) as [vs mc]. rewrite run_read. cbn [validatorSet with_leader].
  destruct (CurrentLeader vs) as [leader|]; [|done].
  cbv [mbind T_bind read atom]. cbn [run fst snd setCurrentLeader with_leader identity].
  by destruct (bool_decide _).
Qed.


(** * The goroutines of a module *)
Local Abbreviation config := (@config Node Empty_set).
Definition on_node (f : Node -> Node) (c : config) : config :=
  {| c_state := f (c_state c); c_locks := c_locks c; c_threads := c_threads c |}.
(** A goroutine that waits goes on with [t]. *)
Definition resume (i : nat) (t : T unit) (c : config) : config :=
  {| c_state := c_state c; c_locks := c_locks c; c_threads := <[i := spawned t]> (c_threads c) |}.
Definition waits (i : nat) (c : config) : Prop := c_threads c !! i = Some Done.

(** The first goroutine processes the messages, the second elects, and the others
    propose; [module_goes] is the start of one that the elections have counted.  A
    step is labelled with the messages it takes from the topic. *)
Definition start (n : Node) : config := start_threads n [Done; Done].
Inductive module_step : config -> list bytes -> config -> Prop :=
| module_listens data c : pending (c_state c) = None ->
    module_step c [data] (on_node (fun n => (listen peer_String data n).1) c)
| module_enqueues c : Zlen (messageChan (c_state c)) < chan_capacity ->
    module_step c [] (on_node (fun n => (enqueue n).1) c)
| module_processes pkt rest c : waits 0 c -> messageChan (c_state c) = pkt :: rest ->
    module_step c [] (resume 0 (handle pkt)
      (on_node (fun n => with_queue n (pending n) rest (processedMsgs n)) c))
| module_elects ord c : waits 1 c -> is_order (vs_validators (validatorSet (c_state c))) ord ->
    module_step c [] (resume 1 (elect ord) c)
| module_goes c : (length (c_threads c) < 2 + proposers (c_state c))%nat ->
    module_step c [] {| c_state := c_state c; c_locks := c_locks c; c_threads := c_threads c ++ [Done] |}
| module_proposes i d c : (2 <= i)%nat -> waits i c -> module_step c [] (resume i (ProposeBlock d) c)
| module_acts c c' : thread_step c c' -> module_step c [] c'.
Inductive module_runs (c : config) : list bytes -> config -> Prop :=
| runs_none : module_runs c [] c
| runs_step heard c1 d c2 : module_runs c heard c1 -> module_step c1 d c2 -> module_runs c (heard ++ d) c2.

Lemma module_runs_trans c l1 c1 l2 c2 :
  module_runs c l1 c1 -> module_runs c1 l2 c2 -> module_runs c (l1 ++ l2) c2.
Proof.
  intros H1. induction 1 as [|l2 c2 d c3 _ IH Hs]; [by rewrite app_nil_r|].
  rewrite app_assoc. by eapply runs_step.
Qed.
Lemma module_runs_once c d c' : module_step c d c' -> module_runs c d c'.
Proof. intros Hs. apply (runs_step c [] c d c'); [apply runs_none|done]. Qed.
Lemma module_runs_acts c c' : rtc thread_step c c' -> module_runs c [] c'.
Proof.
  induction 1 as [c|c c1 c' Hs _ IH]; [apply runs_none|].
  apply (module_runs_trans c [] c1 [] c'); [by apply module_runs_once, module_acts|done].
Qed.

(** ** A goroutine that is not disturbed *)
Lemma alone_steps i p (c : config) :
  c_threads c !! i = Some p ->
  rtc thread_step c
    {| c_state := run p (c_state c); c_locks := c_locks c; c_threads := <[i := Done]> (c_threads c) |}.
Proof.
  revert c. induction p as [|f next IH|[]|[]]; intros c Hi.
  - rewrite list_insert_id by done. destruct c. apply rtc_refl.
  - eapply rtc_l.
    { exists i. unfold act. rewrite Hi. reflexivity. }
    set (c1 := {| c_state := _; c_locks := _; c_threads := _ |}).
    specialize (IH (c_state c) c1). cbn in IH. rewrite list_insert_insert_eq in IH. apply IH.
    apply list_lookup_insert_eq. by eapply lookup_lt_Some.
Qed.
(** A goroutine that waits, resumes and is not disturbed, waits again. *)
Lemma resume_alone i t m (c0 c : config) :
  sim t m -> waits i c -> module_step c0 [] (resume i t c) ->
  module_runs c0 [] {| c_state := (m (c_state c)).1; c_locks := c_locks c; c_threads := c_threads c |}.
Proof.
  intros Hsim Hw Hs. apply (module_runs_trans c0 [] (resume i t c) []); [by apply module_runs_once|].
  pose proof (alone_steps i (spawned t) (resume i t c)) as Ha. cbn in Ha.
  rewrite list_insert_insert_eq, (list_insert_id _ _ Done) in Ha by done.
  rewrite Hsim in Ha. apply module_runs_acts, Ha, list_lookup_insert_eq. by eapply lookup_lt_Some.
Qed.

(** ** The methods as runs of the goroutines *)
Definition idle (n : Node) (c : config) : Prop :=
  c_state c = n /\ exists k, c_threads c = replicate (2 + k) Done.
Lemma idle_with n n' c : idle n c ->
  idle n' {| c_state := n'; c_locks := c_locks c; c_threads := c_threads c |}.
Proof. by intros [_ ?]. Qed.
Lemma idle_resume i t m n c0 c :
  idle n c -> (i < length (c_threads c))%nat -> sim t m ->
  (waits i c -> module_step c0 [] (resume i t c)) ->
  exists heard c', module_runs c0 heard c' /\ idle (m n).1 c'.
Proof.
  intros Hc Hi Hsim Hs. pose proof Hc as [<- [k Hk]].
  assert (waits i c) as Hw
    by (unfold waits; rewrite Hk in Hi |- *; rewrite length_replicate in Hi; by apply lookup_replicate).
  exists []. eexists. split; [by apply (resume_alone i t m c0 c); auto|]. by eapply idle_with.
Qed.

Lemma idle_step n n' c :
  idle n c -> node_step peer_String topic_Publish n n' ->
  exists heard c', module_runs c heard c' /\ idle n' c'.
Proof.
  intros Hc Hs. destruct Hs as [data n Hp|n Hr|n|ord n Ho|d n Hpr]; pose proof Hc as [<- [k Hk]].
  - do 2 eexists. split; [by apply module_runs_once, module_listens|by eapply idle_with].
  - do 2 eexists. split; [by apply module_runs_once, module_enqueues|by eapply idle_with].
  - unfold process. destruct (messageChan _) as [|pkt rest] eqn:Em; [by exists [], c; split; [apply runs_none|]|].
    eapply (idle_resume 0 (handle pkt) _ _ _
      (on_node (fun n => with_queue n (pending n) rest (processedMsgs n)) c));
      [by eapply idle_with|cbn; rewrite Hk; cbn; lia|apply sim_handle|].
    intros Hw. by apply module_processes.
  - eapply (idle_resume 1 (elect ord)); [done|rewrite Hk; cbn; lia|apply sim_elect|].
    intros Hw. by apply module_elects.
  - destruct k as [|k].
    + destruct (idle_resume 2 (ProposeBlock d) (Node.ProposeBlock topic_Publish d) (c_state c)
        {| c_state := c_state c; c_locks := c_locks c; c_threads := c_threads c ++ [Done] |}
        {| c_state := c_state c; c_locks := c_locks c; c_threads := c_threads c ++ [Done] |})
        as (heard & c' & Hr & Hi).
      * split; [done|]. exists 1%nat. cbn. by rewrite Hk.
      * cbn. rewrite Hk. cbn. lia.
      * apply sim_node_ProposeBlock.
      * intros Hw. by apply module_proposes.
      * exists heard, c'. split; [|done].
        eapply (module_runs_trans c []); [apply module_runs_once, module_goes|exact Hr].
        rewrite Hk. cbn. lia.
    + eapply (idle_resume 2 (ProposeBlock d)); [done|rewrite Hk; cbn; lia|apply sim_node_ProposeBlock|].
      intros Hw. by apply module_proposes.
Qed.

Lemma idle_runs n n' c :
  idle n c -> runs peer_String topic_Publish n n' ->
  exists heard c', module_runs c heard c' /\ idle n' c'.
Proof.
  intros Hc Hr. revert c Hc. induction Hr as [n|n n1 n' Hs _ IH]; intros c Hc.
  { exists [], c. split; [apply runs_none|done]. }
  destruct (idle_step _ _ _ Hc Hs) as (l1 & c1 & H1 & Hc1).
  destruct (IH c1 Hc1) as (l2 & c' & H' & Hc').
  exists (l1 ++ l2), c'. split; [by eapply module_runs_trans|done].
Qed.

(** * Safety under interference *)
Local Abbreviation extends := (StateThreads.extends (Node := Node)).
#[local] Existing Instance StateThreads.extends_PreOrder.

Section Safety.
Context (V : gmap PeerID Validator) (q : Z) (a : Account) (F : bytes -> Prop).
Local Abbreviation I := (node_inv V q a F).
Local Abbreviation safe := (Threads.safe (mutex := Empty_set) I extends).
Local Abbreviation stable := (Threads.stable extends).
Local Abbreviation safe_read := (Threads.safe_read (I := I) (extends := extends)).
Local Abbreviation safe_fact := (Threads.safe_fact (I := I) (extends := extends)).
Local Abbreviation anywhere := (fun _ : Node => True).
Local Abbreviation any := (fun _ _ => True).

Lemma stable_justified h : stable (justified q F h).
Proof.
  intros n n' [Hv|Hq] [He _]; [by left|right]. pose proof (map_subseteq_size _ _ (He h)). cbn in *. lia.
Qed.
Lemma stable_proposed h : stable (fun n => HasProposal (state n) h = true).
Proof. intros n n' Hn He. by apply He. Qed.
Hint Resolve stable_justified stable_proposed : core.

(** A step that keeps the invariant and the maps. *)
Lemma safe_keeps {A} P (m : io Node A) :
  stable P -> io_keeps I m -> (forall n, state (m n).1 = state n) ->
  safe P (atom m) (fun _ => P).
Proof.
  intros Hst Hk Hs. apply safe_atom; [done|]. intros n Hn HP. split; [by apply Hk|].
  assert (extends n (m n).1) as He by (unfold StateThreads.extends; cbn; by rewrite Hs).
  split; [done|]. intros x _. by eapply Hst.
Qed.
Lemma safe_BroadcastMessage P pkt : stable P -> safe P (BroadcastMessage pkt) (fun _ => P).
Proof.
  intros Hst. apply safe_keeps; [done|..]; [intros n Hn|intros n];
    unfold Node.BroadcastMessage; destruct (wrap _ _); try done. by apply inv_log.
Qed.
Lemma node_I_maps n cs :
  I n -> StateThreads.grows (held n) cs -> st_approvals cs = st_approvals (held n) ->
  st_finalized cs = st_finalized (held n) -> I (hold n cs).
Proof.
  intros Hn [_ Hp] E1 E2. apply inv_state; [done|done|..]; intros h;
    unfold approvals_for, IsFinalized; cbn in *; rewrite ?E1, ?E2; auto.
Qed.
Lemma safe_node_AddProposal pkt :
  safe anywhere (StateThreads.AddProposal pkt) (fun _ n => HasProposal (state n) (cp_BlockHash pkt) = true).
Proof. exact (StateThreads.safe_state_AddProposal I node_I_maps pkt). Qed.
Lemma safe_node_AddApproval P pkt :
  stable P ->
  (forall n, P n -> own_approval a (cp_BlockHash pkt) (cp_ValidatorID pkt) (cp_Signature pkt) /\
    HasProposal (state n) (cp_BlockHash pkt) = true \/
    vouched V (cp_BlockHash pkt) (cp_ValidatorID pkt) (cp_Signature pkt)) ->
  safe P (StateThreads.AddApproval pkt) any.
Proof.
  intros Hst Hpkt. apply (StateThreads.safe_state_AddApproval I); [apply node_I_maps|done|].
  intros n Hn HP. apply inv_put_approval; auto.
Qed.
Lemma safe_node_State_FinalizeBlock h : safe (justified q F h) (StateThreads.FinalizeBlock h) any.
Proof.
  apply (StateThreads.safe_state_FinalizeBlock I); [apply node_I_maps|auto|].
  intros n Hn Hj. by apply (inv_put_finalized _ _ _ _ n h).
Qed.

(** A signed packet is recorded if its record is safe for its maker. *)
Lemma safe_sign_and_record P (Q : ConsensusPacket -> Prop) make data record s1 s2 s3 :
  stable P -> (forall n, I n -> Q (make n)) ->
  (forall pkt sig, Q pkt -> Account_Sign a (cp_Signer pkt) (data pkt) = Ok sig ->
     safe P (record (with_signature pkt sig)) any) ->
  safe P (sign_and_record make data record s1 s2 s3) any.
Proof.
  intros Hst HQ Hrec. unfold sign_and_record.
  apply (safe_bind_T _ _ _ (fun pkt n => P n /\ Q pkt)); [apply safe_read; auto|].
  intros pkt. apply safe_fact. intros Hpkt.
  apply (safe_bind_T _ _ _ (fun sig n => P n /\ Account_Sign a (cp_Signer pkt) (data pkt) = Ok sig)).
  - apply safe_wrapped, safe_atom; [done|]. intros n Hn HP. do 2 (split; [done|]).
    intros sig Hs. split; [done|]. unfold Sign in Hs. cbn in Hs.
    rewrite (ni_identity _ _ _ _ _ Hn) in Hs. by destruct (Account_Sign _ _ _).
  - intros sig. apply safe_fact. intros Hs. cbv zeta.
    apply (safe_bind_T _ _ _ (fun _ => P)); [by apply safe_wrapped, safe_BroadcastMessage|].
    intros _. by apply safe_wrapped, Hrec.
Qed.

Lemma safe_node_ProposeBlock d : safe anywhere (ProposeBlock d) any.
Proof.
  unfold ProposeBlock. apply (safe_sign_and_record _ (fun _ => True)); [done..|].
  intros pkt sig _ _. eapply safe_post; [apply safe_node_AddProposal|done].
Qed.
Lemma safe_node_ApproveProposal h :
  safe (fun n => HasProposal (state n) h = true) (ApproveProposal h) any.
Proof.
  unfold ApproveProposal. apply (safe_sign_and_record _ (fun pkt =>
    cp_ValidatorID pkt = acc_PeerID a /\ cp_BlockHash pkt = h /\ cp_Signer pkt = BlsSignerType)); [auto| |].
  - intros n Hn. by rewrite <- (ni_identity _ _ _ _ _ Hn).
  - intros pkt sig (Hid & Hh & Ht) Hs. rewrite Ht in Hs. apply safe_node_AddApproval; [auto|].
    intros n Hn. left. cbn. by rewrite Hh.
Qed.
Lemma safe_node_FinalizeBlock h : safe (justified q F h) (FinalizeBlock h) any.
Proof.
  unfold FinalizeBlock. apply (safe_sign_and_record _ (fun _ => True)); [auto|done|].
  intros pkt sig _ _. apply safe_node_State_FinalizeBlock.
Qed.
Lemma safe_logged_last P t : safe P t any -> safe P (_ ← logged t; mret tt) any.
Proof.
  intros Ht. apply (safe_bind_T _ _ _ any); [|by intros; apply safe_ret_T].
  eapply safe_post; [apply (safe_logged _ _ anywhere), Ht|done].
Qed.

Lemma safe_read_then {A} (f : Node -> A) (k : A -> T unit) P :
  stable P -> (forall x, safe P (k x) any) -> safe P (read f ≫= k) any.
Proof. intros Hst Hk. apply (safe_bind_T _ _ _ (fun _ => P)); [by apply safe_read|exact Hk]. Qed.
Lemma safe_added (P : Node -> Prop) t k : safe anywhere t (fun _ => P) -> safe P k any ->
  safe anywhere (added ← logged t; when added k) any.
Proof.
  intros Ht Hk. apply (safe_bind_T _ _ _ (fun b n => b = true -> P n)); [by apply safe_logged|].
  intros b. apply safe_when. intros ->. eapply safe_weaken; [exact Hk|]. intros n HP. by apply HP.
Qed.

Lemma safe_handleProposal pkt : safe anywhere (handleProposal pkt) any.
Proof.
  apply safe_read_then; [done|]. intros leader. destruct (negb _); [by apply safe_ret_T|].
  eapply safe_added; [apply safe_node_AddProposal|]. apply safe_read_then; [auto|]. intros b.
  apply safe_when. intros _. apply safe_logged_last, safe_node_ApproveProposal.
Qed.

(** The quorum that the goroutine saw is still there when it finalizes. *)
Lemma safe_handleApproval pkt :
  vouched V (cp_BlockHash pkt) (cp_ValidatorID pkt) (cp_Signature pkt) ->
  safe anywhere (handleApproval pkt) any.
Proof.
  intros Hv. apply (safe_added anywhere).
  { eapply safe_post; [apply safe_node_AddApproval; [done|auto]|done]. }
  apply safe_read_then; [done|]. intros b. apply safe_when. intros _.
  apply (safe_bind_T _ _ _ (fun z _ => z = q)); [apply safe_read; [done|by intros n []]|].
  intros z. eapply safe_weaken; [apply (safe_fact anywhere (z = q))|done]. intros ->.
  apply (safe_bind_T _ _ _ (fun b n => b = true -> justified q F (cp_BlockHash pkt) n)).
  { apply safe_read; [done|]. intros n _ _ Hq%Z.leb_le. by right. }
  intros reached. apply safe_when. intros ->.
  apply (safe_bind_T _ _ _ (fun _ => justified q F (cp_BlockHash pkt))); [apply safe_read; auto|].
  intros fin. apply safe_when. intros _. apply safe_logged_last, safe_node_FinalizeBlock.
Qed.

Lemma safe_handle pkt (n : Node) :
  I n -> verifySignature n pkt = Ok true ->
  (cp_Type pkt = PacketTypeFinalization -> F (cp_BlockHash pkt)) -> safe anywhere (handle pkt) any.
Proof.
  intros Hn Hv Hfin. unfold handle. destruct (Z.eqb_spec (cp_Type pkt) PacketTypeProposal) as [|Ht];
    [apply safe_handleProposal|].
  pose proof (verified_vote n pkt Hv Ht) as Hvo. rewrite (ni_validators _ _ _ _ _ Hn) in Hvo.
  destruct (_ =? _); [by apply safe_handleApproval|].
  destruct (Z.eqb_spec (cp_Type pkt) PacketTypeFinalization); [|by apply safe_ret_T].
  apply safe_logged_last. eapply safe_weaken; [apply safe_node_State_FinalizeBlock|].
  intros n' _. left. auto.
Qed.

Lemma safe_elect ord : safe anywhere (elect ord) any.
Proof.
  assert (forall (n : Node) leader k,
    I n -> I (with_leader n (validatorSet n) (collector n) leader k)) as Hlead
    by (intros; by apply inv_leader).
  apply (safe_bind_T _ _ _ any).
  { apply safe_keeps; [done|..].
    - intros n Hn. destruct (ElectLeader_validators (validatorSet n) (collector n) ord) as [E1 E2].
      destruct (ElectLeader _ _ _). by apply inv_leader.
    - intros n. by destruct (ElectLeader _ _ _). }
  intros _. apply safe_read_then; [done|]. intros [leader|]; [|by apply safe_ret_T].
  apply (safe_bind_T _ _ _ any); [apply safe_keeps; [done|intros n; apply Hlead|done]|].
  intros _. apply safe_read_then; [done|]. intros id. destruct (bool_decide _); [|by apply safe_ret_T].
  apply safe_keeps; [done|intros n; apply Hlead|done].
Qed.

(** ** The module *)
Local Abbreviation safe_config := (config_inv (mutex := Empty_set) I extends).
Lemma safe_on_node f (c : config) :
  safe_config c -> I (f (c_state c)) -> state (f (c_state c)) = state (c_state c) ->
  safe_config (on_node f c).
Proof.
  intros [_ Hok] HI Hs. split; [done|]. cbn. eapply Forall_impl; [exact Hok|].
  intros p Hp. eapply ok_extends; [exact Hp|]. unfold StateThreads.extends. cbn. by rewrite Hs.
Qed.
Lemma safe_resume i t (c : config) : safe_config c -> safe anywhere t any -> safe_config (resume i t c).
Proof. intros [HI Hok] Ht. split; [done|]. cbn. apply Forall_insert; [done|]. by apply Ht. Qed.

(** What the messages heard say. *)
Definition reported (heard : list bytes) (h : bytes) : Prop := exists data pkt,
  data ∈ heard /\ DeserializeConsensusPacket data = Ok pkt /\ cp_Type pkt = PacketTypeFinalization /\
  cp_BlockHash pkt = h /\ vouched V h (cp_ValidatorID pkt) (cp_Signature pkt).

Lemma module_keeps_inv c heard c' :
  (forall h, reported heard h -> F h) -> safe_config c -> module_step c heard c' -> safe_config c'.
Proof.
  intros HF Hc Hs. pose proof Hc as [HI Hok].
  destruct Hs as [data c Hp|c Hr|pkt rest c Hw Hm|ord c Hw Ho|c Hl|i d c Hi Hw|c c' [i Ha]].
  - apply safe_on_node; [done| |unfold listen; by repeat case_match]. apply inv_listen; [done|].
    intros pkt Hd Ht Hv. apply HF. exists data, pkt. split; [by left|]. done.
  - apply safe_on_node; [done|by apply inv_enqueue|]. unfold enqueue. by case_match.
  - assert (forall pkt', pkt' ∈ pkt :: rest -> verifySignature (c_state c) pkt' = Ok true /\
      (cp_Type pkt' = PacketTypeFinalization -> F (cp_BlockHash pkt'))) as Hq.
    { intros pkt' Hin. apply (ni_queue _ _ _ _ _ HI). right. by rewrite Hm. }
    apply safe_resume; [apply safe_on_node; [done| |done]|].
    + apply inv_queue; [done|]. intros pkt' [Hp|Hin]; [|by apply Hq; right].
      apply (ni_queue _ _ _ _ _ HI). by left.
    + destruct (Hq pkt); [left|]. by apply (safe_handle pkt (c_state c)).
  - apply safe_resume; [done|apply safe_elect].
  - split; [done|]. cbn. apply Forall_app. split; [done|by repeat constructor].
  - apply safe_resume; [done|apply safe_node_ProposeBlock].
  - by eapply config_inv_act.
Qed.
Lemma module_runs_inv c heard c' :
  (forall h, reported heard h -> F h) -> safe_config c -> module_runs c heard c' -> safe_config c'.
Proof.
  intros HF Hc Hr. induction Hr as [|heard c1 d c2 _ IH Hs]; [done|].
  assert (forall l h, l ⊆ heard ++ d -> reported l h -> F h) as HF'.
  { intros l h Hl (data & pkt & Hd & ?). apply HF. exists data, pkt. split; [by apply Hl|done]. }
  eapply module_keeps_inv; [|apply IH|exact Hs]; intros h; apply HF'; intros x Hx;
    apply elem_of_app; auto.
Qed.
End Safety.

(** C15: the goroutines of a validator, call by call.  Whatever the messages, and
    however the calls of the processor, of the elections and of the proposers
    interleave, what the module records is authentic.  A recorded approval is
    signed by the node itself, for a block that was proposed to it, or carries a
    signature that verifies under a registered validator; and the module finalizes
    a block only with a quorum of such approvals, or when it heard a finalization
    packet for it that a registered validator has signed.  The goroutines can do
    whatever the methods do one at a time: every run of the module is a run of its
    goroutines. *)
Theorem node_interleaved (n : Node) (F : bytes -> Prop) (heard : list bytes) (c : config) :
  let V := vs_validators (validatorSet n) in
  let q := QuorumSize (validatorSet n) in
  node_inv V q (identity n) F n -> module_runs (start n) heard c ->
  node_inv V q (identity n) (fun h => F h \/ reported V heard h) (c_state c) /\
  (forall n', runs peer_String topic_Publish n n' -> exists heard' c',
     module_runs (start n) heard' c' /\ c_state c' = n' /\
     Forall (fun p => is_done p = true) (c_threads c')).
Proof.
  cbv zeta. intros Hn Hr. split.
  - refine (proj1 (module_runs_inv _ _ _ _ _ _ _ _ _ Hr)); [by right|].
    split; [|by repeat constructor]. by apply (node_inv_weaken _ _ _ F); [left|].
  - intros n' Hn'. destruct (idle_runs n n' (start n)) as (l & c' & Hc' & Hi); [|done|].
    + split; [done|]. by exists 0%nat.
    + exists l, c'. split; [done|]. destruct Hi as [Hs [k Hk]]. split; [done|]. rewrite Hk.
      by apply Forall_replicate.
Qed.
End Goroutines.
End NodeConcurrent.

(** * A proposal during an election *)
Section Example.
Import NodeConcurrent.
Definition all_three : list PeerID := (map_to_list (vs_validators vs_three)).*1.
Definition proposing_config : config :=
  resume 2 (ProposeBlock topic_ok (str "block"))
    {| c_state := example_node "a"; c_locks := fun _ => None; c_threads := [Done; Done; Done] |}.
Definition electing_config : config := resume 1 (elect all_three) proposing_config.
Definition turns : list nat := [2; 1; 1; 2; 1; 2; 2; 1; 2]%nat.
Definition interleaved : option config := schedule electing_config turns.

Lemma interleaved_run c : interleaved = Some c ->
  module_runs id topic_ok (start (example_node "a")) [] c.
Proof.
  intros Hc. eapply (module_runs_trans _ _ _ []); [apply module_runs_once, module_goes; cbn; lia|].
  eapply (module_runs_trans _ _ _ []).
  { apply module_runs_once, (module_proposes id topic_ok 2 (str "block")); [lia|reflexivity]. }
  eapply (module_runs_trans _ _ _ []).
  { apply module_runs_once, (module_elects id topic_ok all_three); [reflexivity|unfold is_order; reflexivity]. }
  apply module_runs_acts. exact (thread_schedule_steps _ turns c Hc).
Qed.

Lemma node_interleaved_witness : exists c, interleaved = Some c /\
  HasProposal (Node.state (c_state c)) (HashData (str "block")) = true /\
  Node.node_inv (vs_validators vs_three) 3 (toy_account "a")
    (fun h => False \/ reported (vs_validators vs_three) [] h) (c_state c).
Proof.
  assert (match interleaved with
    | Some c => HasProposal (Node.state (c_state c)) (HashData (str "block"))
    | None => false end = true) as Hb by (vm_compute; reflexivity).
  destruct interleaved as [c|] eqn:Ei; [|discriminate Hb].
  exists c. split; [reflexivity|]. split; [exact Hb|].
  apply (node_interleaved id topic_ok (example_node "a") (fun _ => False)); [|exact (interleaved_run c Ei)].
  by apply (Node.fresh_inv _ ∅).
Defined.
End Example.
