(* ===== verification/Cluster.v ===== *)
(** Several validators on one topic: the composition of the consensus modules
    of [pkg/validator].

    A cluster is a list of the modules of ValidatorNode.  Its steps are the
    steps of one module; what a module hears is something that a module of the
    cluster handed to the topic.  The topic may lose, delay, reorder and repeat
    messages, and a publication that failed may have been sent: nothing is
    assumed about it but that it makes nothing up. *)
From S2P Require Import Prelude Bytes Hashes Types Signatures Packets Storage Validators.
From S2P Require Import Consensus StateManager ValidatorNode.

Import Node Sha256.

Section Cluster.
Context {E : Type} `{Mdbx E}.
Context (peer_String : PeerID -> bytes) (topic_Publish : list bytes -> bytes -> res unit).
Local Abbreviation Module := (Node.Consensus (E := E)).

(** * The steps of a cluster *)
(** The steps of one module but for what it hears. *)
Inductive local_step : Module -> Module -> Prop :=
| ls_enqueue n : Zlen (messageChan n) < chan_capacity -> local_step n (enqueue n).1
| ls_process n : local_step n (process topic_Publish n).1
| ls_elect ord n : is_order (vs_validators (validatorSet n)) ord -> local_step n (elect ord n).1
| ls_propose d n : (0 < proposers n)%nat -> short d ->
    local_step n (ProposeBlock topic_Publish d n).1.

Inductive cluster_step (c : list Module) : list Module -> Prop :=
| cs_local i n n' : c !! i = Some n -> local_step n n' -> cluster_step c (<[i := n']> c)
| cs_hear i j n m data : c !! i = Some n -> pending n = None ->
    c !! j = Some m -> data ∈ published m ->
    cluster_step c (<[i := (listen peer_String data n).1]> c).
Definition cluster_runs : list Module -> list Module -> Prop := rtc cluster_step.

Lemma local_step_node n n' : local_step n n' -> node_step peer_String topic_Publish n n'.
Proof. intros []; by constructor. Qed.

(** Every module of a running cluster is a running module. *)
Lemma cluster_runs_node c c' i n :
  cluster_runs c c' -> c !! i = Some n ->
  exists n', c' !! i = Some n' /\ runs peer_String topic_Publish n n'.
Proof.
  intros Hr. revert n. induction Hr as [c|c c1 c' Hs _ IH]; intros n Hn.
  { exists n. split; [done|apply rtc_refl]. }
  assert (exists n1, c1 !! i = Some n1 /\ runs peer_String topic_Publish n n1) as (n1 & Hn1 & Hr1).
  { destruct Hs as [k m m' Hm Hs|k j m m' data Hm Hp _ _];
      (destruct (decide (i = k)) as [<-|Hne];
       [|exists n; by rewrite list_lookup_insert_ne by done; split; [|apply rtc_refl]]);
      rewrite Hm in Hn; injection Hn as ->; eexists;
      (split; [apply list_lookup_insert_eq; by eapply lookup_lt_Some|]); apply rtc_once.
    - by apply local_step_node.
    - by constructor. }
  destruct (IH n1 Hn1) as (n' & Hn' & Hr'). exists n'. split; [done|by etrans].
Qed.

(** * What the packets on the topic say *)
(** [G] is the packets seen so far. *)
Definition proposed (G : ConsensusPacket -> Prop) (h : bytes) : Prop :=
  exists pkt, G pkt /\ cp_Type pkt = PacketTypeProposal /\ cp_BlockHash pkt = h /\
    HashData (cp_BlockData pkt) = h.
Definition approved (G : ConsensusPacket -> Prop) (h : bytes) (id : PeerID) : Prop :=
  exists pkt, G pkt /\ cp_Type pkt = PacketTypeApproval /\ cp_BlockHash pkt = h /\
    cp_ValidatorID pkt = id.
Definition certified (V : gmap PeerID Validator) (q : Z) (G : ConsensusPacket -> Prop)
    (h : bytes) : Prop :=
  exists S : gset PeerID, q <= Z.of_nat (size S) /\ S ⊆ dom V /\
    forall id, id ∈ S -> approved G h id.

(** Whose packet it is by its own word. *)
Definition author (pkt : ConsensusPacket) : PeerID :=
  if cp_Type pkt =? PacketTypeProposal then cp_ProposerID pkt else cp_ValidatorID pkt.

(** The packets a module has handed to the topic. *)
Definition sent_by (n : Module) (pkt : ConsensusPacket) : Prop :=
  exists d, d ∈ published n /\ DeserializeConsensusPacket d = Ok pkt.
Definition sent (c : list Module) (pkt : ConsensusPacket) : Prop :=
  exists i n, c !! i = Some n /\ sent_by n pkt.

Lemma approved_mono (G G' : ConsensusPacket -> Prop) h id :
  (forall p, G p -> G' p) -> approved G h id -> approved G' h id.
Proof. intros Hsub (p & ? & ?). exists p. auto. Qed.
Lemma certified_mono V q (G G' : ConsensusPacket -> Prop) h :
  (forall p, G p -> G' p) -> certified V q G h -> certified V q G' h.
Proof.
  intros Hsub (S & ? & ? & Ha). exists S. do 2 (split; [done|]). intros id Hid.
  by eapply approved_mono, Ha.
Qed.
Lemma proposed_mono (G G' : ConsensusPacket -> Prop) h :
  (forall p, G p -> G' p) -> proposed G h -> proposed G' h.
Proof. intros Hsub (p & ? & ?). exists p. auto. Qed.

(** * The invariant of a cluster *)
(** The account of a module: what it publishes can be encoded. *)
Record account_ok (a : Account) : Prop := {
  ao_PeerID : short (acc_PeerID a);
  ao_Sign : forall d sig, Account_Sign a BlsSignerType d = Ok sig -> short sig;
}.

Section Invariant.
Context (V : gmap PeerID Validator) (q : Z).

(** Each kind of packet is sent for a reason that is on the topic already. *)
Definition truthful (G : ConsensusPacket -> Prop) (pkt : ConsensusPacket) : Prop :=
  short (cp_BlockHash pkt) /\
  (cp_Type pkt = PacketTypeProposal /\ HashData (cp_BlockData pkt) = cp_BlockHash pkt \/
   cp_Type pkt = PacketTypeApproval /\ cp_ValidatorID pkt ∈ dom V /\
     proposed G (cp_BlockHash pkt) \/
   cp_Type pkt = PacketTypeFinalization /\ certified V q G (cp_BlockHash pkt)).

(** A module whose beliefs are on the topic. *)
Record module_inv (G : ConsensusPacket -> Prop) (n : Module) : Prop := {
  mi_account : account_ok (identity n);
  mi_validators : vs_validators (validatorSet n) = V;
  mi_quorum : QuorumSize (validatorSet n) = q;
  mi_own : forall pkt, sent_by n pkt -> author pkt = acc_PeerID (identity n);
  mi_queue : forall pkt, pending n = Some pkt \/ pkt ∈ messageChan n -> G pkt;
  mi_approvals : forall h id, id ∈ dom (approvals_for (state n) h) ->
    id ∈ dom V /\ approved G h id;
  mi_finalized : forall h, IsFinalized (state n) h = true -> certified V q G h;
}.

Lemma truthful_mono (G G' : ConsensusPacket -> Prop) pkt :
  (forall p, G p -> G' p) -> truthful G pkt -> truthful G' pkt.
Proof.
  intros Hsub [Hs Hk]. split; [done|].
  destruct Hk as [?|[(? & ? & ?)|[? ?]]]; [by left|right; left|right; right].
  - do 2 (split; [done|]). by eapply proposed_mono.
  - split; [done|]. by eapply certified_mono.
Qed.
Lemma module_inv_mono (G G' : ConsensusPacket -> Prop) n :
  (forall p, G p -> G' p) -> module_inv G n -> module_inv G' n.
Proof.
  intros Hsub [? ? ? ? Hq Ha Hf]. split; [done..| | |].
  - intros. by apply Hsub, Hq.
  - intros h id Hid. destruct (Ha h id Hid). split; [done|]. by eapply approved_mono.
  - intros h Hh. eapply certified_mono; [done|]. by apply Hf.
Qed.

(** A module that runs while the others, who have sent [B], wait; it has
    published [L] when it starts. *)
Section Running.
Context (B : ConsensusPacket -> Prop) (L : list bytes).
Definition seen (n : Module) (pkt : ConsensusPacket) : Prop := B pkt \/ sent_by n pkt.
Record running (n : Module) : Prop := {
  run_inv : module_inv (seen n) n;
  run_truth : forall pkt, seen n pkt -> truthful (seen n) pkt;
  run_log : L `prefix_of` published n;
}.

(** What matters of a module is its configuration, its queue, its maps and
    its log. *)
Lemma running_ext n n' :
  running n -> identity n' = identity n -> vs_validators (validatorSet n') = V ->
  QuorumSize (validatorSet n') = q -> published n' = published n ->
  (forall pkt, pending n' = Some pkt \/ pkt ∈ messageChan n' -> seen n pkt) ->
  (forall h id, id ∈ dom (approvals_for (state n') h) -> id ∈ dom V /\ approved (seen n) h id) ->
  (forall h, IsFinalized (state n') h = true -> certified V q (seen n) h) ->
  running n'.
Proof.
  intros [Hi Ht Hl] E1 E2 E3 E4 Hq Ha Hf.
  assert (forall p, seen n p <-> seen n' p) as Hs by (intros; unfold seen, sent_by; by rewrite E4).
  split.
  - apply (module_inv_mono (seen n)); [intros; by apply Hs|]. split; [..|done|done|done]; try done.
    + rewrite E1. by apply Hi.
    + intros p (d & Hd & Hp). rewrite E4 in Hd. rewrite E1. apply (mi_own _ _ Hi). by exists d.
  - intros pkt Hp%Hs. eapply truthful_mono; [|by apply Ht]. intros. by apply Hs.
  - by rewrite E4.
Qed.
Lemma running_publish n pkt d :
  running n -> ConsensusPacket_ok pkt -> ConsensusPacket_Serialize pkt = Ok d ->
  ConsensusPacket_normalize pkt (cp_Signature pkt) = pkt -> truthful (seen n) pkt ->
  author pkt = acc_PeerID (identity n) ->
  running (log_published n d) /\ seen (log_published n d) pkt /\
  forall p, seen n p -> seen (log_published n d) p.
Proof.
  intros [Hi Ht Hl] Hok Hser Hnorm Htrue Hauth.
  destruct (ConsensusPacket_reads_back pkt [] Hok) as (d' & Hser' & Hde).
  rewrite Hser in Hser'. injection Hser' as <-. rewrite app_nil_r, Hnorm in Hde.
  assert (forall p, seen n p -> seen (log_published n d) p) as Hsub.
  { intros p [?|(x & Hx & ?)]; [by left|right]. exists x. split; [|done]. cbn.
    apply elem_of_app. by left. }
  split; [|split; [|done]].
  - split.
    + apply (module_inv_mono (seen n)); [done|]. destruct Hi as [? ? ? Ho ? ? ?].
      split; try done. intros p (x & [Hx| ->%list_elem_of_singleton]%elem_of_app & Hp).
      * apply Ho. by exists x.
      * rewrite Hde in Hp. by injection Hp as <-.
    + intros p [?|(x & [Hx| ->%list_elem_of_singleton]%elem_of_app & Hp)];
        (eapply truthful_mono; [exact Hsub|]).
      * apply Ht. by left.
      * apply Ht. right. by exists x.
      * congruence.
    + cbn. by apply prefix_app_r.
  - right. exists d. split; [|done]. cbn. apply elem_of_app. right. by left.
Qed.

(** The three ways to publish have one shape: sign, publish, record. *)
Lemma running_publishing (mk : Module -> ConsensusPacket) (data : ConsensusPacket -> bytes)
    (f : ConsensusPacket -> Consensus.State E -> Consensus.State E * res unit) t1 t2 t3 n :
  running n -> cp_Signer (mk n) = BlsSignerType ->
  (forall sig, short sig -> ConsensusPacket_ok (with_signature (mk n) sig)) ->
  (cp_Type (mk n) <> PacketTypeProposal -> cp_BlockData (mk n) = []) ->
  truthful (seen n) (mk n) -> author (mk n) = acc_PeerID (identity n) ->
  (forall sig n1, running n1 -> seen n1 (with_signature (mk n) sig) ->
     (forall p, seen n p -> seen n1 p) ->
     running (on_state (f (with_signature (mk n) sig)) n1).1) ->
  running ((pkt ← io_read (fun n => Ok (mk n));
    signature ← io_wrap t1 (Sign (cp_Signer pkt) (data pkt));
    let pkt := with_signature pkt signature in
    _ ← io_wrap t2 (BroadcastMessage topic_Publish pkt);
    io_wrap t3 (on_state (f pkt))) n).1.
Proof.
  intros Hr Hbls Hok Hdata Htrue Hauth Hf. erewrite io_bind_Ok by reflexivity.
  cbv [mbind io_bind io_wrap]. unfold Sign. rewrite Hbls.
  destruct (Account_Sign (identity n) BlsSignerType _) as [sig|e|] eqn:Hs; [|done..].
  rewrite !wrap_Ok. cbv zeta beta iota. set (pkt := with_signature (mk n) sig).
  assert (ConsensusPacket_ok pkt) as Hpk
    by (apply Hok; by eapply (ao_Sign _ (mi_account _ _ (run_inv n Hr)))).
  destruct (ConsensusPacket_reads_back pkt [] Hpk) as (d & Hd & _).
  unfold BroadcastMessage. rewrite Hd, wrap_Ok.
  destruct (running_publish n pkt d) as (Hr1 & Hin & Hsub); [done..| |done|done|].
  { unfold ConsensusPacket_normalize. cbn. rewrite Hbls. subst pkt. unfold with_signature.
    f_equal; [done|]. destruct (Z.eqb_spec (cp_Type (mk n)) PacketTypeProposal); [done|].
    symmetry. by apply Hdata. }
  destruct (topic_Publish _ _) as [[]|e|]; cbn; [|done..].
  specialize (Hf sig _ Hr1 Hin Hsub). fold pkt in Hf.
  by destruct (on_state (f pkt) (log_published n d)) as [n2 [| |]].
Qed.

Lemma running_logged (m : io Module unit) n : running (m n).1 -> running (logged m n).1.
Proof. unfold logged. by destruct (m n) as [? []]. Qed.

(** What the maps record must be on the topic. *)
Lemma running_state n cs :
  running n ->
  (forall h id, id ∈ dom (approvals_for cs h) ->
     id ∈ dom (approvals_for (state n) h) \/ id ∈ dom V /\ approved (seen n) h id) ->
  (forall h, IsFinalized cs h = true ->
     IsFinalized (state n) h = true \/ certified V q (seen n) h) ->
  running (with_state n cs).
Proof.
  intros Hr Ha Hf. destruct (run_inv n Hr) as [? ? ? _ Hq Ha' Hf'].
  apply (running_ext n); try done.
  - intros h id Hid. destruct (Ha h id Hid); [by apply Ha'|done].
  - intros h Hh. destruct (Hf h Hh); [by apply Hf'|done].
Qed.

Lemma running_AddProposal n pkt :
  running n -> running (on_state (fun cs => AddProposal cs pkt) n).1.
Proof.
  intros Hr. unfold on_state. destruct (AddProposal_proj (state n) pkt) as [E1 E2].
  destruct (AddProposal (state n) pkt) as [cs r]. cbn in *.
  apply running_state; [done|..]; intros h; unfold approvals_for, IsFinalized;
    rewrite ?E1, ?E2; auto.
Qed.

Lemma running_AddApproval n pkt :
  running n -> (cp_Type pkt = PacketTypeApproval -> seen n pkt) ->
  running (on_state (fun cs => AddApproval cs pkt) n).1.
Proof.
  intros Hr Hpkt. unfold on_state. pose proof (AddApproval_finalized (state n) pkt) as Ef.
  pose proof (AddApproval_approvals (state n) pkt) as Ha.
  pose proof (AddApproval_wrong_type (state n) pkt) as Hw.
  destruct (AddApproval (state n) pkt) as [cs r]. cbn in *.
  apply running_state; [done| |intros h; unfold IsFinalized; rewrite Ef; auto].
  intros h id. destruct (decide (cp_Type pkt = PacketTypeApproval)) as [Ht|Ht];
    [|rewrite Hw by done; auto].
  rewrite Ha by done. case_bool_decide as Hh; [subst h|auto].
  destruct (_ !! cp_ValidatorID pkt); [auto|]. rewrite dom_insert_L.
  intros [->%elem_of_singleton|?]%elem_of_union; [right|by left].
  specialize (Hpkt Ht). split; [|by exists pkt].
  destruct (run_truth n Hr pkt Hpkt) as (_ & [[Hx _]|[(_ & ? & _)|[Hx _]]]); [|done|];
    by rewrite Ht in Hx.
Qed.

Lemma running_State_FinalizeBlock n h :
  running n -> certified V q (seen n) h ->
  running (on_state (fun cs => State_FinalizeBlock cs h) n).1.
Proof.
  intros Hr Hc. unfold on_state. destruct (State_FinalizeBlock_proj (state n) h) as [E1 _].
  pose proof (IsFinalized_FinalizeBlock (state n) h) as Hf.
  destruct (State_FinalizeBlock (state n) h) as [cs r]. cbn in *.
  apply running_state; [done|..]; intros h'.
  - unfold approvals_for. rewrite E1. auto.
  - rewrite Hf, orb_true_iff, bool_decide_eq_true. intros [->|?]; auto.
Qed.

(** * The operations *)
Lemma running_ProposeBlock n d : running n -> short d -> running (ProposeBlock topic_Publish d n).1.
Proof.
  intros Hr Hd. apply (running_publishing (fun n => proposal n d) (fun p => cp_BlockHash p ++ d)
    (fun p cs => AddProposal cs p));
    try done.
  - intros sig Hsig. pose proof (ao_PeerID _ (mi_account _ _ (run_inv n Hr))). by split.
  - split; [done|]. by left.
  - intros. by apply running_AddProposal.
Qed.

Lemma running_ApproveProposal n h :
  running n -> short h -> proposed (seen n) h -> acc_PeerID (identity n) ∈ dom V ->
  running (ApproveProposal topic_Publish h n).1.
Proof.
  intros Hr Hs Hp Hd. apply (running_publishing (fun n => vote n PacketTypeApproval h) (fun _ => h)
    (fun p cs => AddApproval cs p));
    try done.
  - intros sig Hsig. pose proof (ao_PeerID _ (mi_account _ _ (run_inv n Hr))). by split.
  - split; [done|]. right. by left.
  - intros sig n1 Hr1 Hin Hsub. by apply running_AddApproval.
Qed.

Lemma running_FinalizeBlock n h :
  running n -> short h -> certified V q (seen n) h -> running (FinalizeBlock topic_Publish h n).1.
Proof.
  intros Hr Hs Hc. apply (running_publishing (fun n => vote n PacketTypeFinalization h) (fun _ => h)
    (fun _ cs => State_FinalizeBlock cs h)); try done.
  - intros sig Hsig. pose proof (ao_PeerID _ (mi_account _ _ (run_inv n Hr))). by split.
  - split; [done|]. by do 2 right.
  - intros sig n1 Hr1 _ Hsub. apply running_State_FinalizeBlock; [done|].
    by eapply certified_mono.
Qed.
Lemma running_quorum n h :
  running n -> HasReachedQuorum (state n) h (QuorumSize (validatorSet n)) = true ->
  certified V q (seen n) h.
Proof.
  intros Hr Hq%Z.leb_le. destruct (run_inv n Hr) as [_ _ Eq _ _ Ha _].
  exists (dom (approvals_for (state n) h)). split; [rewrite size_dom; lia|].
  split; intros id Hid; by destruct (Ha h id Hid).
Qed.

Lemma running_handle n pkt :
  running n -> seen n pkt -> running (handle topic_Publish pkt n).1.
Proof.
  intros Hr Hin. destruct (run_truth n Hr pkt Hin) as [Hs Hk]. unfold handle.
  destruct (Z.eqb_spec (cp_Type pkt) PacketTypeProposal) as [Ht|Ht].
  { destruct Hk as [[_ Hh]|[[Hx _]|[Hx _]]]; [|by rewrite Ht in Hx..].
    unfold handleProposal. destruct (negb _); [done|].
    pose proof (running_AddProposal n pkt Hr) as Hr1. unfold on_state in Hr1.
    unfold logged at 1, on_state.
    destruct (AddProposal (state n) pkt) as [cs [[]|e|]]; cbn in *; try done.
    destruct (IsValidator _ _) eqn:Hval; [|done]. cbv [mbind io_bind].
    assert (running (logged (ApproveProposal topic_Publish (cp_BlockHash pkt)) (with_state n cs)).1)
      as Hr2; [|by destruct (logged _ _) as [? [| |]]].
    apply running_logged, running_ApproveProposal; [done..|by exists pkt|].
    apply bool_decide_eq_true in Hval. destruct (run_inv n Hr) as [_ <- _ _ _ _ _].
    by apply elem_of_dom. }
  destruct (Z.eqb_spec (cp_Type pkt) PacketTypeApproval) as [Ht'|Ht'].
  { unfold handleApproval. pose proof (running_AddApproval n pkt Hr (fun _ => Hin)) as Hr1.
    unfold on_state in Hr1.
    unfold logged at 1, on_state.
    destruct (AddApproval (state n) pkt) as [cs [[]|e|]]; cbn in *; try done.
    destruct (bool_decide _ && _) eqn:Hc; [|done].
    apply andb_true_iff in Hc as [_ [Hq _]%andb_true_iff]. cbv [mbind io_bind].
    assert (running (logged (FinalizeBlock topic_Publish (cp_BlockHash pkt)) (with_state n cs)).1)
      as Hr2; [|by destruct (logged _ _) as [? [| |]]].
    apply running_logged, running_FinalizeBlock; [done..|]. by apply running_quorum. }
  destruct (Z.eqb_spec (cp_Type pkt) PacketTypeFinalization) as [Ht2|Ht2]; [|done].
  destruct Hk as [[? _]|[[? _]|[_ Hc]]]; [done..|]. unfold handleFinalization. cbv [mbind io_bind].
  pose proof (running_logged _ n (running_State_FinalizeBlock n _ Hr Hc)) as Hr1.
  by destruct (logged _ n) as [? [| |]].
Qed.

Lemma running_queue n p c s :
  running n -> (forall pkt, p = Some pkt \/ pkt ∈ c -> seen n pkt) -> running (with_queue n p c s).
Proof.
  intros Hr Hq. destruct (run_inv n Hr) as [? ? ? _ _ ? ?]. by apply (running_ext n).
Qed.

Lemma running_local n n' : running n -> local_step n n' -> running n'.
Proof.
  intros Hr Hs. destruct (run_inv n Hr) as [_ Hv Hq _ Hc Ha Hf].
  destruct Hs as [n _|n|ord n _|d n _ Hd].
  - unfold enqueue. destruct (pending n) as [pkt|] eqn:Hp; [|done]. apply running_queue; [done|].
    intros p [?|[?| ->%list_elem_of_singleton]%elem_of_app]; [done|..]; apply Hc; auto.
  - unfold process. destruct (messageChan n) as [|pkt rest] eqn:Hch; [done|].
    apply running_handle; [apply running_queue; [done|]|].
    + intros p [?|?]; apply Hc; [by left|right; by right].
    + apply Hc. right. left.
  - unfold elect. destruct (ElectLeader_validators (validatorSet n) (collector n) ord) as [E1 E2].
    destruct (ElectLeader _ _ _) as [vs mc]. cbn in E1, E2.
    assert (forall l k, running (with_leader n vs mc l k)) as Hl.
    { intros l k. apply (running_ext n); try done; cbn; [congruence|].
      rewrite <- Hq. unfold QuorumSize. by rewrite E1, E2. }
    destruct (CurrentLeader vs); apply Hl.
  - by apply running_ProposeBlock.
Qed.

Lemma running_listen n data pkt :
  running n -> DeserializeConsensusPacket data = Ok pkt -> B pkt ->
  running (listen peer_String data n).1.
Proof.
  intros Hr Hd Hb. unfold listen. rewrite Hd. destruct (verifySignature n pkt) as [[]|e|]; try done.
  case_bool_decide; [done|]. apply running_queue; [done|].
  intros p [[= <-]|Hin]; [by left|]. destruct (run_inv n Hr) as [_ _ _ _ Hc _ _]. apply Hc. by right.
Qed.
End Running.

(** All modules together. *)
Record cluster_inv (c : list Module) : Prop := {
  cl_modules : forall i n, c !! i = Some n -> module_inv (sent c) n;
  cl_truth : forall pkt, sent c pkt -> truthful (sent c) pkt;
}.

Lemma cluster_running c i n :
  cluster_inv c -> c !! i = Some n -> running (sent c) (published n) n.
Proof.
  intros [Hm Ht] Hn.
  assert (forall p, seen (sent c) n p <-> sent c p) as Hs.
  { intros p. split; [intros [?|?]; [done|by exists i, n]|by left]. }
  split; [|intros p Hp%Hs|done].
  - apply (module_inv_mono (sent c)); [intros; by apply Hs|]. by apply (Hm i).
  - eapply truthful_mono; [|by apply Ht]. intros. by apply Hs.
Qed.

(** A module that has run goes back to its place. *)
Lemma cluster_put c i n n' :
  cluster_inv c -> c !! i = Some n -> running (sent c) (published n) n' ->
  cluster_inv (<[i := n']> c).
Proof.
  intros [Hm Ht] Hn Hr. pose proof (lookup_lt_Some _ _ _ Hn) as Hi.
  assert (forall p, sent c p -> sent (<[i := n']> c) p) as Hsub.
  { intros p (j & m & Hj & d & Hd & Hp). destruct (decide (j = i)) as [->|Hne].
    - rewrite Hn in Hj. injection Hj as <-. exists i, n'.
      split; [by apply list_lookup_insert_eq|]. exists d. split; [|done].
      destruct (run_log _ _ _ Hr) as [l ->]. apply elem_of_app. by left.
    - exists j, m. rewrite list_lookup_insert_ne by done. split; [done|]. by exists d. }
  assert (forall p, seen (sent c) n' p -> sent (<[i := n']> c) p) as Hin.
  { intros p [?|?]; [by apply Hsub|]. exists i, n'. split; [by apply list_lookup_insert_eq|done]. }
  split.
  - intros j m [(<- & <- & _)|(Hne & Hj)]%list_lookup_insert_Some.
    + eapply module_inv_mono; [exact Hin|apply Hr].
    + eapply module_inv_mono; [exact Hsub|by apply (Hm j)].
  - intros p (j & m & [(<- & <- & _)|(Hne & Hj)]%list_lookup_insert_Some & Hp).
    + eapply truthful_mono; [exact Hin|]. apply Hr. by right.
    + eapply truthful_mono; [exact Hsub|]. apply Ht. by exists j, m.
Qed.

Lemma cluster_step_inv c c' : cluster_inv c -> cluster_step c c' -> cluster_inv c'.
Proof.
  intros Hc [i n n' Hn Hs|i j n m data Hn Hp Hm Hd]; pose proof (cluster_running c i n Hc Hn) as Hr.
  - eapply cluster_put; [done..|]. by eapply running_local.
  - eapply cluster_put; [done..|].
    destruct (DeserializeConsensusPacket data) as [pkt|e|] eqn:Hpkt.
    + eapply running_listen; [done..|]. exists j, m. split; [done|]. by exists data.
    + unfold listen. by rewrite Hpkt.
    + unfold listen. by rewrite Hpkt.
Qed.

(** A module that has not started. *)
Record fresh (n : Module) : Prop := {
  fr_account : account_ok (identity n);
  fr_validators : vs_validators (validatorSet n) = V;
  fr_quorum : QuorumSize (validatorSet n) = q;
  fr_pending : pending n = None;
  fr_queue : messageChan n = [];
  fr_approvals : st_approvals (state n) = ∅;
  fr_finalized : st_finalized (state n) = ∅;
  fr_published : published n = [];
}.

Lemma NewConsensus_fresh did store vs mc sm n :
  NewConsensus did store vs mc sm = Ok n -> account_ok did -> vs_validators vs = V ->
  QuorumSize vs = q -> fresh n.
Proof. unfold NewConsensus. intros Hn ???. res_inv. by split. Qed.

Lemma fresh_cluster c : Forall fresh c -> cluster_inv c.
Proof.
  intros Hall. rewrite Forall_lookup in Hall.
  assert (forall p, ~ sent c p) as Hnone.
  { intros p (i & n & Hn & d & Hd & _). destruct (Hall i n Hn) as [_ _ _ _ _ _ _ Hp].
    rewrite Hp in Hd. by apply elem_of_nil in Hd. }
  split; [|intros p Hp; by apply Hnone in Hp].
  intros i n Hn. destruct (Hall i n Hn) as [? ? ? Hp Hq Ha Hf Hl]. split; [done..| | | |].
  - intros p (d & Hd & _). rewrite Hl in Hd. by apply elem_of_nil in Hd.
  - rewrite Hp, Hq. intros pkt [?|?%elem_of_nil]; done.
  - intros h id. unfold approvals_for. rewrite Ha, lookup_empty. cbn. by rewrite dom_empty_L, elem_of_empty.
  - intros h. unfold IsFinalized. by rewrite Hf, lookup_empty.
Qed.

Lemma cluster_runs_inv c c' : Forall fresh c -> cluster_runs c c' -> cluster_inv c'.
Proof.
  intros Hf Hr. apply fresh_cluster in Hf. induction Hr as [|c c1 c' Hs _ IH]; [done|].
  apply IH. by eapply cluster_step_inv.
Qed.

(** The module of the cluster that answers for an approval. *)
Definition approved_by (c : list Module) (h : bytes) (id : PeerID) : Prop :=
  exists i n pkt, c !! i = Some n /\ acc_PeerID (identity n) = id /\ sent_by n pkt /\
    cp_Type pkt = PacketTypeApproval /\ cp_ValidatorID pkt = id /\ cp_BlockHash pkt = h.

Lemma cluster_certified c i n h :
  cluster_inv c -> c !! i = Some n -> IsFinalized (state n) h = true ->
  exists S : gset PeerID, q <= Z.of_nat (size S) /\ S ⊆ dom V /\
    forall id, id ∈ S -> approved_by c h id /\ proposed (sent c) h.
Proof.
  intros [Hm Ht] Hn Hf. destruct (mi_finalized _ _ (Hm i n Hn) h Hf) as (S & Hq & HS & Ha).
  exists S. do 2 (split; [done|]). intros id Hid.
  destruct (Ha id Hid) as (pkt & (j & m & Hj & Hp) & Hty & <- & <-).
  assert (author pkt = cp_ValidatorID pkt) as Eauth by (unfold author; by rewrite Hty).
  split.
  - exists j, m, pkt. split; [done|]. split; [|done]. rewrite <- Eauth. symmetry.
    by apply (mi_own _ _ (Hm j m Hj)).
  - destruct (Ht pkt) as [_ [[Hx _]|[(_ & _ & ?)|[Hx _]]]]; [by exists j, m|..|done|];
      by rewrite Hty in Hx.
Qed.
End Invariant.

(** C13: validators that run this code on one topic finalize a block only after a
    quorum of them voted for it, whatever the topic loses, delays, reorders or
    repeats and whoever is elected when: for a block that any of them holds
    finalized, a quorum of different validators of the cluster have each
    published their own approval, and the block was proposed, with data that
    hashes to it.  With the default threshold, any two blocks finalized
    anywhere in the cluster have more than a third of the validators as common
    approvers. *)
Theorem cluster_finality (vs : ValidatorSet) (c c' : list Module) :
  Forall (fresh (vs_validators vs) (QuorumSize vs)) c -> cluster_runs c c' ->
  (forall i n h, c' !! i = Some n -> IsFinalized (state n) h = true ->
     exists S : gset PeerID, QuorumSize vs <= Z.of_nat (size S) /\ S ⊆ dom (vs_validators vs) /\
       forall id, id ∈ S -> approved_by c' h id /\ proposed (sent c') h) /\
  (vs_quorumThreshold vs <= 0 ->
   forall i1 n1 h1 i2 n2 h2,
     c' !! i1 = Some n1 -> IsFinalized (state n1) h1 = true ->
     c' !! i2 = Some n2 -> IsFinalized (state n2) h2 = true ->
     exists common : gset PeerID,
       Z.of_nat (size (vs_validators vs)) < 3 * Z.of_nat (size common) /\
       forall id, id ∈ common -> approved_by c' h1 id /\ approved_by c' h2 id).
Proof.
  intros Hf Hr. pose proof (cluster_runs_inv _ _ _ _ Hf Hr) as Hinv.
  split; [intros i n h; by apply cluster_certified|].
  intros Hthr i1 n1 h1 i2 n2 h2 Hn1 Hh1 Hn2 Hh2.
  destruct (cluster_certified _ _ _ _ _ _ Hinv Hn1 Hh1) as (S1 & Q1 & V1 & A1).
  destruct (cluster_certified _ _ _ _ _ _ Hinv Hn2 Hh2) as (S2 & Q2 & V2 & A2).
  exists (S1 ∩ S2). split.
  - rewrite <- (size_dom (D := gset PeerID)). by apply quorum_intersection.
  - intros id [Hi1 Hi2]%elem_of_intersection. split; [by apply A1|by apply A2].
Qed.

(** * Running a cluster *)
(** A schedule names the steps of a run; [Hear i j k] is module [i] hearing
    the [k]-th publication of module [j]. *)
Inductive event :=
| Hear (i j k : nat)
| Enqueue (i : nat)
| Process (i : nat)
| Elect (i : nat) (ord : list PeerID)
| Propose (i : nat) (d : bytes).

Definition cluster_do (c : list Module) (e : event) : option (list Module) :=
  match e with
  | Hear i j k =>
      n ← c !! i; m ← c !! j; data ← published m !! k;
      match pending n with
      | None => Some (<[i := (listen peer_String data n).1]> c)
      | Some _ => None
      end
  | Enqueue i =>
      n ← c !! i;
      if Zlen (messageChan n) <? chan_capacity then Some (<[i := (enqueue n).1]> c) else None
  | Process i => n ← c !! i; Some (<[i := (process topic_Publish n).1]> c)
  | Elect i ord =>
      n ← c !! i;
      if decide (ord ≡ₚ (map_to_list (vs_validators (validatorSet n))).*1)
      then Some (<[i := (elect ord n).1]> c) else None
  | Propose i d =>
      n ← c !! i;
      if (0 <? proposers n)%nat && (Zlen d <? 2 ^ 32)
      then Some (<[i := (ProposeBlock topic_Publish d n).1]> c) else None
  end.

Lemma cluster_do_step c e c' : cluster_do c e = Some c' -> cluster_step c c'.
Proof.
  destruct e as [i j k|i|i|i ord|i d]; cbn [cluster_do]; intros Hdo;
    apply bind_Some in Hdo as (n & Hn & Hdo).
  - apply bind_Some in Hdo as (m & Hm & (data & Hd & Hdo)%bind_Some).
    destruct (pending n) eqn:Hp; [done|]. injection Hdo as <-.
    eapply cs_hear; [done..|]. by eapply list_elem_of_lookup_2.
  - destruct (Z.ltb_spec (Zlen (messageChan n)) chan_capacity); [|done]. injection Hdo as <-.
    eapply cs_local; [done|]. by constructor.
  - injection Hdo as <-. eapply cs_local; [done|]. constructor.
  - case_decide; [|done]. injection Hdo as <-. eapply cs_local; [done|]. by constructor.
  - destruct (_ && _) eqn:Hc; [|done]. apply andb_true_iff in Hc as [H1%Nat.ltb_lt H2%Z.ltb_lt].
    injection Hdo as <-. eapply cs_local; [done|]. by constructor.
Qed.

Definition cluster_run (c : list Module) (es : list event) : option (list Module) :=
  fold_left (fun oc e => c ← oc; cluster_do c e) es (Some c).
Lemma cluster_run_runs c es c' : cluster_run c es = Some c' -> cluster_runs c c'.
Proof.
  unfold cluster_run. revert c. induction es as [|e es IH]; intros c; cbn.
  { intros [= <-]. apply rtc_refl. }
  destruct (cluster_do c e) as [c1|] eqn:Hdo.
  - intros Hr. eapply rtc_l; [by apply (cluster_do_step c e)|by apply IH].
  - assert (fold_left (fun oc e => c ← oc; cluster_do c e) es None = None) as ->
      by (clear; by induction es). done.
Qed.
Lemma cluster_run_default c es :
  bool_decide (is_Some (cluster_run c es)) = true -> cluster_runs c (default [] (cluster_run c es)).
Proof. intros [c' Hc]%bool_decide_eq_true. rewrite Hc. by apply (cluster_run_runs c es). Qed.
End Cluster.

(** * A concrete cluster

    Three validators start, elect [a] and run one round: [a] proposes a block,
    hears the approvals of the others and finalizes it. *)
Section Example.
(** A toy signer whose signatures have one length. *)
Definition digest_signer (name : string) : Signer := {|
  Signer_Sign d := if Zlen d =? 0 then Err (ErrMsg "data to sign is empty")
                   else Ok (str "s" ++ str name ++ Sum256 d);
  Signer_Type := BlsSignerType;
  Signer_Verify d sig := Ok (bool_decide (sig = str "s" ++ str name ++ Sum256 d)) |}.
Definition member (name : string) : Account :=
  {| acc_ID := str name; acc_Address := ZeroAddress; acc_PeerID := str name; acc_Name := name;
     acc_PeerPrivateKey := []; acc_PeerPublicKey := [];
     acc_Signers := {[ BlsSignerType := digest_signer name ]}; acc_Comment := "" |}.
Definition members : ValidatorSet :=
  SetLeader (AddValidator (AddValidator (AddValidator NewValidatorSet (member "a"))
    (member "b")) (member "c")) (str "a").
Definition start_member (name : string) : res (Node.Consensus (E := MemDb)) :=
  NewConsensus (member name) ∅ members (NewCollector zero_Metrics) ValidatorStates.New.
Definition three_nodes : list (Node.Consensus (E := MemDb)) :=
  omap (fun name => match start_member name with Ok n => Some n | _ => None end) ["a"; "b"; "c"]%string.

Definition hear_fully (i j k : nat) : list event := [Hear i j k; Enqueue i; Process i].
Definition by_name : list PeerID := [str "c"; str "a"; str "b"].
Definition one_round : list event :=
  [Elect 0 by_name; Elect 1 by_name; Elect 2 by_name; Propose 0 (str "block")] ++
  hear_fully 1 0 0 ++ hear_fully 0 0 0 ++ hear_fully 2 0 0 ++ hear_fully 0 2 0 ++ hear_fully 0 1 0.
Definition after_round : list (Node.Consensus (E := MemDb)) :=
  default [] (cluster_run id topic_ok three_nodes one_round).

Lemma short_member name sig d :
  (length (str name) < 100)%nat -> Signer_Sign (digest_signer name) d = Ok sig -> short sig.
Proof.
  intros Hn. cbn. destruct (_ =? 0); [done|]. intros [= <-]. unfold short, Zlen.
  cbn [length]. rewrite length_app, length_Sum256. lia.
Qed.
Lemma member_ok name : (length (str name) < 100)%nat -> account_ok (member name).
Proof.
  intros Hn. split; [unfold short, Zlen; cbn [acc_PeerID member]; lia|].
  intros d sig Hs. apply (short_member name _ d Hn). unfold Account_Sign in Hs.
  assert (acc_Signers (member name) !! BlsSignerType = Some (digest_signer name)) as Hl
    by apply lookup_singleton_eq.
  by rewrite Hl in Hs.
Qed.

Lemma three_nodes_fresh : Forall (fresh (vs_validators members) (QuorumSize members)) three_nodes.
Proof.
  assert (forall name n, (length (str name) < 100)%nat -> start_member name = Ok n ->
    fresh (vs_validators members) (QuorumSize members) n) as Hf.
  { intros name n Hn Hs. by eapply NewConsensus_fresh; [exact Hs|apply member_ok|..]. }
  apply Forall_forall. intros n Hn. apply list_elem_of_omap in Hn as (name & Hin & Hs).
  destruct (start_member name) as [n'|e|] eqn:E0; [|done..]. injection Hs as ->.
  apply (Hf name n); [|done]. rewrite !elem_of_cons, elem_of_nil in Hin.
  destruct Hin as [->|[->|[->|[]]]]; cbn; lia.
Qed.

Lemma cluster_finality_witness :
  exists S : gset PeerID, 3 <= Z.of_nat (size S) /\
    forall id, id ∈ S -> approved_by after_round (HashData (str "block")) id.
Proof.
  destruct (cluster_finality id topic_ok members three_nodes after_round) as [Hfin _].
  - apply three_nodes_fresh.
  - apply cluster_run_default. vm_compute. reflexivity.
  - assert (default false ((fun n => IsFinalized (state n) (HashData (str "block"))) <$>
        after_round !! 0%nat) = true) as Hb by (vm_compute; reflexivity).
    destruct (after_round !! 0%nat) as [n|] eqn:Hn; [|discriminate Hb].
    destruct (Hfin 0%nat n (HashData (str "block")) Hn Hb) as (S & Hq & _ & Ha).
    exists S. split; [exact Hq|]. intros id0 Hid. exact (proj1 (Ha id0 Hid)).
Defined.
End Example.
