(* ===== verification/Sequencer.v ===== *)
(** [pkg/sequencer]: the block producer ([producer.go]) and the sequencer that
    drives it ([sequencer.go]).  The producer composes the transaction pool,
    the blockchain and a state manager; the sequencer has a state manager of
    its own.  [now] are the clock readings of [NewBlock] and of the validation,
    [pord] and [lord] the orders in which the pool and the adjacency map of the
    ledger are visited.  A call of [ForgeBlock] is one step; what
    happens when transactions and blocks arrive while it runs is in
    [ForgeThreads.v]. *)
From S2P Require Import Prelude Bytes Types Signatures Transactions Blocks TxPool Storage.
From S2P Require Import GraphStore Ledger MemGraph Genesis Chain StateManager.
Import SequencerStates.

(** * producer.go *)
Record BlockProducer (P : Type) := {
  bp_txPool : TxPool;
  bp_blockchain : Blockchain P;
  bp_stateMgr : Manager;
}.
Arguments bp_txPool {P}. Arguments bp_blockchain {P}. Arguments bp_stateMgr {P}.

Section Producer.
Context {P EP : Type} `{!Provider P, !GraphLib P EP}.
Implicit Types (bp : BlockProducer P).

Definition NewBlockProducer (txPool : TxPool) (blockchain : Blockchain P) (stateMgr : Manager) :
    BlockProducer P :=
  {| bp_txPool := txPool; bp_blockchain := blockchain; bp_stateMgr := stateMgr |}.

Definition on_pool (f : TxPool -> TxPool) : io (BlockProducer P) unit := fun bp =>
  ({| bp_txPool := f (bp_txPool bp); bp_blockchain := bp_blockchain bp;
      bp_stateMgr := bp_stateMgr bp |}, Ok tt).
Definition on_chain {A} (m : io (Blockchain P) A) : io (BlockProducer P) A := fun bp =>
  let '(bc, r) := m (bp_blockchain bp) in
  ({| bp_txPool := bp_txPool bp; bp_blockchain := bc; bp_stateMgr := bp_stateMgr bp |}, r).
Definition set_state (st : State) : io (BlockProducer P) unit := fun bp =>
  match Set_ (bp_stateMgr bp) ProducerStateType st with
  | Ok sm => ({| bp_txPool := bp_txPool bp; bp_blockchain := bp_blockchain bp;
                 bp_stateMgr := sm |}, Ok tt)
  | Err e => (bp, Err e)
  | Panic => (bp, Panic)
  end.

(** [if err != nil { bp.stateMgr.SetState(ProducerStateType, Failed); return err }]. *)
Definition or_failed {A} (m : io (BlockProducer P) A) : io (BlockProducer P) A := fun bp =>
  match m bp with
  | (bp, Err e) => (_ ← set_state Failed; io_lift (Err e)) bp
  | r => r
  end.

Definition block_after (now : Z) (latest : Block) (txs : list Transaction) : res Block :=
  NewBlock now (u64 (b_Index latest + 1)) (b_Hash latest) txs (b_ValidatorID latest)
    (b_Difficulty latest).

Definition ForgeBlock (now now' : Z) (pord lord : list Hash) : io (BlockProducer P) unit :=
  _ ← set_state Started;
  txs ← io_read (fun bp => GetTransactions (bp_txPool bp) pord 100);
  if Zlen txs =? 0 then set_state Failed
  else
    latestBlock ← or_failed
      (io_read (fun bp => Ledger_GetLatestBlock (bc_ledger (bp_blockchain bp)) lord));
    newBlock ← or_failed (io_lift (block_after now latestBlock txs));
    _ ← or_failed (on_chain (Blockchain_AddBlock now' newBlock));
    _ ← io_iter (fun tx => on_pool (fun tp => RemoveTransaction tp (tx_ID tx))) txs;
    set_state Produced.
End Producer.

(** * sequencer.go *)
Record Sequencer (P : Type) := {
  sq_stateMgr : Manager;
  sq_cancelled : bool;
  sq_forgeTicker : bool;
  sq_producing : bool;
  sq_producer : BlockProducer P;
}.
Arguments sq_stateMgr {P}. Arguments sq_cancelled {P}. Arguments sq_forgeTicker {P}.
Arguments sq_producing {P}. Arguments sq_producer {P}.

Section Sequencer.
Context {P EP : Type} `{!Provider P, !GraphLib P EP}.
Implicit Types (s : Sequencer P).

Definition NewSequencer (producer : BlockProducer P) : Sequencer P :=
  {| sq_stateMgr := New; sq_cancelled := false; sq_forgeTicker := false;
     sq_producing := false; sq_producer := producer |}.

Definition sq_set (ty : string) (st : State) : io (Sequencer P) unit := fun s =>
  match Set_ (sq_stateMgr s) ty st with
  | Ok sm => ({| sq_stateMgr := sm; sq_cancelled := sq_cancelled s;
                 sq_forgeTicker := sq_forgeTicker s; sq_producing := sq_producing s;
                 sq_producer := sq_producer s |}, Ok tt)
  | Err e => (s, Err e)
  | Panic => (s, Panic)
  end.
(** The ticker, and the goroutine of [produce]. *)
Definition sq_flags (ticker producing : bool) : io (Sequencer P) unit := fun s =>
  ({| sq_stateMgr := sq_stateMgr s; sq_cancelled := sq_cancelled s; sq_forgeTicker := ticker;
      sq_producing := producing; sq_producer := sq_producer s |}, Ok tt).

Definition Start : io (Sequencer P) unit :=
  _ ← sq_set SequencerStateType Initializing;
  _ ← sq_set ProducerStateType Initializing;
  _ ← sq_flags true false;
  _ ← sq_set SequencerStateType Started;
  sq_flags true true.

(** The two branches of the loop of [produce]: a tick, whose error is logged,
    and the cancelled context. *)
Definition tick (now now' : Z) (pord lord : list Hash) : io (Sequencer P) unit := fun s =>
  match sq_set ProducerStateType Starting s with
  | (s, Ok _) =>
      let '(bp, r) := ForgeBlock now now' pord lord (sq_producer s) in
      ({| sq_stateMgr := sq_stateMgr s; sq_cancelled := sq_cancelled s;
          sq_forgeTicker := sq_forgeTicker s; sq_producing := sq_producing s;
          sq_producer := bp |},
       match r with Panic => Panic | _ => Ok tt end)
  | r => r
  end.
Definition wind_down : io (Sequencer P) unit :=
  _ ← sq_set SequencerStateType Stopping;
  _ ← sq_flags false true;
  _ ← sq_set SequencerStateType Stopped;
  sq_flags false false.

Definition Stop : io (Sequencer P) unit := fun s =>
  ({| sq_stateMgr := sq_stateMgr s; sq_cancelled := true; sq_forgeTicker := sq_forgeTicker s;
      sq_producing := sq_producing s; sq_producer := sq_producer s |}, Ok tt).

(** When both the context and the ticker are ready, the choice is free. *)
Inductive produce_step : Sequencer P -> Sequencer P -> Prop :=
| ps_tick now now' pord lord s :
    sq_producing s = true -> produce_step s (tick now now' pord lord s).1
| ps_done s :
    sq_producing s = true -> sq_cancelled s = true -> produce_step s (wind_down s).1.
End Sequencer.

(** * What a call of ForgeBlock does *)
Section forge.
Context {P VP EP : Type} `{GraphLibLaws P VP EP, !StoreJsonLaws Block VP EP}.
Implicit Types (bp : BlockProducer P).

(** The block a call would forge. *)
Definition forged (now : Z) (pord lord : list Hash) bp : res Block :=
  txs ← GetTransactions (bp_txPool bp) pord 100;
  latestBlock ← Ledger_GetLatestBlock (bc_ledger (bp_blockchain bp)) lord;
  block_after now latestBlock txs.

Definition with_mgr bp (sm : Manager) : BlockProducer P :=
  {| bp_txPool := bp_txPool bp; bp_blockchain := bp_blockchain bp; bp_stateMgr := sm |}.

(** The manager of the producer is one that calls of [SetState] lead to. *)
Definition managed bp : Prop := exists h, mgr_ok h (bp_stateMgr bp).
Definition in_state bp (st : State) : Prop := managed bp /\ Get (bp_stateMgr bp) ProducerStateType = st.

Lemma set_state_run bp st :
  managed bp -> exists sm, set_state st bp = (with_mgr bp sm, Ok tt) /\ in_state (with_mgr bp sm) st.
Proof.
  intros [h Hm]. destruct (SetState_ok notifies h _ ProducerStateType st Hm) as (sm & E & Hm' & _).
  exists sm. unfold set_state, Set_. rewrite E. split; [done|]. split; [by eexists|].
  unfold Get, GetState. cbn. by rewrite (SetState_states _ _ _ _ _ E), lookup_insert_eq.
Qed.

Lemma or_failed_Err {A} (m : io (BlockProducer P) A) bp bp1 e :
  m bp = (bp1, Err e) -> managed bp1 ->
  exists sm, or_failed m bp = (with_mgr bp1 sm, Err e) /\ in_state (with_mgr bp1 sm) Failed.
Proof.
  intros Hm Hman. destruct (set_state_run bp1 Failed Hman) as (sm & E & Hst). exists sm.
  unfold or_failed. rewrite Hm. by erewrite io_bind_Ok by exact E.
Qed.
Lemma or_failed_Ok {A} (m : io (BlockProducer P) A) bp bp1 a :
  m bp = (bp1, Ok a) -> or_failed m bp = (bp1, Ok a).
Proof. intros Hm. unfold or_failed. by rewrite Hm. Qed.

(** The loop over the forged transactions. *)
Lemma remove_all txs bp :
  io_iter (fun tx => on_pool (fun tp => RemoveTransaction tp (tx_ID tx))) txs bp =
    ({| bp_txPool := RemoveTransactions (bp_txPool bp) (tx_ID <$> txs);
        bp_blockchain := bp_blockchain bp; bp_stateMgr := bp_stateMgr bp |}, Ok tt).
Proof.
  revert bp. induction txs as [|tx txs IH]; intros bp; cbn [io_iter].
  - destruct bp as [[]]. reflexivity.
  - erewrite io_bind_Ok by reflexivity. rewrite IH. reflexivity.
Qed.

Lemma GetTransactions_facts (tp : TxPool) (ord : list Hash) :
  is_order (tp_transactions tp) ord -> exists txs, GetTransactions tp ord 100 = Ok txs /\
  Zlen txs = Z.min 100 (pool_size tp) /\
  forall tx, tx ∈ txs -> exists id, tp_transactions tp !! id = Some tx.
Proof.
  intros Hord. destruct (GetTransactions_cases tp ord 100 Hord) as [_ Hget].
  destruct (Hget ltac:(lia)) as (txs & rest & Hg & Hlen & Hperm & _). exists txs.
  split; [done|]. split; [done|]. intros tx Hin.
  assert (tx ∈ (map_to_list (tp_transactions tp)).*2) as Htx.
  { rewrite <- Hperm. apply elem_of_app. by left. }
  apply list_elem_of_fmap in Htx as ([id tx'] & -> & Hid%elem_of_map_to_list). eauto.
Qed.

Lemma block_after_ok now latest txs :
  is_i64 now -> Block_ok latest -> Forall Transaction_ok txs -> 0 < Zlen txs <= 100 ->
  exists b, block_after now latest txs = Ok b /\ b_Transactions b = txs.
Proof.
  intros Hnow Hl Htxs Hlen. unfold block_after.
  pose proof (NewBlock_ok now (u64 (b_Index latest + 1)) (b_Hash latest) txs (b_ValidatorID latest)
    (b_Difficulty latest) Hnow (u64_range _) (b_Hash_ok _ Hl) Htxs ltac:(lia)
    (b_ValidatorID_ok _ Hl) (b_Difficulty_ok _ Hl)) as Hn.
  destruct (NewBlock _ _ _ _ _ _) as [b|e|]; [|subst txs; unfold Zlen in Hlen; cbn in Hlen; lia|done].
  exists b. split; [done|]. by destruct Hn as (_ & _ & _ & _ & _ & _ & ? & _).
Qed.

(** Adding a block to a reachable chain, as the producer sees it. *)
Lemma AddBlock_outcome now (bc : Blockchain P) b :
  reachable (VP := VP) (EP := EP) bc -> addable (VP := VP) (EP := EP) (l_storage (bc_ledger bc)) b ->
  let '(bc', r) := Blockchain_AddBlock now b bc in
  match r with
  | Ok _ => bc_head bc' = Some b /\ Ledger_GetBlock (bc_ledger bc') (b_Hash b) = Ok b
  | Err _ => bc_head bc' = bc_head bc
  | Panic => False
  end /\
  (forall tx, tx ∈ b_Transactions b ->
     validateTransaction (l_state (bc_ledger bc)) tx (b_Index b =? 0) <> Ok tt ->
     is_ok r = false /\ bc' = bc).
Proof.
  intros Hchain Hadd. destruct (Blockchain_AddBlock_cases now bc b Hchain Hadd) as (Hval & Hbad & Hgood & _).
  destruct (Blockchain_AddBlock now b bc) as [bc' r] eqn:Hrun. split.
  - destruct (decide (is_ok (Blockchain_ValidateBlock now bc b) = true)) as [Hv|Hv].
    + destruct (Hgood ltac:(by destruct (Blockchain_ValidateBlock _ _ _) as [[]| |]))
        as (? & Hok & Hko & _). destruct r as [[]|e|]; [by apply Hok|by apply Hko|done].
    + destruct Hbad as (e & [= -> ->] & _); [by intros Hv'; rewrite Hv' in Hv|]. done.
  - intros tx Htx Hnv. destruct Hbad as (e & [= -> ->] & _); [|done].
    intros Hv. apply Hval in Hv as (_ & _ & _ & _ & Hall). rewrite Forall_forall in Hall.
    by apply Hnv, Hall.
Qed.

(** Adding the block, and what follows. *)
Lemma forge_added now' b txs bp :
  reachable (VP := VP) (EP := EP) (bp_blockchain bp) -> managed bp ->
  addable (VP := VP) (EP := EP) (l_storage (bc_ledger (bp_blockchain bp))) b ->
  let '(bp', r) := (_ ← or_failed (on_chain (Blockchain_AddBlock now' b));
    _ ← io_iter (fun tx => on_pool (fun tp => RemoveTransaction tp (tx_ID tx))) txs;
    set_state Produced) bp in
  match r with
  | Ok _ => bc_head (bp_blockchain bp') = Some b /\
      Ledger_GetBlock (bc_ledger (bp_blockchain bp')) (b_Hash b) = Ok b /\
      bp_txPool bp' = RemoveTransactions (bp_txPool bp) (tx_ID <$> txs) /\ in_state bp' Produced
  | Err _ => bp_txPool bp' = bp_txPool bp /\
      bc_head (bp_blockchain bp') = bc_head (bp_blockchain bp) /\ in_state bp' Failed
  | Panic => False
  end /\
  (forall tx, tx ∈ b_Transactions b ->
     validateTransaction (l_state (bc_ledger (bp_blockchain bp))) tx (b_Index b =? 0) <> Ok tt ->
     is_ok r = false /\ bp_blockchain bp' = bp_blockchain bp).
Proof.
  intros Hchain Hman Hadd. pose proof (AddBlock_outcome now' (bp_blockchain bp) b Hchain Hadd) as Hout.
  destruct (Blockchain_AddBlock now' b (bp_blockchain bp)) as [bc' r] eqn:Hrun.
  assert (on_chain (Blockchain_AddBlock now' b) bp =
    ({| bp_txPool := bp_txPool bp; bp_blockchain := bc'; bp_stateMgr := bp_stateMgr bp |}, r)) as Hon
    by (unfold on_chain; by rewrite Hrun).
  destruct Hout as (Hout & Hinvalid). destruct r as [[]|e|]; [| |done].
  - erewrite io_bind_Ok by (apply or_failed_Ok; exact Hon).
    erewrite io_bind_Ok by apply remove_all. cbn [bp_txPool bp_blockchain bp_stateMgr].
    match goal with |- context [set_state Produced ?bp1] =>
      destruct (set_state_run bp1 Produced) as (sm' & -> & Hst); [exact Hman|] end.
    destruct Hout. by split_and!.
  - destruct (or_failed_Err _ _ _ _ Hon) as (sm' & E' & Hst); [exact Hman|].
    rewrite (io_bind_Err _ _ _ _ _ E'). by split_and!.
Qed.

(** What may be assumed of a producer: its parts are in states their own
    operations lead to, the pool holds well-formed transactions, and the block
    it would forge can be stored. *)
Record producer_ok (now : Z) (pord lord : list Hash) bp : Prop := {
  po_chain : reachable (VP := VP) (EP := EP) (bp_blockchain bp);
  po_managed : managed bp;
  po_pord : is_order (tp_transactions (bp_txPool bp)) pord;
  po_lord : adjacency_order (EP := EP) (l_storage (bc_ledger (bp_blockchain bp))) lord;
  po_now : is_i64 now;
  po_txs : forall id tx, tp_transactions (bp_txPool bp) !! id = Some tx -> Transaction_ok tx;
  po_addable : forall b, forged now pord lord bp = Ok b ->
    addable (VP := VP) (EP := EP) (l_storage (bc_ledger (bp_blockchain bp))) b;
}.

(** C16: forging a block.  With an empty pool nothing changes.  Otherwise the
    call puts up to a hundred transactions of the pool in one block after the
    latest one: if the chain accepts it, the block is the new head and exactly
    its transactions leave the pool; if not, the pool and the head stay.  It is
    all or nothing: one transaction that is not valid in the current state
    makes the call fail without any change to the chain, so the next call
    fails on the same transactions. *)
Theorem ForgeBlock_spec now now' pord lord bp :
  producer_ok now pord lord bp ->
  let '(bp', r) := ForgeBlock now now' pord lord bp in
  match r with
  | Ok _ =>
      (tp_transactions (bp_txPool bp) = ∅ /\ bp_txPool bp' = bp_txPool bp /\
       bp_blockchain bp' = bp_blockchain bp /\ in_state bp' Failed) \/
      (exists b, forged now pord lord bp = Ok b /\
       bc_head (bp_blockchain bp') = Some b /\
       Ledger_GetBlock (bc_ledger (bp_blockchain bp')) (b_Hash b) = Ok b /\
       Zlen (b_Transactions b) = Z.min 100 (pool_size (bp_txPool bp)) /\
       bp_txPool bp' = RemoveTransactions (bp_txPool bp) (tx_ID <$> b_Transactions b) /\
       in_state bp' Produced)
  | Err _ => bp_txPool bp' = bp_txPool bp /\
             bc_head (bp_blockchain bp') = bc_head (bp_blockchain bp) /\ in_state bp' Failed
  | Panic => False
  end /\
  (forall b tx, forged now pord lord bp = Ok b -> tx ∈ b_Transactions b ->
     validateTransaction (l_state (bc_ledger (bp_blockchain bp))) tx (b_Index b =? 0) <> Ok tt ->
     is_ok r = false /\ bp_blockchain bp' = bp_blockchain bp).
Proof.
  intros [Hchain Hman Hpord Hlord Hnow Htxs Hadd]. unfold ForgeBlock.
  destruct (set_state_run bp Started Hman) as (sm & E & [Hman' _]).
  erewrite io_bind_Ok by exact E.
  destruct (GetTransactions_facts _ _ Hpord) as (txs & Hget & Hlen & Hin).
  erewrite io_bind_Ok by (unfold io_read; cbn [bp_txPool with_mgr]; rewrite Hget; reflexivity).
  assert (Forall Transaction_ok txs) as Hok.
  { apply Forall_forall. intros tx Hx. destruct (Hin tx Hx) as [id ?]. by eapply Htxs. }
  destruct (Z.eqb_spec (Zlen txs) 0) as [Hz|Hz].
  { destruct (set_state_run (with_mgr bp sm) Failed Hman') as (sm' & -> & Hst). split.
    - left. split; [|done]. apply Zlen_0 in Hz. subst txs.
      apply map_size_empty_inv. unfold pool_size in Hlen. unfold Zlen in Hlen. cbn in Hlen. lia.
    - intros b tx Hf. unfold forged in Hf. rewrite Hget, bind_Ok in Hf.
      apply Zlen_0 in Hz. subst txs. by res_inv. }
  destruct (reachable_rep _ Hchain) as (V & Eg & Hrep & _).
  pose proof (GetLatestBlock_Ok _ V Eg lord Hrep Hlord) as Hlatest.
  assert (forged now pord lord bp =
    (latestBlock ← Ledger_GetLatestBlock (bc_ledger (bp_blockchain bp)) lord;
     block_after now latestBlock txs)) as Hforged by (unfold forged; by rewrite Hget, bind_Ok).
  destruct (Ledger_GetLatestBlock _ lord) as [latest|e|] eqn:Hl; [| |done].
  2:{ destruct (or_failed_Err (io_read (fun bp => Ledger_GetLatestBlock
        (bc_ledger (bp_blockchain bp)) lord)) (with_mgr bp sm) (with_mgr bp sm) e)
        as (sm' & E' & Hst); [by unfold io_read; cbn; rewrite Hl|done|].
      rewrite (io_bind_Err _ _ _ _ _ E'). split; [done|]. intros b tx Hf. by rewrite Hforged in Hf. }
  destruct Hlatest as (vp & Hvp & _). destruct (lr_block _ _ _ Hrep _ _ _ Hvp) as (Hlok & _).
  destruct (block_after_ok now latest txs Hnow Hlok Hok) as (b & Hb & Hbt).
  { unfold Zlen in *. lia. }
  rewrite bind_Ok, Hb in Hforged.
  erewrite io_bind_Ok by (apply or_failed_Ok; unfold io_read; cbn; rewrite Hl; reflexivity).
  erewrite io_bind_Ok by (apply or_failed_Ok; unfold io_lift; rewrite Hb; reflexivity).
  pose proof (forge_added now' b txs (with_mgr bp sm) Hchain Hman' (Hadd b Hforged)) as Hout.
  destruct ((_ ← or_failed (on_chain (Blockchain_AddBlock now' b)); _) (with_mgr bp sm)) as [bp' r].
  destruct Hout as (Hout & Hinvalid). split; [|by intros b' tx Hf; rewrite Hforged in Hf; injection Hf as <-; apply Hinvalid].
  destruct r as [[]|e|]; [right|done..]. exists b. rewrite Hbt. destruct Hout as (? & ? & ? & ?). by split_and!.
Qed.
End forge.

(** * A concrete producer *)
Definition pool_example : TxPool := set_transactions NewTxPool {[ tx_ID payment := payment ]}.
Definition producer_example : BlockProducer MemDb := NewBlockProducer pool_example chain1 New.
Definition lord_example : list Hash := order_of (l_storage (bc_ledger chain1)).
Definition forged_example : Block := Eval vm_compute in
  match forged 1700000200 [tx_ID payment] lord_example producer_example with
  | Ok b => b | _ => block_example end.

Lemma forged_example_ok :
  forged 1700000200 [tx_ID payment] lord_example producer_example = Ok forged_example.
Proof. vm_compute. reflexivity. Qed.

Lemma forged_example_addable :
  addable (VP := unit) (EP := unit) (l_storage (bc_ledger chain1)) forged_example.
Proof.
  assert (Block_ok forged_example) as Hok by block_ok_tac.
  apply example_addable; [done| |vm_compute; reflexivity..].
  split; [done|]. right. split; reflexivity.
Qed.

Lemma producer_example_ok :
  producer_ok (VP := unit) (EP := unit) 1700000200 [tx_ID payment] lord_example producer_example.
Proof.
  split.
  - apply chain1_reachable.
  - exists []. split; cbn; intros *; rewrite ?lookup_empty; try done; set_solver.
  - assert (map_to_list ({[ tx_ID payment := payment ]} : gmap Hash Transaction) =
      [(tx_ID payment, payment)]) as E by apply map_to_list_singleton.
    unfold is_order. change (tp_transactions _) with ({[ tx_ID payment := payment ]} : gmap Hash Transaction).
    by rewrite E.
  - intros m Hm. unfold lord_example, order_of. cbn in Hm |- *. rewrite Hm. apply is_order_exists.
  - done.
  - intros id tx Hid. change (({[ tx_ID payment := payment ]} : gmap Hash Transaction) !! id = Some tx) in Hid.
    apply lookup_singleton_Some in Hid as [_ <-]. split; range_tac.
  - intros b Hb. rewrite forged_example_ok in Hb. injection Hb as <-. apply forged_example_addable.
Qed.

Lemma ForgeBlock_spec_witness :
  let '(bp, r) := ForgeBlock 1700000200 1700000250 [tx_ID payment] lord_example producer_example in
  r = Ok tt /\ bc_head (bp_blockchain bp) = Some forged_example /\
  bp_txPool bp = RemoveTransactions pool_example [tx_ID payment].
Proof.
  pose proof (ForgeBlock_spec 1700000200 1700000250 [tx_ID payment] lord_example producer_example
    producer_example_ok) as Hspec.
  assert ((ForgeBlock 1700000200 1700000250 [tx_ID payment] lord_example producer_example).2 = Ok tt)
    as Hr by (vm_compute; reflexivity).
  destruct (ForgeBlock _ _ _ _ _) as [bp r]. cbn in Hr. subst r. destruct Hspec as [Hspec _].
  destruct Hspec as [(Hempty & _)|(b & Hb & Hhead & _ & _ & Hpool & _)].
  - exfalso. exact (map_non_empty_singleton (M := gmap Hash) _ _ Hempty).
  - rewrite forged_example_ok in Hb. injection Hb as <-. split; [reflexivity|].
    split; [exact Hhead|exact Hpool].
Defined.
