(* ===== verification/ForgeThreads.v ===== *)
(** [pkg/sequencer/producer.go] with the rest of the node at work: while
    [ForgeBlock] runs, transactions arrive in the pool, expire or are evicted, and
    blocks reach the chain.

    The pool, the ledger and the chain have a lock each, and [ForgeBlock] takes them
    one after the other: here each of these calls is a step of its own.  A transaction
    that others submit is an object of its own, so the timestamp the pool gives it does
    not change those of the block. *)
From stdpp Require Import sorting.
From S2P Require Import Prelude Bytes Hashes Types Signatures Transactions Blocks TxPool Storage.
From S2P Require Import GraphStore Ledger MemGraph Genesis Chain StateManager Sequencer.
Import SequencerStates.

(** * The calls of ForgeBlock *)
(** Where the goroutine is: before [GetTransactions], with the transactions, with the
    latest block too, with the new block, or with the transactions it has still to
    take out of the pool. *)
Inductive pc :=
| Ready
| Begun
| Pulled (txs : list Transaction)
| Found (txs : list Transaction) (latestBlock : Block)
| Built (txs : list Transaction) (newBlock : Block)
| Removing (rest : list Transaction)
| Finished (r : res unit).

Record Forging (P : Type) := { fg_bp : BlockProducer P; fg_pc : pc }.
Arguments fg_bp {P} _. Arguments fg_pc {P} _.

Section Steps.
Context {P EP : Type} `{!Provider P, !GraphLib P EP}.
Implicit Types (bp : BlockProducer P) (f : Forging P).

(** A call, and where its result leads: an error ends [ForgeBlock]. *)
Definition call {A} (m : io (BlockProducer P) A) (next : A -> pc) bp : Forging P :=
  match m bp with
  | (bp, Ok a) => {| fg_bp := bp; fg_pc := next a |}
  | (bp, Err e) => {| fg_bp := bp; fg_pc := Finished (Err e) |}
  | (bp, Panic) => {| fg_bp := bp; fg_pc := Finished Panic |}
  end.
Definition remove (tx : Transaction) : io (BlockProducer P) unit :=
  on_pool (fun tp => RemoveTransaction tp (tx_ID tx)).

Definition forge_step (now now' : Z) (pord lord : list Hash) f : Forging P :=
  match fg_pc f with
  | Ready => call (set_state Started) (fun _ => Begun) (fg_bp f)
  | Begun =>
      call (txs ← io_read (fun bp => GetTransactions (bp_txPool bp) pord 100);
            if Zlen txs =? 0 then _ ← set_state Failed; mret (Finished (Ok tt)) else mret (Pulled txs))
        id (fg_bp f)
  | Pulled txs =>
      call (or_failed (io_read (fun bp => Ledger_GetLatestBlock (bc_ledger (bp_blockchain bp)) lord)))
        (Found txs) (fg_bp f)
  | Found txs latestBlock => call (or_failed (io_lift (block_after now latestBlock txs))) (Built txs) (fg_bp f)
  | Built txs newBlock =>
      call (or_failed (on_chain (Blockchain_AddBlock now' newBlock))) (fun _ => Removing txs) (fg_bp f)
  | Removing (tx :: rest) => call (remove tx) (fun _ => Removing rest) (fg_bp f)
  | Removing [] => call (set_state Produced) (fun _ => Finished (Ok tt)) (fg_bp f)
  | Finished r => f
  end.

(** The steps that are left; a block has a hundred transactions at most. *)
Definition steps_left f : nat :=
  match fg_pc f with
  | Ready => 107
  | Begun => 106
  | Pulled txs => 4 + length txs
  | Found txs _ => 3 + length txs
  | Built txs _ => 2 + length txs
  | Removing rest => 1 + length rest
  | Finished _ => 0
  end.
Definition finished f : Prop := exists r, fg_pc f = Finished r.

Lemma call_left {A} (m : io (BlockProducer P) A) next bp n :
  (forall bp' a, m bp = (bp', Ok a) -> (steps_left {| fg_bp := bp'; fg_pc := next a |} < S n)%nat) ->
  (steps_left (call m next bp) < S n)%nat.
Proof. intros Hm. unfold call. destruct (m bp) as [bp' [a|e|]]; [by apply Hm|cbn; lia..]. Qed.

(** Every step of the goroutine brings it closer to its end. *)
Lemma forge_step_left now now' pord lord f :
  is_order (tp_transactions (bp_txPool (fg_bp f))) pord -> ~ finished f ->
  (steps_left (forge_step now now' pord lord f) < steps_left f)%nat.
Proof.
  intros Hord Hf. destruct f as [bp p]. unfold forge_step. cbn [fg_pc fg_bp] in *.
  destruct p as [| |txs|txs latest|txs b|[|tx rest]|r]; cbn [steps_left fg_pc]; try (apply call_left; intros; cbn; lia).
  - apply call_left. intros bp' a. cbv [mbind io_bind mret io_ret io_read].
    destruct (GetTransactions_facts _ _ Hord) as (txs & -> & Hlen & _).
    destruct (Zlen txs =? 0); [destruct (set_state Failed bp) as [bp1 [|e|]]|]; intros [= <- <-]; cbn; [lia|].
    unfold Zlen in Hlen. lia.
  - exfalso. apply Hf. by eexists.
Qed.

(** ** The calls one after the other are the method *)
Fixpoint forge_steps (n : nat) (now now' : Z) (pord lord : list Hash) f : Forging P :=
  match n with
  | O => f
  | S n => forge_steps n now now' pord lord (forge_step now now' pord lord f)
  end.

Lemma call_Ok {A} (m : io (BlockProducer P) A) next bp bp' a :
  m bp = (bp', Ok a) -> call m next bp = {| fg_bp := bp'; fg_pc := next a |}.
Proof. unfold call. by intros ->. Qed.
Lemma finished_steps n now now' pord lord bp r :
  forge_steps n now now' pord lord {| fg_bp := bp; fg_pc := Finished r |} = {| fg_bp := bp; fg_pc := Finished r |}.
Proof. by induction n. Qed.
Lemma forge_steps_app n m now now' pord lord f :
  forge_steps (n + m) now now' pord lord f = forge_steps m now now' pord lord (forge_steps n now now' pord lord f).
Proof. revert f. induction n as [|n IH]; intros f; [done|apply IH]. Qed.

(** A goroutine at [p] ends, if nothing else happens, as the call [m] does. *)
Definition ends_as now now' pord lord bp (p : pc) (m : io (BlockProducer P) unit) : Prop :=
  exists n, forge_steps n now now' pord lord {| fg_bp := bp; fg_pc := p |} =
    {| fg_bp := (m bp).1; fg_pc := Finished (m bp).2 |}.
Lemma ends_call {A} now now' pord lord bp p (c : io (BlockProducer P) A) next (k : A -> io (BlockProducer P) unit) :
  (forall f, fg_pc f = p -> forge_step now now' pord lord f = call c next (fg_bp f)) ->
  (forall bp' a, c bp = (bp', Ok a) -> ends_as now now' pord lord bp' (next a) (k a)) ->
  ends_as now now' pord lord bp p (c ≫= k).
Proof.
  intros Hstep Hk. unfold ends_as. cbv [mbind io_bind]. destruct (c bp) as [bp' r] eqn:Ec.
  assert (forge_step now now' pord lord {| fg_bp := bp; fg_pc := p |} =
    match r with Ok a => {| fg_bp := bp'; fg_pc := next a |} | Err e => {| fg_bp := bp'; fg_pc := Finished (Err e) |}
    | Panic => {| fg_bp := bp'; fg_pc := Finished Panic |} end) as Hs.
  { rewrite Hstep by done. unfold call. cbn [fg_bp]. rewrite Ec. by destruct r. }
  destruct r as [a|e|]; [|by exists 1%nat; cbn [forge_steps]; rewrite Hs..].
  destruct (Hk bp' a eq_refl) as [n Hn]. exists (S n). cbn [forge_steps]. by rewrite Hs.
Qed.
Lemma ends_done now now' pord lord bp r : ends_as now now' pord lord bp (Finished r) (io_lift r).
Proof. by exists 0%nat. Qed.

Lemma ends_ext now now' pord lord bp p (m m' : io (BlockProducer P) unit) :
  m bp = m' bp -> ends_as now now' pord lord bp p m' -> ends_as now now' pord lord bp p m.
Proof. unfold ends_as. by intros ->. Qed.

Lemma removing_alone now now' pord lord txs : forall bp,
  ends_as now now' pord lord bp (Removing txs)
    (_ ← io_iter remove txs; set_state Produced).
Proof.
  induction txs as [|tx txs IH]; intros bp.
  - apply (ends_ext _ _ _ _ _ _ _ (_ ← set_state Produced; io_lift (Ok tt))).
    { cbv [mbind io_bind io_lift]. cbn. by destruct (set_state Produced bp) as [? [[]|?|]]. }
    eapply (ends_call _ _ _ _ _ _ _ (fun _ => Finished (Ok tt))).
    + by intros [? ?] [= ->].
    + intros. apply ends_done.
  - apply (ends_ext _ _ _ _ _ _ _ (_ ← remove tx; _ ← io_iter remove txs; set_state Produced)).
    { done. }
    eapply (ends_call _ _ _ _ _ _ _ (fun _ => Removing txs)); [by intros [? ?] [= ->]|]. intros. apply IH.
Qed.

(** What follows [GetTransactions] with some transactions. *)
Definition after_pull (now now' : Z) (lord : list Hash) (txs : list Transaction) : io (BlockProducer P) unit :=
  latestBlock ← or_failed (io_read (fun bp => Ledger_GetLatestBlock (bc_ledger (bp_blockchain bp)) lord));
  newBlock ← or_failed (io_lift (block_after now latestBlock txs));
  _ ← or_failed (on_chain (Blockchain_AddBlock now' newBlock));
  _ ← io_iter remove txs;
  set_state Produced.

(** The goroutine does what [ForgeBlock] does, if nothing comes between its calls. *)
Lemma forging_alone now now' pord lord bp :
  ends_as now now' pord lord bp Ready (ForgeBlock now now' pord lord).
Proof.
  unfold ForgeBlock. eapply (ends_call _ _ _ _ _ _ _ (fun _ => Begun)); [by intros [? ?] [= ->]|].
  intros bp1 _ _.
  apply (ends_ext _ _ _ _ _ _ _ (p ← (txs ← io_read (fun bp => GetTransactions (bp_txPool bp) pord 100);
      if Zlen txs =? 0 then _ ← set_state Failed; mret (Finished (Ok tt)) else mret (Pulled txs));
    match p with Pulled txs => after_pull now now' lord txs | Finished r => io_lift r | _ => mret tt end)).
  { cbv [mbind io_bind mret io_ret io_read io_lift]. destruct (GetTransactions _ _ _) as [txs|e|]; [|done..].
    destruct (Zlen txs =? 0); [|done]. by destruct (set_state Failed bp1) as [? [[]|?|]]. }
  eapply (ends_call _ _ _ _ _ _ _ id); [by intros [? ?] [= ->]|].
  intros bp2 p Hp. cbv [mbind io_bind mret io_ret io_read] in Hp.
  destruct (GetTransactions _ _ _) as [txs|e|]; [|done..].
  destruct (Zlen txs =? 0).
  { destruct (set_state Failed bp1) as [? [[]|?|]]; [|done..]. injection Hp as <- <-. apply ends_done. }
  injection Hp as <- <-. unfold after_pull.
  eapply (ends_call _ _ _ _ _ _ _ (Found txs)); [by intros [? ?] [= ->]|]. intros bp3 latest _.
  eapply (ends_call _ _ _ _ _ _ _ (Built txs)); [by intros [? ?] [= ->]|]. intros bp4 b _.
  eapply (ends_call _ _ _ _ _ _ _ (fun _ => Removing txs)); [by intros [? ?] [= ->]|]. intros bp5 _ _.
  apply removing_alone.
Qed.
End Steps.

(** * With the rest of the node *)
Section Interleaved.
Context {P VP EP : Type} `{GraphLibLaws P VP EP, !StoreJsonLaws Block VP EP}.
Implicit Types (bp : BlockProducer P) (f : Forging P) (bc : Blockchain P).

Inductive chain_step : Blockchain P -> Blockchain P -> Prop :=
| cs_add now b bc :
    addable (VP := VP) (EP := EP) (l_storage (bc_ledger bc)) b -> chain_step bc (Blockchain_AddBlock now b bc).1
| cs_incoming now b bc :
    addable (VP := VP) (EP := EP) (l_storage (bc_ledger bc)) b -> chain_step bc (HandleIncomingBlock now b bc).1.

Definition fg_pool f : gmap Hash Transaction := tp_transactions (bp_txPool (fg_bp f)).
Definition fg_chain f : Blockchain P := bp_blockchain (fg_bp f).
Definition with_pool f (tp : TxPool) : Forging P :=
  {| fg_bp := {| bp_txPool := tp; bp_blockchain := fg_chain f; bp_stateMgr := bp_stateMgr (fg_bp f) |};
     fg_pc := fg_pc f |}.
Definition with_chain f bc : Forging P :=
  {| fg_bp := {| bp_txPool := bp_txPool (fg_bp f); bp_blockchain := bc; bp_stateMgr := bp_stateMgr (fg_bp f) |};
     fg_pc := fg_pc f |}.

(** What is remembered for the statements: the pool at the call of [GetTransactions],
    and the identifiers that others have put into it and taken out of it since. *)
Record Log := { lg_pool : gmap Hash Transaction; lg_added : gset Hash; lg_taken : gset Hash }.
Definition empty_log : Log := {| lg_pool := ∅; lg_added := ∅; lg_taken := ∅ |}.
Definition note (m m' : gmap Hash Transaction) (lg : Log) : Log :=
  {| lg_pool := lg_pool lg; lg_added := lg_added lg ∪ (dom m' ∖ dom m); lg_taken := lg_taken lg ∪ (dom m ∖ dom m') |}.

(** The goroutine makes a call, the loops in some order and at some time; or the pool
    gets well-formed transactions, loses some, or is adjusted; or a block reaches the
    chain.  A new block can be stored as those of others can. *)
Inductive step : Forging P * Log -> Forging P * Log -> Prop :=
| fs_forge now now' pord lord f lg :
    (fg_pc f = Begun -> is_order (fg_pool f) pord) ->
    (forall txs, fg_pc f = Pulled txs ->
       adjacency_order (EP := EP) (l_storage (bc_ledger (fg_chain f))) lord) ->
    is_i64 now ->
    (forall txs b, fg_pc f = Built txs b ->
       addable (VP := VP) (EP := EP) (l_storage (bc_ledger (fg_chain f))) b) ->
    step (f, lg)
      (forge_step (EP := EP) now now' pord lord f,
       match fg_pc f with
       | Begun => {| lg_pool := fg_pool f; lg_added := ∅; lg_taken := ∅ |}
       | _ => lg
       end)
| fs_pool f lg tp' :
    pool_step (bp_txPool (fg_bp f)) tp' ->
    (forall id tx, tp_transactions tp' !! id = Some tx -> Transaction_ok tx) ->
    step (f, lg) (with_pool f tp', note (fg_pool f) (tp_transactions tp') lg)
| fs_chain f lg bc' : chain_step (fg_chain f) bc' -> step (f, lg) (with_chain f bc', lg).

Lemma chain_step_reachable bc bc' :
  rtc chain_step bc bc' -> reachable (VP := VP) (EP := EP) bc -> reachable (VP := VP) (EP := EP) bc'.
Proof. induction 1 as [|bc bc1 bc2 Hs _ IH]; [done|]. intros Hr. apply IH. destruct Hs; by constructor. Qed.

(** ** The pool between the pull and now *)
(** [gone] are the identifiers that the goroutine has taken out itself. *)
Record pool_between (lg : Log) (gone : list Hash) (m : gmap Hash Transaction) : Prop := {
  pb_old id tx : m !! id = Some tx -> (lg_pool lg !! id = Some tx /\ id ∉ gone) \/ id ∈ lg_added lg;
  pb_kept id tx : lg_pool lg !! id = Some tx -> id ∉ lg_taken lg -> id ∉ gone -> m !! id = Some tx;
  pb_new id : id ∈ lg_added lg -> id ∉ lg_taken lg -> id ∉ gone -> is_Some (m !! id);
}.

Lemma pool_step_values tp tp' id tx :
  pool_step tp tp' -> tp_transactions tp !! id = Some tx -> tp_transactions tp' !! id = Some tx \/ tp_transactions tp' !! id = None.
Proof.
  intros Hs Hid. destruct Hs as [now ord tp tx0 _ _|tp id0|tp ids|now ord tp _|tp e|tp max]; cbn; auto.
  - unfold AddTransaction. destruct (tp_validateTransaction tp tx0); [|by left..].
    destruct (tp_transactions tp !! tx_ID tx0) eqn:E; [by left|].
    assert (tx_ID tx0 <> id) as Hne by congruence.
    destruct (_ <=? _); cbn; [|left; by rewrite lookup_insert_ne].
    unfold evictTransaction. destruct (negb _); cbn; [|by left].
    destruct (IsZeroHash _); cbn; rewrite ?(lookup_insert_ne _ (tx_ID tx0)) by done;
      destruct (decide ((oldest (tp_transactions tp) ord).1 = id)) as [<-|Hne'];
      rewrite ?lookup_delete_eq, ?lookup_delete_ne by done; auto.
  - destruct (decide (id0 = id)) as [<-|]; [right; apply lookup_delete_eq|left; by rewrite lookup_delete_ne].
  - rewrite RemoveTransactions_lookup. case_bool_decide; auto.
  - rewrite cleanup_fold, Hid. destruct (_ && _); auto.
Qed.

Lemma pool_between_refl m : pool_between {| lg_pool := m; lg_added := ∅; lg_taken := ∅ |} [] m.
Proof.
  split; cbn; [|done|intros id Hid; set_solver].
  intros id tx Hid. left. split; [done|apply not_elem_of_nil].
Qed.
Lemma pool_between_step lg gone tp tp' :
  pool_step tp tp' -> pool_between lg gone (tp_transactions tp) ->
  pool_between (note (tp_transactions tp) (tp_transactions tp') lg) gone (tp_transactions tp').
Proof.
  intros Hs [Ho Hk Hn]. pose proof (fun id tx => pool_step_values tp tp' id tx Hs) as Hv.
  assert (forall id, is_Some (tp_transactions tp !! id) -> id ∉ dom (tp_transactions tp) ∖ dom (tp_transactions tp') ->
    tp_transactions tp' !! id = tp_transactions tp !! id) as Hstay.
  { intros id [tx Hid] Hin. destruct (Hv _ _ Hid) as [->|Hnone]; [done|]. exfalso. apply Hin.
    apply elem_of_difference. split; [by apply elem_of_dom|by apply not_elem_of_dom]. }
  split; cbn.
  - intros id tx Hid. destruct (tp_transactions tp !! id) as [tx'|] eqn:E.
    + destruct (Hv _ _ E) as [E'|E']; rewrite Hid in E'; [injection E' as ->|done].
      destruct (Ho _ _ E); [by left|right; set_solver].
    + right. apply elem_of_union_r, elem_of_difference. split; [by apply elem_of_dom|by apply not_elem_of_dom].
  - intros id tx Hid Ht Hg. specialize (Hk _ _ Hid ltac:(set_solver) Hg).
    rewrite Hstay; [done|by eexists|set_solver].
  - intros id [Hid|Hid]%elem_of_union Ht Hg.
    + specialize (Hn _ Hid ltac:(set_solver) Hg). rewrite Hstay; [done..|set_solver].
    + apply elem_of_difference in Hid as [Hid _]. by apply elem_of_dom.
Qed.
Lemma pool_between_remove lg gone m id :
  pool_between lg gone m -> pool_between lg (gone ++ [id]) (delete id m).
Proof.
  intros [Ho Hk Hn]. split.
  - intros i tx [Hne Hi]%lookup_delete_Some. destruct (Ho _ _ Hi) as [[]|]; [left|by right]. set_solver.
  - intros i tx Hi Ht Hg. rewrite lookup_delete_ne by set_solver. apply Hk; set_solver.
  - intros i Hi Ht Hg. rewrite lookup_delete_ne by set_solver. apply Hn; set_solver.
Qed.

(** ** What holds at each point *)
(** The transactions of a pull: at most a hundred, those with the lowest nonces, each
    under its own identifier. *)
Definition from_pool (lg : Log) (txs : list Transaction) : Prop :=
  Zlen txs = Z.min 100 (Z.of_nat (size (lg_pool lg))) /\
  (forall tx, tx ∈ txs -> lg_pool lg !! tx_ID tx = Some tx /\ Transaction_ok tx) /\
  StronglySorted nonce_le txs /\
  forall id r, lg_pool lg !! id = Some r -> r ∈ txs \/ forall t, t ∈ txs -> tx_Nonce t <= tx_Nonce r.
(** [latest] was a latest block of the chain, at some time between. *)
Definition found (bc0 bc : Blockchain P) (latest : Block) : Prop :=
  exists bc1 lord, rtc chain_step bc0 bc1 /\ rtc chain_step bc1 bc /\
    adjacency_order (EP := EP) (l_storage (bc_ledger bc1)) lord /\
    Ledger_GetLatestBlock (EP := EP) (bc_ledger bc1) lord = Ok latest.
Definition built (bc0 bc : Blockchain P) (txs : list Transaction) (b : Block) : Prop :=
  exists latest now, found bc0 bc latest /\ is_i64 now /\ block_after now latest txs = Ok b.
(** The block was added to the chain, at some time between. *)
Definition added (bc0 bc : Blockchain P) (txs : list Transaction) (b : Block) : Prop :=
  exists bc2 bc3 now', built bc0 bc2 txs b /\ Blockchain_AddBlock (EP := EP) now' b bc2 = (bc3, Ok tt) /\
    bc_head bc3 = Some b /\ Ledger_GetBlock (EP := EP) (bc_ledger bc3) (b_Hash b) = Ok b /\ rtc chain_step bc3 bc.

Definition at_pc bc0 (lg : Log) bp (p : pc) : Prop :=
  let m := tp_transactions (bp_txPool bp) in
  let bc := bp_blockchain bp in
  match p with
  | Ready | Begun => True
  | Pulled txs => txs <> [] /\ from_pool lg txs /\ pool_between lg [] m
  | Found txs latest => txs <> [] /\ from_pool lg txs /\ pool_between lg [] m /\ found bc0 bc latest
  | Built txs b => from_pool lg txs /\ pool_between lg [] m /\ built bc0 bc txs b
  | Removing rest => exists taken b, from_pool lg (taken ++ rest) /\ taken ++ rest <> [] /\
      pool_between lg (tx_ID <$> taken) m /\ added bc0 bc (taken ++ rest) b
  | Finished (Ok _) =>
      lg_pool lg = ∅ /\ pool_between lg [] m /\ in_state bp Failed \/
      exists txs b, txs <> [] /\ from_pool lg txs /\ pool_between lg (tx_ID <$> txs) m /\ added bc0 bc txs b /\
        in_state bp Produced
  | Finished (Err _) => pool_between lg [] m /\ in_state bp Failed
  | Finished Panic => False
  end.
Record forging_inv bc0 (f : Forging P) (lg : Log) : Prop := {
  fi_chain : rtc chain_step bc0 (fg_chain f);
  fi_managed : managed (fg_bp f);
  fi_pool : pool_inv (bp_txPool (fg_bp f));
  fi_txs id tx : fg_pool f !! id = Some tx -> Transaction_ok tx;
  fi_pc : at_pc bc0 lg (fg_bp f) (fg_pc f);
}.

Lemma found_later bc0 bc bc' latest : rtc chain_step bc bc' -> found bc0 bc latest -> found bc0 bc' latest.
Proof. intros Hs (bc1 & lord & ? & ? & ?). exists bc1, lord. split; [done|]. split; [by etrans|done]. Qed.
Lemma built_later bc0 bc bc' txs b : rtc chain_step bc bc' -> built bc0 bc txs b -> built bc0 bc' txs b.
Proof. intros Hs (latest & now & Hf & ?). exists latest, now. split; [by eapply found_later|done]. Qed.
Lemma added_later bc0 bc bc' txs b : rtc chain_step bc bc' -> added bc0 bc txs b -> added bc0 bc' txs b.
Proof.
  intros Hs (bc2 & bc3 & now' & ? & ? & ? & ? & ?). exists bc2, bc3, now'. do 4 (split; [done|]). by etrans.
Qed.

(** Others change the pool or the chain. *)
Lemma forging_inv_pool bc0 f lg tp' :
  pool_step (bp_txPool (fg_bp f)) tp' -> (forall id tx, tp_transactions tp' !! id = Some tx -> Transaction_ok tx) ->
  forging_inv bc0 f lg -> forging_inv bc0 (with_pool f tp') (note (fg_pool f) (tp_transactions tp') lg).
Proof.
  intros Hs Hok [Hc Hm Hp Ht Hpc]. split; [done|done|by eapply pool_step_inv|done|].
  pose proof (fun gone => pool_between_step lg gone _ _ Hs) as Hb.
  change (fg_pc (with_pool f tp')) with (fg_pc f). unfold at_pc in *. cbn [with_pool fg_bp bp_txPool bp_blockchain].
  change (tp_transactions (bp_txPool (fg_bp f))) with (fg_pool f) in *. fold (fg_chain f) in Hpc.
  destruct (fg_pc f) as [| |txs|txs latest|txs b|rest|[|e|]]; [done|done|..|naive_solver|done]; naive_solver.
Qed.
Lemma forging_inv_chain bc0 f lg bc' :
  chain_step (fg_chain f) bc' -> forging_inv bc0 f lg -> forging_inv bc0 (with_chain f bc') lg.
Proof.
  intros Hs%rtc_once [Hc Hm Hp Ht Hpc]. split; [by etrans|done|done|done|].
  change (fg_pc (with_chain f bc')) with (fg_pc f). unfold at_pc in *. cbn [with_chain fg_bp bp_txPool bp_blockchain].
  fold (fg_chain f) in Hpc.
  destruct (fg_pc f) as [| |txs|txs latest|txs b|rest|[|e|]]; [done|done|..|done].
  all: pose proof (fun l => found_later bc0 _ _ l Hs) as Hf; pose proof (fun l b => built_later bc0 _ _ l b Hs) as Hb;
    pose proof (fun l b => added_later bc0 _ _ l b Hs) as Ha; naive_solver.
Qed.

(** ** The calls of the goroutine *)
Lemma call_or_failed {A} (m : io (BlockProducer P) A) next bp bp1 r :
  m bp = (bp1, r) -> managed bp1 ->
  match r with
  | Ok a => call (or_failed m) next bp = {| fg_bp := bp1; fg_pc := next a |}
  | Err e => exists sm, call (or_failed m) next bp = {| fg_bp := with_mgr bp1 sm; fg_pc := Finished (Err e) |} /\
      in_state (with_mgr bp1 sm) Failed
  | Panic => True
  end.
Proof.
  intros Hm Hman. destruct r as [a|e|]; [|..|done].
  - apply call_Ok. by apply or_failed_Ok.
  - destruct (or_failed_Err m bp bp1 e Hm Hman) as (sm & E & Hst). exists sm. split; [|done].
    unfold call. by rewrite E.
Qed.

Lemma pulled_from_pool (tp : TxPool) pord :
  is_order (tp_transactions tp) pord -> pool_inv tp ->
  (forall id tx, tp_transactions tp !! id = Some tx -> Transaction_ok tx) ->
  exists txs, GetTransactions tp pord 100 = Ok txs /\
    from_pool {| lg_pool := tp_transactions tp; lg_added := ∅; lg_taken := ∅ |} txs.
Proof.
  intros Hord [Hkeys _] Hok. destruct (GetTransactions_cases tp pord 100 Hord) as [_ Hg].
  destruct (Hg ltac:(lia)) as (txs & rest & -> & Hlen & Hperm & Hsorted & Hrest). exists txs. split; [done|].
  assert (forall tx, tx ∈ txs ++ rest <-> exists id, tp_transactions tp !! id = Some tx) as Hin.
  { intros tx. rewrite Hperm, list_elem_of_fmap. split.
    - intros ([id tx'] & -> & Hid%elem_of_map_to_list). eauto.
    - intros [id Hid]. exists (id, tx). by rewrite elem_of_map_to_list. }
  split; [done|]. split; [|split; [done|]].
  - intros tx Htx. destruct (proj1 (Hin tx)) as [id Hid]; [apply elem_of_app; by left|].
    destruct (Hkeys _ _ Hid) as [-> _]. split; [done|by eapply Hok].
  - intros id r Hr. pose proof (proj2 (Hin r) (ex_intro _ id Hr)) as [Hx|Hx]%elem_of_app; [by left|right]. eauto.
Qed.

Lemma found_ok bc0 bc latest :
  reachable (VP := VP) (EP := EP) bc0 -> found bc0 bc latest -> Block_ok latest.
Proof.
  intros Hr (bc1 & lord & Hs & _ & Hord & Hl). eapply chain_step_reachable in Hr; [|done].
  destruct (reachable_rep _ Hr) as (V & E & Hrep & _).
  pose proof (GetLatestBlock_Ok _ V E lord Hrep Hord) as Hlatest. rewrite Hl in Hlatest.
  destruct Hlatest as (vp & Hvp & _). by destruct (lr_block _ _ _ Hrep _ _ _ Hvp).
Qed.

Section OwnSteps.
Context (bc0 : Blockchain P) (Hr0 : reachable (VP := VP) (EP := EP) bc0).
Local Abbreviation inv bp p lg := (forging_inv bc0 {| fg_bp := bp; fg_pc := p |} lg).

(** A call that changes nothing but the states. *)
Lemma inv_with_mgr bp p lg sm p' :
  inv bp p lg -> managed (with_mgr bp sm) -> at_pc bc0 lg (with_mgr bp sm) p' -> inv (with_mgr bp sm) p' lg.
Proof. intros [Hc _ Hp Ht _] Hm Hpc. by split. Qed.
Lemma inv_failed bp p lg sm e :
  inv bp p lg -> pool_between lg [] (tp_transactions (bp_txPool bp)) -> in_state (with_mgr bp sm) Failed ->
  inv (with_mgr bp sm) (Finished (Err e)) lg.
Proof. intros Hi Hb Hst. apply (inv_with_mgr bp p); [done|apply Hst|done]. Qed.

Lemma inv_begun pord bp lg :
  is_order (tp_transactions (bp_txPool bp)) pord -> inv bp Begun lg ->
  forging_inv bc0
    (call (txs ← io_read (fun bp => GetTransactions (bp_txPool bp) pord 100);
           if Zlen txs =? 0 then _ ← set_state Failed; mret (Finished (Ok tt)) else mret (Pulled txs)) id bp)
    {| lg_pool := tp_transactions (bp_txPool bp); lg_added := ∅; lg_taken := ∅ |}.
Proof.
  intros Hord [Hc Hm Hp Ht _]. destruct (pulled_from_pool _ _ Hord Hp Ht) as (txs & Hg & Hfrom).
  pose proof (pool_between_refl (tp_transactions (bp_txPool bp))) as Hb.
  unfold call. cbv [mbind io_bind mret io_ret io_read]. rewrite Hg.
  destruct (Z.eqb_spec (Zlen txs) 0) as [Hz|Hz].
  - destruct (set_state_run bp Failed Hm) as (sm & -> & Hst). split; try done; [apply Hst|]. left.
    split; [|done]. destruct Hfrom as [Hlen _]. cbn in Hlen |- *. apply map_size_empty_inv. lia.
  - split; try done. split; [by intros ->|done].
Qed.

Lemma inv_pulled lord txs bp lg :
  adjacency_order (EP := EP) (l_storage (bc_ledger (bp_blockchain bp))) lord -> inv bp (Pulled txs) lg ->
  forging_inv bc0
    (call (or_failed (io_read (fun bp => Ledger_GetLatestBlock (EP := EP) (bc_ledger (bp_blockchain bp)) lord)))
       (Found txs) bp) lg.
Proof.
  intros Hlord Hi. pose proof Hi as [Hc Hm Hp Ht (Hne & Hfrom & Hb)].
  pose proof (chain_step_reachable _ _ Hc Hr0) as Hr. destruct (reachable_rep _ Hr) as (V & E & Hrep & _).
  pose proof (GetLatestBlock_Ok _ V E lord Hrep Hlord) as Hlatest.
  pose proof (call_or_failed (io_read (fun bp => Ledger_GetLatestBlock (EP := EP) (bc_ledger (bp_blockchain bp)) lord))
    (Found txs) bp bp _ eq_refl Hm) as Hcall. cbn [fg_chain fg_bp] in *. unfold fg_chain in *. cbn [fg_bp] in *.
  destruct (Ledger_GetLatestBlock _ lord) as [latest|e|] eqn:El; [| |done].
  - rewrite Hcall. split; try done. do 3 (split; [done|]). by exists (bp_blockchain bp), lord.
  - destruct Hcall as (sm & -> & Hst). by eapply inv_failed.
Qed.

Lemma inv_found now txs latest bp lg :
  is_i64 now -> inv bp (Found txs latest) lg ->
  forging_inv bc0 (call (or_failed (io_lift (block_after now latest txs))) (Built txs) bp) lg.
Proof.
  intros Hnow [Hc Hm Hp Ht (Hne & Hfrom & Hb & Hf)]. pose proof Hfrom as (Hlen & Htx & _).
  destruct (block_after_ok now latest txs Hnow (found_ok _ _ _ Hr0 Hf)) as (b & Hblk & _).
  { apply list.Forall_forall. intros tx Hx. by apply Htx. }
  { unfold Zlen in *. destruct txs; [done|]. cbn in *. lia. }
  pose proof (call_or_failed (io_lift (block_after now latest txs)) (Built txs) bp bp _ eq_refl Hm) as Hcall.
  rewrite Hblk in Hcall |- *. rewrite Hcall. split; try done. do 2 (split; [done|]). by exists latest, now.
Qed.

Lemma inv_built now' txs b bp lg :
  addable (VP := VP) (EP := EP) (l_storage (bc_ledger (bp_blockchain bp))) b -> inv bp (Built txs b) lg ->
  forging_inv bc0
    (call (or_failed (on_chain (Blockchain_AddBlock (EP := EP) now' b))) (fun _ => Removing txs) bp) lg.
Proof.
  intros Hadd [Hc Hm Hp Ht (Hfrom & Hb & Hbuilt)]. unfold fg_chain, fg_pool in *. cbn [fg_bp] in *.
  pose proof (chain_step_reachable _ _ Hc Hr0) as Hr.
  pose proof (AddBlock_outcome now' (bp_blockchain bp) b Hr Hadd) as Hout.
  assert (rtc chain_step (bp_blockchain bp) (Blockchain_AddBlock now' b (bp_blockchain bp)).1) as Hstep
    by (by apply rtc_once; constructor).
  destruct (Blockchain_AddBlock now' b (bp_blockchain bp)) as [bc3 r] eqn:Hrun. destruct Hout as [Hout _].
  assert (on_chain (Blockchain_AddBlock now' b) bp =
    ({| bp_txPool := bp_txPool bp; bp_blockchain := bc3; bp_stateMgr := bp_stateMgr bp |}, r)) as Hon
    by (unfold on_chain; by rewrite Hrun).
  pose proof (call_or_failed _ (fun _ => Removing txs) _ _ _ Hon Hm) as Hcall.
  destruct r as [[]|e|]; [| |done].
  - rewrite Hcall. split; try done; [by etrans|]. exists [], b. cbn. split; [done|]. split.
    { intros ->. destruct Hbuilt as (latest & now & _ & _ & Hblk). by cbn in Hblk. }
    split; [done|]. exists (bp_blockchain bp), bc3, now'. destruct Hout. do 4 (split; [done|]). done.
  - destruct Hcall as (sm & -> & Hst). split; try done; [by etrans|apply Hst].
Qed.

Lemma inv_remove tx rest bp lg :
  inv bp (Removing (tx :: rest)) lg -> forging_inv bc0 (call (remove tx) (fun _ => Removing rest) bp) lg.
Proof.
  intros [Hc Hm Hp Ht (taken & b & Hfrom & Hne & Hb & Hadded)].
  unfold remove, on_pool, call. unfold fg_pool, fg_chain in *. cbn [fg_bp] in *. split; cbn; try done.
  - apply pool_inv_shrink; [done|apply delete_subseteq].
  - intros id tx' [_ Hid]%lookup_delete_Some. by eapply Ht.
  - exists (taken ++ [tx]), b. rewrite <- !app_assoc. do 2 (split; [done|]).
    split; [|done]. rewrite fmap_app. by apply pool_between_remove.
Qed.

Lemma inv_removed bp lg :
  inv bp (Removing []) lg -> forging_inv bc0 (call (set_state Produced) (fun _ => Finished (Ok tt)) bp) lg.
Proof.
  intros Hi. pose proof Hi as [Hc Hm Hp Ht (taken & b & Hfrom & Hne & Hb & Hadded)].
  destruct (set_state_run bp Produced Hm) as (sm & E & Hst). rewrite (call_Ok _ _ _ _ _ E).
  eapply inv_with_mgr; [done|apply Hst|]. right. rewrite app_nil_r in *. by exists taken, b.
Qed.
End OwnSteps.

Lemma forging_inv_step bc0 f lg f' lg' :
  reachable (VP := VP) (EP := EP) bc0 -> step (f, lg) (f', lg') -> forging_inv bc0 f lg -> forging_inv bc0 f' lg'.
Proof.
  intros Hr0 Hs Hi. inversion Hs as [now now' pord lord f0 lg0 Hord Hlord Hnow Hadd| |]; subst;
    [|by apply forging_inv_pool|by apply forging_inv_chain].
  destruct f as [bp p]. unfold forge_step, fg_pool, fg_chain in *. cbn [fg_pc fg_bp] in *.
  destruct p as [| |txs|txs latest|txs b|[|tx rest]|r].
  - destruct (set_state_run bp Started (fi_managed _ _ _ Hi)) as (sm & E & Hst). rewrite (call_Ok _ _ _ _ _ E).
    eapply inv_with_mgr; [done|apply Hst|done].
  - eapply inv_begun; eauto.
  - apply inv_pulled; eauto.
  - by apply inv_found.
  - apply inv_built; eauto.
  - by apply inv_removed.
  - by apply inv_remove.
  - done.
Qed.

Lemma forging_inv_steps bc0 s s' :
  reachable (VP := VP) (EP := EP) bc0 -> rtc step s s' -> forging_inv bc0 s.1 s.2 -> forging_inv bc0 s'.1 s'.2.
Proof.
  intros Hr0. induction 1 as [|[f lg] [f1 lg1] s2 Hs _ IH]; [done|]. intros Hi. apply IH.
  by apply (forging_inv_step bc0 f lg).
Qed.

Lemma built_fields bc0 bc lg txs b :
  reachable (VP := VP) (EP := EP) bc0 -> from_pool lg txs -> txs <> [] -> built bc0 bc txs b -> b_Transactions b = txs.
Proof.
  intros Hr0 (Hlen & Htx & _) Hne (latest & now & Hf & Hnow & Hb).
  destruct (block_after_ok now latest txs Hnow (found_ok _ _ _ Hr0 Hf)) as (b' & Hb' & <-).
  - apply list.Forall_forall. intros tx Hx. by apply Htx.
  - unfold Zlen in *. destruct txs; [done|]. cbn in *. lia.
  - rewrite Hb in Hb'. by injection Hb' as ->.
Qed.

(** The beginning of a call. *)
Definition forging_start bp : Forging P := {| fg_bp := bp; fg_pc := Ready |}.

(** C17: forging a block while the node goes on.  Transactions may arrive in the pool,
    expire or be evicted between any two calls that [ForgeBlock] makes, and blocks may
    reach the chain.  Let it return.  With an error the pool has lost nothing through
    it.  Without one, either the pool was empty when it was asked, or a block was added
    to the chain as it was at that moment: it holds at most a hundred transactions, all
    of them from the pool as it was asked, those with the lowest nonces, and it follows
    a block that was a latest one some time before.  No transaction that was in the pool
    or arrived later is lost, if it is not in the block and nobody else took it out; and
    the transactions of the block are not in the pool any more, unless somebody put them
    there again.  It never panics, each of its calls brings it closer to the end, and
    alone it does what the method does. *)
Theorem forging_interleaved bp f lg :
  reachable (VP := VP) (EP := EP) (bp_blockchain bp) -> managed bp -> pool_inv (bp_txPool bp) ->
  (forall id tx, tp_transactions (bp_txPool bp) !! id = Some tx -> Transaction_ok tx) ->
  rtc step (forging_start bp, empty_log) (f, lg) ->
  (forall r, fg_pc f = Finished r ->
     (forall id tx, lg_pool lg !! id = Some tx -> id ∉ lg_taken lg -> r <> Ok tt -> fg_pool f !! id = Some tx) /\
     match r with
     | Ok _ =>
         lg_pool lg = ∅ \/
         exists b, added (bp_blockchain bp) (fg_chain f) (b_Transactions b) b /\
           from_pool lg (b_Transactions b) /\ in_state (fg_bp f) Produced /\
           (forall id tx, lg_pool lg !! id = Some tx -> id ∉ lg_taken lg ->
              id ∈ (tx_ID <$> b_Transactions b) \/ fg_pool f !! id = Some tx) /\
           (forall id, id ∈ lg_added lg -> id ∉ lg_taken lg ->
              id ∈ (tx_ID <$> b_Transactions b) \/ is_Some (fg_pool f !! id)) /\
           (forall tx, tx ∈ b_Transactions b -> tx_ID tx ∉ lg_added lg -> fg_pool f !! tx_ID tx = None)
     | Err _ => in_state (fg_bp f) Failed
     | Panic => False
     end) /\
  (forall now now' pord lord, ~ finished f -> is_order (fg_pool f) pord ->
     (steps_left (forge_step (EP := EP) now now' pord lord f) < steps_left f)%nat) /\
  (forall now now' pord lord, exists n,
     forge_steps (EP := EP) n now now' pord lord (forging_start bp) =
       {| fg_bp := (ForgeBlock (EP := EP) now now' pord lord bp).1;
          fg_pc := Finished (ForgeBlock (EP := EP) now now' pord lord bp).2 |}).
Proof.
  intros Hr0 Hm Hp Ht Hsteps. split; [|split; [intros; by apply forge_step_left|intros; apply forging_alone]].
  intros r Hfin. pose proof (forging_inv_steps (bp_blockchain bp) _ _ Hr0 Hsteps ltac:(by split)) as [_ _ _ _ Hpc].
  cbn [fst snd] in Hpc. rewrite Hfin in Hpc. fold (fg_pool f) (fg_chain f) in Hpc.
  destruct r as [[]|e|]; cbn in Hpc; [|destruct Hpc as [[Ho Hk Hn] Hst]; split; [|done]|done].
  - split; [done|]. destruct Hpc as [(Hz & _)|(txs & b & Hne & Hfrom & [Ho Hk Hn] & Hadded & Hst)]; [by left|right].
    assert (b_Transactions b = txs) as <-.
    { destruct Hadded as (bc2 & bc3 & now' & Hb & _). by eapply built_fields. }
    exists b. do 3 (split; [done|]). split; [|split].
    + intros id tx Hid Htk. destruct (decide (id ∈ tx_ID <$> b_Transactions b)); [by left|right; by apply Hk].
    + intros id Hid Htk. destruct (decide (id ∈ tx_ID <$> b_Transactions b)); [by left|right; by apply Hn].
    + intros tx Htx Hna. destruct (fg_pool f !! tx_ID tx) as [tx'|] eqn:E; [|done].
      destruct (Ho _ _ E) as [[_ Hg]|]; [|done]. exfalso. apply Hg. apply list_elem_of_fmap. eauto.
  - intros id tx Hid Htk _. by apply Hk; [..|apply not_elem_of_nil].
Qed.
End Interleaved.

(** * An example *)
(** The producer of [Sequencer.v]: a second transaction arrives after the pull. *)
Local Abbreviation example_steps n f := (forge_steps (EP := unit) n 1700000200 1700000250 [tx_ID payment] lord_example f).
Definition pulled_example : Forging MemDb := example_steps 2 (forging_start producer_example).
Definition arrived_pool : TxPool :=
  (AddTransaction 1700000200 [tx_ID payment] (bp_txPool (fg_bp pulled_example)) transaction_other).1.
Definition arrived_example : Forging MemDb := with_pool pulled_example arrived_pool.
Definition forged_at_last : Forging MemDb := example_steps 5 arrived_example.

Lemma pulled_pool : bp_txPool (fg_bp pulled_example) = pool_example.
Proof. vm_compute. reflexivity. Qed.
Lemma payment_ok : Transaction_ok payment.
Proof. split; range_tac. Qed.
Lemma transaction_other_ok : Transaction_ok transaction_other.
Proof. split; range_tac. Qed.

(** The steps of the goroutine by where it is. *)
Definition stage (p : pc) : nat :=
  match p with
  | Ready => 0 | Begun => 1 | Pulled _ => 2 | Found _ _ => 3 | Built _ _ => 4 | Removing _ => 5 | Finished _ => 6
  end.
Section Stages.
Context {P VP EP : Type} `{GraphLibLaws P VP EP, !StoreJsonLaws Block VP EP}.
Context (now now' : Z) (pord lord : list Hash) (Hnow : is_i64 now).
Implicit Types (f : Forging P).
Local Abbreviation st := (step (P := P) (VP := VP) (EP := EP)).
Local Abbreviation next f := (forge_step (EP := EP) now now' pord lord f).
(** Up to the new block the chain is only read. *)
Lemma forge_step_chain f : (stage (fg_pc f) < 4)%nat -> fg_chain (next f) = fg_chain f.
Proof.
  assert (forall s bp, bp_blockchain (set_state (P := P) s bp).1 = bp_blockchain bp) as Hset.
  { intros s bp. unfold set_state. by destruct (Set_ _ _ _). }
  assert (forall A (r : BlockProducer P -> res A) (k : A -> pc) bp,
    fg_chain (call (or_failed (io_read r)) k bp) = bp_blockchain bp) as Hread.
  { intros A r k bp. unfold call, or_failed, io_read, io_lift. destruct (r bp); [done| |done].
    cbv [mbind io_bind]. specialize (Hset Failed bp). by destruct (set_state Failed bp) as [? [| |]]. }
  destruct f as [bp [| |txs|txs latest|txs b|rest|r]]; cbn [stage fg_pc]; intros Hs; try lia;
    unfold forge_step; cbn [fg_pc fg_bp]; [| |apply Hread|apply (Hread _ (fun _ => block_after now latest txs))].
  - unfold call. specialize (Hset Started bp). by destruct (set_state Started bp) as [? [| |]].
  - unfold call. cbv [mbind io_bind mret io_ret io_read]. destruct (GetTransactions _ _ _) as [txs| |]; [|done..].
    destruct (Zlen txs =? 0); [|done]. specialize (Hset Failed bp). by destruct (set_state Failed bp) as [? [| |]].
Qed.
Lemma quiet_step f lg :
  bool_decide (stage (fg_pc f) ∈ [0%nat; 3%nat; 5%nat]) = true -> st (f, lg) (next f, lg).
Proof.
  intros Hs. pose proof (fs_forge (VP := VP) (EP := EP) now now' pord lord f lg) as Hf.
  destruct (fg_pc f); try discriminate Hs; by apply Hf.
Qed.
Lemma begun_step f lg :
  stage (fg_pc f) = 1%nat -> is_order (fg_pool f) pord ->
  st (f, lg) (next f, {| lg_pool := fg_pool f; lg_added := ∅; lg_taken := ∅ |}).
Proof.
  intros Hs Hord. pose proof (fs_forge (VP := VP) (EP := EP) now now' pord lord f lg) as Hf.
  destruct (fg_pc f); try discriminate Hs; by apply Hf.
Qed.
Lemma pulled_step f lg bc :
  stage (fg_pc f) = 2%nat -> fg_chain f = bc -> adjacency_order (EP := EP) (l_storage (bc_ledger bc)) lord ->
  st (f, lg) (next f, lg).
Proof.
  intros Hs <- Hord. pose proof (fs_forge (VP := VP) (EP := EP) now now' pord lord f lg) as Hf.
  destruct (fg_pc f); try discriminate Hs; by apply Hf.
Qed.
Lemma built_step f lg bc txs b :
  fg_pc f = Built txs b -> fg_chain f = bc -> addable (VP := VP) (EP := EP) (l_storage (bc_ledger bc)) b ->
  st (f, lg) (next f, lg).
Proof.
  intros Hpc <- Hadd. pose proof (fs_forge (VP := VP) (EP := EP) now now' pord lord f lg) as Hf.
  rewrite Hpc in Hf. apply Hf; [done|done|done|]. by intros txs' b' [= <- <-].
Qed.
End Stages.

Definition pulled_log : Log := {| lg_pool := fg_pool (example_steps 1 (forging_start producer_example)); lg_added := ∅; lg_taken := ∅ |}.
Definition arrived_log : Log := note (fg_pool pulled_example) (tp_transactions arrived_pool) pulled_log.

Lemma example_now : is_i64 1700000200.
Proof. split; lia. Qed.
Lemma example_chain : fg_chain arrived_example = chain1 /\ fg_chain (example_steps 2 arrived_example) = chain1.
Proof.
  assert (fg_chain arrived_example = chain1) as Hc.
  { change (fg_chain pulled_example = chain1). unfold pulled_example. cbn [forge_steps].
    rewrite !forge_step_chain; [reflexivity|apply Nat.ltb_lt; by vm_compute..]. }
  split; [done|]. cbn [forge_steps]. rewrite !forge_step_chain; [done|apply Nat.ltb_lt; by vm_compute..].
Qed.
Lemma AddTransaction_entries now ord tp tx0 id tx :
  tp_transactions (AddTransaction now ord tp tx0).1 !! id = Some tx ->
  tp_transactions tp !! id = Some tx \/ tx = set_Timestamp tx0 now.
Proof.
  unfold AddTransaction, evictTransaction, insert_tx. destruct (tp_validateTransaction tp tx0); [|by left..].
  destruct (tp_transactions tp !! tx_ID tx0); [by left|].
  destruct (_ <=? _); cbn; [destruct (negb _); cbn; [destruct (IsZeroHash _); cbn|by left]|].
  - intros [_ ?]%lookup_delete_Some. by left.
  - intros [[_ <-]|[_ [_ ?]%lookup_delete_Some]]%lookup_insert_Some; [by right|by left].
  - intros [[_ <-]|[_ ?]]%lookup_insert_Some; [by right|by left].
Qed.
Lemma arrival : pool_step (bp_txPool (fg_bp pulled_example)) arrived_pool /\
  forall id tx, tp_transactions arrived_pool !! id = Some tx -> Transaction_ok tx.
Proof.
  unfold arrived_pool. rewrite pulled_pool. split.
  - apply step_add; [|done]. apply (bool_decide_eq_true_1 (_ ≡ₚ _)). by vm_compute.
  - intros id tx [Hid| ->]%AddTransaction_entries; [|split; range_tac].
    change (({[ tx_ID payment := payment ]} : gmap Hash Transaction) !! id = Some tx) in Hid.
    apply lookup_singleton_Some in Hid as [_ <-]. apply payment_ok.
Qed.
Lemma producer_pool_inv : pool_inv (bp_txPool producer_example).
Proof.
  assert (forall id tx, tp_transactions (bp_txPool producer_example) !! id = Some tx -> id = tx_ID payment /\ tx = payment)
    as Hone.
  { intros id tx Hid. change (({[ tx_ID payment := payment ]} : gmap Hash Transaction) !! id = Some tx) in Hid.
    by apply lookup_singleton_Some in Hid as [-> ->]. }
  split.
  - intros id tx [-> ->]%Hone. split; [done|]. by vm_compute.
  - intros id tx [-> ->]%Hone. exists 0. by vm_compute.
Qed.
Lemma example_run :
  rtc (step (VP := unit) (EP := unit)) (forging_start producer_example, empty_log) (forged_at_last, arrived_log).
Proof.
  apply (rtc_l _ _ (example_steps 1 (forging_start producer_example), empty_log)).
  { apply quiet_step; [apply example_now|]. by vm_compute. }
  apply (rtc_l _ _ (pulled_example, pulled_log)).
  { apply begun_step; [apply example_now|by vm_compute|]. apply (bool_decide_eq_true_1 (_ ≡ₚ _)). by vm_compute. }
  apply (rtc_l _ _ (arrived_example, arrived_log)); [apply fs_pool; apply arrival|].
  apply (rtc_l _ _ (example_steps 1 arrived_example, arrived_log)).
  { apply (pulled_step _ _ _ _ example_now _ _ chain1);
      [vm_compute; reflexivity|apply example_chain|apply (po_lord _ _ _ _ producer_example_ok)]. }
  apply (rtc_l _ _ (example_steps 2 arrived_example, arrived_log)).
  { apply quiet_step; [apply example_now|]. by vm_compute. }
  apply (rtc_l _ _ (example_steps 3 arrived_example, arrived_log)).
  { apply (built_step _ _ _ _ example_now _ _ chain1 [payment] forged_example);
      [vm_compute; reflexivity|apply example_chain|apply forged_example_addable]. }
  apply (rtc_l _ _ (example_steps 4 arrived_example, arrived_log)).
  { apply quiet_step; [apply example_now|]. by vm_compute. }
  apply rtc_once. apply quiet_step; [apply example_now|]. by vm_compute.
Qed.

(** The payment is in the block and the transaction that arrived is in the pool. *)
Lemma forging_interleaved_witness : exists b,
  added (VP := unit) (EP := unit) chain1 (fg_chain forged_at_last) (b_Transactions b) b /\
  (tx_ID transaction_other ∈ (tx_ID <$> b_Transactions b) \/ is_Some (fg_pool forged_at_last !! tx_ID transaction_other)).
Proof.
  pose proof (forging_interleaved (VP := unit) (EP := unit) producer_example forged_at_last arrived_log
    (po_chain _ _ _ _ producer_example_ok) (po_managed _ _ _ _ producer_example_ok) producer_pool_inv
    (po_txs _ _ _ _ producer_example_ok) example_run) as [Hfin _].
  destruct (Hfin (Ok tt)) as [_ [Hz|(b & Hadded & _ & _ & _ & Hnew & _)]].
  - by vm_compute.
  - exfalso. apply (f_equal size) in Hz. revert Hz. by vm_compute.
  - exists b. split; [exact Hadded|]. apply Hnew.
    + apply (bool_decide_eq_true_1 _). by vm_compute.
    + apply (bool_decide_eq_true_1 (_ ∉ _)). by vm_compute.
Defined.

(** A block that reaches the chain after the latest one was read: the new block is
    accepted beside it, and the head of the chain is no longer the block that came in. *)
Definition rival_payment : Transaction := Eval vm_compute in
  {| tx_ID := Hashes.Sha256.Sum256 (str "rival"); tx_Sender := account2; tx_Recipient := account1; tx_Amount := 10; tx_Fee := 1;
     tx_Nonce := 1; tx_Timestamp := 1700000200; tx_Signature := str "s"; tx_SignatureType := BlsSignerType;
     tx_Payload := [] |}.
Definition rival_block : Block := Eval vm_compute in
  block_or_example (NewBlock 1700000210 1 (b_Hash genesis_block) [rival_payment] account2 1).
Definition built_example : Forging MemDb := example_steps 4 (forging_start producer_example).
Definition forked_example : Forging MemDb :=
  example_steps 1 (with_chain built_example
    (HandleIncomingBlock (EP := unit) 1700000250 rival_block (fg_chain built_example)).1).

Lemma forging_forks :
  (HandleIncomingBlock (EP := unit) 1700000250 rival_block (fg_chain built_example)).2 = Ok tt /\
  stage (fg_pc forked_example) = 5%nat /\
  option_map b_Hash (bc_head (fg_chain forked_example)) = Some (b_Hash forged_example) /\
  is_ok (Ledger_GetBlock (EP := unit) (bc_ledger (fg_chain forked_example)) (b_Hash rival_block)) = true /\
  b_PreviousHash rival_block = b_PreviousHash forged_example.
Proof. repeat split; vm_compute; reflexivity. Qed.
