(* ===== verification/Accounts.v ===== *)
(** [pkg/accounts]: the store of accounts ([store.go], [helpers.go]) with its
    YAML files, and its manager ([manager.go]).

    The store is two maps in memory and the files of one directory.  The file
    system, YAML, libp2p's keys and the random sources are not part of the
    program: they are parameters, and a [Class] states what is used of them.
    The two maps hold pointers to the same accounts; since an account is never
    changed once it is in a map, they hold values here.  File names are those
    inside the base directory. *)
From S2P Require Import Prelude Bytes Hashes Types Signatures Packets Validators.
Import Sha256.

(** * The signers an account keeps

    What the store uses of the key pairs of [pkg/signatures]. *)
Class PairLib (K : Type) := {
  pair_type : K -> SignerType;
  pair_Signer : K -> Signer;
  pair_SerializePrivate : K -> res bytes;
  pair_SerializePublic : K -> res bytes;
  pair_WithKeys : SignerType -> bytes -> bytes -> res K;
}.

(** The type switches of [Save] and [Load] over the three kinds of signers. *)
Section pairs.
Context {SK PK Sign Scalar Element : Type}
  (GetPublicKey : SK -> PK)
  (sk_Serialize : SK -> bytes) (sk_Deserialize : bytes -> res SK)
  (pk_Serialize : PK -> bytes) (pk_Deserialize : bytes -> res PK)
  (bls_Signer : BLSKeyPair SK PK -> Signer) (ed_Signer : Ed25519KeyPair -> Signer)
  (sc_Marshal : Scalar -> res bytes) (sc_Unmarshal : bytes -> res Scalar)
  (el_Marshal : Element -> res bytes) (el_Unmarshal : bytes -> res Element)
  (zk_Signer : ZKProofKeyPair Scalar Element -> Signer).

Inductive Pair :=
| BLSPair (kp : BLSKeyPair SK PK)
| Ed25519Pair (kp : Ed25519KeyPair)
| ZKProofPair (kp : ZKProofKeyPair Scalar Element).

Definition Pair_SerializePrivate (p : Pair) : res bytes :=
  match p with
  | BLSPair kp => BLS_SerializePrivate sk_Serialize kp
  | Ed25519Pair kp => Ed25519_SerializePrivate kp
  | ZKProofPair kp => ZKProof_SerializePrivate sc_Marshal kp
  end.
Definition Pair_SerializePublic (p : Pair) : res bytes :=
  match p with
  | BLSPair kp => BLS_SerializePublic pk_Serialize kp
  | Ed25519Pair kp => Ed25519_SerializePublic kp
  | ZKProofPair kp => ZKProof_SerializePublic el_Marshal kp
  end.
Definition Pair_WithKeys (signerType : SignerType) (privateKeyBytes publicKeyBytes : bytes) :
    res Pair :=
  if decide (signerType = BlsSignerType)
  then BLSPair <$> NewBLSSignerWithKeys GetPublicKey sk_Deserialize pk_Deserialize
                     privateKeyBytes publicKeyBytes
  else if decide (signerType = Ed25519SignerType)
  then Ed25519Pair <$> NewEd25519SignerWithKeys privateKeyBytes publicKeyBytes
  else if decide (signerType = DleqSignerType)
  then ZKProofPair <$> NewZKProofSignerWithKeys sc_Unmarshal el_Unmarshal
                         privateKeyBytes publicKeyBytes
  else Err (ErrMsg "unsupported signer type: %s").

Definition pair_lib : PairLib Pair := {|
  pair_type p := match p with
    | BLSPair _ => BlsSignerType | Ed25519Pair _ => Ed25519SignerType
    | ZKProofPair _ => DleqSignerType end;
  pair_Signer p := match p with
    | BLSPair kp => bls_Signer kp | Ed25519Pair kp => ed_Signer kp
    | ZKProofPair kp => zk_Signer kp end;
  pair_SerializePrivate := Pair_SerializePrivate;
  pair_SerializePublic := Pair_SerializePublic;
  pair_WithKeys := Pair_WithKeys |}.

(** Key pairs as the constructors of the signers make them. *)
Definition Pair_ok (p : Pair) : Prop :=
  match p with
  | BLSPair kp => exists sk, bls_PrivateKey kp = Some sk /\ bls_PublicKey kp = Some (GetPublicKey sk) /\
      sk_Serialize sk <> [] /\ pk_Serialize (GetPublicKey sk) <> [] /\
      sk_Deserialize (sk_Serialize sk) = Ok sk /\
      pk_Deserialize (pk_Serialize (GetPublicKey sk)) = Ok (GetPublicKey sk)
  | Ed25519Pair kp => exists sk, Zlen sk = PrivateKeySize /\
      ed_PrivateKey kp = Some sk /\ ed_PublicKey kp = Some (drop 32 sk)
  | ZKProofPair kp => exists k a b dk da db,
      zk_PrivateKey kp = Some k /\ zk_PublicKeyA kp = Some a /\ zk_PublicKeyB kp = Some b /\
      zk_G kp = true /\ zk_DST kp = str "zkproof_domain_sep_string" /\
      sc_Marshal k = Ok dk /\ el_Marshal a = Ok da /\ el_Marshal b = Ok db /\
      sc_Unmarshal dk = Ok k /\ el_Unmarshal da = Ok a /\ el_Unmarshal db = Ok b /\
      4 + Zlen da + Zlen db < 2 ^ 16
  end.
End pairs.
Arguments Pair : clear implicits.

(** The promise of the signers to the store: a well-formed pair comes back from
    its two serializations. *)
Class PairLaws (K : Type) `{PairLib K} := {
  pair_ok : K -> Prop;
  pair_roundtrip k : pair_ok k -> exists sk pk,
    pair_SerializePrivate k = Ok sk /\ pair_SerializePublic k = Ok pk /\
    pair_WithKeys (pair_type k) sk pk = Ok k;
  pair_supported k : pair_type k ∈ [BlsSignerType; Ed25519SignerType; DleqSignerType];
}.

Lemma Pair_roundtrip {SK PK Scalar Element} GetPublicKey sk_Serialize sk_Deserialize pk_Serialize
    pk_Deserialize bls_Signer ed_Signer sc_Marshal sc_Unmarshal el_Marshal el_Unmarshal zk_Signer
    (p : Pair SK PK Scalar Element) :
  let lib := pair_lib GetPublicKey sk_Serialize sk_Deserialize pk_Serialize pk_Deserialize
    bls_Signer ed_Signer sc_Marshal sc_Unmarshal el_Marshal el_Unmarshal zk_Signer in
  Pair_ok GetPublicKey sk_Serialize sk_Deserialize pk_Serialize pk_Deserialize sc_Marshal
    sc_Unmarshal el_Marshal el_Unmarshal p ->
  exists sk pk, pair_SerializePrivate (PairLib := lib) p = Ok sk /\
    pair_SerializePublic (PairLib := lib) p = Ok pk /\
    pair_WithKeys (PairLib := lib) (pair_type (PairLib := lib) p) sk pk = Ok p.
Proof.
  cbn zeta. destruct p as [kp|kp|kp]; cbn.
  - intros (sk & Hsk & Hpk & N1 & N2 & D1 & D2). destruct kp as [s q]. cbn in *. subst.
    eexists _, _. do 2 (split; [done|]).
    unfold Pair_WithKeys, NewBLSSignerWithKeys, BLS_DeserializePrivate. cbn.
    destruct (Z.eqb_spec (Zlen (sk_Serialize sk)) 0) as [E|_]; [by apply Zlen_0 in E|].
    rewrite D1. cbn. unfold BLS_DeserializePublic.
    destruct (Z.eqb_spec (Zlen (pk_Serialize (GetPublicKey sk))) 0) as [E|_]; [by apply Zlen_0 in E|].
    by rewrite D2.
  - intros (sk & Hlen & Hsk & Hpk). destruct kp as [s q]. cbn in *. subst.
    eexists _, _. do 2 (split; [done|]). unfold Pair_WithKeys. cbn.
    unfold NewEd25519SignerWithKeys, Ed25519_DeserializePrivate. rewrite Hlen. cbn.
    assert (Zlen (drop 32 sk) = PublicKeySize) as Hd.
    { unfold Zlen, PrivateKeySize, PublicKeySize in *. rewrite length_drop. lia. }
    assert (slice sk 32 PrivateKeySize = Ok (drop 32 sk)) as ->.
    { rewrite <- (app_nil_r sk) at 1. rewrite <- (take_drop 32 sk) at 1. rewrite <- app_assoc.
      apply slice_Ok; unfold Zlen, PrivateKeySize, PublicKeySize in *;
        rewrite ?length_take, ?length_drop; lia. }
    cbn. unfold Ed25519_DeserializePublic. by rewrite Hd.
  - intros (k & a & b & dk & da & db & Hk & Ha & Hb & HG & HD & Mk & Ma & Mb & Uk & Ua & Ub & Hlen).
    destruct kp as [k' a' b' g dst]. cbn in *. subst.
    destruct (ZKProof_public_roundtrip el_Marshal el_Unmarshal
      {| zk_PrivateKey := Some k; zk_PublicKeyA := Some a; zk_PublicKeyB := Some b; zk_G := true;
         zk_DST := str "zkproof_domain_sep_string" |}
      {| zk_PrivateKey := Some k; zk_PublicKeyA := None; zk_PublicKeyB := None; zk_G := true;
         zk_DST := str "zkproof_domain_sep_string" |} a b da db) as (d & Hs & Hd); try done.
    exists dk, d. split; [done|]. split; [done|].
    change (ZKProofPair (SK := SK) (PK := PK) <$> NewZKProofSignerWithKeys sc_Unmarshal el_Unmarshal dk d = Ok (ZKProofPair
      {| zk_PrivateKey := Some k; zk_PublicKeyA := Some a; zk_PublicKeyB := Some b; zk_G := true;
         zk_DST := str "zkproof_domain_sep_string" |})).
    unfold NewZKProofSignerWithKeys, ZKProof_DeserializePrivate. cbn [negb zk_G]. rewrite Uk.
    cbn [wrap]. rewrite !bind_Ok. cbn [zk_PublicKeyA zk_PublicKeyB zk_G zk_DST].
    by rewrite Hd.
Qed.

(** The pairs of the three signers keep that promise. *)
#[export] Program Instance pair_laws {SK PK Scalar Element} GetPublicKey sk_Serialize sk_Deserialize
    pk_Serialize pk_Deserialize bls_Signer ed_Signer sc_Marshal sc_Unmarshal el_Marshal el_Unmarshal
    zk_Signer :
  PairLaws (Pair SK PK Scalar Element) (H := pair_lib GetPublicKey sk_Serialize sk_Deserialize
    pk_Serialize pk_Deserialize bls_Signer ed_Signer sc_Marshal sc_Unmarshal el_Marshal el_Unmarshal
    zk_Signer) :=
  {| pair_ok := Pair_ok GetPublicKey sk_Serialize sk_Deserialize pk_Serialize pk_Deserialize
       sc_Marshal sc_Unmarshal el_Marshal el_Unmarshal |}.
Next Obligation. intros. by apply Pair_roundtrip. Qed.
Next Obligation. intros. destruct k; cbn; set_solver. Qed.

(** * The accounts and their files *)
Section Accounts.
Context {K : Type} `{PairLib K}.

(** [Account] of [account.go], with the key pairs of its signers; the store
    computes the address from the serialized Ed25519 key. *)
Record StoredAccount := {
  sa_ID : bytes;
  sa_Address : Address;
  sa_PeerID : PeerID;
  sa_Name : string;
  sa_PeerPrivateKey : bytes;
  sa_PeerPublicKey : bytes;
  sa_Signers : gmap SignerType K;
  sa_Comment : string;
}.
Definition to_Account (a : StoredAccount) : Account :=
  {| acc_ID := sa_ID a; acc_Address := sa_Address a; acc_PeerID := sa_PeerID a;
     acc_Name := sa_Name a; acc_PeerPrivateKey := sa_PeerPrivateKey a;
     acc_PeerPublicKey := sa_PeerPublicKey a; acc_Signers := pair_Signer <$> sa_Signers a;
     acc_Comment := sa_Comment a |}.

(** ** config/identity.go *)
Record SignerKey := { SigningPrivateKey : bytes; SigningPublicKey : bytes }.
Record Key := {
  key_Name : string;
  key_Address : Address;
  key_PeerID : PeerID;
  key_PeerPrivateKey : bytes;
  key_PeerPublicKey : bytes;
  key_Signers : gmap SignerType SignerKey;
  key_Comment : string;
}.

(** ** helpers.go *)
Definition computeAddressFromPublicKey (publicKeyBytes : bytes) : res Address :=
  let hash := Sum256 publicKeyBytes in
  if Zlen hash <? AddressSize then Err (ErrMsg "hash too short to derive address")
  else
    addressBytes ← slice hash (Zlen hash - AddressSize) (Zlen hash);
    FromBytes addressBytes.

(** ** The environment *)
(** [os] on the base directory and [filepath.Glob], YAML, and libp2p. *)
Class Env (FS : Type) := {
  fs_MkdirAll : FS -> FS * res unit;
  fs_Glob : FS -> res (list bytes);
  fs_ReadFile : FS -> bytes -> res bytes;
  fs_WriteFile : FS -> bytes -> bytes -> FS * res unit;
  fs_Remove : FS -> bytes -> FS * res unit;
  yaml_Marshal : Key -> res bytes;
  yaml_Unmarshal : bytes -> res Key;
  peer_String : PeerID -> bytes;
  peer_Decode : bytes -> res PeerID;
  IDFromPublicKey : bytes -> res PeerID;
  MarshalPrivateKey : bytes -> res bytes;
  UnmarshalPrivateKey : bytes -> res bytes;
  MarshalPublicKey : bytes -> res bytes;
  UnmarshalPublicKey : bytes -> res bytes;
}.
Definition ErrNotExist : error := ErrMsg "file does not exist".
Context {FS : Type} `{Env FS}.

Definition file_name (id : bytes) : bytes := id ++ str ".yaml".

Record Store := {
  st_keys : gmap PeerID StoredAccount;
  st_addresses : gmap Address StoredAccount;
  st_fs : FS;
}.
Definition put_account (s : Store) (a : StoredAccount) : Store :=
  {| st_keys := <[sa_PeerID a := a]> (st_keys s);
     st_addresses := <[sa_Address a := a]> (st_addresses s); st_fs := st_fs s |}.
Definition with_fs (s : Store) (fs : FS) : Store :=
  {| st_keys := st_keys s; st_addresses := st_addresses s; st_fs := fs |}.

Definition NewStoredAccount (peerID : PeerID) (peerSk peerPk : bytes) (signers : gmap SignerType K)
    (name comment : string) : StoredAccount :=
  {| sa_ID := peer_String peerID; sa_Address := ZeroAddress; sa_PeerID := peerID; sa_Name := name;
     sa_PeerPrivateKey := peerSk; sa_PeerPublicKey := peerPk; sa_Signers := signers;
     sa_Comment := comment |}.
Definition set_address (a : StoredAccount) (addr : Address) : StoredAccount :=
  {| sa_ID := sa_ID a; sa_Address := addr; sa_PeerID := sa_PeerID a; sa_Name := sa_Name a;
     sa_PeerPrivateKey := sa_PeerPrivateKey a; sa_PeerPublicKey := sa_PeerPublicKey a;
     sa_Signers := sa_Signers a; sa_Comment := sa_Comment a |}.

(** ** Load *)
(** One turn of the loop over the signers of a file: the signers so far and
    the address. *)
Definition load_signer (key : Key) (acc : gmap SignerType K * Address) (signerType : SignerType) :
    res (gmap SignerType K * Address) :=
  match key_Signers key !! signerType with
  | None => Ok acc
  | Some signerKey =>
      privateKeyBytes ← wrap "failed to decode signing private key for signer type %s from file %s"
        (hex_decode (SigningPrivateKey signerKey));
      publicKeyBytes ← wrap "failed to decode signing public key for signer type %s from file %s"
        (hex_decode (SigningPublicKey signerKey));
      if decide (signerType ∈ [BlsSignerType; Ed25519SignerType; DleqSignerType]) then
        signer ← wrap (if decide (signerType = Ed25519SignerType)
                       then "failed to initialize Ed25519 signer from file %s"
                       else "failed to initialize %s signer from file %s")
          (pair_WithKeys signerType privateKeyBytes publicKeyBytes);
        address ← (if decide (signerType = Ed25519SignerType)
                   then wrap "failed to compute address from public key in file %s"
                          (computeAddressFromPublicKey publicKeyBytes)
                   else Ok acc.2);
        Ok (<[signerType := signer]> acc.1, address)
      else Err (ErrMsg "unsupported signer type: %s")
  end.

(** [sord] is the order in which the signers of a file are visited. *)
Definition load_key (sord : list SignerType -> list SignerType) (key : Key) : res StoredAccount :=
  peerID ← wrap "failed to decode peer ID from file %s" (peer_Decode (peer_String (key_PeerID key)));
  privKeyBytes ← wrap "failed to decode private key from file %s" (hex_decode (key_PeerPrivateKey key));
  privKey ← wrap "failed to unmarshal private key from file %s" (UnmarshalPrivateKey privKeyBytes);
  pubKeyBytes ← wrap "failed to decode public key from file %s" (hex_decode (key_PeerPublicKey key));
  pubKey ← wrap "failed to unmarshal public key from file %s" (UnmarshalPublicKey pubKeyBytes);
  '(signers, address) ← fold_res (load_signer key) (∅, ZeroAddress)
    (sord (elements (dom (key_Signers key))));
  Ok (set_address (NewStoredAccount peerID privKey pubKey signers (key_Name key) (key_Comment key))
        address).

Definition load_file (sord : list SignerType -> list SignerType) (s : Store) (file : bytes) :
    res Store :=
  data ← wrap "failed to read file %s" (fs_ReadFile (st_fs s) file);
  key ← wrap "failed to unmarshal identity from file %s" (yaml_Unmarshal data);
  account ← load_key sord key;
  Ok (put_account s account).

(** The accounts read before a failing file stay in the maps. *)
Fixpoint load_files (sord : list SignerType -> list SignerType) (files : list bytes) : io Store unit :=
  match files with
  | [] => mret tt
  | file :: files => fun s =>
      match load_file sord s file with
      | Ok s => load_files sord files s
      | Err e => (s, Err e)
      | Panic => (s, Panic)
      end
  end.
Definition Load (sord : list SignerType -> list SignerType) : io Store unit :=
  files ← io_wrap "failed to list identity files" (io_read (fun s => fs_Glob (st_fs s)));
  load_files sord files.

Definition NewStore (sord : list SignerType -> list SignerType) (fs : FS) : res Store :=
  match Load sord {| st_keys := ∅; st_addresses := ∅; st_fs := fs |} with
  | (s, Ok _) => Ok s
  | (_, Err e) => Err (ErrWrap "failure to load preconfigured identity keys" e)
  | (_, Panic) => Panic
  end.

(** ** Save *)
Definition save_signer (acc : gmap SignerType SignerKey * Address) (s : SignerType * K) :
    res (gmap SignerType SignerKey * Address) :=
  privateKeyBytes ← wrap "failed to serialize private key for signer type %s"
    (pair_SerializePrivate s.2);
  publicKeyBytes ← wrap "failed to serialize public key for signer type %s"
    (pair_SerializePublic s.2);
  address ← (if decide (pair_type s.2 = Ed25519SignerType)
             then wrap "failed to compute address from public key"
                    (computeAddressFromPublicKey publicKeyBytes)
             else Ok acc.2);
  Ok (<[s.1 := {| SigningPrivateKey := hex_encode privateKeyBytes;
                  SigningPublicKey := hex_encode publicKeyBytes |}]> acc.1, address).

(** The order of this loop changes neither the map nor, with one Ed25519
    signer, the address: it is that of the keys of [gmap]. *)
Definition to_key (a : StoredAccount) : res Key :=
  privKeyBytes ← wrap "failed to marshal private key" (MarshalPrivateKey (sa_PeerPrivateKey a));
  pubKeyBytes ← wrap "failed to marshal public key" (MarshalPublicKey (sa_PeerPublicKey a));
  '(signers, address) ← fold_res save_signer (∅, ZeroAddress) (map_to_list (sa_Signers a));
  Ok {| key_Name := sa_Name a; key_Address := address; key_PeerID := sa_PeerID a;
        key_PeerPrivateKey := hex_encode privKeyBytes; key_PeerPublicKey := hex_encode pubKeyBytes;
        key_Signers := signers; key_Comment := sa_Comment a |}.

(** The account comes back with the address computed on the way. *)
Definition Save (a : StoredAccount) : io Store StoredAccount :=
  _ ← io_wrap "failed to create directory"
    (fun s => let '(fs, r) := fs_MkdirAll (st_fs s) in (with_fs s fs, r));
  toWrite ← io_lift (to_key a);
  data ← io_wrap "failed to marshal Account to YAML" (io_lift (yaml_Marshal toWrite));
  _ ← io_wrap "failed to write Account file"
    (fun s => let '(fs, r) := fs_WriteFile (st_fs s) (file_name (sa_ID a)) data in (with_fs s fs, r));
  mret (set_address a (key_Address toWrite)).

(** ** Create *)
(** What the random sources give: the RSA pair and the three signers. *)
Record Fresh := {
  gen_RSA : res (bytes * bytes);
  gen_BLS : res K;
  gen_Ed25519 : res K;
  gen_DLEQ : res K;
}.

Definition new_account (fresh : Fresh) (name comment : string) : res StoredAccount :=
  '(peerPrivKey, peerPubKey) ← wrap "failed to generate RSA keys for peer ID" (gen_RSA fresh);
  peerID ← wrap "failed to derive peer ID" (IDFromPublicKey peerPubKey);
  blsSigner ← wrap "failed to create BLS signer" (gen_BLS fresh);
  ed25519Signer ← wrap "failed to create Ed25519 signer" (gen_Ed25519 fresh);
  dleqSigner ← wrap "failed to create DLEQ signer" (gen_DLEQ fresh);
  let account := NewStoredAccount peerID peerPrivKey peerPubKey
    (<[DleqSignerType := dleqSigner]> (<[Ed25519SignerType := ed25519Signer]>
      {[BlsSignerType := blsSigner]})) name comment in
  publicKeyBytes ← wrap "failed to serialize Ed25519 public key" (pair_SerializePublic ed25519Signer);
  address ← wrap "failed to compute address from public key"
    (computeAddressFromPublicKey publicKeyBytes);
  Ok (set_address account address).

(** The end of [Create]: both maps get the account. *)
Definition remember (account : StoredAccount) : io Store StoredAccount := fun s =>
  (put_account s account, Ok account).
Definition create_new (fresh : Fresh) (name comment : string) (persist : bool) :
    io Store StoredAccount :=
  account ← io_lift (new_account fresh name comment);
  account ← (if persist then io_wrap "failed to store Account" (Save account) else mret account);
  remember account.

Definition Create (ord : list PeerID) (fresh : Fresh) (name comment : string) (persist : bool) :
    io Store StoredAccount := fun s =>
  match head (base.filter (fun a => sa_Name a = name) (omap (fun k => st_keys s !! k) ord)) with
  | Some account => (s, Ok account)
  | None => create_new fresh name comment persist s
  end.

(** ** Looking up and deleting *)
Definition GetByPeerID (s : Store) (peerID : PeerID) : res StoredAccount :=
  match st_keys s !! peerID with
  | Some account => Ok account
  | None => Err (ErrMsg "account not found for peer ID: %s")
  end.
Definition GetByAddress (s : Store) (addr : Address) : res StoredAccount :=
  match st_addresses s !! addr with
  | Some account => Ok account
  | None => Err (ErrMsg "account not found for address: %s")
  end.
Definition List (s : Store) (ord : list PeerID) : res (list StoredAccount) :=
  Ok (omap (fun k => st_keys s !! k) ord).

Definition Delete (peerID : PeerID) : io Store unit := fun s =>
  match st_keys s !! peerID with
  | None => (s, Err (ErrMsg "Account not found for peer ID: %s"))
  | Some _ =>
      let '(fs, r) := fs_Remove (st_fs s) (file_name (peer_String peerID)) in
      let s := {| st_keys := delete peerID (st_keys s); st_addresses := st_addresses s;
                  st_fs := fs |} in
      match r with
      | Err e => if errors_is e ErrNotExist then (s, Ok tt)
                 else (s, Err (ErrWrap "failed to delete Account file" e))
      | r => (s, r)
      end
  end.

(** * manager.go: the same operations, their errors wrapped *)
Definition NewManager (sord : list SignerType -> list SignerType) (fs : FS) : res Store :=
  wrap "failed to initialize store for manager" (NewStore sord fs).
Definition Manager_Create (ord : list PeerID) (fresh : Fresh) (name comment : string)
    (persist : bool) : io Store StoredAccount :=
  io_wrap "failed to create new DID" (Create ord fresh name comment persist).
Definition Manager_Load (sord : list SignerType -> list SignerType) : io Store unit :=
  io_wrap "failed to load DIDs in manager" (Load sord).
Definition Manager_GetByPeerID (s : Store) (peerID : PeerID) : res StoredAccount :=
  wrap "failed to get DID for peer ID %s" (GetByPeerID s peerID).
Definition Manager_GetByAddress (s : Store) (addr : Address) : res StoredAccount :=
  wrap "failed to get DID for peer ID %s" (GetByAddress s addr).
Definition Manager_Delete (peerID : PeerID) : io Store unit :=
  io_wrap "failed to delete DID for peer ID %s" (Delete peerID).
Definition Manager_List (s : Store) (ord : list PeerID) : res (list StoredAccount) :=
  wrap "failed to list DIDs in manager" (List s ord).

(** * What is assumed of the environment *)
(** The files of the directory; a call that succeeds did what its
    documentation says. *)
Class EnvLaws := {
  fs_contents : FS -> gmap bytes bytes;
  fs_MkdirAll_law fs : fs_contents (fs_MkdirAll fs).1 = fs_contents fs;
  fs_Glob_law fs : exists files, fs_Glob fs = Ok files /\ NoDup files /\
    forall f, f ∈ files <-> is_Some (fs_contents fs !! f) /\ exists p, f = file_name p;
  fs_ReadFile_law fs f d : fs_contents fs !! f = Some d -> fs_ReadFile fs f = Ok d;
  fs_WriteFile_law fs f d fs' : fs_WriteFile fs f d = (fs', Ok tt) ->
    fs_contents fs' = <[f := d]> (fs_contents fs);
  fs_Remove_law fs f fs' : fs_Remove fs f = (fs', Ok tt) ->
    fs_contents fs' = delete f (fs_contents fs);
  fs_Remove_missing fs f fs' e : fs_Remove fs f = (fs', Err e) -> errors_is e ErrNotExist = true ->
    fs_contents fs !! f = None /\ fs_contents fs' = fs_contents fs;
  yaml_law k d : yaml_Marshal k = Ok d -> yaml_Unmarshal d = Ok k;
  peer_law pk p : IDFromPublicKey pk = Ok p -> peer_Decode (peer_String p) = Ok p;
  private_law k d : MarshalPrivateKey k = Ok d -> UnmarshalPrivateKey d = Ok k;
  public_law k d : MarshalPublicKey k = Ok d -> UnmarshalPublicKey d = Ok k;
}.
Context `{!EnvLaws, !PairLaws K}.

Lemma computeAddress_Ok pk : exists addr, computeAddressFromPublicKey pk = Ok addr.
Proof.
  unfold computeAddressFromPublicKey.
  assert (Zlen (Sum256 pk) = 32) as Hl by (unfold Zlen; by rewrite length_Sum256).
  rewrite Hl. change (32 <? AddressSize) with false. cbn iota.
  assert (slice (Sum256 pk) (32 - AddressSize) 32 = Ok (drop 12 (Sum256 pk))) as ->.
  { rewrite <- (take_drop 12 (Sum256 pk)) at 1. rewrite <- (app_nil_r (drop 12 _)) at 1.
    apply slice_Ok; unfold Zlen; rewrite ?length_take, ?length_drop, length_Sum256; done. }
  rewrite bind_Ok. unfold FromBytes, Zlen. rewrite length_drop, length_Sum256. cbn. by eexists.
Qed.

(** The signers of an account: each under its type, and well formed. *)
Definition signers_ok (m : gmap SignerType K) : Prop :=
  forall t k, m !! t = Some k -> pair_type k = t /\ pair_ok k.

Definition encoded (t : SignerType) (k : K) (key : SignerKey) (addr : Address) : Prop :=
  exists a b, pair_WithKeys t a b = Ok k /\
    key = {| SigningPrivateKey := hex_encode a; SigningPublicKey := hex_encode b |} /\
    (t = Ed25519SignerType -> computeAddressFromPublicKey b = Ok addr).

Lemma save_fold l acc :
  NoDup l.*1 -> Forall (fun s => pair_type s.2 = s.1 /\ pair_ok s.2) l ->
  exists acc', fold_res save_signer acc l = Ok acc' /\
    (forall t, t ∉ l.*1 -> acc'.1 !! t = acc.1 !! t) /\
    (forall t k, (t, k) ∈ l -> exists key, acc'.1 !! t = Some key /\ encoded t k key acc'.2) /\
    (Ed25519SignerType ∉ l.*1 -> acc'.2 = acc.2).
Proof.
  revert acc. induction l as [|[t k] l IH]; intros acc Hnd Hall.
  { exists acc. split_and!; [done..| |done]. intros t k ?%not_elem_of_nil. done. }
  apply NoDup_cons in Hnd as [Hnin Hnd]. apply Forall_cons in Hall as [[Ht Hk] Hall]. cbn in Ht, Hk.
  destruct (pair_roundtrip k Hk) as (a & b & Ha & Hb & Hw). rewrite Ht in Hw.
  destruct (computeAddress_Ok b) as [addr Haddr].
  set (acc1 := (<[t := {| SigningPrivateKey := hex_encode a; SigningPublicKey := hex_encode b |}]> acc.1,
    if decide (t = Ed25519SignerType) then addr else acc.2)).
  assert (save_signer acc (t, k) = Ok acc1) as Hs.
  { unfold save_signer. cbn [fst snd]. rewrite Ha, Hb, Ht. cbn [wrap]. rewrite !bind_Ok.
    unfold acc1. destruct (decide (t = Ed25519SignerType)); [rewrite Haddr|]; done. }
  destruct (IH acc1 Hnd Hall) as (acc' & Hf & H1' & H2' & H3').
  exists acc'. split; [cbn; by rewrite Hs|]. split; [|split].
  - intros t' Hin. cbn in Hin. apply not_elem_of_cons in Hin as [? ?]. rewrite H1' by done.
    cbn. by rewrite lookup_insert_ne.
  - intros t' k' [[= -> ->]|Hin]%elem_of_cons; [|by apply H2'].
    eexists. split; [rewrite H1' by done; cbn; by rewrite lookup_insert_eq|].
    exists a, b. split; [done|]. split; [done|]. intros ->. rewrite H3' by done.
    cbn. by rewrite decide_True.
  - cbn. intros [Hne ?]%not_elem_of_cons. rewrite H3' by done. cbn. by rewrite decide_False.
Qed.

Lemma load_fold key (m : gmap SignerType K) addr types acc :
  NoDup types ->
  (forall t, t ∈ types -> exists k sk, m !! t = Some k /\ pair_type k = t /\
     key_Signers key !! t = Some sk /\ encoded t k sk addr) ->
  exists acc', fold_res (load_signer key) acc types = Ok acc' /\
    (forall t, acc'.1 !! t = if decide (t ∈ types) then m !! t else acc.1 !! t) /\
    acc'.2 = if decide (Ed25519SignerType ∈ types) then addr else acc.2.
Proof.
  revert acc. induction types as [|t types IH]; intros acc Hnd Hall.
  { exists acc. split; [done|]. split; [intros t|]; by rewrite decide_False by apply not_elem_of_nil. }
  apply NoDup_cons in Hnd as [Hnin Hnd].
  destruct (Hall t ltac:(left)) as (k & sk & Hm & Ht & Hk & a & b & Hw & -> & Haddr).
  set (acc1 := (<[t := k]> acc.1, if decide (t = Ed25519SignerType) then addr else acc.2)).
  assert (load_signer key acc t = Ok acc1) as Hl.
  { unfold load_signer. rewrite Hk. cbn [SigningPrivateKey SigningPublicKey].
    rewrite !hex_decode_encode. cbn [wrap]. rewrite !bind_Ok.
    rewrite decide_True by (rewrite <- Ht; apply pair_supported). rewrite Hw. cbn [wrap].
    rewrite bind_Ok. unfold acc1. destruct (decide (t = Ed25519SignerType)); [|done].
    by rewrite Haddr. }
  destruct (IH acc1 Hnd) as (acc' & Hf & H1' & H2'); [intros; apply Hall; by right|].
  exists acc'. split; [cbn; by rewrite Hl|]. split.
  - intros t'. rewrite H1'. cbn. destruct (decide (t' ∈ types)) as [Hin|Hin].
    + rewrite decide_True; [done|by right].
    + destruct (decide (t' = t)) as [->|Hne].
      * rewrite decide_True by left. by rewrite lookup_insert_eq.
      * rewrite decide_False by (by rewrite not_elem_of_cons). by rewrite lookup_insert_ne.
  - rewrite H2'. cbn. destruct (decide (Ed25519SignerType ∈ types)) as [Hin|Hin].
    + rewrite decide_True; [done|by right].
    + destruct (decide (t = Ed25519SignerType)) as [->|Hne].
      * by rewrite decide_True by left.
      * rewrite decide_False; [done|]. rewrite not_elem_of_cons. by split; [apply not_eq_sym|].
Qed.

(** An account as the constructors of this package make it. *)
Definition account_ok (a : StoredAccount) : Prop :=
  sa_ID a = peer_String (sa_PeerID a) /\
  peer_Decode (peer_String (sa_PeerID a)) = Ok (sa_PeerID a) /\
  signers_ok (sa_Signers a).

Lemma to_key_load a key sord :
  (forall l, sord l ≡ₚ l) -> account_ok a -> to_key a = Ok key ->
  load_key sord key = Ok (set_address a (key_Address key)).
Proof.
  intros Hsord (Hid & Hdec & Hok) Hk. unfold to_key in Hk.
  apply bind_Ok_inv in Hk as (priv & Hpriv & Hk). apply bind_Ok_inv in Hk as (pub & Hpub & Hk).
  apply wrap_Ok_inv in Hpriv, Hpub.
  destruct (save_fold (map_to_list (sa_Signers a)) (∅, ZeroAddress)) as ([ks addr] & Hf & H1' & H2' & H3').
  { apply NoDup_fst_map_to_list. }
  { apply Forall_forall. intros [t k] Hin%elem_of_map_to_list. by apply Hok. }
  rewrite Hf in Hk. cbn in Hk. injection Hk as <-. cbn [fst snd] in *.
  assert (forall t, is_Some (ks !! t) <-> is_Some (sa_Signers a !! t)) as Hdom.
  { intros t. destruct (sa_Signers a !! t) as [k|] eqn:E.
    - apply elem_of_map_to_list in E. by destruct (H2' t k E) as (sk & -> & _).
    - rewrite H1'; [by rewrite lookup_empty|]. intros ([t' k] & -> & Hin)%list_elem_of_fmap.
      apply elem_of_map_to_list in Hin. cbn in E. congruence. }
  unfold load_key. cbn [key_PeerID key_PeerPrivateKey key_PeerPublicKey key_Signers key_Name key_Comment
    key_Address].
  rewrite Hdec, !hex_decode_encode. cbn [wrap]. rewrite !bind_Ok.
  rewrite (private_law _ _ Hpriv). cbn [wrap]. rewrite !bind_Ok.
  rewrite (public_law _ _ Hpub). cbn [wrap]. rewrite !bind_Ok.
  set (types := sord (elements (dom ks))).
  assert (forall t, t ∈ types <-> is_Some (sa_Signers a !! t)) as Htypes.
  { intros t. unfold types. rewrite Hsord, elem_of_elements, elem_of_dom. apply Hdom. }
  destruct (load_fold {| key_Name := sa_Name a; key_Address := addr; key_PeerID := sa_PeerID a;
    key_PeerPrivateKey := hex_encode priv; key_PeerPublicKey := hex_encode pub; key_Signers := ks;
    key_Comment := sa_Comment a |} (sa_Signers a) addr types (∅, ZeroAddress)) as ([m addr'] & Hl & Hm & Ha).
  { unfold types. rewrite Hsord. apply NoDup_elements. }
  { intros t Ht. apply Htypes in Ht as [k Hk]. destruct (Hok t k Hk) as [Hty _].
    destruct (H2' t k) as (sk & Hsk & He); [by apply elem_of_map_to_list|]. eauto 6. }
  rewrite Hl. cbn. f_equal. cbn in Hm, Ha.
  assert (m = sa_Signers a) as ->.
  { apply map_eq. intros t. rewrite Hm. destruct (decide (t ∈ types)) as [|Hn]; [done|].
    rewrite lookup_empty. destruct (sa_Signers a !! t) eqn:E; [|done]. destruct Hn. by apply Htypes. }
  assert (addr' = addr) as ->.
  { rewrite Ha. destruct (decide (Ed25519SignerType ∈ types)) as [|Hn]; [done|].
    symmetry. apply H3'. intros ([t k] & Ht & Hin)%list_elem_of_fmap. apply Hn, Htypes. cbn in Ht. subst.
    apply elem_of_map_to_list in Hin. by eexists. }
  unfold set_address, NewStoredAccount. cbn. by rewrite Hid.
Qed.

(** The directory holds the accounts in memory and no others: the file of an
    account reads back as that account. *)
Definition stored (fs : FS) (p : PeerID) (a : StoredAccount) : Prop :=
  sa_PeerID a = p /\ account_ok a /\
  exists d key, fs_contents fs !! file_name (peer_String p) = Some d /\ yaml_Unmarshal d = Ok key /\
    forall sord, (forall l, sord l ≡ₚ l) -> load_key sord key = Ok a.
Definition on_disk (s : Store) : Prop :=
  (forall p a, st_keys s !! p = Some a -> stored (st_fs s) p a) /\
  (forall f, is_Some (fs_contents (st_fs s) !! f) -> (exists x, f = file_name x) ->
     exists p a, st_keys s !! p = Some a /\ f = file_name (peer_String p)).

Lemma file_name_inj a b : file_name a = file_name b -> a = b.
Proof. apply app_inv_tail. Qed.

Lemma stored_file fs p q a b :
  stored fs p a -> stored fs q b -> file_name (peer_String p) = file_name (peer_String q) -> p = q.
Proof.
  intros (<- & (_ & D1 & _) & _) (<- & (_ & D2 & _) & _) He%file_name_inj.
  rewrite He in D1. congruence.
Qed.

Lemma load_files_spec (sord : list SignerType -> list SignerType) (keys : gmap PeerID StoredAccount) files s :
  (forall l, sord l ≡ₚ l) ->
  (forall p a, keys !! p = Some a -> stored (st_fs s) p a) ->
  (forall f, f ∈ files -> exists p a, keys !! p = Some a /\ f = file_name (peer_String p)) ->
  exists s', load_files sord files s = (s', Ok tt) /\ st_fs s' = st_fs s /\
    (forall p a, keys !! p = Some a -> file_name (peer_String p) ∈ files -> st_keys s' !! p = Some a) /\
    (forall p, st_keys s' !! p = st_keys s !! p \/ st_keys s' !! p = keys !! p) /\
    (forall x a, st_addresses s' !! x = Some a ->
       st_addresses s !! x = Some a \/ sa_Address a = x /\ keys !! sa_PeerID a = Some a) /\
    (forall x, is_Some (st_addresses s !! x) -> is_Some (st_addresses s' !! x)) /\
    (forall p a, keys !! p = Some a -> file_name (peer_String p) ∈ files ->
       is_Some (st_addresses s' !! sa_Address a)).
Proof.
  intros Hsord. revert s. induction files as [|f files IH]; intros s Hst Hin.
  { exists s. split; [done|]. split; [done|]. split; [by intros p a _ ?%not_elem_of_nil|].
    do 3 (split; [eauto|]). by intros p a _ ?%not_elem_of_nil. }
  destruct (Hin f ltac:(left)) as (p & a & Hp & ->).
  destruct (Hst p a Hp) as (Hpa & Hok & d & key & Hd & Hy & Hl).
  assert (load_file sord s (file_name (peer_String p)) = Ok (put_account s a)) as Hf.
  { unfold load_file. rewrite (fs_ReadFile_law _ _ _ Hd). cbn [wrap]. rewrite bind_Ok, Hy.
    cbn [wrap]. by rewrite bind_Ok, Hl. }
  destruct (IH (put_account s a)) as (s' & Hs' & Hfs & H1' & H2' & H3' & H4' & H5'); [done| |].
  { intros. apply Hin. by right. }
  assert (forall x, is_Some (st_addresses s !! x) -> is_Some (st_addresses (put_account s a) !! x)) as Hmono.
  { intros x. cbn. destruct (decide (sa_Address a = x)) as [->|]; [by rewrite lookup_insert_eq|].
    by rewrite lookup_insert_ne. }
  exists s'. split; [cbn [load_files]; by rewrite Hf|]. split; [done|]. split_and!.
  - intros q b Hq [He|Hr]%elem_of_cons; [|eauto].
    assert (q = p) as -> by eauto using stored_file.
    destruct (H2' p) as [->| ->]; [|done]. cbn. rewrite Hpa, lookup_insert_eq. congruence.
  - intros q. destruct (H2' q) as [->|]; [|by right]. cbn. rewrite Hpa.
    destruct (decide (p = q)) as [->|]; [right; by rewrite lookup_insert_eq, Hp|].
    left. by rewrite lookup_insert_ne.
  - intros x b Hx. destruct (H3' x b Hx) as [Hl'|]; [|by right]. cbn in Hl'.
    apply lookup_insert_Some in Hl' as [[<- <-]|[_ ?]]; [|by left]. right. by rewrite Hpa.
  - auto.
  - intros q b Hq [He|Hr]%elem_of_cons; [|eauto].
    assert (q = p) as -> by eauto using stored_file. apply H4'. cbn.
    replace b with a by congruence. by rewrite lookup_insert_eq.
Qed.

(** Whatever is on the disk is what a new store over that directory has. *)
Lemma NewStore_on_disk (sord : list SignerType -> list SignerType) s :
  (forall l, sord l ≡ₚ l) -> on_disk s ->
  exists s', NewStore sord (st_fs s) = Ok s' /\ st_keys s' = st_keys s /\ st_fs s' = st_fs s /\
    on_disk s' /\
    (forall x a, st_addresses s' !! x = Some a ->
       sa_Address a = x /\ st_keys s' !! sa_PeerID a = Some a) /\
    (forall p a, st_keys s' !! p = Some a -> is_Some (st_addresses s' !! sa_Address a)).
Proof.
  intros Hsord [Hst Hfiles]. destruct (fs_Glob_law (st_fs s)) as (files & Hg & Hnd & Hin).
  destruct (load_files_spec sord (st_keys s) files {| st_keys := ∅; st_addresses := ∅; st_fs := st_fs s |})
    as (s' & Hl & Hfs & H1' & H2' & H3' & _ & H5'); [done|done| |].
  { intros f [Hf Hx]%Hin. by apply Hfiles. }
  assert (forall p a, st_keys s !! p = Some a -> file_name (peer_String p) ∈ files) as Hlisted.
  { intros p a E. apply Hin. split; [|by eexists].
    by destruct (Hst p a E) as (_ & _ & d & key & -> & _). }
  assert (st_keys s' = st_keys s) as Hk.
  { apply map_eq. intros p. destruct (st_keys s !! p) as [a|] eqn:E.
    - apply H1'; [done|]. by eapply Hlisted.
    - destruct (H2' p) as [->| ->]; [apply lookup_empty|done]. }
  exists s'. split_and!; [|done..| | |].
  - unfold NewStore, Load. cbv [mbind io_bind io_wrap io_read]. cbn [st_fs]. rewrite Hg.
    cbn [wrap]. by rewrite Hl.
  - unfold on_disk. by rewrite Hk, Hfs.
  - intros x a Hx. rewrite Hk. destruct (H3' x a Hx) as [He|]; [|done].
    cbn in He. by rewrite lookup_empty in He.
  - intros p a. rewrite Hk. eauto.
Qed.

(** ** The operations keep the directory in step *)
Lemma stored_weaken fs fs' p a :
  fs_contents fs' !! file_name (peer_String p) = fs_contents fs !! file_name (peer_String p) ->
  stored fs p a -> stored fs' p a.
Proof. intros He (Hp & Hok & d & key & Hd & Hr). do 2 (split; [done|]). exists d, key. by rewrite He. Qed.

Lemma Save_stored a s s' a' :
  account_ok a -> Save a s = (s', Ok a') ->
  st_keys s' = st_keys s /\ st_addresses s' = st_addresses s /\
  sa_PeerID a' = sa_PeerID a /\ sa_Name a' = sa_Name a /\ stored (st_fs s') (sa_PeerID a) a' /\
  exists d, fs_contents (st_fs s') = <[file_name (peer_String (sa_PeerID a)) := d]> (fs_contents (st_fs s)).
Proof.
  intros Hok Hs. unfold Save in Hs.
  apply io_bind_inv in Hs as (s1 & [] & Hm & Hs). apply io_wrap_inv in Hm.
  pose proof (fs_MkdirAll_law (st_fs s)) as Hmk.
  destruct (fs_MkdirAll (st_fs s)) as [fs1 r1]. injection Hm as <- _. cbn in Hmk.
  apply io_bind_inv in Hs as (s2 & key & Hk & Hs). injection Hk as <- Hk.
  apply io_bind_inv in Hs as (s3 & d & Hd & Hs). apply io_wrap_inv in Hd. injection Hd as <- Hd.
  apply io_bind_inv in Hs as (s4 & [] & Hw & Hs). apply io_wrap_inv in Hw.
  cbn [st_fs with_fs] in Hw.
  destruct (fs_WriteFile fs1 (file_name (sa_ID a)) d) as [fs2 r2] eqn:Ew. injection Hw as <- ->.
  apply fs_WriteFile_law in Ew. injection Hs as <- <-.
  destruct Hok as (Hid & Hdec & Hsig). rewrite Hid, Hmk in Ew. cbn [st_keys st_addresses st_fs with_fs].
  do 4 (split; [done|]). split; [|by exists d].
  split; [done|]. split; [done|]. exists d, key. rewrite Ew, lookup_insert_eq.
  split; [done|]. split; [by apply yaml_law|]. intros. by apply to_key_load.
Qed.

(** What the random sources promise: signers of the right kinds. *)
Definition fresh_ok (fresh : Fresh) : Prop :=
  forall t r k, (t, r) ∈ [(BlsSignerType, gen_BLS fresh); (Ed25519SignerType, gen_Ed25519 fresh);
    (DleqSignerType, gen_DLEQ fresh)] -> r = Ok k -> pair_type k = t /\ pair_ok k.

Lemma new_account_ok fresh name comment a :
  fresh_ok fresh -> new_account fresh name comment = Ok a -> account_ok a /\ sa_Name a = name.
Proof.
  intros Hf Ha. unfold new_account in Ha. res_inv. case_match. res_inv.
  match goal with H : IDFromPublicKey _ = Ok _ |- _ => apply peer_law in H end.
  split; [|done]. split; [done|]. split; [done|]. intros t k Hin. cbn in Hin.
  apply lookup_insert_Some in Hin as [[<- <-]|[_ Hin]]; [eapply Hf; [|done]; right; right; left|].
  apply lookup_insert_Some in Hin as [[<- <-]|[_ Hin]]; [eapply Hf; [|done]; right; left|].
  apply lookup_singleton_Some in Hin as [<- <-]. eapply Hf; [|done]. left.
Qed.

Lemma put_on_disk s s1 a :
  on_disk s -> st_keys s1 = st_keys s -> stored (st_fs s1) (sa_PeerID a) a ->
  (exists d, fs_contents (st_fs s1) = <[file_name (peer_String (sa_PeerID a)) := d]> (fs_contents (st_fs s))) ->
  on_disk (put_account s1 a).
Proof.
  intros [Hst Hfiles] Hk Ha [d Hd]. split; cbn [st_keys st_fs put_account]; rewrite Hk.
  - intros p b [[<- <-]|[Hne Hp]]%lookup_insert_Some; [done|].
    specialize (Hst p b Hp). apply (stored_weaken (st_fs s)); [|done].
    rewrite Hd, lookup_insert_ne; [done|]. intros He. apply Hne.
    destruct Ha as (_ & (_ & D1 & _) & _), Hst as (<- & (_ & D2 & _) & _).
    apply file_name_inj in He. rewrite He in D1. congruence.
  - intros f Hf Hx. rewrite Hd in Hf.
    destruct (decide (f = file_name (peer_String (sa_PeerID a)))) as [->|Hne].
    + exists (sa_PeerID a), a. split; [apply lookup_insert_eq|done].
    + rewrite lookup_insert_ne in Hf by done. destruct (Hfiles f Hf Hx) as (p & b & Hp & ->).
      exists p, b. split; [|done]. rewrite lookup_insert_ne; [done|]. by intros <-.
Qed.

Lemma Delete_on_disk p s s' :
  on_disk s -> Delete p s = (s', Ok tt) ->
  st_keys s' = delete p (st_keys s) /\ st_addresses s' = st_addresses s /\ on_disk s'.
Proof.
  intros [Hst Hfiles] Hd. unfold Delete in Hd. destruct (st_keys s !! p) as [a|] eqn:Ep; [|done].
  destruct (fs_Remove (st_fs s) (file_name (peer_String p))) as [fs r] eqn:Er.
  assert (s' = {| st_keys := delete p (st_keys s); st_addresses := st_addresses s; st_fs := fs |} /\
    fs_contents fs = delete (file_name (peer_String p)) (fs_contents (st_fs s))) as [-> Hc].
  { destruct r as [[]|e|]; [|destruct (errors_is e ErrNotExist) eqn:Ee; [|done]|done];
      injection Hd as <-; (split; [done|]).
    - by apply fs_Remove_law in Er.
    - destruct (fs_Remove_missing _ _ _ _ Er Ee) as [Hn ->]. by rewrite delete_id. }
  split; [done|]. split; [done|]. split; cbn [st_keys st_fs].
  - intros q b [Hne Hq]%lookup_delete_Some. apply (stored_weaken (st_fs s)); [|by apply Hst].
    rewrite Hc, lookup_delete_ne; [done|]. intros He. apply Hne.
    by eapply stored_file; [by apply Hst|by apply Hst|].
  - rewrite Hc. intros f [d [Hne Hf]%lookup_delete_Some] Hx.
    destruct (Hfiles f) as (q & b & Hq & ->); [by eexists|done|].
    exists q, b. split; [|done]. rewrite lookup_delete_ne; [done|]. by intros <-.
Qed.

(** ** The stores a program can have *)
(** What happens to the accounts of one directory when every call succeeds and
    every account is persisted; [accounts_reopen] is a restart. *)
Inductive accounts_reachable (sord : list SignerType -> list SignerType) : Store -> Prop :=
| accounts_open fs s :
    fs_contents fs = ∅ -> NewStore sord fs = Ok s -> accounts_reachable sord s
| accounts_create s ord fresh name comment s' a :
    accounts_reachable sord s -> fresh_ok fresh -> (forall p, is_Some (st_keys s !! p) -> p ∈ ord) ->
    Create ord fresh name comment true s = (s', Ok a) -> accounts_reachable sord s'
| accounts_delete s p s' :
    accounts_reachable sord s -> Delete p s = (s', Ok tt) -> accounts_reachable sord s'
| accounts_reopen s s' :
    accounts_reachable sord s -> NewStore sord (st_fs s) = Ok s' -> accounts_reachable sord s'.

Definition names_unique (s : Store) : Prop :=
  forall p q a b, st_keys s !! p = Some a -> st_keys s !! q = Some b -> sa_Name a = sa_Name b -> p = q.

Lemma Create_cases ord fresh name comment persist s :
  (exists p a, st_keys s !! p = Some a /\ sa_Name a = name /\
     Create ord fresh name comment persist s = (s, Ok a)) \/
  (forall p a, p ∈ ord -> st_keys s !! p = Some a -> sa_Name a <> name) /\
     Create ord fresh name comment persist s = create_new fresh name comment persist s.
Proof.
  unfold Create. set (l := base.filter _ _).
  assert (forall a, a ∈ l <-> sa_Name a = name /\ exists p, p ∈ ord /\ st_keys s !! p = Some a) as Hl.
  { intros a. unfold l. rewrite list_elem_of_filter, list_elem_of_omap. naive_solver. }
  destruct l as [|a l].
  - right. split; [|done]. intros p a Hin Hp Hn.
    apply (not_elem_of_nil (A := StoredAccount) a). apply Hl. eauto.
  - left. destruct (proj1 (Hl a)) as (Hn & p & _ & Hp); [by left|]. by exists p, a.
Qed.

Lemma create_new_keeps fresh name comment s s' a :
  on_disk s -> fresh_ok fresh -> create_new fresh name comment true s = (s', Ok a) ->
  on_disk s' /\ sa_Name a = name /\ st_keys s' = <[sa_PeerID a := a]> (st_keys s) /\
  st_addresses s' = <[sa_Address a := a]> (st_addresses s).
Proof.
  intros Hd Hf Hc. unfold create_new in Hc.
  apply io_bind_inv in Hc as (s1 & a1 & H1' & Hc). injection H1' as <- Ha1.
  destruct (new_account_ok _ _ _ _ Hf Ha1) as [Hok Hn].
  apply io_bind_inv in Hc as (s2 & a2 & Hs%io_wrap_inv & Hc). injection Hc as <- <-.
  destruct (Save_stored _ _ _ _ Hok Hs) as (Hk & Hadd & Hp & Hn2 & Hst & Hc). rewrite <- Hp in *.
  split; [by apply put_on_disk with s|]. cbn. rewrite Hk, Hadd, Hn2. done.
Qed.

Lemma reachable_on_disk sord s :
  (forall l, sord l ≡ₚ l) -> accounts_reachable sord s -> on_disk s /\ names_unique s.
Proof.
  intros Hsord. induction 1 as [fs s Hfs Ho|s ord fresh name comment s' a _ [Hd Hn] Hf Hord Hc
    |s p s' _ [Hd Hn] Hdel|s s' _ [Hd Hn] Ho].
  - destruct (NewStore_on_disk sord {| st_keys := ∅; st_addresses := ∅; st_fs := fs |})
      as (s1 & Ho' & Hk & _ & Hd & _ & _); [done| |].
    { split; cbn; [intros p a; by rewrite lookup_empty|]. rewrite Hfs. intros f. rewrite lookup_empty.
      by intros [? ?]. }
    cbn in Ho'. rewrite Ho in Ho'. injection Ho' as <-. split; [done|].
    intros p q a b. cbn in Hk. by rewrite Hk, lookup_empty.
  - destruct (Create_cases ord fresh name comment true s) as [(p & b & Hp & _ & He)|[Hfree He]];
      rewrite He in Hc; [by injection Hc as <- _|].
    destruct (create_new_keeps _ _ _ _ _ _ Hd Hf Hc) as (Hd' & Hname & Hk & _). split; [done|].
    intros p q b c. rewrite Hk. intros [[<- <-]|[_ Hp]]%lookup_insert_Some
      [[<- <-]|[_ Hq]]%lookup_insert_Some Hs; [done|..].
    + destruct (Hfree q c); [by apply Hord; eexists|done|congruence].
    + destruct (Hfree p b); [by apply Hord; eexists|done|congruence].
    + eauto.
  - destruct (Delete_on_disk _ _ _ Hd Hdel) as (Hk & _ & Hd'). split; [done|].
    intros q r b c. rewrite Hk. intros [_ Hq]%lookup_delete_Some [_ Hr]%lookup_delete_Some. eauto.
  - destruct (NewStore_on_disk sord s Hsord Hd) as (s1 & Ho' & Hk & _ & Hd' & _).
    rewrite Ho in Ho'. injection Ho' as <-. split; [done|]. unfold names_unique. by rewrite Hk.
Qed.

(** C24: Accounts survive a restart. In every store reached from an empty
    directory by creating persisted accounts, deleting accounts and restarting,
    opening the directory again succeeds and gives exactly the same accounts,
    with their keys, signers and addresses; the new store finds an address
    exactly when one of those accounts has it, and no two accounts share a
    name. *)
Theorem accounts_survive_restart (sord : list SignerType -> list SignerType) s :
  (forall l, sord l ≡ₚ l) -> accounts_reachable sord s ->
  names_unique s /\
  exists s', NewStore sord (st_fs s) = Ok s' /\
    (forall p, GetByPeerID s' p = GetByPeerID s p) /\
    (forall x a, GetByAddress s' x = Ok a -> sa_Address a = x /\ GetByPeerID s (sa_PeerID a) = Ok a) /\
    (forall p a, GetByPeerID s p = Ok a -> exists b, GetByAddress s' (sa_Address a) = Ok b).
Proof.
  intros Hsord Hr. destruct (reachable_on_disk sord s Hsord Hr) as [Hd Hn]. split; [done|].
  destruct (NewStore_on_disk sord s Hsord Hd) as (s' & Ho & Hk & _ & _ & Ha & Hc).
  exists s'. split; [done|]. split; [intros p; unfold GetByPeerID; by rewrite Hk|].
  unfold GetByAddress, GetByPeerID. rewrite Hk in Ha, Hc. split.
  - intros x a. destruct (st_addresses s' !! x) as [b|] eqn:E; [|done].
    intros [= <-]. destruct (Ha x b E) as [? Hb]. by rewrite Hb.
  - intros p a. destruct (st_keys s !! p) as [b|] eqn:E; [|done]. intros [= <-].
    destruct (Hc p b E) as [c ->]. by eexists.
Qed.

(** [Delete] takes an account out of the map by peer and out of the
    directory but leaves it in the map by address: the deleted account is
    unknown by its peer and still found by its address.  When the file cannot be
    removed the account is gone from the map by peer although the call fails. *)
Theorem deleted_account_by_address s p a s' r :
  st_keys s !! p = Some a -> Delete p s = (s', r) ->
  GetByPeerID s' p = Err (ErrMsg "account not found for peer ID: %s") /\
  (forall x, GetByAddress s' x = GetByAddress s x).
Proof.
  intros Hp Hd. unfold Delete in Hd. rewrite Hp in Hd. destruct (fs_Remove _ _) as [fs r'].
  assert (st_keys s' = delete p (st_keys s) /\ st_addresses s' = st_addresses s) as [Hk Ha].
  { destruct r' as [|e|]; [|destruct (errors_is e ErrNotExist)|]; by injection Hd as <- _. }
  unfold GetByPeerID, GetByAddress. by rewrite Hk, Ha, lookup_delete_eq.
Qed.
End Accounts.

(** * An example: a file system in memory *)
#[export] Instance SignerKey_eq_dec : EqDecision SignerKey.
Proof. solve_decision. Defined.
#[export] Program Instance SignerKey_countable : Countable SignerKey :=
  inj_countable (fun k => (SigningPrivateKey k, SigningPublicKey k))
    (fun p => Some {| SigningPrivateKey := p.1; SigningPublicKey := p.2 |}) _.
Next Obligation. by intros []. Qed.
#[export] Instance Key_eq_dec : EqDecision Key.
Proof. solve_decision. Defined.
#[export] Program Instance Key_countable : Countable Key :=
  inj_countable (fun k => (key_Name k, key_Address k, key_PeerID k, key_PeerPrivateKey k,
      key_PeerPublicKey k, key_Signers k, key_Comment k))
    (fun '(n, a, p, sk, pk, m, c) => Some {| key_Name := n; key_Address := a; key_PeerID := p;
      key_PeerPrivateKey := sk; key_PeerPublicKey := pk; key_Signers := m; key_Comment := c |}) _.
Next Obligation. by intros []. Qed.

Module MemoryFS.
(** A format for the files: the bits of the [Countable] encoding. *)
Fixpoint pos_bits (p : positive) : bytes :=
  match p with xH => [] | xO p => Byte.x00 :: pos_bits p | xI p => Byte.x01 :: pos_bits p end.
Fixpoint bits_pos (l : bytes) : positive :=
  match l with [] => xH | b :: l => if decide (b = Byte.x00) then xO (bits_pos l) else xI (bits_pos l) end.
Lemma bits_pos_bits p : bits_pos (pos_bits p) = p.
Proof. induction p as [p IH|p IH|]; cbn; [by rewrite IH..|done]. Qed.

Definition is_yaml (f : bytes) : bool := bool_decide (f = file_name (take (length f - 5) f)).
Lemma is_yaml_spec f : is_yaml f = true <-> exists p, f = file_name p.
Proof.
  unfold is_yaml. rewrite bool_decide_eq_true. split; [eauto|]. intros [p ->].
  unfold file_name. rewrite length_app. cbn [length str]. rewrite Nat.add_sub.
  by rewrite take_app_length.
Qed.

#[export] Instance env : Env (gmap bytes bytes) := {|
  fs_MkdirAll fs := (fs, Ok tt);
  fs_Glob fs := Ok (base.filter is_yaml (map_to_list fs).*1);
  fs_ReadFile fs f := match fs !! f with Some d => Ok d | None => Err ErrNotExist end;
  fs_WriteFile fs f d := (<[f := d]> fs, Ok tt);
  fs_Remove fs f := match fs !! f with Some _ => (delete f fs, Ok tt) | None => (fs, Err ErrNotExist) end;
  yaml_Marshal k := Ok (pos_bits (encode k));
  yaml_Unmarshal d := match decode (bits_pos d) with Some k => Ok k | None => Err (ErrMsg "yaml") end;
  peer_String p := hex_encode p;
  peer_Decode := hex_decode;
  IDFromPublicKey pk := Ok (Sum256 pk);
  MarshalPrivateKey := Ok;
  UnmarshalPrivateKey := Ok;
  MarshalPublicKey := Ok;
  UnmarshalPublicKey := Ok |}.

#[export] Program Instance env_laws : EnvLaws (FS := gmap bytes bytes) := {| fs_contents fs := fs |}.
Next Obligation. done. Qed.
Next Obligation.
  intros fs. eexists. split; [reflexivity|]. split; [apply NoDup_filter, NoDup_fst_map_to_list|].
  intros f. rewrite list_elem_of_filter, <- is_yaml_spec.
  rewrite (is_order_elem fs _ f) by apply is_order_exists. rewrite Is_true_true. tauto.
Qed.
Next Obligation. intros fs f d E. cbn. by rewrite E. Qed.
Next Obligation. by intros fs f d fs' [= <-]. Qed.
Next Obligation. intros fs f fs'. cbn. destruct (fs !! f); [by intros [= <-]|done]. Qed.
Next Obligation.
  intros fs f fs' e. cbn. destruct (fs !! f) eqn:E; [done|]. by intros [= <- _].
Qed.
Next Obligation. intros k d [= <-]. cbn. by rewrite bits_pos_bits, decode_encode. Qed.
Next Obligation. intros pk p _. apply hex_decode_encode. Qed.
Next Obligation. by intros k d [= <-]. Qed.
Next Obligation. by intros k d [= <-]. Qed.

(** A toy library of keys: each is its own serialization. *)
Definition toy_signer (t : SignerType) : Signer :=
  {| Signer_Sign := Ok; Signer_Type := t; Signer_Verify d sig := Ok (bool_decide (d = sig)) |}.
Definition toy_Element (b : bytes) : res bytes := if bool_decide (b = []) then Err (ErrMsg "empty") else Ok b.
#[export] Instance toy_pairs : PairLib (Pair bytes bytes bytes bytes) :=
  pair_lib id id Ok id Ok (fun _ => toy_signer BlsSignerType) (fun _ => toy_signer Ed25519SignerType)
    Ok Ok toy_Element toy_Element (fun _ => toy_signer DleqSignerType).

Definition toy_fresh (n : Z) : Fresh :=
  let key := repeat (byte_of_Z n) 64 in
  {| gen_RSA := Ok (key, key);
     gen_BLS := Ok (BLSPair {| bls_PrivateKey := Some key; bls_PublicKey := Some key |});
     gen_Ed25519 := Ok (Ed25519Pair {| ed_PrivateKey := Some key; ed_PublicKey := Some (drop 32 key) |});
     gen_DLEQ := Ok (ZKProofPair {| zk_PrivateKey := Some key; zk_PublicKeyA := Some key;
       zk_PublicKeyB := Some key; zk_G := true; zk_DST := str "zkproof_domain_sep_string" |}) |}.

Lemma toy_fresh_ok n : fresh_ok (toy_fresh n).
Proof.
  intros t r k Hin [= Hr]. cbn in Hin.
  apply elem_of_cons in Hin as [[= -> ->]|[[= -> ->]|[[= -> ->]|?%not_elem_of_nil]%elem_of_cons]%elem_of_cons];
    [..|done]; injection Hr as <-; (split; [done|]); cbn.
  - by eexists.
  - exists (repeat (byte_of_Z n) 64). by split_and!.
  - do 6 eexists. split_and!; try reflexivity; by vm_compute.
Qed.
End MemoryFS.
Import MemoryFS.

Definition ToyStore : Type := Store (K := Pair bytes bytes bytes bytes) (FS := gmap bytes bytes).
Definition empty_store : ToyStore := {| st_keys := ∅; st_addresses := ∅; st_fs := ∅ |}.
(** Two accounts are created. *)
Definition create_example (n : Z) (name : string) (s : ToyStore) : ToyStore * res StoredAccount :=
  Create (map_to_list (st_keys s)).*1 (toy_fresh n) name EmptyString true s.
Definition two_accounts := (create_example 2 "bob" (create_example 1 "alice" empty_store).1).1.

Lemma create_example_reachable n name s :
  accounts_reachable id s -> is_ok (create_example n name s).2 = true ->
  accounts_reachable id (create_example n name s).1.
Proof.
  unfold create_example. intros Hr Hok. destruct (Create _ _ _ _ _ _) as [s' [a| |]] eqn:E; [|done..].
  eapply accounts_create; [done|apply toy_fresh_ok| |exact E].
  intros p Hp. by apply (is_order_elem (st_keys s) _ p (is_order_exists _)).
Qed.

Lemma two_accounts_reachable : accounts_reachable id two_accounts.
Proof.
  apply create_example_reachable; [apply create_example_reachable|].
  - by eapply (accounts_open id ∅).
  - by vm_compute.
  - by vm_compute.
Qed.

Lemma accounts_survive_restart_witness :
  names_unique two_accounts /\ size (st_keys two_accounts) = 2%nat /\
  exists s', NewStore id (st_fs two_accounts) = Ok s' /\
    (forall p, GetByPeerID s' p = GetByPeerID two_accounts p) /\
    (forall x a, GetByAddress s' x = Ok a ->
       sa_Address a = x /\ GetByPeerID two_accounts (sa_PeerID a) = Ok a) /\
    (forall p a, GetByPeerID two_accounts p = Ok a -> exists b, GetByAddress s' (sa_Address a) = Ok b).
Proof.
  destruct (accounts_survive_restart id two_accounts) as [Hn Hs];
    [done|apply two_accounts_reachable|]. split; [exact Hn|]. split; [by vm_compute|exact Hs].
Defined.

(** Alice's account, deleted. *)
Definition alice : option (PeerID * StoredAccount) :=
  head (base.filter (fun e => sa_Name e.2 = "alice"%string) (map_to_list (st_keys two_accounts))).

Lemma deleted_account_by_address_witness : exists p a,
  alice = Some (p, a) /\ (Delete p two_accounts).2 = Ok tt /\
  GetByPeerID (Delete p two_accounts).1 p = Err (ErrMsg "account not found for peer ID: %s") /\
  is_ok (GetByAddress (Delete p two_accounts).1 (sa_Address a)) = true.
Proof.
  destruct alice as [[p a]|] eqn:Ea; [|by vm_compute in Ea].
  assert (st_keys two_accounts !! p = Some a) as Hp.
  { apply head_Some_elem_of in Ea. apply list_elem_of_filter in Ea as [_ Hin].
    by apply elem_of_map_to_list in Hin. }
  destruct (deleted_account_by_address two_accounts p a _ _ Hp (surjective_pairing _)) as [H1 H2].
  exists p, a. split; [done|]. rewrite H2. split; [|split; [exact H1|]].
  - assert (default (Err ErrNotExist) ((fun e => (Delete e.1 two_accounts).2) <$> alice) = Ok tt) as Hd
      by by vm_compute.
    by rewrite Ea in Hd.
  - assert (default false ((fun e => is_ok (GetByAddress two_accounts (sa_Address e.2))) <$> alice) = true)
      as Hd by by vm_compute.
    by rewrite Ea in Hd.
Defined.
