(* ===== verification/KeyGen.v ===== *)
(** Key generation of [pkg/signatures] ([GenerateKey], the constructors without
    keys, [InitBLS]) and the accounts it makes.

    The random sources are arguments: the scalar, the secret key or the pair
    the library draws.  The BLS library has a state: it must be initialised
    before any other of its functions is called; a process keeps the
    [sync.Once] of [InitBLS] and a log of the calls of the library. *)
From S2P Require Import Prelude Bytes Hashes Types Signatures Validators Accounts.

(** * The BLS library in a process *)
Inductive bls_call := CallInit | CallUse.
#[export] Instance bls_call_eq_dec : EqDecision bls_call.
Proof. solve_decision. Defined.
Record Process := {
  (** [blsInitOnce], with [blsInitErr] once it is done. *)
  bls_once : option (option error);
  bls_calls : list bls_call;
}.
Definition new_process : Process := {| bls_once := None; bls_calls := [] |}.
Definition log_call (c : bls_call) (p : Process) : Process :=
  {| bls_once := bls_once p; bls_calls := bls_calls p ++ [c] |}.
Definition use_library : io Process unit := fun p => (log_call CallUse p, Ok tt).

(** What [bls.Init] returns in this process. *)
Definition InitBLS (bls_Init : option error) : io Process unit := fun p =>
  let p := match bls_once p with
           | None => log_call CallInit {| bls_once := Some bls_Init; bls_calls := bls_calls p |}
           | Some _ => p
           end in
  (p, match bls_once p with Some (Some e) => Err e | _ => Ok tt end).

Section Generate.
Context {SK PK Scalar Element : Type} (bls_Init : option error)
  (GetPublicKey : SK -> PK)
  (sk_Deserialize : bytes -> res SK) (pk_Deserialize : bytes -> res PK)
  (Generator : Element) (Mul : Element -> Scalar -> Element).

(** * bls.go *)
Definition BLS_GenerateKey (SetByCSPRNG : SK) : io Process (BLSKeyPair SK PK) :=
  _ ← io_wrap "failed to initialize BLS library" (InitBLS bls_Init);
  _ ← use_library;
  mret {| bls_PrivateKey := Some SetByCSPRNG; bls_PublicKey := Some (GetPublicKey SetByCSPRNG) |}.
Definition NewBLSSigner (SetByCSPRNG : SK) : io Process (BLSKeyPair SK PK) :=
  BLS_GenerateKey SetByCSPRNG.

(** [NewBLSSignerWithKeys] in a process: it does not call [InitBLS]. *)
Definition load_BLS (privateKeyData publicKeyData : bytes) : io Process (BLSKeyPair SK PK) :=
  _ ← (if Zlen privateKeyData =? 0 then mret tt else use_library);
  io_lift (NewBLSSignerWithKeys GetPublicKey sk_Deserialize pk_Deserialize
    privateKeyData publicKeyData).

(** * ed25519.go *)
Definition Ed25519_GenerateKey (drawn : res (bytes * bytes)) : res Ed25519KeyPair :=
  '(publicKey, privateKey) ← wrap "failed to generate Ed25519 key pair" drawn;
  Ok {| ed_PrivateKey := Some privateKey; ed_PublicKey := Some publicKey |}.
Definition NewEd25519Signer (drawn : res (bytes * bytes)) : res Ed25519KeyPair :=
  Ed25519_GenerateKey drawn.

(** * dleq.go *)
(** Both base points are the generator. *)
Definition ZKProof_GenerateKey (RandomScalar : Scalar) : res (ZKProofKeyPair Scalar Element) :=
  Ok {| zk_PrivateKey := Some RandomScalar;
        zk_PublicKeyA := Some (Mul Generator RandomScalar);
        zk_PublicKeyB := Some (Mul Generator RandomScalar);
        zk_G := true; zk_DST := str "zkproof_domain_sep_string" |}.
Definition NewZKProofSigner (RandomScalar : Scalar) : res (ZKProofKeyPair Scalar Element) :=
  ZKProof_GenerateKey RandomScalar.

(** * The signers of a new account *)
Record Draws := {
  draw_RSA : res (bytes * bytes);
  draw_BLS : SK;
  draw_Ed25519 : res (bytes * bytes);
  draw_Scalar : Scalar;
}.

Section Account.
Context {FS : Type} `{Env FS}.
Local Abbreviation Pair := (Pair SK PK Scalar Element).

(** The signers of a new account are drawn once it has a peer ID; without one
    they are not looked at. *)
Definition draw (d : Draws) (p : Process) : Process * Fresh (K := Pair) :=
  let '(p, bls) := if is_ok ('(_, peerPubKey) ← draw_RSA d; IDFromPublicKey peerPubKey)
                   then NewBLSSigner (draw_BLS d) p else (p, Panic) in
  (p, {| gen_RSA := draw_RSA d; gen_BLS := BLSPair <$> bls;
         gen_Ed25519 := Ed25519Pair <$> NewEd25519Signer (draw_Ed25519 d);
         gen_DLEQ := ZKProofPair <$> NewZKProofSigner (draw_Scalar d) |}).
End Account.

(** * The calls of a process *)
Inductive bls_op :=
| OpGenerate (SetByCSPRNG : SK)
| OpLoad (privateKeyData publicKeyData : bytes).
Definition bls_do (p : Process) (op : bls_op) : Process :=
  match op with
  | OpGenerate sk => (NewBLSSigner sk p).1
  | OpLoad sk pk => (load_BLS sk pk p).1
  end.
Definition bls_run (ops : list bls_op) : Process := fold_left bls_do ops new_process.
Definition generates (op : bls_op) : bool := match op with OpGenerate _ => true | _ => false end.
Definition inits (p : Process) : nat :=
  length (filter (fun c => c = CallInit) (bls_calls p)).

(** The once and the log agree. *)
Definition once_ok (generated : bool) (p : Process) : Prop :=
  bls_once p = (if generated then Some bls_Init else None) /\
  inits p = (if generated then 1 else 0)%nat.

Lemma inits_log c p : inits (log_call c p) = (inits p + if decide (c = CallInit) then 1 else 0)%nat.
Proof.
  unfold inits, log_call. cbn. rewrite filter_app, length_app. f_equal.
  rewrite filter_cons. by case_decide.
Qed.

Lemma once_ok_do g p op : once_ok g p -> once_ok (g || generates op) (bls_do p op).
Proof.
  intros [Ho Hi]. unfold once_ok. destruct op as [sk|sk pk]; cbn [bls_do generates].
  - rewrite orb_true_r. unfold NewBLSSigner, BLS_GenerateKey, InitBLS, use_library.
    cbv [mbind io_bind io_wrap mret io_ret]. rewrite Ho.
    destruct g; destruct bls_Init; cbn -[inits wrap]; rewrite ?Ho; (split; [done|]);
      cbn [wrap fst]; rewrite ?inits_log; unfold inits in *; cbn [bls_calls]; by rewrite Hi.
  - rewrite orb_false_r. unfold load_BLS, use_library. cbv [mbind io_bind io_lift mret io_ret].
    destruct (Zlen sk =? 0); cbn -[inits]; [by split|]. split; [done|]. by rewrite inits_log, Nat.add_0_r.
Qed.

Lemma once_ok_run ops : once_ok (existsb generates ops) (bls_run ops).
Proof.
  unfold bls_run. change (existsb generates ops) with (false || existsb generates ops).
  assert (once_ok false new_process) as Hp by by split.
  revert Hp. generalize new_process as p. generalize false as g.
  induction ops as [|op ops IH]; intros g p Hp; cbn [existsb fold_left].
  - by rewrite orb_false_r.
  - rewrite orb_assoc. by apply IH, once_ok_do.
Qed.

Lemma use_kept p op : CallUse ∈ bls_calls p -> CallUse ∈ bls_calls (bls_do p op).
Proof.
  intros Hp. assert (forall c, CallUse ∈ bls_calls p ++ [c]) as Hl
    by (intros c; apply elem_of_app; by left).
  destruct op as [sk|sk pk]; cbn [bls_do].
  - unfold NewBLSSigner, BLS_GenerateKey, InitBLS, use_library.
    cbv [mbind io_bind io_wrap mret io_ret]. destruct (bls_once p) as [[e|]|] eqn:Ho; rewrite ?Ho; cbn;
      [done|done|]. destruct bls_Init; cbn; [done|]. apply elem_of_app. by left.
  - unfold load_BLS, use_library. cbv [mbind io_bind io_lift mret io_ret].
    by destruct (_ =? 0); cbn.
Qed.

(** The BLS library is initialised when the first key is generated and not
    before: [InitBLS] calls it exactly once if the process generates a key at
    all, and keeps its outcome for good, an error too.  A process that only
    loads keys, as after a restart, never initialises the library it uses. *)
Theorem bls_init_spec (ops : list bls_op) :
  inits (bls_run ops) = (if existsb generates ops then 1 else 0)%nat /\
  (forall sk, (NewBLSSigner sk (bls_run ops)).2 =
     match bls_Init with
     | None => Ok {| bls_PrivateKey := Some sk; bls_PublicKey := Some (GetPublicKey sk) |}
     | Some e => Err (ErrWrap "failed to initialize BLS library" e)
     end) /\
  (forall sk pk, OpLoad sk pk ∈ ops -> sk <> [] -> CallUse ∈ bls_calls (bls_run ops)).
Proof.
  destruct (once_ok_run ops) as [Ho Hi]. split; [done|]. split.
  - intros sk. unfold NewBLSSigner, BLS_GenerateKey, InitBLS, use_library.
    cbv [mbind io_bind io_wrap mret io_ret]. rewrite Ho.
    destruct (existsb _ _); [rewrite Ho|]; by destruct bls_Init.
  - intros sk pk Hin Hne. apply list_elem_of_split in Hin as (l1 & l2 & ->).
    unfold bls_run. rewrite fold_left_app. cbn [fold_left bls_do].
    assert (forall p, CallUse ∈ bls_calls (load_BLS sk pk p).1) as Hu.
    { intros p. unfold load_BLS, use_library. cbv [mbind io_bind io_lift mret io_ret].
      destruct (Z.eqb_spec (Zlen sk) 0) as [E|_]; [by apply Zlen_0 in E|]. cbn.
      apply elem_of_app. right. by left. }
    specialize (Hu (fold_left bls_do l1 new_process)). revert Hu.
    generalize (load_BLS sk pk (fold_left bls_do l1 new_process)).1 as p.
    clear Ho Hi. induction l2 as [|op l2 IH]; intros p Hp; [done|]. by apply IH, use_kept.
Qed.
End Generate.

(** * Generated accounts *)
Section Generated.
Context {SK PK Sign Scalar Element : Type} (bls_Init : option error)
  (GetPublicKey : SK -> PK)
  (sk_Serialize : SK -> bytes) (sk_Deserialize : bytes -> res SK)
  (pk_Serialize : PK -> bytes) (pk_Deserialize : bytes -> res PK)
  (SignHash : SK -> bytes -> Sign)
  (sig_Serialize : Sign -> bytes) (sig_Deserialize : bytes -> res Sign)
  (VerifyHash : Sign -> PK -> bytes -> bool)
  (ed25519_Sign : bytes -> bytes -> res bytes)
  (ed25519_Verify : bytes -> bytes -> bytes -> bool)
  (sc_Marshal : Scalar -> res bytes) (sc_Unmarshal : bytes -> res Scalar)
  (el_Marshal : Element -> res bytes) (el_Unmarshal : bytes -> res Element)
  (Generator : Element) (Mul : Element -> Scalar -> Element)
  (zk_Signer : ZKProofKeyPair Scalar Element -> Signer).

(** The libraries of the signers, as the accounts use them. *)
#[local] Instance signers_lib : PairLib (Pair SK PK Scalar Element) :=
  pair_lib GetPublicKey sk_Serialize sk_Deserialize pk_Serialize pk_Deserialize
    (BLSSigner SignHash sig_Serialize sig_Deserialize VerifyHash)
    (Ed25519Signer ed25519_Sign ed25519_Verify)
    sc_Marshal sc_Unmarshal el_Marshal el_Unmarshal zk_Signer.
#[local] Instance signers_laws : PairLaws (Pair SK PK Scalar Element) := pair_laws _ _ _ _ _ _ _ _ _ _ _ _.

(** What the libraries document: keys survive their serialization; RFC 8032:
    the second half of a private key is the public key; [MarshalBinary] of an
    element of P-256 is uncompressed, 65 bytes, or one for the identity. *)
Record keys_lawful : Prop := {
  kl_sk : forall sk, sk_Serialize sk <> [] /\ sk_Deserialize (sk_Serialize sk) = Ok sk;
  kl_pk : forall pk, pk_Serialize pk <> [] /\ pk_Deserialize (pk_Serialize pk) = Ok pk;
  kl_scalar : forall k, exists d, sc_Marshal k = Ok d /\ sc_Unmarshal d = Ok k;
  kl_element : forall e, exists d, el_Marshal e = Ok d /\ el_Unmarshal d = Ok e /\ Zlen d ∈ [1; 65];
}.
Definition ed25519_drawn (drawn : res (bytes * bytes)) : Prop :=
  forall pk sk, drawn = Ok (pk, sk) -> Zlen sk = PrivateKeySize /\ pk = drop 32 sk.

Context {FS : Type} `{Env FS}.
Local Abbreviation drawn d p := (draw bls_Init GetPublicKey Generator Mul d p).2.

Lemma NewBLSSigner_inv (sk : SK) (p : Process) (kp : BLSKeyPair SK PK) :
  (NewBLSSigner bls_Init GetPublicKey sk p).2 = Ok kp ->
  kp = {| bls_PrivateKey := Some sk; bls_PublicKey := Some (GetPublicKey sk) |}.
Proof.
  intros Hk. destruct (NewBLSSigner _ _ sk p) as [p' r] eqn:E. cbn in Hk. subst r.
  unfold NewBLSSigner, BLS_GenerateKey in E.
  apply io_bind_inv in E as (? & ? & _ & E). apply io_bind_inv in E as (? & ? & _ & E).
  by injection E.
Qed.

Lemma draw_BLS_inv (d : Draws) p kp :
  gen_BLS (drawn d p) = Ok kp ->
  kp = BLSPair {| bls_PrivateKey := Some (draw_BLS d);
                  bls_PublicKey := Some (GetPublicKey (draw_BLS d)) |}.
Proof.
  unfold draw. destruct (is_ok _).
  - pose proof (NewBLSSigner_inv (draw_BLS d) p) as Hi.
    destruct (NewBLSSigner _ _ _ p) as [p' [kp'|e|]]; cbn; [|done..].
    intros [= <-]. by rewrite (Hi kp' eq_refl).
  - done.
Qed.

Lemma drawn_ok (d : Draws) p :
  keys_lawful -> ed25519_drawn (draw_Ed25519 d) -> fresh_ok (drawn d p).
Proof.
  intros [Hsk Hpk Hsc Hel] Hed t r k Hin Hr.
  rewrite !elem_of_cons, elem_of_nil in Hin. destruct Hin as [[= -> ->]|[[= -> ->]|[[= -> ->]|[]]]].
  - apply draw_BLS_inv in Hr as ->. split; [done|]. exists (draw_BLS d). cbn.
    by destruct (Hsk (draw_BLS d)), (Hpk (GetPublicKey (draw_BLS d))).
  - assert (exists pk sk, draw_Ed25519 d = Ok (pk, sk) /\
      k = Ed25519Pair {| ed_PrivateKey := Some sk; ed_PublicKey := Some pk |}) as (pk & sk & Hd & ->).
    { unfold draw in Hr. destruct (if is_ok _ then _ else _) as [p' bls]. cbn in Hr.
      destruct (draw_Ed25519 d) as [[pk sk]|e|]; cbn in Hr; [|done..]. injection Hr as <-.
      by exists pk, sk. }
    split; [done|]. destruct (Hed pk sk Hd) as [Hlen ->]. by exists sk.
  - assert (gen_DLEQ (drawn d p) = Ok (ZKProofPair
      {| zk_PrivateKey := Some (draw_Scalar d); zk_PublicKeyA := Some (Mul Generator (draw_Scalar d));
         zk_PublicKeyB := Some (Mul Generator (draw_Scalar d)); zk_G := true;
         zk_DST := str "zkproof_domain_sep_string" |})) as E.
    { unfold draw. by destruct (if is_ok _ then _ else _). }
    rewrite E in Hr. injection Hr as <-. split; [done|].
    destruct (Hsc (draw_Scalar d)) as (dk & ? & ?).
    destruct (Hel (Mul Generator (draw_Scalar d))) as (de & ? & ? & Hl).
    do 3 eexists. exists dk, de, de. cbn.
    rewrite !elem_of_cons, elem_of_nil in Hl. destruct Hl as [->|[->|[]]]; by split_and!.
Qed.

Lemma create_new_signers (fresh : Fresh) name comment s s' a :
  create_new fresh name comment true s = (s', Ok a) ->
  exists b e z, gen_BLS fresh = Ok b /\ gen_Ed25519 fresh = Ok e /\ gen_DLEQ fresh = Ok z /\
    sa_Signers a = <[DleqSignerType := z]> (<[Ed25519SignerType := e]> {[BlsSignerType := b]}).
Proof.
  unfold create_new. intros Hc. apply io_bind_inv in Hc as (s1 & a1 & H1 & Hc). injection H1 as <- Ha.
  apply io_bind_inv in Hc as (s2 & a2 & Hs%io_wrap_inv & Hc). injection Hc as <- <-.
  assert (sa_Signers a2 = sa_Signers a1) as ->.
  { unfold Save in Hs. do 4 (apply io_bind_inv in Hs as (? & ? & _ & Hs)). by injection Hs as _ <-. }
  unfold new_account in Ha. res_inv. case_match. res_inv.
  repeat match goal with H : wrap _ _ = Ok _ |- _ => apply wrap_Ok_inv in H end.
  by do 3 eexists.
Qed.

Lemma Ed25519_drawn_correct (sk : bytes) :
  ed25519_lawful ed25519_Sign ed25519_Verify -> Zlen sk = PrivateKeySize ->
  SignerCorrect (Ed25519Signer ed25519_Sign ed25519_Verify
    {| ed_PrivateKey := Some sk; ed_PublicKey := Some (drop 32 sk) |}).
Proof.
  intros Hlaw Hlen. destruct (Ed25519_signer_correct _ _ sk Hlaw Hlen) as ([pk' sk'] & _ & H1 & H2 & Hc).
  unfold Ed25519_SerializePrivate, Ed25519_SerializePublic in H1, H2. cbn in H1, H2.
  destruct pk', sk'; try done. injection H1 as ->. injection H2 as ->. done.
Qed.

Context `{!EnvLaws (FS := FS)}.

(** C31: an account made from scratch works, after a restart too.  In a reachable
    store, creating an account under a new name with the keys the libraries
    draw and saving it leaves a directory that opens again and has the account
    with the same keys; its BLS and its Ed25519 signer sign every message that
    is not empty and accept what they signed. *)
Theorem created_account_signs sord (s s' : Store) p (d : Draws) ord name comment a :
  keys_lawful -> ed25519_lawful ed25519_Sign ed25519_Verify ->
  bls_lawful GetPublicKey SignHash sig_Serialize sig_Deserialize VerifyHash ->
  ed25519_drawn (draw_Ed25519 d) ->
  (forall l, sord l ≡ₚ l) -> accounts_reachable sord s ->
  (forall q, is_Some (st_keys s !! q) -> q ∈ ord) ->
  (forall q b, st_keys s !! q = Some b -> sa_Name b <> name) ->
  Create ord (drawn d p) name comment true s = (s', Ok a) ->
  exists s'', NewStore sord (st_fs s') = Ok s'' /\ GetByPeerID s'' (sa_PeerID a) = Ok a /\
    forall t, t ∈ [BlsSignerType; Ed25519SignerType] -> exists signer,
      acc_Signers (to_Account a) !! t = Some signer /\ SignerCorrect signer.
Proof.
  intros Hkeys Hed Hbls Hdrawn Hsord Hr Hord Hnew Hc.
  pose proof (drawn_ok d p Hkeys Hdrawn) as Hfresh.
  pose proof (accounts_create sord s ord _ name comment s' a Hr Hfresh Hord Hc) as Hr'.
  destruct (reachable_on_disk sord s Hsord Hr) as [Hd _].
  destruct (reachable_on_disk sord s' Hsord Hr') as [Hd' _].
  destruct (NewStore_on_disk sord s' Hsord Hd') as (s'' & Ho & Hk & _).
  destruct (Create_cases ord (drawn d p) name comment true s) as [(q & b & Hq & Hn & _)|[_ He]];
    [by destruct (Hnew q b)|]. rewrite He in Hc.
  destruct (create_new_keeps _ _ _ _ _ _ Hd Hfresh Hc) as (_ & _ & Hks & _).
  exists s''. split; [done|]. split.
  { unfold GetByPeerID. by rewrite Hk, Hks, lookup_insert_eq. }
  destruct (create_new_signers _ _ _ _ _ _ Hc) as (kb & ke & kz & Hb & He' & _ & Hsig).
  intros t. rewrite !elem_of_cons, elem_of_nil. unfold to_Account. cbn [acc_Signers].
  rewrite lookup_fmap, Hsig. intros [->|[->|[]]].
  - apply draw_BLS_inv in Hb as ->. eexists.
    rewrite !lookup_insert_ne, lookup_singleton_eq by done. split; [reflexivity|].
    by apply BLS_signer_correct.
  - destruct (Hfresh Ed25519SignerType (Ok ke) ke) as [_ Hok]; [|done|].
    { rewrite <- He'. right. by left. }
    assert (exists kp, ke = Ed25519Pair kp) as [kp ->].
    { unfold draw in He'. destruct (if is_ok _ then _ else _) as [p' bls]. cbn in He'.
      destruct (NewEd25519Signer _); cbn in He'; [|done..]. injection He' as <-. by eexists. }
    destruct kp as [sk pk]. destruct Hok as (sk' & Hlen & E1 & E2). cbn in E1, E2. subst.
    eexists. rewrite lookup_insert_ne, lookup_insert_eq by done. split; [reflexivity|].
    by apply Ed25519_drawn_correct.
Qed.
End Generated.

(** * Concrete runs

    Toy libraries: keys and signatures are byte strings behind a zero byte, a
    signature is the hash, and the group has one element, the identity. *)
Section Example.
Import MemoryFS.
Definition tagged (b : bytes) : bytes := zeros 1 ++ b.
Definition untagged (b : bytes) : res bytes :=
  match b with _ :: b => Ok b | [] => Err (ErrMsg "empty") end.
Definition is_hash (sig _ h : bytes) : bool := bool_decide (sig = h).
Definition toy_ed_Sign (_ m : bytes) : res bytes := Ok (take 64 (m ++ zeros 64)).
Definition toy_ed_Verify (_ m sig : bytes) : bool := bool_decide (sig = take 64 (m ++ zeros 64)).
Definition unit_Marshal (_ : unit) : res bytes := Ok (zeros 1).
Definition unit_Unmarshal (_ : bytes) : res unit := Ok tt.
Definition toy_draws (key : bytes) : Draws (SK := bytes) (Scalar := bytes) :=
  {| draw_RSA := Ok (key, key); draw_BLS := key; draw_Ed25519 := Ok (zeros 32, zeros 64);
     draw_Scalar := key |}.
#[local] Instance toy_lib : PairLib (Pair bytes bytes bytes unit) :=
  signers_lib id tagged untagged tagged untagged (fun _ h => h) tagged untagged is_hash
    toy_ed_Sign toy_ed_Verify Ok Ok unit_Marshal unit_Unmarshal (fun _ => toy_signer "zk").

Definition drawn_carol : Fresh (K := Pair bytes bytes bytes unit) :=
  (draw (FS := gmap bytes bytes) None id tt (fun e _ => e) (toy_draws (str "carol's key")) new_process).2.
Definition no_accounts : Store (K := Pair bytes bytes bytes unit) (FS := gmap bytes bytes) :=
  {| st_keys := ∅; st_addresses := ∅; st_fs := ∅ |}.
Definition carol_created := Create [] drawn_carol "carol" EmptyString true no_accounts.

Lemma toy_keys_lawful : keys_lawful tagged untagged tagged untagged Ok Ok unit_Marshal unit_Unmarshal.
Proof. split; [done|done|intros k; by exists k|]. intros []. exists (zeros 1). split_and!; [done..|]. by left. Qed.
Lemma toy_bls_lawful : bls_lawful id (fun _ h => h) tagged untagged is_hash.
Proof.
  split; [|intros sk h; unfold is_hash; by apply bool_decide_eq_true].
  intros s. split; [discriminate|reflexivity].
Qed.
Lemma toy_ed_lawful : ed25519_lawful toy_ed_Sign toy_ed_Verify.
Proof.
  intros sk m _. eexists. split; [reflexivity|]. unfold toy_ed_Verify.
  rewrite bool_decide_eq_true. split; [|done].
  unfold Zlen, SignatureSize, zeros. rewrite length_take, length_app, length_replicate. lia.
Qed.

Lemma ed25519_drawn_pair pk sk :
  Zlen sk = PrivateKeySize -> pk = drop 32 sk -> ed25519_drawn (Ok (pk, sk)).
Proof. intros Hl Hp ? ? [= <- <-]. done. Qed.

Lemma created_account_signs_witness : exists s' a s'',
  carol_created = (s', Ok a) /\ NewStore id (st_fs s') = Ok s'' /\
  GetByPeerID s'' (sa_PeerID a) = Ok a /\
  exists signer, acc_Signers (to_Account a) !! BlsSignerType = Some signer /\ SignerCorrect signer.
Proof.
  assert (is_ok carol_created.2 = true) as Hok by by vm_compute.
  destruct carol_created as [s' [a|e|]] eqn:Ec; [|done..].
  destruct (created_account_signs None id tagged untagged tagged untagged (fun _ h => h) tagged
    untagged is_hash toy_ed_Sign toy_ed_Verify Ok Ok unit_Marshal unit_Unmarshal tt (fun e _ => e)
    (fun _ => toy_signer "zk") id no_accounts s' new_process (toy_draws (str "carol's key")) []
    "carol" EmptyString a) as (s'' & Ho & Hget & Hsig).
  - apply toy_keys_lawful.
  - apply toy_ed_lawful.
  - apply toy_bls_lawful.
  - apply ed25519_drawn_pair; vm_compute; reflexivity.
  - done.
  - by eapply (accounts_open id ∅).
  - intros q [b Hq]. discriminate Hq.
  - intros q b Hq. discriminate Hq.
  - exact Ec.
  - exists s', a, s''. split; [done|]. split; [exact Ho|]. split; [exact Hget|].
    apply Hsig. left.
Defined.

(** A restarted process loads a key and has not initialised the library. *)
Example restart_uses_uninitialised :
  let p := bls_run (SK := bytes) None id untagged untagged
    [OpLoad (tagged (str "key")) (tagged (str "key"))] in
  inits p = 0%nat /\ bls_calls p = [CallUse].
Proof. by vm_compute. Qed.
End Example.
