(* ===== verification/Runtime.v ===== *)
(** The runtime: [pkg/runtime/base.go] and [registry.go], [pkg/shutdown] and
    [pkg/resources].

    [BaseService.Start] launches one goroutine per service; the shutdown
    manager runs the registered callbacks once, holding the lock that
    registering takes.  Each goroutine and the shutdown are machines whose
    steps are the sections between two locks, and all of them interleave.  A
    service is a parameter: its [Start] and [Stop] act on a world [W] and
    return an error or nil; a [Start] that waits for other services counts at
    the moment it returns and sees their states then.  The callers of
    [WaitForState] of [StateManager.v] interleave as well.  The events are a
    record of the calls of [Start] and [Stop], for the theorems. *)
From S2P Require Import Prelude StateManager.

Abbreviation ServiceType := string (only parsing).
Definition ChainServiceType : ServiceType := "chain".
Definition ConsensusServiceType : ServiceType := "consensus".

(** * resource.go: resources by type *)
Module Resources.
Section Resources.
Context {Res : Type}.
Definition Manager : Type := gmap string Res.
Definition NewManager : Manager := ∅.
Definition Register (rm : Manager) (resourceType : string) (resource : Res) : Manager :=
  <[resourceType := resource]> rm.
Definition Get (rm : Manager) (resourceType : string) : option Res := rm !! resourceType.

(** The global manager is nil until [InitializeManager]; the second call keeps
    the manager of the first. *)
Definition InitializeManager (global : option Manager) : option Manager :=
  match global with None => Some NewManager | Some rm => Some rm end.

(** [cast] is the type assertion [res.(T)]. *)
Definition R {T} (cast : Res -> option T) (zeroValue : T) (global : option Manager)
    (resourceType : string) : res (T * bool) :=
  match global with
  | None => Panic
  | Some rm =>
      match Get rm resourceType with
      | Some resource =>
          match cast resource with
          | Some typedRes => Ok (typedRes, true)
          | None => Ok (zeroValue, false)
          end
      | None => Ok (zeroValue, false)
      end
  end.

Lemma R_found {T} (cast : Res -> option T) zero global t x :
  R cast zero global t = Ok (x, true) <->
  exists rm r, global = Some rm /\ rm !! t = Some r /\ cast r = Some x.
Proof.
  unfold R, Get. destruct global as [rm|]; [|naive_solver].
  destruct (rm !! t) as [r|] eqn:Er; [|naive_solver].
  destruct (cast r) as [y|] eqn:Ec; [|naive_solver].
  split; [intros [= ->]; eauto|]. intros (? & r' & [= <-] & ? & ?). by simplify_eq.
Qed.
End Resources.
End Resources.

(** * registry.go *)
Section Registry.
Context {Svc : Type}.
Definition Registry : Type := gmap ServiceType Svc.
Implicit Types (registry : Registry).

Definition Get registry (service : ServiceType) : option Svc := registry !! service.
Definition Register registry (service : ServiceType) (srvce : Svc) : Registry * bool :=
  match registry !! service with
  | Some _ => (registry, false)
  | None => (<[service := srvce]> registry, true)
  end.
(** The first service that is missing, if one is. *)
Fixpoint Exists registry (services : list ServiceType) : option ServiceType :=
  match services with
  | [] => None
  | v :: services => match registry !! v with None => Some v | Some _ => Exists registry services end
  end.
Definition ListAvailableServices registry (ord : list ServiceType) : list ServiceType :=
  base.filter (fun t => is_Some (registry !! t)) ord.
Definition Remove registry (service : ServiceType) : Registry := delete service registry.

Lemma Exists_spec registry services :
  Exists registry services = None <-> forall t, t ∈ services -> is_Some (registry !! t).
Proof.
  induction services as [|v services IH]; cbn; [by split; [intros _ t ?%not_elem_of_nil|]|].
  destruct (registry !! v) as [s|] eqn:E.
  - rewrite IH. setoid_rewrite elem_of_cons. naive_solver.
  - split; [done|]. intros Hall. destruct (Hall v) as [? ?]; [by left|]. congruence.
Qed.

Lemma Exists_missing registry services t :
  Exists registry services = Some t -> exists t, t ∈ services /\ registry !! t = None.
Proof.
  induction services as [|v services IH]; cbn; [done|].
  destruct (registry !! v) as [s|] eqn:E.
  - intros (t' & ? & ?)%IH. exists t'. split; [by right|done].
  - intros _. exists v. split; [by left|done].
Qed.
End Registry.
Arguments Registry Svc : clear implicits.

Section Runtime.
Context {Svc W : Type}.
Context (svc_Start : Svc -> ServiceStates.Manager -> W -> W * option error)
        (svc_Stop : Svc -> W -> W * option error).

(** * shutdown.go *)
(** The callbacks: the one [Start] makes for a service, and any other, such as
    the chain service's for its node. *)
Inductive Callback :=
| StopService (service : ServiceType) (rService : Svc)
| OtherCallback (callback : W -> W * option error).

(** Where [shutdown] is: not called, about to call the callback at an index,
    about to record the result of one, and returned after so many. *)
Inductive shutdown_phase :=
| Idle
| Calling (i : nat)
| Recording (i : nat) (service : ServiceType) (err : option error)
| Finished (n : nat).

Inductive event :=
| EStart (service : ServiceType) (rService : Svc) (err : option error)
| EStop (service : ServiceType) (rService : Svc) (err : option error).

(** The managers the base service holds. *)
Record Runtime := {
  rt_registry : Registry Svc;
  rt_ssm : ServiceStates.Manager;
  rt_callbacks : list Callback;
  rt_phase : shutdown_phase;
  rt_cancelled : bool;
  rt_world : W;
  rt_events : list event;
}.
Definition with_ssm (rt : Runtime) (sm : ServiceStates.Manager) : Runtime :=
  {| rt_registry := rt_registry rt; rt_ssm := sm; rt_callbacks := rt_callbacks rt;
     rt_phase := rt_phase rt; rt_cancelled := rt_cancelled rt; rt_world := rt_world rt;
     rt_events := rt_events rt |}.
Definition with_phase (rt : Runtime) (p : shutdown_phase) : Runtime :=
  {| rt_registry := rt_registry rt; rt_ssm := rt_ssm rt; rt_callbacks := rt_callbacks rt;
     rt_phase := p; rt_cancelled := true; rt_world := rt_world rt; rt_events := rt_events rt |}.
Definition with_world (rt : Runtime) (w : W) (es : list event) : Runtime :=
  {| rt_registry := rt_registry rt; rt_ssm := rt_ssm rt; rt_callbacks := rt_callbacks rt;
     rt_phase := rt_phase rt; rt_cancelled := rt_cancelled rt; rt_world := w;
     rt_events := rt_events rt ++ es |}.

(** [sm.mu] is held from the first callback to the last. *)
Definition locked (p : shutdown_phase) : bool :=
  match p with Calling _ | Recording _ _ _ => true | _ => false end.
Definition AddShutdownCallback (rt : Runtime) (callback : Callback) : option Runtime :=
  if locked (rt_phase rt) then None
  else Some {| rt_registry := rt_registry rt; rt_ssm := rt_ssm rt;
               rt_callbacks := rt_callbacks rt ++ [callback]; rt_phase := rt_phase rt;
               rt_cancelled := rt_cancelled rt; rt_world := rt_world rt; rt_events := rt_events rt |}.

Definition set_state (rt : Runtime) (service : ServiceType) (state : ServiceStates.State) :
    option Runtime :=
  match ServiceStates.Set_ (rt_ssm rt) service state with
  | Ok sm => Some (with_ssm rt sm)
  | _ => None
  end.

(** A step of [shutdown] with the callbacks of [Start] inlined; the first one
    is the signal or the end of the context, [once] lets it happen once. *)
Definition shutdown_step (rt : Runtime) : option Runtime :=
  match rt_phase rt with
  | Idle => Some (with_phase rt (Calling 0))
  | Calling i =>
      match rt_callbacks rt !! i with
      | Some (StopService service rService) =>
          let '(w, err) := svc_Stop rService (rt_world rt) in
          Some (with_phase (with_world rt w [EStop service rService err])
                  (Recording i service err))
      | Some (OtherCallback callback) =>
          let '(w, _) := callback (rt_world rt) in
          Some (with_phase (with_world rt w []) (Calling (S i)))
      | None => Some (with_phase rt (Finished i))
      end
  | Recording i service err =>
      rt ← set_state rt service
             (match err with Some _ => ServiceStates.Failed | None => ServiceStates.Stopped end);
      Some (with_phase rt (Calling (S i)))
  | Finished _ => None
  end.

(** * base.go: Start *)
(** Where the goroutine of a service is. *)
Inductive launch :=
| Launched
| Found (rService : Svc)
| Announced (rService : Svc)
| Watched (rService : Svc)
| Ran (err : option error)
| Returned (err : option error).

Definition launch_step (rt : Runtime) (service : ServiceType) (l : launch) :
    option (Runtime * launch) :=
  match l with
  | Launched =>
      match Get (rt_registry rt) service with
      | Some rService => Some (rt, Found rService)
      | None => Some (rt, Returned (Some (ErrMsg "service %s not found in registry")))
      end
  | Found rService =>
      rt ← set_state rt service ServiceStates.Initializing; Some (rt, Announced rService)
  | Announced rService =>
      rt ← AddShutdownCallback rt (StopService service rService); Some (rt, Watched rService)
  | Watched rService =>
      let '(w, err) := svc_Start rService (rt_ssm rt) (rt_world rt) in
      Some (with_world rt w [EStart service rService err], Ran err)
  | Ran (Some err) =>
      rt ← set_state rt service ServiceStates.Failed;
      Some (rt, Returned (Some (ErrWrap "failed to start service %s" err)))
  | Ran None => rt ← set_state rt service ServiceStates.Started; Some (rt, Returned None)
  | Returned _ => None
  end.

(** The errgroup: its goroutines and the first error. *)
Record Group := {
  g_rt : Runtime;
  g_launches : list (ServiceType * launch);
  g_err : option error;
}.
Definition Start (services : list ServiceType) (rt : Runtime) : res Group :=
  match Exists (rt_registry rt) services with
  | Some missingService =>
      Err (ErrMsg "requested service %s cannot be started as it does not exist")
  | None => Ok {| g_rt := rt; g_launches := (fun t => (t, Launched)) <$> services; g_err := None |}
  end.

Definition first_error (g : Group) (l : launch) : option error :=
  match g_err g, l with None, Returned (Some err) => Some err | err, _ => err end.
Definition is_returned (l : launch) : bool := match l with Returned _ => true | _ => false end.
Definition all_returned (g : Group) : bool := forallb (fun tl => is_returned tl.2) (g_launches g).
(** [g.Wait()]: blocked until every goroutine has returned. *)
Definition Wait (g : Group) : option (res unit) :=
  if all_returned g then Some (match g_err g with Some err => Err err | None => Ok tt end) else None.

(** One step of the process: of a goroutine, of the shutdown, or of a caller of
    [WaitForState] on the global state manager. *)
Inductive action :=
| ALaunch (i : nat)
| AShutdown
| AWaiter (stateType : string) (desired : ServiceStates.State) (p : phase ServiceStates.State).

Definition act (g : Group) (a : action) : option Group :=
  match a with
  | ALaunch i =>
      tl ← g_launches g !! i;
      '(rt, l) ← launch_step (g_rt g) tl.1 tl.2;
      Some {| g_rt := rt; g_launches := <[i := (tl.1, l)]> (g_launches g); g_err := first_error g l |}
  | AShutdown =>
      rt ← shutdown_step (g_rt g);
      Some {| g_rt := rt; g_launches := g_launches g; g_err := g_err g |}
  | AWaiter stateType desired p =>
      '(sm, _) ← wait_step ServiceStates.Uninitialized stateType desired (rt_ssm (g_rt g)) p;
      Some {| g_rt := with_ssm (g_rt g) sm; g_launches := g_launches g; g_err := g_err g |}
  end.
Definition group_step (g g' : Group) : Prop := exists a, act g a = Some g'.
Definition run (g : Group) (l : list action) : option Group :=
  foldl (fun o a => g ← o; act g a) (Some g) l.

Lemma run_steps g l g' : run g l = Some g' -> rtc group_step g g'.
Proof.
  unfold run. revert g. induction l as [|a l IH]; intros g; cbn; [intros [= ->]; constructor|].
  destruct (act g a) as [g1|] eqn:E.
  - intros Hr. eapply rtc_l; [by exists a|auto].
  - intros Hr. exfalso. revert Hr. clear. induction l as [|b l IH]; cbn; [done|exact IH].
Qed.

(** * What the two machines keep *)
Definition stop_services (l : list Callback) : list (ServiceType * Svc) :=
  omap (fun c => match c with StopService t s => Some (t, s) | _ => None end) l.
Definition starts (l : list event) : list (ServiceType * Svc) :=
  omap (fun e => match e with EStart t s _ => Some (t, s) | _ => None end) l.
Definition stops (l : list event) : list (ServiceType * Svc) :=
  omap (fun e => match e with EStop t s _ => Some (t, s) | _ => None end) l.
(** The goroutines between registering the callback and starting. *)
Definition pending (tl : ServiceType * launch) : option (ServiceType * Svc) :=
  match tl.2 with Watched s => Some (tl.1, s) | _ => None end.
(** How many callbacks were called. *)
Definition called (p : shutdown_phase) : nat :=
  match p with Idle => 0 | Calling i => i | Recording i _ _ => S i | Finished n => n end.

Definition failed (l : launch) : bool := match l with Returned (Some _) => true | _ => false end.

Record group_ok (g : Group) : Prop := {
  go_mgr : exists h, mgr_ok h (rt_ssm (g_rt g));
  go_reg : stop_services (rt_callbacks (g_rt g)) ≡ₚ
             starts (rt_events (g_rt g)) ++ omap pending (g_launches g);
  go_stop : stops (rt_events (g_rt g)) =
              stop_services (take (called (rt_phase (g_rt g))) (rt_callbacks (g_rt g)));
  go_called : (called (rt_phase (g_rt g)) <= length (rt_callbacks (g_rt g)))%nat;
  go_err : g_err g = None <-> Forall (fun tl => failed tl.2 = false) (g_launches g);
}.

Lemma omap_insert {A B} (f : A -> option B) l i x y :
  l !! i = Some y ->
  omap f l = omap f (take i l) ++ option_list (f y) ++ omap f (drop (S i) l) /\
  omap f (<[i := x]> l) = omap f (take i l) ++ option_list (f x) ++ omap f (drop (S i) l).
Proof.
  intros Hi. assert (i < length l)%nat by by eapply lookup_lt_Some. split.
  - rewrite <- (take_drop_middle l i y Hi) at 1. rewrite omap_app. cbn. by destruct (f y).
  - rewrite insert_take_drop by done. rewrite omap_app. cbn. by destruct (f x).
Qed.

Lemma set_state_ok rt t state h :
  mgr_ok h (rt_ssm rt) -> exists sm,
  set_state rt t state = Some (with_ssm rt sm) /\
  mgr_ok (h ++ [(t, state)]) sm /\
  serviceStates sm = <[t := state]> (serviceStates (rt_ssm rt)).
Proof.
  intros Hm. destruct (SetState_ok ServiceStates.notifies h (rt_ssm rt) t state Hm) as (sm & Hs & Hm' & _).
  exists sm. unfold set_state, ServiceStates.Set_. rewrite Hs. split; [done|]. split; [done|].
  by apply SetState_states in Hs.
Qed.

Lemma wait_step_mgr_ok h st d sm p sm' p' :
  mgr_ok h sm ->
  wait_step ServiceStates.Uninitialized st d sm p = Some (sm', p') ->
  mgr_ok h sm' /\ serviceStates sm' = serviceStates sm.
Proof.
  intros Hm. destruct p as [|ch| |s| |ch|r]; cbn; try done.
  - destruct (serviceStates sm !! st); intros [= <- <-]; [done|].
    by destruct (make_wait_ok ServiceStates.notifies h sm st Hm).
  - by case_decide; intros [= <- <-].
  - by intros [= <- <-].
  - by case_decide; intros [= <- <-].
  - intros [= E]. pose proof (register_wait_ok ServiceStates.notifies h sm st Hm) as Hr. rewrite E in Hr.
    destruct Hr as (? & [_ _ ? _] & _). done.
  - by case_decide; intros [= <- <-].
Qed.

(** What a step of a goroutine changes. *)
Lemma launch_step_inv rt t l rt' l' h :
  mgr_ok h (rt_ssm rt) -> launch_step rt t l = Some (rt', l') ->
  (exists h', mgr_ok h' (rt_ssm rt')) /\
  rt_phase rt' = rt_phase rt /\ rt_registry rt' = rt_registry rt /\
  (exists cs, rt_callbacks rt' = rt_callbacks rt ++ cs /\ stop_services cs = option_list (pending (t, l')) /\
     (cs = [] \/ locked (rt_phase rt) = false)) /\
  (exists es, rt_events rt' = rt_events rt ++ es /\ starts es = option_list (pending (t, l)) /\
     stops es = []) /\
  (forall t', t' <> t -> serviceStates (rt_ssm rt') !! t' = serviceStates (rt_ssm rt) !! t').
Proof.
  intros Hm. assert (forall rt1 rt2, rt_callbacks rt2 = rt_callbacks rt1 -> rt_events rt2 = rt_events rt1 ->
    (exists cs, rt_callbacks rt2 = rt_callbacks rt1 ++ cs /\ stop_services cs = [] /\
       (cs = [] \/ locked (rt_phase rt) = false)) /\
    (exists es, rt_events rt2 = rt_events rt1 ++ es /\ starts es = [] /\ stops es = [])) as Hsame.
  { intros rt1 rt2 -> ->. split; exists []; rewrite app_nil_r; naive_solver. }
  assert (forall state l0, (rt ← set_state rt t state; Some (rt, l0)) = Some (rt', l') ->
    exists sm, rt' = with_ssm rt sm /\ l' = l0 /\ (exists h', mgr_ok h' sm) /\
      forall t', t' <> t -> serviceStates sm !! t' = serviceStates (rt_ssm rt) !! t') as Hset.
  { intros state l0. destruct (set_state_ok rt t state h Hm) as (sm & -> & Hm' & Hss).
    intros [= <- <-]. exists sm. split_and!; try done; [by eexists|].
    intros t' Hne. by rewrite Hss, lookup_insert_ne. }
  destruct l as [|s|s|s|[e|]|e]; cbn [launch_step]; intros Hs.
  - destruct (Get _ _); injection Hs as <- <-; (split; [by eexists|]);
      destruct (Hsame rt rt eq_refl eq_refl) as [? ?]; by split_and!.
  - apply Hset in Hs as (sm & -> & -> & ? & ?). destruct (Hsame rt (with_ssm rt sm) eq_refl eq_refl) as [? ?]. by split_and!.
  - unfold AddShutdownCallback in Hs. destruct (locked (rt_phase rt)) eqn:El; [done|].
    injection Hs as <- <-. cbn. split_and!; try done; [by eexists|by exists [StopService t s]; auto|].
    exists []. by rewrite app_nil_r.
  - destruct (svc_Start _ _ _) as [w err]. injection Hs as <- <-. split_and!; try done; [by eexists| |].
    + exists []. rewrite app_nil_r. naive_solver.
    + by exists [EStart t s err].
  - apply Hset in Hs as (sm & -> & -> & ? & ?). destruct (Hsame rt (with_ssm rt sm) eq_refl eq_refl) as [? ?]. by split_and!.
  - apply Hset in Hs as (sm & -> & -> & ? & ?). destruct (Hsame rt (with_ssm rt sm) eq_refl eq_refl) as [? ?]. by split_and!.
  - done.
Qed.

(** How many callbacks have had their result recorded. *)
Definition recorded (p : shutdown_phase) : nat :=
  match p with Idle => 0 | Calling i | Recording i _ _ => i | Finished n => n end.

(** What a step of the shutdown changes. *)
Lemma shutdown_step_inv rt rt' h :
  mgr_ok h (rt_ssm rt) -> (called (rt_phase rt) <= length (rt_callbacks rt))%nat ->
  shutdown_step rt = Some rt' ->
  (exists h', mgr_ok h' (rt_ssm rt')) /\
  rt_callbacks rt' = rt_callbacks rt /\ rt_registry rt' = rt_registry rt /\
  (called (rt_phase rt') <= length (rt_callbacks rt'))%nat /\
  (exists es, rt_events rt' = rt_events rt ++ es /\ starts es = [] /\
     stop_services (take (called (rt_phase rt')) (rt_callbacks rt)) =
       stop_services (take (called (rt_phase rt)) (rt_callbacks rt)) ++ stops es).
Proof.
  intros Hm Hc. unfold shutdown_step. destruct (rt_phase rt) as [|i|i t r|n] eqn:Ep; cbn in Hc.
  - intros [= <-]. cbn. split_and!; try done; [by eexists|]. exists []. by rewrite !app_nil_r.
  - destruct (rt_callbacks rt !! i) as [[t sv|f]|] eqn:Ei.
    + destruct (svc_Stop sv (rt_world rt)) as [w r]. intros [= <-]. cbn.
      apply lookup_lt_Some in Ei as Hlt. split_and!; try done; [by eexists|].
      exists [EStop t sv r]. split_and!; try done. erewrite take_S_r by done.
      unfold stop_services. by rewrite omap_app.
    + destruct (f (rt_world rt)) as [w r]. intros [= <-]. cbn.
      apply lookup_lt_Some in Ei as Hlt. split_and!; try done; [by eexists|].
      exists []. split_and!; try done. erewrite take_S_r by done.
      unfold stop_services. by rewrite omap_app.
    + intros [= <-]. cbn. split_and!; try done; [by eexists|]. exists []. by rewrite !app_nil_r.
  - destruct (set_state_ok rt t (match r with Some _ => ServiceStates.Failed | None => ServiceStates.Stopped end) h Hm)
      as (sm & -> & Hm' & Hss). intros [= <-]. cbn. split_and!; try done; [by eexists|].
    exists []. by rewrite !app_nil_r.
  - done.
Qed.

Lemma first_error_ok g i t l l' :
  (g_err g = None <-> Forall (fun tl => failed tl.2 = false) (g_launches g)) ->
  g_launches g !! i = Some (t, l) -> failed l = false ->
  first_error g l' = None <-> Forall (fun tl => failed tl.2 = false) (<[i := (t, l')]> (g_launches g)).
Proof.
  intros Herr Hi Hl. assert (i < length (g_launches g))%nat as Hlt by by eapply lookup_lt_Some.
  assert (Forall (fun tl => failed tl.2 = false) (<[i := (t, l')]> (g_launches g)) <->
    failed l' = false /\ g_err g = None) as ->.
  { rewrite Herr, !Forall_lookup. split.
    - intros Hall. split; [apply (Hall i (t, l')), list_lookup_insert_eq; done|]. intros j x Hj.
      destruct (decide (i = j)) as [<-|Hne]; [rewrite Hi in Hj; by injection Hj as <-|].
      apply (Hall j). by rewrite list_lookup_insert_ne.
    - intros [Hl' Hall] j x [(<- & <- & _)|[_ Hj]]%list_lookup_insert_Some; [done|]. by apply (Hall j). }
  unfold first_error. destruct (g_err g) as [e|]; [naive_solver|].
  destruct l' as [| | | |[]|[]]; cbn; naive_solver.
Qed.

Lemma act_ok g a g' : group_ok g -> act g a = Some g' -> group_ok g'.
Proof.
  intros [[h Hm] Hreg Hstop Hcal Herr]. destruct a as [i| |st d p]; cbn.
  - destruct (g_launches g !! i) as [[t l]|] eqn:Hi; [|done]. cbn.
    destruct (launch_step (g_rt g) t l) as [[rt' l']|] eqn:Hl; [|done]. intros [= <-].
    destruct (launch_step_inv _ _ _ _ _ _ Hm Hl) as (Hm' & Hph & _ & (cs & Hcs & Hcp & Hlock) & (es & Hes & Hep & Hst) & _).
    destruct (omap_insert pending (g_launches g) i (t, l') (t, l) Hi) as [Ho Ho'].
    split; cbn; [done|..]; rewrite ?Hph, ?Hcs, ?Hes.
    + unfold stop_services, starts. rewrite !omap_app. fold (stop_services cs) (starts es).
      fold (stop_services (rt_callbacks (g_rt g))) (starts (rt_events (g_rt g))).
      rewrite Hreg, Hcp, Hep, Ho, Ho'. by solve_Permutation.
    + unfold stops. rewrite omap_app. fold (stops es) (stops (rt_events (g_rt g))).
      rewrite Hst, app_nil_r, Hstop. f_equal.
      by rewrite take_app_le.
    + rewrite length_app. lia.
    + apply first_error_ok with l; [done|done|]. by destruct l as [| | | |[]|].
  - destruct (shutdown_step (g_rt g)) as [rt'|] eqn:Hs; [|done]. intros [= <-].
    destruct (shutdown_step_inv _ _ _ Hm Hcal Hs) as (Hm' & Hcb & _ & Hcal' & es & Hes & Hst & Htk).
    split; cbn; [done|..|done|done]; rewrite Hcb, Hes; unfold starts, stops; rewrite omap_app.
    + fold (starts es). by rewrite Hst, app_nil_r.
    + rewrite Htk, <- Hstop. done.
  - destruct (wait_step _ _ _ _ _) as [[sm p']|] eqn:Hw; [|done]. intros [= <-].
    destruct (wait_step_mgr_ok _ _ _ _ _ _ _ Hm Hw) as [Hm' _].
    split; cbn; try done. by eexists.
Qed.

(** * The runs of a process *)
(** Before [Start]: no signal, and none of its callbacks. *)
Record fresh (rt : Runtime) : Prop := {
  fr_phase : rt_phase rt = Idle;
  fr_callbacks : stop_services (rt_callbacks rt) = [];
  fr_events : rt_events rt = [];
  fr_mgr : exists h, mgr_ok h (rt_ssm rt);
}.
Definition launched (services : list ServiceType) (rt : Runtime) (g : Group) : Prop :=
  exists g0, fresh rt /\ Start services rt = Ok g0 /\ rtc group_step g0 g.

Lemma Start_ok services rt g : fresh rt -> Start services rt = Ok g -> group_ok g.
Proof.
  intros [Hp Hc He Hm]. unfold Start. destruct (Exists _ _); [done|]. intros [= <-].
  split; cbn; [done|..]; rewrite ?Hp, ?Hc, ?He; cbn.
  - clear. by induction services.
  - done.
  - lia.
  - split; [|done]. intros _. by apply Forall_fmap, Forall_true.
Qed.

Lemma launched_ok services rt g : launched services rt g -> group_ok g.
Proof.
  intros (g0 & Hf & Hs & Hr). apply (Start_ok _ _ _ Hf) in Hs. revert Hs. induction Hr as [|g g1 g2 [a Ha]]; [done|].
  eauto using act_ok.
Qed.

(** What is known of each goroutine while there has been no signal. *)
Definition launch_ok (rt : Runtime) (t : ServiceType) (l : launch) : Prop :=
  match l with
  | Launched => True
  | Found s | Announced s | Watched s => rt_registry rt !! t = Some s
  | Ran r => exists s, rt_registry rt !! t = Some s /\ EStart t s r ∈ rt_events rt
  | Returned r => exists s r', rt_registry rt !! t = Some s /\ EStart t s r' ∈ rt_events rt /\
      r = (ErrWrap "failed to start service %s" <$> r') /\
      serviceStates (rt_ssm rt) !! t =
        Some (match r with Some _ => ServiceStates.Failed | None => ServiceStates.Started end)
  end.

Record startup_ok (services : list ServiceType) (g : Group) : Prop := {
  so_types : (g_launches g).*1 = services;
  so_found : forall t, t ∈ services -> is_Some (rt_registry (g_rt g) !! t);
  so_launch : forall i t l, g_launches g !! i = Some (t, l) -> launch_ok (g_rt g) t l;
  so_err : forall e, g_err g = Some e -> exists t, (t, Returned (Some e)) ∈ g_launches g;
}.

Lemma launch_ok_mono rt rt' t l :
  rt_registry rt' = rt_registry rt -> (forall e, e ∈ rt_events rt -> e ∈ rt_events rt') ->
  serviceStates (rt_ssm rt') !! t = serviceStates (rt_ssm rt) !! t ->
  launch_ok rt t l -> launch_ok rt' t l.
Proof. intros Hr He Hs. destruct l; cbn; rewrite ?Hr, ?Hs; naive_solver. Qed.

Lemma launch_step_startup rt t l rt' l' h :
  mgr_ok h (rt_ssm rt) -> is_Some (rt_registry rt !! t) -> launch_ok rt t l ->
  launch_step rt t l = Some (rt', l') -> launch_ok rt' t l'.
Proof.
  intros Hm [sv Hsv] Hl. destruct l as [|s|s|s|[e|]|e]; cbn [launch_step]; cbn in Hl.
  - unfold Get. rewrite Hsv. by intros [= <- <-].
  - destruct (set_state_ok rt t ServiceStates.Initializing h Hm) as (sm & -> & _). by intros [= <- <-].
  - unfold AddShutdownCallback. destruct (locked _); [done|]. by intros [= <- <-].
  - destruct (svc_Start _ _ _) as [w r]. intros [= <- <-]. cbn. exists s. split; [done|]. set_solver.
  - destruct (set_state_ok rt t ServiceStates.Failed h Hm) as (sm & -> & _ & Hss). intros [= <- <-].
    destruct Hl as (s & ? & ?). exists s, (Some e). cbn. rewrite Hss, lookup_insert_eq. done.
  - destruct (set_state_ok rt t ServiceStates.Started h Hm) as (sm & -> & _ & Hss). intros [= <- <-].
    destruct Hl as (s & ? & ?). exists s, None. cbn. rewrite Hss, lookup_insert_eq. done.
  - done.
Qed.

(** A signal is not undone. *)
Lemma shutdown_not_idle g g' :
  act g AShutdown = Some g' -> rt_phase (g_rt g') <> Idle.
Proof.
  cbn. unfold shutdown_step. destruct (rt_phase (g_rt g)) as [|i|i t r|n]; cbn.
  - by intros [= <-].
  - destruct (rt_callbacks (g_rt g) !! i) as [[t sv|f]|].
    + destruct (svc_Stop _ _) as [w r]. by intros [= <-].
    + destruct (f _) as [w r]. by intros [= <-].
    + by intros [= <-].
  - destruct (set_state _ _ _) as [rt1|]; [|done]. by intros [= <-].
  - done.
Qed.

Lemma act_startup services g a g' :
  NoDup services -> group_ok g -> startup_ok services g -> act g a = Some g' ->
  rt_phase (g_rt g') = Idle -> rt_phase (g_rt g) = Idle /\ startup_ok services g'.
Proof.
  intros Hnd [[h Hm] _ _ _ _] [Hty Hfnd Hla Herr]. destruct a as [i| |st d p]; cbn.
  - destruct (g_launches g !! i) as [[t l]|] eqn:Hi; [|done]. cbn.
    destruct (launch_step (g_rt g) t l) as [[rt' l']|] eqn:Hl; [|done]. intros [= <-]. cbn. intros Hidle.
    destruct (launch_step_inv _ _ _ _ _ _ Hm Hl) as (_ & Hph & Hreg & _ & (es & Hes & _) & Hss).
    rewrite Hph in Hidle. split; [done|].
    assert (t ∈ services) as Ht.
    { rewrite <- Hty. apply list_elem_of_fmap. exists (t, l). split; [done|]. by eapply list_elem_of_lookup_2. }
    split; cbn.
    + rewrite list_fmap_insert, Hty. apply list_insert_id. by rewrite <- Hty, list_lookup_fmap, Hi.
    + by rewrite Hreg.
    + intros j t1 l1 [(<- & [= <- <-] & _)|[Hne Hj]]%list_lookup_insert_Some.
      * eapply launch_step_startup; eauto.
      * apply launch_ok_mono with (g_rt g); [done|rewrite Hes; set_solver| |by eapply Hla].
        apply Hss. intros ->. apply Hne.
        eapply (NoDup_lookup services); [done|..]; rewrite <- Hty, list_lookup_fmap; [by rewrite Hi|by rewrite Hj].
    + unfold first_error. assert (i < length (g_launches g))%nat by by eapply lookup_lt_Some.
      assert (forall e, g_err g = Some e -> exists t0, (t0, Returned (Some e)) ∈ <[i:=(t, l')]> (g_launches g)) as Hold.
      { intros e (t0 & Hin)%Herr. exists t0. apply list_elem_of_lookup_1 in Hin as [j Hj].
        apply list_elem_of_lookup. exists j. rewrite list_lookup_insert_ne; [done|]. intros ->.
        rewrite Hi in Hj. injection Hj as <- ->. done. }
      destruct (g_err g) as [e0|]; [auto|]. intros e He. destruct l' as [| | | | |[e1|]]; try done.
      injection He as <-. exists t. apply list_elem_of_lookup. exists i. by apply list_lookup_insert_eq.
  - destruct (shutdown_step (g_rt g)) as [rt'|] eqn:Hs; [|done]. intros [= <-]. cbn. intros Hidle. exfalso.
    by apply (shutdown_not_idle g {| g_rt := rt'; g_launches := g_launches g; g_err := g_err g |});
      cbn; rewrite ?Hs.
  - destruct (wait_step _ _ _ _ _) as [[sm p']|] eqn:Hw; [|done]. intros [= <-]. cbn. intros Hidle.
    destruct (wait_step_mgr_ok _ _ _ _ _ _ _ Hm Hw) as [_ Hss]. split; [done|]. split; cbn; [done..| |done].
    intros i t l Hi. apply launch_ok_mono with (g_rt g); [done|done|by cbn; rewrite Hss|by eapply Hla].
Qed.

Lemma act_idle g a g' :
  group_ok g -> act g a = Some g' -> rt_phase (g_rt g') = Idle -> rt_phase (g_rt g) = Idle.
Proof.
  intros [[h Hm] _ _ _ _]. destruct a as [i| |st d p]; cbn.
  - destruct (g_launches g !! i) as [[t l]|]; [|done]. cbn.
    destruct (launch_step (g_rt g) t l) as [[rt' l']|] eqn:Hl; [|done]. intros [= <-]. cbn.
    by destruct (launch_step_inv _ _ _ _ _ _ Hm Hl) as (_ & -> & _).
  - intros Ha Hidle. by destruct (shutdown_not_idle g g' Ha).
  - destruct (wait_step _ _ _ _ _) as [[sm p']|]; [|done]. by intros [= <-].
Qed.

Lemma launched_startup services rt g :
  NoDup services -> launched services rt g ->
  group_ok g /\ (rt_phase (g_rt g) = Idle -> startup_ok services g).
Proof.
  intros Hnd (g0 & Hf & Hs & Hr). revert Hr. apply (rtc_ind_r (fun g =>
    group_ok g /\ (rt_phase (g_rt g) = Idle -> startup_ok services g))).
  - pose proof (Start_ok _ _ _ Hf Hs) as Hok. split; [done|]. intros _. unfold Start in Hs.
    destruct (Exists (rt_registry rt) services) eqn:He; [done|]. injection Hs as <-.
    split; cbn; [..|done].
    + rewrite <- list_fmap_compose. apply list_fmap_id.
    + by apply Exists_spec.
    + intros i t l Hi. rewrite list_lookup_fmap in Hi. destruct (services !! i); [|done].
      by injection Hi as <- <-.
  - intros g1 g2 _ [a Ha] [Hok Hst]. split; [by eapply act_ok|]. intros Hidle.
    pose proof (act_idle g1 a g2 Hok Ha Hidle) as Hi1.
    by destruct (act_startup services g1 a g2 Hnd Hok (Hst Hi1) Ha Hidle).
Qed.

Lemma wait_started services g :
  group_ok g -> startup_ok services g -> Wait g = Some (Ok tt) -> forall t, t ∈ services -> exists s,
  EStart t s None ∈ rt_events (g_rt g) /\
  ServiceStates.Get (rt_ssm (g_rt g)) t = ServiceStates.Started.
Proof.
  intros Hok [Hty _ Hla Herr]. unfold Wait. destruct (all_returned g) eqn:Hall; [|done].
  unfold all_returned in Hall. rewrite forallb_forall in Hall. unfold ServiceStates.Get, GetState.
  destruct (g_err g) as [e|] eqn:Eg; [done|]. intros _ t Ht. rewrite <- Hty in Ht.
  apply list_elem_of_fmap in Ht as ([t' l] & -> & Hin). cbn.
  apply (go_err _ Hok) in Eg. rewrite Forall_forall in Eg. specialize (Eg _ Hin). cbn in Eg.
  specialize (Hall (t', l)). rewrite <- list_elem_of_In in Hall. specialize (Hall Hin). cbn in Hall.
  destruct l as [| | | | |[e|]]; try done.
  apply list_elem_of_lookup in Hin as [i Hi].
  destruct (Hla i t' _ Hi) as (s & [e|] & _ & Hev & Heq & Hss); [done|].
  exists s. split; [done|]. exact (f_equal (default _) Hss).
Qed.

(** C19: Starting services.  [Start] fails, and does nothing, exactly when one of
    the services is not registered.  Otherwise, however the goroutines, the
    waiters and the callers interleave, as long as no signal arrives: when
    [Wait] returns nil every service was started, its [Start] returned nil and
    its state is Started; when it returns an error, that error is the one of a
    service whose state is Failed. *)
Theorem runtime_startup services rt :
  NoDup services -> fresh rt ->
  (is_ok (Start services rt) = false <-> exists t, t ∈ services /\ rt_registry rt !! t = None) /\
  forall g, launched services rt g -> rt_phase (g_rt g) = Idle ->
    (Wait g = Some (Ok tt) -> forall t, t ∈ services -> exists s,
       EStart t s None ∈ rt_events (g_rt g) /\
       ServiceStates.Get (rt_ssm (g_rt g)) t = ServiceStates.Started) /\
    (forall e, Wait g = Some (Err e) -> exists t s e', t ∈ services /\
       EStart t s (Some e') ∈ rt_events (g_rt g) /\ e = ErrWrap "failed to start service %s" e' /\
       ServiceStates.Get (rt_ssm (g_rt g)) t = ServiceStates.Failed).
Proof.
  intros Hnd Hf. split.
  - unfold Start. destruct (Exists (rt_registry rt) services) as [t|] eqn:He; cbn.
    + split; [intros _|done]. by apply Exists_missing in He.
    + rewrite Exists_spec in He. split; [done|]. intros (t & Ht & Hn). destruct (He t Ht). congruence.
  - intros g Hg Hidle. destruct (launched_startup services rt g Hnd Hg) as [Hok Hst].
    pose proof (Hst Hidle) as Hstart. clear Hst. split; [by apply wait_started|].
    destruct Hstart as [Hty _ Hla Herr]. unfold Wait. destruct (all_returned g) eqn:Hall; [|done].
    unfold ServiceStates.Get, GetState. intros e. destruct (g_err g) as [e0|] eqn:Eg; [|done]. intros [= <-].
    destruct (Herr e0 eq_refl) as [t Hin]. pose proof Hin as Hin'.
    apply list_elem_of_lookup in Hin as [i Hi].
    destruct (Hla i t _ Hi) as (s & [e|] & _ & Hev & Heq & Hss); [|done]. injection Heq as ->.
    exists t, s, e. split_and!; try done; [|exact (f_equal (default _) Hss)].
    rewrite <- Hty. apply list_elem_of_fmap. by exists (t, Returned (Some (ErrWrap "failed to start service %s" e))).
Qed.

(** * The shutdown *)
Definition returned_launches (g : Group) : Prop := all_returned g = true.

Lemma act_returned g a g' :
  all_returned g = true -> act g a = Some g' ->
  (exists st d p, a = AWaiter st d p) \/ a = AShutdown.
Proof.
  intros Hall. destruct a as [i| |st d p]; cbn; [|by right|by left; eauto].
  unfold all_returned in Hall. rewrite forallb_forall in Hall.
  destruct (g_launches g !! i) as [[t l]|] eqn:Hi; [|done]. cbn.
  specialize (Hall (t, l)). rewrite <- list_elem_of_In in Hall.
  specialize (Hall ltac:(by eapply list_elem_of_lookup_2)). by destruct l.
Qed.

(** The states of the services whose stop has been recorded. *)
Definition recorded_ok (rt : Runtime) : Prop :=
  forall t s, (t, s) ∈ stop_services (take (recorded (rt_phase rt)) (rt_callbacks rt)) ->
    serviceStates (rt_ssm rt) !! t = Some ServiceStates.Stopped \/
    serviceStates (rt_ssm rt) !! t = Some ServiceStates.Failed.
Definition recording_ok (rt : Runtime) : Prop :=
  match rt_phase rt with
  | Recording i t _ => exists s, rt_callbacks rt !! i = Some (StopService t s)
  | Calling i => (i <= length (rt_callbacks rt))%nat
  | Finished n => n = length (rt_callbacks rt)
  | Idle => True
  end.

Lemma shutdown_step_recorded rt rt' h :
  mgr_ok h (rt_ssm rt) -> recording_ok rt -> recorded_ok rt -> shutdown_step rt = Some rt' ->
  recording_ok rt' /\ recorded_ok rt'.
Proof.
  intros Hm Hrec Hok. unfold shutdown_step, recording_ok, recorded_ok in *.
  destruct (rt_phase rt) as [|i|i t r|n] eqn:Ep; cbn in *.
  - intros [= <-]. cbn. split; [lia|]. by intros t s ?%not_elem_of_nil.
  - destruct (rt_callbacks rt !! i) as [[t sv|f]|] eqn:Ei.
    + destruct (svc_Stop sv (rt_world rt)) as [w r]. intros [= <-]. cbn. eauto.
    + destruct (f (rt_world rt)) as [w r]. intros [= <-]. cbn.
      apply lookup_lt_Some in Ei as Hlt. split; [lia|]. erewrite take_S_r by done.
      unfold stop_services. rewrite omap_app. cbn. by rewrite app_nil_r.
    + intros [= <-]. cbn. apply lookup_ge_None in Ei. split; [lia|done].
  - destruct Hrec as [sv Hi].
    destruct (set_state_ok rt t (match r with Some _ => ServiceStates.Failed | None => ServiceStates.Stopped end) h Hm)
      as (sm & -> & _ & Hss). intros [= <-]. cbn. rewrite Hss. split.
    + apply lookup_lt_Some in Hi. lia.
    + erewrite take_S_r by done. unfold stop_services. rewrite omap_app. cbn.
      intros t' s [Hin|[= -> ->]%list_elem_of_singleton]%elem_of_app.
      * destruct (decide (t = t')) as [->|Hne]; [|rewrite lookup_insert_ne by done; eauto].
        rewrite lookup_insert_eq. destruct r; auto.
      * rewrite lookup_insert_eq. destruct r; auto.
  - done.
Qed.

(** Once every goroutine has returned, only the shutdown and waiters move. *)
Record quiet (g0 g : Group) : Prop := {
  qu_ok : group_ok g;
  qu_returned : all_returned g = true;
  qu_launches : g_launches g = g_launches g0;
  qu_callbacks : rt_callbacks (g_rt g) = rt_callbacks (g_rt g0);
  qu_starts : starts (rt_events (g_rt g)) = starts (rt_events (g_rt g0));
  qu_recording : recording_ok (g_rt g);
  qu_recorded : recorded_ok (g_rt g);
}.

Lemma act_quiet g0 g a g' : quiet g0 g -> act g a = Some g' -> quiet g0 g'.
Proof.
  intros [Hok Hret Hl Hcb Hst Hrg Hrd] Ha. pose proof (act_ok _ _ _ Hok Ha) as Hok'.
  destruct Hok as [[h Hm] _ _ Hcal _].
  destruct (act_returned _ _ _ Hret Ha) as [(st & d & p & ->)| ->]; cbn in Ha.
  - destruct (wait_step _ _ _ _ _) as [[sm p']|] eqn:Hw; [|done]. injection Ha as <-.
    destruct (wait_step_mgr_ok _ _ _ _ _ _ _ Hm Hw) as [_ Hss].
    split; try done. unfold recorded_ok. cbn. by rewrite Hss.
  - destruct (shutdown_step (g_rt g)) as [rt'|] eqn:Hs; [|done]. injection Ha as <-.
    destruct (shutdown_step_inv _ _ _ Hm Hcal Hs) as (_ & Hcb' & _ & _ & es & Hes & Hse & _).
    destruct (shutdown_step_recorded _ _ _ Hm Hrg Hrd Hs) as [? ?].
    split; try done; cbn; [by rewrite Hcb'|]. rewrite Hes. unfold starts. rewrite omap_app.
    fold (starts es). by rewrite Hse, app_nil_r.
Qed.

Lemma pending_returned l :
  forallb (fun tl : ServiceType * launch => is_returned tl.2) l = true -> omap pending l = [].
Proof.
  induction l as [|[t x] l IH]; [done|]. cbn. intros [Hx Hl]%andb_prop. rewrite IH by done. by destruct x.
Qed.

(** C18: A graceful shutdown.  When the signal comes after every goroutine of
    [Start] has returned, then once [shutdown] is over every service that was
    started was stopped exactly once, in the order in which the callbacks were
    registered and whatever the stops returned, no service was started since,
    and the state of each is Stopped or Failed. *)
Theorem graceful_shutdown services rt g0 g n :
  launched services rt g0 -> all_returned g0 = true -> rt_phase (g_rt g0) = Idle ->
  rtc group_step g0 g -> rt_phase (g_rt g) = Finished n ->
  stops (rt_events (g_rt g)) = stop_services (rt_callbacks (g_rt g0)) /\
  stops (rt_events (g_rt g)) ≡ₚ starts (rt_events (g_rt g)) /\
  starts (rt_events (g_rt g)) = starts (rt_events (g_rt g0)) /\
  forall t s, (t, s) ∈ starts (rt_events (g_rt g)) ->
    ServiceStates.Get (rt_ssm (g_rt g)) t = ServiceStates.Stopped \/
    ServiceStates.Get (rt_ssm (g_rt g)) t = ServiceStates.Failed.
Proof.
  intros Hg0 Hret Hidle Hr Hfin. pose proof (launched_ok _ _ _ Hg0) as Hok0.
  assert (quiet g0 g) as [[_ Hreg Hstop _ _] Hret' _ Hcb Hst Hrg Hrd].
  { revert Hr. apply (rtc_ind_r (quiet g0)).
    - split; try done; unfold recording_ok, recorded_ok; rewrite Hidle; [done|]. by intros t s ?%not_elem_of_nil.
    - intros x y _ [a Ha] Hq. by eapply act_quiet. }
  unfold recording_ok, recorded_ok in Hrg, Hrd. rewrite Hfin in Hrg, Hrd, Hstop. cbn in Hrd, Hstop. subst n.
  rewrite firstn_all in Hrd, Hstop. rewrite (pending_returned _ Hret'), app_nil_r in Hreg.
  split; [by rewrite Hstop, Hcb|]. split; [by rewrite Hstop|]. split; [done|].
  intros t s Hin. rewrite <- Hreg in Hin. unfold ServiceStates.Get, GetState.
  destruct (Hrd t s Hin) as [E|E]; [left|right]; exact (f_equal (default _) E).
Qed.

(** ** Termination *)
Definition launch_weight (l : launch) : nat :=
  match l with
  | Launched => 7 | Found _ => 6 | Announced _ => 5 | Watched _ => 2 | Ran _ => 1 | Returned _ => 0
  end.
Definition shutdown_weight (n : nat) (p : shutdown_phase) : nat :=
  match p with
  | Idle => 2 * n + 2
  | Calling i => 2 * (n - i) + 1
  | Recording i _ _ => 2 * (n - i)
  | Finished _ => 0
  end.
(** How many more steps the goroutines and the shutdown can make. *)
Definition steps_left (g : Group) : nat :=
  sum_list_with (fun tl => launch_weight tl.2) (g_launches g) +
  shutdown_weight (length (rt_callbacks (g_rt g))) (rt_phase (g_rt g)).
Definition is_waiter (a : action) : bool := match a with AWaiter _ _ _ => true | _ => false end.

Lemma sum_insert (f : ServiceType * launch -> nat) l i x y :
  l !! i = Some y -> (sum_list_with f (<[i := x]> l) + f y = sum_list_with f l + f x)%nat.
Proof.
  revert i. induction l as [|z l IH]; intros [|i]; cbn; try done; [intros [= ->]; lia|].
  intros Hi. specialize (IH i Hi). unfold insert in *. lia.
Qed.

Lemma launch_weight_lt rt t l rt' l' h :
  mgr_ok h (rt_ssm rt) -> launch_step rt t l = Some (rt', l') ->
  (launch_weight l' + shutdown_weight (length (rt_callbacks rt')) (rt_phase rt') <
   launch_weight l + shutdown_weight (length (rt_callbacks rt)) (rt_phase rt))%nat.
Proof.
  intros Hm. destruct l as [|s|s|s|[e|]|e]; cbn [launch_step].
  - destruct (Get _ _); intros [= <- <-]; cbn; lia.
  - destruct (set_state_ok rt t ServiceStates.Initializing h Hm) as (sm & -> & _). intros [= <- <-]. cbn. lia.
  - unfold AddShutdownCallback. destruct (rt_phase rt) eqn:Ep; cbn [locked]; try done;
      intros [= <- <-]; cbn; rewrite ?Ep, ?length_app; cbn; lia.
  - destruct (svc_Start _ _ _) as [w r]. intros [= <- <-]. cbn. lia.
  - destruct (set_state_ok rt t ServiceStates.Failed h Hm) as (sm & -> & _). intros [= <- <-]. cbn. lia.
  - destruct (set_state_ok rt t ServiceStates.Started h Hm) as (sm & -> & _). intros [= <- <-]. cbn. lia.
  - done.
Qed.

Lemma shutdown_weight_lt rt rt' h :
  mgr_ok h (rt_ssm rt) -> (called (rt_phase rt) <= length (rt_callbacks rt))%nat ->
  shutdown_step rt = Some rt' ->
  (shutdown_weight (length (rt_callbacks rt')) (rt_phase rt') <
   shutdown_weight (length (rt_callbacks rt)) (rt_phase rt))%nat.
Proof.
  intros Hm Hc. unfold shutdown_step. destruct (rt_phase rt) as [|i|i t r|n] eqn:Ep; cbn in Hc.
  - intros [= <-]. cbn. lia.
  - destruct (rt_callbacks rt !! i) as [[t sv|f]|] eqn:Ei; [apply lookup_lt_Some in Ei as Hlt..|].
    + destruct (svc_Stop sv (rt_world rt)) as [w r]. intros [= <-]. cbn. lia.
    + destruct (f (rt_world rt)) as [w r]. intros [= <-]. cbn. lia.
    + intros [= <-]. cbn. lia.
  - destruct (set_state_ok rt t (match r with Some _ => ServiceStates.Failed | None => ServiceStates.Stopped end) h Hm)
      as (sm & -> & _ & Hss). intros [= <-]. cbn. lia.
  - done.
Qed.

Lemma act_steps_left g a g' :
  group_ok g -> act g a = Some g' ->
  (steps_left g' + (if is_waiter a then 0 else 1) <= steps_left g)%nat.
Proof.
  intros [[h Hm] _ _ Hcal _]. unfold steps_left. destruct a as [i| |st d p]; cbn [act is_waiter].
  - destruct (g_launches g !! i) as [[t l]|] eqn:Hi; [|done]. cbn.
    destruct (launch_step (g_rt g) t l) as [[rt' l']|] eqn:Hl; [|done]. intros [= <-]. cbn.
    pose proof (sum_insert (fun tl => launch_weight tl.2) _ i (t, l') (t, l) Hi) as Hs. cbn in Hs.
    pose proof (launch_weight_lt _ _ _ _ _ _ Hm Hl). lia.
  - destruct (shutdown_step (g_rt g)) as [rt'|] eqn:Hs; [|done]. intros [= <-]. cbn.
    pose proof (shutdown_weight_lt _ _ _ Hm Hcal Hs). lia.
  - destruct (wait_step _ _ _ _ _) as [[sm p']|] eqn:Hw; [|done]. intros [= <-]. cbn. lia.
Qed.

Lemma launch_blocked rt t l h :
  mgr_ok h (rt_ssm rt) -> launch_step rt t l = None -> is_returned l = true \/ locked (rt_phase rt) = true.
Proof.
  intros Hm. destruct l as [|s|s|s|[e|]|e]; cbn [launch_step]; [| | | | | |by left].
  - by destruct (Get _ _).
  - by destruct (set_state_ok rt t ServiceStates.Initializing h Hm) as (sm & -> & _).
  - unfold AddShutdownCallback. by destruct (locked (rt_phase rt)); [right|].
  - by destruct (svc_Start _ _ _).
  - by destruct (set_state_ok rt t ServiceStates.Failed h Hm) as (sm & -> & _).
  - by destruct (set_state_ok rt t ServiceStates.Started h Hm) as (sm & -> & _).
Qed.

Lemma shutdown_blocked rt h :
  mgr_ok h (rt_ssm rt) -> shutdown_step rt = None -> exists n, rt_phase rt = Finished n.
Proof.
  intros Hm. unfold shutdown_step. destruct (rt_phase rt) as [|i|i t r|n]; [done|..|by exists n].
  - destruct (rt_callbacks rt !! i) as [[t sv|f]|]; [|by destruct (f _)|done]. by destruct (svc_Stop _ _).
  - by destruct (set_state_ok rt t (match r with Some _ => ServiceStates.Failed | None => ServiceStates.Stopped end) h Hm)
      as (sm & -> & _).
Qed.

(** C20: Starting and stopping end.  In every reachable state the goroutines of
    [Start] and the shutdown together make at most [steps_left] more steps,
    whatever the waiters do in between, and they never block each other: as
    long as a goroutine has not returned or the shutdown is not over, one of
    them can move.  No step of the state manager panics. *)
Theorem runtime_terminates services rt g :
  launched services rt g ->
  (forall l g', run g l = Some g' ->
     (length (base.filter (fun a => is_waiter a = false) l) <= steps_left g)%nat) /\
  (all_returned g = true /\ (exists n, rt_phase (g_rt g) = Finished n) \/
   exists a g', is_waiter a = false /\ act g a = Some g').
Proof.
  intros Hg. apply launched_ok in Hg. split.
  - intros l. revert g Hg. induction l as [|a l IH]; intros g Hok g'; cbn [length base.filter]; [cbn; lia|].
    intros Hrun. destruct (act g a) as [g1|] eqn:Ha.
    + specialize (IH g1 (act_ok _ _ _ Hok Ha) g'). pose proof (act_steps_left _ _ _ Hok Ha) as Hle.
      assert (run g1 l = Some g') as Hr by (unfold run in *; cbn in Hrun; by rewrite Ha in Hrun).
      specialize (IH Hr). rewrite filter_cons. destruct (is_waiter a); cbn; case_decide; try done; cbn; lia.
    + exfalso. revert Hrun. unfold run. cbn. rewrite Ha. clear. by induction l.
  - destruct Hg as [[h Hm] _ _ _ _]. destruct (shutdown_step (g_rt g)) as [rt'|] eqn:Hs.
    { right. eexists AShutdown, _. split; [done|]. cbn. by rewrite Hs. }
    destruct (shutdown_blocked _ _ Hm Hs) as [n Hn].
    destruct (all_returned g) eqn:Hall; [left; eauto|right].
    unfold all_returned in Hall. apply Bool.not_true_iff_false in Hall. rewrite forallb_forall in Hall.
    destruct (decide (List.Exists (fun tl : string * launch => is_returned tl.2 = false) (g_launches g))) as [He|He].
    + apply List.Exists_exists in He as ([t l] & Hin & Hl). apply list_elem_of_In, list_elem_of_lookup in Hin as [i Hi].
      destruct (launch_step (g_rt g) t l) as [[rt' l']|] eqn:Hls.
      * eexists (ALaunch i), _. split; [done|]. cbn. rewrite Hi. cbn. by rewrite Hls.
      * destruct (launch_blocked _ _ _ _ Hm Hls) as [Hr|Hr]; [cbn in Hl; congruence|]. by rewrite Hn in Hr.
    + destruct Hall. intros [t l] Hin. apply not_Exists_Forall in He; [|intros ?; solve_decision].
      rewrite Forall_forall in He. rewrite <- list_elem_of_In in Hin. specialize (He _ Hin). cbn in *.
      by destruct (is_returned l).
Qed.

(** A service that starts after the shutdown is never stopped.  A goroutine
    that has not registered its callback when [shutdown] ends goes on: it
    registers the callback, starts the service and, when that succeeds, leaves
    it in the state Started, and in no later state has the service been
    stopped by this. *)
Theorem late_start_never_stopped services rt g n i t s :
  launched services rt g -> rt_phase (g_rt g) = Finished n ->
  g_launches g !! i = Some (t, Announced s) ->
  (svc_Start s (rt_ssm (g_rt g)) (rt_world (g_rt g))).2 = None ->
  (exists g', run g [ALaunch i; ALaunch i; ALaunch i] = Some g' /\
     EStart t s None ∈ rt_events (g_rt g') /\
     ServiceStates.Get (rt_ssm (g_rt g')) t = ServiceStates.Started) /\
  forall g', rtc group_step g g' -> stops (rt_events (g_rt g')) = stops (rt_events (g_rt g)).
Proof.
  intros Hg Hfin Hi Hst. apply launched_ok in Hg. pose proof Hg as [[h Hm] _ _ _ _]. split.
  - assert (i < length (g_launches g))%nat by by eapply lookup_lt_Some.
    unfold run. cbn. rewrite Hi. cbn. unfold AddShutdownCallback. rewrite Hfin. cbn.
    rewrite list_lookup_insert_eq by done. cbn.
    destruct (svc_Start s (rt_ssm (g_rt g)) (rt_world (g_rt g))) as [w r]. cbn in Hst. subst r. cbn.
    rewrite list_lookup_insert_eq by by rewrite length_insert. cbn.
    match goal with |- context [set_state ?r t _] => destruct (set_state_ok r t ServiceStates.Started h Hm)
      as (sm & -> & _ & Hss) end. cbn. eexists. split; [done|]. cbn. split; [set_solver|].
    unfold ServiceStates.Get, GetState. rewrite Hss. by rewrite lookup_insert_eq.
  - intros g' Hr. assert (group_ok g' /\ rt_phase (g_rt g') = Finished n /\
      stops (rt_events (g_rt g')) = stops (rt_events (g_rt g))) as (_ & _ & ?); [|done].
    clear Hi Hst Hm. revert Hr. apply (rtc_ind_r (fun g' => group_ok g' /\ rt_phase (g_rt g') = Finished n /\
      stops (rt_events (g_rt g')) = stops (rt_events (g_rt g)))); [done|].
    intros x y _ [a Ha] (Hok & Hp & Hs). split; [by eapply act_ok|]. destruct Hok as [[h' Hm] _ _ _ _].
    destruct a as [j| |st d p]; cbn in Ha.
    + destruct (g_launches x !! j) as [[t' l]|]; [|done]. cbn in Ha.
      destruct (launch_step (g_rt x) t' l) as [[rt' l']|] eqn:Hl; [|done]. injection Ha as <-. cbn.
      destruct (launch_step_inv _ _ _ _ _ _ Hm Hl) as (_ & -> & _ & _ & (es & -> & _ & He) & _).
      split; [done|]. unfold stops. rewrite omap_app. fold (stops es). rewrite He, app_nil_r. done.
    + unfold shutdown_step in Ha. by rewrite Hp in Ha.
    + destruct (wait_step _ _ _ _ _) as [[sm p']|]; [|done]. by injection Ha as <-.
Qed.

(** * Injecting the services *)
(** A handler registers its service in the registry and may use every manager;
    the order is that of the map. *)
Definition RegisterHandlerFn : Type := Runtime -> Runtime * res unit.
Definition RegisterHandler (handlers : gmap ServiceType RegisterHandlerFn) (service : ServiceType)
    (handler : RegisterHandlerFn) : gmap ServiceType RegisterHandlerFn * bool :=
  match handlers !! service with
  | Some _ => (handlers, false)
  | None => (<[service := handler]> handlers, true)
  end.
Fixpoint InjectServices (handlers : gmap ServiceType RegisterHandlerFn) (ord : list ServiceType)
    (rt : Runtime) : Runtime * res unit :=
  match ord with
  | [] => (rt, Ok tt)
  | service :: ord =>
      match handlers !! service with
      | None => InjectServices handlers ord rt
      | Some handler =>
          match handler rt with
          | (rt, Ok _) => InjectServices handlers ord rt
          | (rt, Err e) => (rt, Err (ErrWrap ("failed to register service " ++ service) e))
          | (rt, Panic) => (rt, Panic)
          end
      end
  end.
(** The handler of [services/*/entrypoint.go] for a constructor [NewService]
    and the texts of its two errors. *)
Definition ServiceHandler (service : ServiceType) (failed_text refused_text : string)
    (NewService : Runtime -> Runtime * res Svc) : RegisterHandlerFn := fun rt =>
  match NewService rt with
  | (rt, Ok srvce) =>
      let '(registry, registered) := Register (rt_registry rt) service srvce in
      if registered
      then ({| rt_registry := registry; rt_ssm := rt_ssm rt; rt_callbacks := rt_callbacks rt;
               rt_phase := rt_phase rt; rt_cancelled := rt_cancelled rt; rt_world := rt_world rt;
               rt_events := rt_events rt |}, Ok tt)
      else (rt, Err (ErrMsg refused_text))
  | (rt, Err e) => (rt, Err (ErrWrap failed_text e))
  | (rt, Panic) => (rt, Panic)
  end.
End Runtime.

(** * Examples *)
(** Services that append to a log; the consensus service needs the chain service
    to have started, and the service "bad" fails. *)
Definition log_Start (s : string) (sm : ServiceStates.Manager) (w : list string) :
    list string * option error :=
  if bool_decide (s = ConsensusServiceType) &&
     negb (bool_decide (ServiceStates.Get sm ChainServiceType = ServiceStates.Started))
  then (w, Some (ErrMsg "Consensus service cannot be started because the chain service is not started"))
  else if bool_decide (s = "bad"%string) then (w, Some (ErrMsg "bad"))
  else (w ++ [s], None).
Definition log_Stop (s : string) (w : list string) : list string * option error := (w, None).
Definition log_runtime : Runtime (Svc := string) (W := list string) :=
  {| rt_registry := {[ChainServiceType := ChainServiceType; ConsensusServiceType := ConsensusServiceType;
                      "bad" := "bad"]};
     rt_ssm := ServiceStates.New; rt_callbacks := [OtherCallback (fun w => (w, None))];
     rt_phase := Idle; rt_cancelled := false; rt_world := []; rt_events := [] |}.
Lemma log_fresh : fresh log_runtime.
Proof.
  split; [done..|]. exists []. split; cbn; intros *; rewrite ?lookup_empty; try done; set_solver.
Qed.
Definition log_group (services : list string) : Group :=
  default {| g_rt := log_runtime; g_launches := []; g_err := None |}
    (match Start services log_runtime with Ok g => Some g | _ => None end).
Definition log_run (services : list string) (l : list action) : option Group :=
  run log_Start log_Stop (log_group services) l.

Lemma log_launched services l g :
  is_ok (Start services log_runtime) = true -> log_run services l = Some g ->
  launched log_Start log_Stop services log_runtime g.
Proof.
  unfold log_run, log_group. intros Hok Hr. exists (log_group services). unfold log_group.
  destruct (Start services log_runtime) as [g0| |]; [|done..]. split; [apply log_fresh|].
  split; [done|]. by eapply run_steps.
Qed.

Definition both : list string := [ChainServiceType; ConsensusServiceType].
(** The chain service starts, then the consensus service. *)
Definition start_both : list action :=
  repeat (ALaunch 0) 5 ++ repeat (ALaunch 1) 5.
Definition started_both : Group := default (log_group both) (log_run both start_both).
Lemma started_both_launched : launched log_Start log_Stop both log_runtime started_both.
Proof. apply (log_launched both start_both); by vm_compute. Qed.

Lemma runtime_startup_witness :
  Wait started_both = Some (Ok tt) /\ forall t, t ∈ both -> exists s,
    EStart t s None ∈ rt_events (g_rt started_both) /\
    ServiceStates.Get (rt_ssm (g_rt started_both)) t = ServiceStates.Started.
Proof.
  assert (Wait started_both = Some (Ok tt)) as Hw by by vm_compute. split; [exact Hw|].
  destruct (runtime_startup log_Start log_Stop both log_runtime) as [_ H].
  - apply NoDup_cons. split; [|apply NoDup_singleton]. by rewrite list_elem_of_singleton.
  - apply log_fresh.
  - apply (H started_both started_both_launched); [by vm_compute|exact Hw].
Defined.

Definition stop_both : list action := repeat AShutdown 7.
Definition stopped_both : Group := default (log_group both) (run log_Start log_Stop started_both stop_both).
Lemma graceful_shutdown_witness :
  stops (rt_events (g_rt stopped_both)) = [(ChainServiceType, ChainServiceType); (ConsensusServiceType, ConsensusServiceType)] /\
  stops (rt_events (g_rt stopped_both)) ≡ₚ starts (rt_events (g_rt stopped_both)).
Proof.
  split; [by vm_compute|].
  destruct (graceful_shutdown log_Start log_Stop both log_runtime started_both stopped_both 3) as (_ & H & _).
  - apply started_both_launched.
  - by vm_compute.
  - by vm_compute.
  - apply (run_steps _ _ _ stop_both). by vm_compute.
  - by vm_compute.
  - exact H.
Defined.

Lemma runtime_terminates_witness :
  (exists a g', is_waiter a = false /\ act log_Start log_Stop (log_group both) a = Some g').
Proof.
  destruct (runtime_terminates log_Start log_Stop both log_runtime (log_group both)) as [_ [[H _]|H]].
  - by apply (log_launched both []); vm_compute.
  - by vm_compute in H.
  - exact H.
Defined.

(** The signal arrives before the goroutine of the chain service registers. *)
Definition early_signal : list action :=
  [ALaunch 0; ALaunch 0; AShutdown; AShutdown; AShutdown].
Definition late : Group := default (log_group both) (log_run both early_signal).
Lemma late_start_never_stopped_witness :
  exists g', run log_Start log_Stop late [ALaunch 0; ALaunch 0; ALaunch 0] = Some g' /\
    ServiceStates.Get (rt_ssm (g_rt g')) ChainServiceType = ServiceStates.Started /\
    stops (rt_events (g_rt g')) = [].
Proof.
  destruct (late_start_never_stopped log_Start log_Stop both log_runtime late 1 0 ChainServiceType ChainServiceType)
    as [(g' & Hr & _ & Hs) H]; [|by vm_compute..|].
  - apply (log_launched both early_signal); by vm_compute.
  - exists g'. split; [exact Hr|]. split; [exact Hs|]. rewrite (H g' (run_steps _ _ _ _ _ Hr)). by vm_compute.
Defined.
