(* ===== verification/PeerNode.v ===== *)
(** [pkg/node/node.go]: the node, which puts the ledger, the blockchain, the
    validator and the shard manager together, and its life cycle; and
    [LoadGenesis] of [pkg/genesis].

    The chain database is the state of [NewNode]; the outcomes of the calls
    into the network stack, of [GetDb] and of reading the genesis file are
    arguments.  The metrics collector is the one inside the consensus module;
    the performance monitor is whether it runs; its goroutines, and that
    [Stop] waits for them, perhaps for ever, are in [Monitor.v], and here the
    wait is between the two parts of [Node_Shutdown].  The ping handler is in [Monitor.v];
    advertising and logging are left out. *)
From S2P Require Import Prelude Bytes Hashes Types Signatures Packets Blocks Storage Validators Consensus.
From S2P Require Import GraphStore Ledger MemGraph Genesis Chain Sharding StateManager ValidatorNode Accounts.

(** * genesis.go *)
Definition LoadGenesis (ord : list bytes) (ReadFile : res bytes) (UnmarshalStrict : bytes -> res Genesis) :
    res Genesis :=
  data ← wrap "failed to read genesis file" ReadFile;
  genesis ← wrap "failed to parse genesis file" (UnmarshalStrict data);
  _ ← wrap "invalid genesis configuration" (Genesis_Validate ord genesis);
  Ok genesis.

Section PeerNode.
Context {P EP E : Type} `{!Provider P, !GraphLib P EP} `{Mdbx E}.
Context {K FS : Type} `{PairLib K} `{Env FS}.

(** The part of the configuration that is used. *)
Record NodeConfig := { nc_PeerID : PeerID; nc_ShardCount : Z }.
(** The outcomes of the calls into libraries and the environment. *)
Record Platform := {
  pf_ChainDb : res unit;
  pf_ConsensusDb : res E;
  pf_NewNetwork : res unit;
  pf_BootstrapPeersAsAddrs : res unit;
  pf_NewDiscoveryService : res unit;
  pf_Genesis : res Genesis;
}.

Record PeerNode := {
  n_did : Account;
  n_chain : Blockchain P;
  n_validator : ValidatorService.Validator (E := E);
  n_shardManager : ShardManager;
  n_pm_running : bool;
  n_cancelled : bool;
  n_storage_open : bool;
  n_stateMgr : NodeStates.Manager;
}.

Definition default_weights : Metrics :=
  {| BandwidthUsage := f_zero; Computational := f_zero; Validators.Storage := f_zero; Uptime := f_one;
     Responsiveness := f_zero; Reliability := f_zero; LastUpdated := 0 |}.

(** [fuel], [now], [ord] and [gord] are those of [NewBlockchain]. *)
Definition NewNode (fuel : nat) (now : Z) (ord gord : list bytes) (config : NodeConfig)
    (im : Store (K := K) (FS := FS)) (pf : Platform) : io P PeerNode :=
  stateMgr ← io_lift (NodeStates.Set_ NodeStates.New NodeStateType NodeStates.Uninitialized);
  if bool_decide (nc_PeerID config = [])
  then io_lift (Err (ErrMsg "peerId must be defined in the networking configuration"))
  else
    did ← io_wrap "failed to load DID from identity manager with PeerID: %s"
      (io_lift (Manager_GetByPeerID im (nc_PeerID config)));
    _ ← io_wrap "failed to get chain database" (io_lift (pf_ChainDb pf));
    _ ← io_lift (pf_NewNetwork pf);
    let did := to_Account did in
    let shardManager := NewShardManager (nc_ShardCount config) in
    let vSet := AddValidator NewValidatorSet did in
    _ ← io_lift (pf_BootstrapPeersAsAddrs pf);
    _ ← io_lift (pf_NewDiscoveryService pf);
    let collector := NewCollector default_weights in
    genesisConfig ← io_wrap "failed to load genesis configuration" (io_lift (pf_Genesis pf));
    blockchain ← io_wrap "failure to create new blockchain instance" (fun p =>
      let '(l, r) := NewBlockchain fuel now ord gord genesisConfig (NewLedger p) in (l_storage l, r));
    nodeValidator ← io_lift (ValidatorService.NewValidator peer_String (nc_ShardCount config) did
      (pf_ConsensusDb pf) vSet collector);
    stateMgr ← io_lift (NodeStates.Set_ stateMgr NodeStateType NodeStates.Initialized);
    mret {| n_did := did; n_chain := blockchain; n_validator := nodeValidator;
            n_shardManager := shardManager; n_pm_running := false; n_cancelled := false;
            n_storage_open := true; n_stateMgr := stateMgr |}.

Definition with_stateMgr (n : PeerNode) (sm : NodeStates.Manager) : PeerNode :=
  {| n_did := n_did n; n_chain := n_chain n; n_validator := n_validator n;
     n_shardManager := n_shardManager n; n_pm_running := n_pm_running n; n_cancelled := n_cancelled n;
     n_storage_open := n_storage_open n; n_stateMgr := sm |}.
Definition with_validator (n : PeerNode) (v : ValidatorService.Validator) : PeerNode :=
  {| n_did := n_did n; n_chain := n_chain n; n_validator := v;
     n_shardManager := n_shardManager n; n_pm_running := n_pm_running n; n_cancelled := n_cancelled n;
     n_storage_open := n_storage_open n; n_stateMgr := n_stateMgr n |}.
Definition with_flags (n : PeerNode) (pm cancelled open : bool) : PeerNode :=
  {| n_did := n_did n; n_chain := n_chain n; n_validator := n_validator n;
     n_shardManager := n_shardManager n; n_pm_running := pm; n_cancelled := cancelled;
     n_storage_open := open; n_stateMgr := n_stateMgr n |}.

Definition set_node_state (ty : string) (st : NodeStates.State) : io PeerNode unit := fun n =>
  match NodeStates.Set_ (n_stateMgr n) ty st with
  | Ok sm => (with_stateMgr n sm, Ok tt)
  | Err e => (n, Err e)
  | Panic => (n, Panic)
  end.
Definition on_validator {A} (m : io ValidatorService.Validator A) : io PeerNode A := fun n =>
  let '(v, r) := m (n_validator n) in (with_validator n v, r).
(** [validator.StateManager().WaitForState(ValidatorStateType, st, 10*time.Second)]
    with no other thread at work. *)
Definition await_validator (st : ValidatorStates.State) : io PeerNode unit :=
  on_validator (fun v =>
    let '(sm, r) := ValidatorStates.Wait ValidatorStateType st
                      (Node.stateMgr (ValidatorService.v_consensus v)) in
    (ValidatorService.with_mgr v sm, r)).
Definition set_flags (f : PeerNode -> PeerNode) : io PeerNode unit := fun n => (f n, Ok tt).

(** [net] is the outcome of [network.Start]. *)
Definition Node_Start (net : res unit) : io PeerNode unit :=
  _ ← set_node_state NodeStateType NodeStates.Starting;
  _ ← io_wrap "failure to start P2P network" (io_lift net);
  _ ← set_flags (fun n => with_flags n true (n_cancelled n) (n_storage_open n));
  _ ← io_wrap "failed to start validator" (on_validator ValidatorService.Start);
  _ ← io_wrap "failed to wait for validator started state" (await_validator ValidatorStates.Started);
  set_node_state NodeStateType NodeStates.Started.

(** A call whose error sets the state to Failed before it is returned. *)
Definition or_node_failed (m : io PeerNode unit) : io PeerNode unit := fun n =>
  match m n with
  | (n, Err e) => (_ ← set_node_state NodeStateType NodeStates.Failed; io_lift (Err e)) n
  | nr => nr
  end.

(** [Shutdown] until [pm.Stop], which cancels the monitor and waits for its
    workers; and what follows once they are gone.  [net] and [db] are the
    outcomes of [network.Shutdown] and of [storageManager.Close]; an error of
    the validator's shutdown is logged. *)
Definition Node_Shutdown_cancel : io PeerNode unit :=
  _ ← set_node_state NodeStateType NodeStates.Stopping;
  set_flags (fun n => with_flags n (n_pm_running n) true (n_storage_open n)).
Definition Node_Shutdown_rest (net db : res unit) : io PeerNode unit :=
  _ ← set_flags (fun n => with_flags n false (n_cancelled n) (n_storage_open n));
  _ ← (fun n => match on_validator ValidatorService.Shutdown n with
                | (n, Err _) => set_node_state ConsensusStateType NodeStates.Failed n
                | nr => nr
                end);
  _ ← or_node_failed (io_wrap "failed to wait for consensus started state"
        (await_validator ValidatorStates.Stopped));
  _ ← or_node_failed (io_lift net);
  _ ← or_node_failed (io_wrap "failed to close storage manager" (io_lift db));
  _ ← set_flags (fun n => with_flags n (n_pm_running n) (n_cancelled n) false);
  set_node_state NodeStateType NodeStates.Stopped.
Definition Node_Shutdown (net db : res unit) : io PeerNode unit :=
  _ ← Node_Shutdown_cancel;
  Node_Shutdown_rest net db.

Definition node_state (n : PeerNode) : NodeStates.State := NodeStates.Get (n_stateMgr n) NodeStateType.

(** * services/consensus: [Start] of its service
    The chain service started, the node in the resources: the validator is
    started. *)
Definition consensus_service_Start (chain_started : res unit) (node_found : bool) : io PeerNode unit :=
  _ ← io_wrap "Consensus service cannot be started because the chain service is not started"
        (io_lift chain_started);
  if node_found then on_validator ValidatorService.Start
  else io_lift (Err (ErrMsg "failure to discover global node resource")).
End PeerNode.

(** * What a new node is *)
Section spec.
Context {P VP EP : Type} `{GraphLibLaws P VP EP, !StoreJsonLaws Block VP EP}.
Context {E K FS : Type} `{Mdbx E} `{PairLib K} `{Env FS}.

(** The parts of the environment all worked. *)
Record platform_ok (pf : Platform (E := E)) (db : E) (cfg : Genesis) : Prop := {
  po_chain : pf_ChainDb pf = Ok tt;
  po_consensus : pf_ConsensusDb pf = Ok db;
  po_network : pf_NewNetwork pf = Ok tt;
  po_peers : pf_BootstrapPeersAsAddrs pf = Ok tt;
  po_discovery : pf_NewDiscoveryService pf = Ok tt;
  po_genesis : pf_Genesis pf = Ok cfg;
}.

(** The validator of a node. *)
Lemma NewValidator_ok shardCount did (db : E) vs mc :
  0 < shardCount -> IsValidator vs (acc_PeerID did) = true ->
  exists v, ValidatorService.NewValidator peer_String shardCount did (Ok db) vs mc = Ok v /\
    Node.validatorSet (ValidatorService.v_consensus v) = vs.
Proof.
  intros Hn Hv. unfold ValidatorService.NewValidator.
  eassert (ValidatorStates.Set_ ValidatorStates.New ValidatorStateType ValidatorStates.Uninitialized = Ok _)
    as -> by reflexivity.
  rewrite bind_Ok, Hv. cbn [negb]. cbv zeta.
  pose proof (ValidatorService.NewValidator_shards peer_String shardCount (acc_PeerID did) Hn) as Hsh.
  destruct (AssignValidator _ _ _ _) as [shards r]. destruct Hsh as [-> _].
  rewrite wrap_Ok, !bind_Ok. unfold Node.NewConsensus.
  eassert (ValidatorStates.Set_ _ ConsensusStateType ValidatorStates.Uninitialized = Ok _)
    as -> by reflexivity.
  rewrite !bind_Ok. cbn [Node.stateMgr].
  eassert (ValidatorStates.Set_ _ ValidatorStateType ValidatorStates.Initialized = Ok _)
    as -> by reflexivity.
  rewrite bind_Ok. by eexists.
Qed.

Lemma NewNode_run (fuel : nat) (now : Z) (ord gord : list bytes) (config : NodeConfig)
    (im : Store (K := K) (FS := FS)) (pf : Platform (E := E)) (db : E) (cfg : Genesis)
    (did : StoredAccount) (p : P) :
  platform_ok pf db cfg -> nc_PeerID config <> [] -> 0 < nc_ShardCount config ->
  st_keys im !! nc_PeerID config = Some did -> sa_PeerID did = nc_PeerID config ->
  match NewBlockchain fuel now ord gord cfg (NewLedger p) with
  | (l, Ok bc) => exists n,
      NewNode fuel now ord gord config im pf p = (l_storage l, Ok n) /\ n_chain n = bc /\
      n_did n = to_Account did /\ node_state n = NodeStates.Initialized /\
      ValidatorService.NewValidator peer_String (nc_ShardCount config) (to_Account did) (Ok db)
        (AddValidator NewValidatorSet (to_Account did)) (NewCollector default_weights) =
        Ok (n_validator n) /\
      n_stateMgr n = default NodeStates.New (match NodeStates.Set_ NodeStates.New NodeStateType NodeStates.Uninitialized with
        | Ok sm => match NodeStates.Set_ sm NodeStateType NodeStates.Initialized with Ok sm => Some sm | _ => None end
        | _ => None end)
  | (l, Err e) =>
      NewNode fuel now ord gord config im pf p =
        (l_storage l, Err (ErrWrap "failure to create new blockchain instance" e))
  | (l, Panic) => True
  end.
Proof.
  intros [P1 P2 P3 P4 P5 P6] Hid Hn Hdid Hpid. unfold NewNode.
  eassert (NodeStates.Set_ NodeStates.New NodeStateType NodeStates.Uninitialized = Ok _) as ->
    by reflexivity.
  rewrite P1, P2, P3, P4, P5, P6. rewrite bool_decide_false by done.
  unfold Manager_GetByPeerID, GetByPeerID. rewrite Hdid.
  destruct (NewValidator_ok (nc_ShardCount config) (to_Account did) db
    (AddValidator NewValidatorSet (to_Account did)) (NewCollector default_weights) Hn) as (v & Hv & _).
  { unfold IsValidator, AddValidator. cbn. apply bool_decide_eq_true. by rewrite lookup_insert_eq. }
  cbv [mbind io_bind io_lift io_wrap mret io_ret]. cbn [wrap].
  destruct (NewBlockchain _ _ _ _ _ _) as [l [bc|e|]]; [|done..]. cbn [wrap]. rewrite Hv.
  eassert (NodeStates.Set_ _ NodeStateType NodeStates.Initialized = Ok _) as -> by reflexivity.
  eexists. split; [done|]. cbn. split_and!; try done.
Qed.

(** C23: What a new node is, when the network, the databases and the genesis file
    are there.  On a chain database without blocks creating the node fails,
    because the blockchain asks the empty ledger for its latest block: the
    genesis block is never created.  On a database with blocks it succeeds and
    leaves it alone, the head is a stored block without successors, the node
    is its own only validator, so its quorum is one, and the balances and
    nonces start from zero: those of the stored blocks are not replayed. *)
Theorem NewNode_spec (fuel : nat) (now : Z) (ord gord : list bytes) (config : NodeConfig)
    (im : Store (K := K) (FS := FS)) (pf : Platform (E := E)) (db : E) (cfg : Genesis) (did : StoredAccount) (p : P)
    (V : gmap bytes (Block * VP)) (Eg : gmap (bytes * bytes) EP) :
  ledger_rep p V Eg -> adjacency_order p ord ->
  (forall h b vp, V !! h = Some (b, vp) -> (Z.to_nat (b_Index b) < fuel)%nat) ->
  platform_ok pf db cfg -> nc_PeerID config <> [] -> 0 < nc_ShardCount config ->
  st_keys im !! nc_PeerID config = Some did -> sa_PeerID did = nc_PeerID config ->
  (V = ∅ -> exists e, NewNode fuel now ord gord config im pf p =
     (p, Err (ErrWrap "failure to create new blockchain instance" e))) /\
  (V <> ∅ -> exists n head vp, NewNode fuel now ord gord config im pf p = (p, Ok n) /\
     node_state n = NodeStates.Initialized /\
     bc_head (n_chain n) = Some head /\ V !! b_Hash head = Some (head, vp) /\ leaf Eg (b_Hash head) /\
     vs_validators (Node.validatorSet (ValidatorService.v_consensus (n_validator n))) =
       {[nc_PeerID config := {| val_account := to_Account did |}]} /\
     QuorumSize (Node.validatorSet (ValidatorService.v_consensus (n_validator n))) = 1 /\
     forall a, GetBalance (l_state (bc_ledger (n_chain n))) a = 0 /\
               GetNonce (l_state (bc_ledger (n_chain n))) a = 0).
Proof.
  intros Hrep Hord Hfuel Hpf Hid Hn Hdid Hpid.
  pose proof (NewNode_run fuel now ord gord config im pf db cfg did p Hpf Hid Hn Hdid Hpid) as Hrun.
  destruct (NewBlockchain_lemma fuel now ord gord cfg (NewLedger p) V Eg) as [He Hs]; [done..|]. split.
  - intros HV. rewrite (He HV) in Hrun. by eexists.
  - intros HV. destruct (Hs HV) as (head & g & vp & vp' & Hnew & Hhead & Hleaf & _). rewrite Hnew in Hrun.
    destruct Hrun as (n & Hnode & Hbc & _ & Hst & Hval & _). exists n, head, vp.
    rewrite Hbc. split; [done|]. split; [done|]. split; [done|]. split; [done|]. split; [done|].
    destruct (NewValidator_ok (nc_ShardCount config) (to_Account did) db
      (AddValidator NewValidatorSet (to_Account did)) (NewCollector default_weights) Hn) as (v & Hv & Hvs).
    { unfold IsValidator, AddValidator. cbn. apply bool_decide_eq_true. by rewrite lookup_insert_eq. }
    rewrite Hv in Hval. injection Hval as <-. rewrite Hvs. cbn. rewrite Hpid. split; [done|]. split; [|done].
    unfold QuorumSize, AddValidator. cbn. by rewrite insert_empty, map_size_singleton.
Qed.

(** * The life of a node *)
(** A waiter that finds its state returns at once. *)
Lemma Wait_there sm st d :
  d <> ValidatorStates.Uninitialized -> ValidatorStates.Get sm st = d ->
  ValidatorStates.Wait st d sm = (sm, Ok tt).
Proof.
  unfold ValidatorStates.Get, GetState, ValidatorStates.Wait, WaitForState. intros Hd Hg.
  destruct (serviceStates sm !! st) as [s|] eqn:Hs; cbn in Hg; [|by subst].
  subst s. erewrite wait_alone_step by (cbn; by rewrite Hs).
  by erewrite wait_alone_step by (cbn; by rewrite decide_True).
Qed.

Implicit Types (n : PeerNode (P := P) (E := E)).

Lemma await_validator_there n d :
  d <> ValidatorStates.Uninitialized ->
  ValidatorService.state_of (n_validator n) ValidatorStateType = d ->
  await_validator d n = (n, Ok tt).
Proof.
  intros Hd Hs. unfold await_validator, on_validator. unfold ValidatorService.state_of in Hs.
  rewrite (Wait_there _ _ _ Hd Hs). destruct n as [a b v sh pm ca so sm]. destruct v as [did shm c].
  by destruct c.
Qed.

(** Nobody waits on the states of a node here. *)
Lemma set_node_state_ok n ty st :
  waitChans (n_stateMgr n) = ∅ -> exists sm,
  set_node_state ty st n = (with_stateMgr n sm, Ok tt) /\
  NodeStates.Get sm ty = st /\ waitChans sm = ∅.
Proof.
  intros Hw. unfold set_node_state, NodeStates.Set_, SetState. rewrite Hw, lookup_empty.
  destruct (NodeStates.notifies st); eexists; (split; [done|]); cbn; unfold NodeStates.Get, GetState; cbn;
    by rewrite lookup_insert_eq.
Qed.

(** Starting, when the network comes up and when it does not. *)
Lemma Node_Start_run n v1 :
  waitChans (n_stateMgr n) = ∅ ->
  ValidatorService.Start (n_validator n) = (v1, Ok tt) ->
  ValidatorService.state_of v1 ValidatorStateType = ValidatorStates.Started ->
  (exists n1, Node_Start (Ok tt) n = (n1, Ok tt) /\ n_validator n1 = v1 /\
     node_state n1 = NodeStates.Started /\ n_pm_running n1 = true /\
     n_storage_open n1 = n_storage_open n /\ waitChans (n_stateMgr n1) = ∅) /\
  (forall e, exists n1, Node_Start (Err e) n = (n1, Err (ErrWrap "failure to start P2P network" e)) /\
     node_state n1 = NodeStates.Starting /\ n_validator n1 = n_validator n).
Proof.
  intros Hw Hv Hs. unfold Node_Start.
  destruct (set_node_state_ok n NodeStateType NodeStates.Starting Hw) as (sm & E1 & G1 & W1).
  split.
  - set (n2 := with_validator (with_flags (with_stateMgr n sm) true (n_cancelled n) (n_storage_open n)) v1).
    destruct (set_node_state_ok n2 NodeStateType NodeStates.Started W1) as (sm' & E2 & G2 & W2).
    exists (with_stateMgr n2 sm'). split; [|done].
    rewrite (io_bind_Ok _ _ _ _ _ E1).
    erewrite io_bind_Ok by reflexivity. erewrite io_bind_Ok by reflexivity.
    rewrite (io_bind_Ok _ _ _ n2 tt).
    + rewrite (io_bind_Ok _ _ _ n2 tt); [exact E2|]. unfold io_wrap.
      by rewrite await_validator_there.
    + unfold io_wrap, on_validator. cbn [n_validator with_flags with_stateMgr]. by rewrite Hv.
  - intros e. exists (with_stateMgr n sm). split; [|done].
    rewrite (io_bind_Ok _ _ _ _ _ E1). by erewrite io_bind_Err by reflexivity.
Qed.

Lemma or_node_failed_Ok m n n' : m n = (n', Ok tt) -> or_node_failed m n = (n', Ok tt).
Proof. unfold or_node_failed. by intros ->. Qed.
Lemma or_node_failed_Err m n n' e :
  m n = (n', Err e) -> waitChans (n_stateMgr n') = ∅ -> exists sm,
  or_node_failed m n = (with_stateMgr n' sm, Err e) /\ NodeStates.Get sm NodeStateType = NodeStates.Failed.
Proof.
  unfold or_node_failed. intros -> Hw.
  destruct (set_node_state_ok n' NodeStateType NodeStates.Failed Hw) as (sm & E1 & G1 & _).
  exists sm. split; [|done]. by rewrite (io_bind_Ok _ _ _ _ _ E1).
Qed.

Lemma Node_Shutdown_cancel_run n :
  waitChans (n_stateMgr n) = ∅ -> exists nb, Node_Shutdown_cancel n = (nb, Ok tt) /\
    node_state nb = NodeStates.Stopping /\ n_cancelled nb = true /\ n_pm_running nb = n_pm_running n /\
    n_storage_open nb = n_storage_open n /\ n_validator nb = n_validator n /\ waitChans (n_stateMgr nb) = ∅.
Proof.
  intros Hw. destruct (set_node_state_ok n NodeStateType NodeStates.Stopping Hw) as (sm & E1 & G1 & W1).
  eexists. split; [unfold Node_Shutdown_cancel; rewrite (io_bind_Ok _ _ _ _ _ E1); reflexivity|]. done.
Qed.

Lemma Node_Shutdown_run n v2 :
  waitChans (n_stateMgr n) = ∅ ->
  ValidatorService.Shutdown (n_validator n) = (v2, Ok tt) ->
  ValidatorService.state_of v2 ValidatorStateType = ValidatorStates.Stopped ->
  (exists n2, Node_Shutdown (Ok tt) (Ok tt) n = (n2, Ok tt) /\ n_validator n2 = v2 /\
     node_state n2 = NodeStates.Stopped /\ n_pm_running n2 = false /\ n_cancelled n2 = true /\
     n_storage_open n2 = false) /\
  (forall e db, exists n2, Node_Shutdown (Err e) db n = (n2, Err e) /\
     node_state n2 = NodeStates.Failed /\ n_validator n2 = v2 /\ n_storage_open n2 = n_storage_open n).
Proof.
  intros Hw Hv Hs.
  destruct (Node_Shutdown_cancel_run n Hw) as (nb & Eb & _ & Hc & _ & Ho & Hval & W1).
  set (n2 := with_validator (with_flags nb false (n_cancelled nb) (n_storage_open nb)) v2).
  assert (forall k : io PeerNode unit, (_ ← Node_Shutdown_cancel;
    _ ← set_flags (fun n => with_flags n false (n_cancelled n) (n_storage_open n));
    _ ← (fun n => match on_validator ValidatorService.Shutdown n with
                | (n, Err _) => set_node_state ConsensusStateType NodeStates.Failed n
                | nr => nr end);
    _ ← or_node_failed (io_wrap "failed to wait for consensus started state"
        (await_validator ValidatorStates.Stopped)); k) n = k n2) as Hpre.
  { intros k. rewrite (io_bind_Ok _ _ _ _ _ Eb). erewrite io_bind_Ok by reflexivity.
    rewrite (io_bind_Ok _ _ _ n2 tt).
    - rewrite (io_bind_Ok _ _ _ n2 tt); [done|]. apply or_node_failed_Ok. unfold io_wrap.
      by rewrite await_validator_there.
    - unfold on_validator. cbn [n_validator with_flags]. by rewrite Hval, Hv. }
  unfold Node_Shutdown, Node_Shutdown_rest. split.
  - rewrite Hpre. rewrite (io_bind_Ok _ _ _ n2 tt) by by apply or_node_failed_Ok.
    rewrite (io_bind_Ok _ _ _ n2 tt) by by apply or_node_failed_Ok.
    erewrite io_bind_Ok by reflexivity.
    match goal with |- context [set_node_state _ _ ?x] =>
      destruct (set_node_state_ok x NodeStateType NodeStates.Stopped W1) as (sm' & -> & G2 & _) end.
    eexists. split; [done|]. done.
  - intros e db. rewrite Hpre.
    destruct (or_node_failed_Err (io_lift (Err e)) n2 n2 e eq_refl W1) as (sm' & E2 & G2).
    exists (with_stateMgr n2 sm'). rewrite (io_bind_Err _ _ _ _ _ E2). done.
Qed.

Lemma NewNode_inv fuel now ord gord config (im : Store (K := K) (FS := FS)) (pf : Platform (E := E))
    (p p' : P) n :
  NewNode fuel now ord gord config im pf p = (p', Ok n) ->
  waitChans (n_stateMgr n) = ∅ /\ n_storage_open n = true /\ exists db vs mc,
    ValidatorService.NewValidator peer_String (nc_ShardCount config) (n_did n) db vs mc =
      Ok (n_validator n).
Proof.
  unfold NewNode. eassert (NodeStates.Set_ NodeStates.New NodeStateType NodeStates.Uninitialized = Ok _) as ->
    by reflexivity.
  intros Hn. apply io_bind_inv in Hn as (s1 & sm & [= <- <-] & Hn).
  destruct (bool_decide _); [done|].
  io_inv.
  repeat match goal with H : Ok _ = Ok _ |- _ => injection H as <- end.
  match goal with H : NodeStates.Set_ _ _ NodeStates.Initialized = Ok _ |- _ =>
    vm_compute in H; injection H as <- end.
  cbn. split; [done|]. split; [done|]. eauto.
Qed.

(** C22: The life of a node.  A node that was created starts: its validator and
    its consensus module are Started and so is the node.  Whatever messages the
    consensus module then handles, shutting the node down stops the monitor,
    the validator and the consensus module, cancels the context and closes the
    storage, and the node is Stopped; while it waits for the monitor it is
    Stopping, with its context cancelled and everything else untouched.  When
    the network does not come up, starting returns its error, the node stays
    Starting and the validator is untouched; when the network does not go
    down, shutting down returns its error, the node is Failed and the storage
    stays open. *)
Theorem node_lifecycle topic fuel now ord gord config (im : Store (K := K) (FS := FS))
    (pf : Platform (E := E)) (p p' : P) n :
  0 < nc_ShardCount config ->
  NewNode fuel now ord gord config im pf p = (p', Ok n) ->
  (exists n1, Node_Start (Ok tt) n = (n1, Ok tt) /\ node_state n1 = NodeStates.Started /\
     ValidatorService.state_of (n_validator n1) ValidatorStateType = ValidatorStates.Started /\
     ValidatorService.state_of (n_validator n1) ConsensusStateType = ValidatorStates.Started /\
     forall c, Node.runs peer_String topic (ValidatorService.v_consensus (n_validator n1)) c ->
       let n1' := with_validator n1 (ValidatorService.with_consensus (n_validator n1) c) in
       (exists nb, Node_Shutdown_cancel n1' = (nb, Ok tt) /\ node_state nb = NodeStates.Stopping /\
          n_cancelled nb = true /\ n_pm_running nb = true /\ n_storage_open nb = true /\
          n_validator nb = n_validator n1' /\
          forall netdown db, Node_Shutdown netdown db n1' = Node_Shutdown_rest netdown db nb) /\
       (exists n2, Node_Shutdown (Ok tt) (Ok tt) n1' = (n2, Ok tt) /\
          node_state n2 = NodeStates.Stopped /\ n_pm_running n2 = false /\ n_cancelled n2 = true /\
          n_storage_open n2 = false /\
          ValidatorService.state_of (n_validator n2) ValidatorStateType = ValidatorStates.Stopped /\
          ValidatorService.state_of (n_validator n2) ConsensusStateType = ValidatorStates.Stopped) /\
       (forall e db, exists n2, Node_Shutdown (Err e) db n1' = (n2, Err e) /\
          node_state n2 = NodeStates.Failed /\ n_storage_open n2 = true)) /\
  (forall e, exists n1, Node_Start (Err e) n = (n1, Err (ErrWrap "failure to start P2P network" e)) /\
     node_state n1 = NodeStates.Starting /\ n_validator n1 = n_validator n).
Proof.
  intros Hsh Hnew. destruct (NewNode_inv _ _ _ _ _ _ _ _ _ _ Hnew) as (Hw & Hopen & db & vs & mc & Hval).
  destruct (ValidatorService.validator_lifecycle peer_String (nc_ShardCount config) _ _ _ _ _ topic Hsh Hval)
    as (_ & _ & v1 & Hv1 & Hs1 & Hs2 & Hrun).
  destruct (Node_Start_run n v1 Hw Hv1 Hs1) as [(n1 & Hst & <- & Hns & Hpm & Ho & Hw1) Hfail].
  split; [|exact Hfail]. exists n1. do 4 (split; [done|]). intros c Hc. cbv zeta.
  destruct (Hrun c Hc) as (v2 & Hv2 & Hz1 & Hz2 & _).
  destruct (Node_Shutdown_run (with_validator n1 (ValidatorService.with_consensus (n_validator n1) c)) v2 Hw1 Hv2 Hz1)
    as [(n2 & Hd & <- & ? & ? & ? & ?) Herr].
  split.
  { destruct (Node_Shutdown_cancel_run (with_validator n1 (ValidatorService.with_consensus (n_validator n1) c)) Hw1)
      as (nb & Eb & Hst' & Hcn & Hpm' & Hob & Hvb & _).
    exists nb. split_and!; [done..|by rewrite Hpm'|by rewrite Hob; cbn; rewrite Ho|done|].
    intros netdown db'. unfold Node_Shutdown. by rewrite (io_bind_Ok _ _ _ _ _ Eb). }
  split; [exists n2; by split_and!|]. intros e db'. destruct (Herr e db') as (n3 & ? & ? & _ & Hop).
  exists n3. split_and!; [done|done|]. rewrite Hop. cbn. by rewrite Ho.
Qed.
End spec.

(** * A node over a chain of one block *)
Import MemoryFS.
Definition node_account : StoredAccount (K := Pair bytes bytes bytes bytes) :=
  {| sa_ID := str "61"; sa_Address := ZeroAddress; sa_PeerID := str "a"; sa_Name := "node";
     sa_PeerPrivateKey := str "sk"; sa_PeerPublicKey := str "pk"; sa_Signers := ∅; sa_Comment := "" |}.
Definition node_accounts : ToyStore :=
  {| st_keys := {[str "a" := node_account]}; st_addresses := ∅; st_fs := ∅ |}.
Definition node_config : NodeConfig := {| nc_PeerID := str "a"; nc_ShardCount := 4 |}.
Definition node_platform : Platform (E := MemDb) :=
  {| pf_ChainDb := Ok tt; pf_ConsensusDb := Ok ∅; pf_NewNetwork := Ok tt;
     pf_BootstrapPeersAsAddrs := Ok tt; pf_NewDiscoveryService := Ok tt; pf_Genesis := Ok genesis_example |}.
Lemma node_platform_ok : platform_ok node_platform (∅ : MemDb) genesis_example.
Proof. by split. Qed.
Definition new_node : MemDb * res (PeerNode (P := MemDb) (E := MemDb)) :=
  NewNode (EP := unit) 1 1700000150 (order_of (l_storage ledger1)) [] node_config node_accounts
    node_platform (l_storage ledger1).

Lemma NewNode_spec_witness : exists n head,
  new_node.2 = Ok n /\ bc_head (n_chain n) = Some head /\
  forall a, GetBalance (l_state (bc_ledger (n_chain n))) a = 0.
Proof.
  destruct ledger1_rep as [Eg Hrep].
  destruct (NewNode_spec (VP := unit) (EP := unit) 1 1700000150 (order_of (l_storage ledger1)) [] node_config
    node_accounts node_platform (∅ : MemDb) genesis_example node_account (l_storage ledger1)
    {[ b_Hash genesis_block := (genesis_block, tt) ]} Eg) as [_ H].
  - exact Hrep.
  - apply ledger1_order.
  - apply ledger1_fuel.
  - apply node_platform_ok.
  - discriminate.
  - reflexivity.
  - reflexivity.
  - reflexivity.
  - destruct (H (map_non_empty_singleton _ _)) as (n & head & vp & Hn & _ & Hh & _ & _ & _ & _ & Hb).
    exists n, head. unfold new_node. rewrite Hn. split; [reflexivity|]. split; [exact Hh|].
    intros a. apply (Hb a).
Defined.

Lemma node_lifecycle_witness : exists n n1,
  new_node.2 = Ok n /\ Node_Start (Ok tt) n = (n1, Ok tt) /\ node_state n1 = NodeStates.Started.
Proof.
  assert (is_ok new_node.2 = true) as Hok by (vm_compute; reflexivity).
  destruct new_node as [p' [n|e|]] eqn:Hn; [|discriminate Hok|discriminate Hok].
  destruct (node_lifecycle (EP := unit) topic_ok 1 1700000150 (order_of (l_storage ledger1)) []
    node_config node_accounts node_platform (l_storage ledger1) p' n ltac:(reflexivity) Hn)
    as [(n1 & Hs & Hst & _) _].
  exists n, n1. split; [reflexivity|]. split; [exact Hs|exact Hst].
Defined.
