(* ===== verification/Topology.v ===== *)
(** [pkg/topology]: the messages ([message.go]), the peers of the manager
    ([manager.go]) and the nodes of the shared network ([state.go]).

    A [peer.ID] and an address are byte strings; the entries of the two maps
    are not changed once they are in them, so the maps hold values.  Metrics,
    logging and the cancelled context are left out; broadcasting only
    serializes and logs. *)
From S2P Require Import Prelude Bytes Packets.

(** * message.go *)
Definition PeerJoinMessage : Z := 1.
Definition PeerLeaveMessage : Z := 2.
Definition TopologyUpdateMessage : Z := 3.

Record TopologyMessage := {
  tm_Type : Z;
  tm_SenderID : bytes;
  tm_PeerID : bytes;
  tm_Addresses : list bytes;
}.
#[export] Instance TopologyMessage_eq_dec : EqDecision TopologyMessage.
Proof. solve_decision. Defined.

(** A length in one byte, [uint8(len(d))], and the bytes. *)
Definition put_u8_block (d : bytes) : bytes := byte_of_Z (Zlen d) :: d.
Definition get_u8_block (what_len what : string) : reader bytes :=
  n ← rwrap what_len read_byte;
  rwrap what (buffer_read (Z_of_byte n)).

Definition Topology_Serialize (tm : TopologyMessage) : res bytes :=
  Ok ([byte_of_Z (tm_Type tm)] ++ put_u8_block (tm_SenderID tm) ++ put_u8_block (tm_PeerID tm) ++
      [byte_of_Z (Zlen (tm_Addresses tm))] ++ concat (put_u8_block <$> tm_Addresses tm)).

Definition DeserializeTopologyMessage_reader : reader TopologyMessage :=
  msgType ← rwrap "failed to read message type" read_byte;
  senderID ← get_u8_block "failed to read sender ID length" "failed to read sender ID";
  peerID ← get_u8_block "failed to read peer ID length" "failed to read peer ID";
  numAddresses ← rwrap "failed to read number of addresses" read_byte;
  addresses ← repeat_read (Z.to_nat (Z_of_byte numAddresses))
    (get_u8_block "failed to read address length" "failed to read address");
  mret {| tm_Type := Z_of_byte msgType; tm_SenderID := senderID; tm_PeerID := peerID;
          tm_Addresses := addresses |}.
Definition DeserializeTopologyMessage (data : bytes) : res TopologyMessage :=
  run_reader DeserializeTopologyMessage_reader data.

(** ** What comes back *)
Definition tiny (d : bytes) : Prop := Zlen d < 2 ^ 8.
Record TopologyMessage_ok (tm : TopologyMessage) : Prop := {
  tm_Type_ok : is_u8 (tm_Type tm);
  tm_SenderID_ok : tiny (tm_SenderID tm);
  tm_PeerID_ok : tiny (tm_PeerID tm);
  tm_Addresses_ok : Forall tiny (tm_Addresses tm);
}.

Lemma get_u8_block_reads a b d : tiny d -> reads anything (get_u8_block a b) (put_u8_block d) d.
Proof.
  intros Hd. unfold get_u8_block, put_u8_block. change (byte_of_Z (Zlen d) :: d) with ([byte_of_Z (Zlen d)] ++ d).
  eapply reads_bind_rest; [apply reads_wrap, read_byte_reads|].
  apply reads_wrap, buffer_read_reads. pose proof (Zlen_nonneg d). unfold tiny in Hd.
  by rewrite Z_of_byte_of_Z, Z.mod_small.
Qed.

Lemma topology_reads_back tm data :
  TopologyMessage_ok tm -> Topology_Serialize tm = Ok data ->
  DeserializeTopologyMessage data = Ok
    {| tm_Type := tm_Type tm; tm_SenderID := tm_SenderID tm; tm_PeerID := tm_PeerID tm;
       tm_Addresses := take (Z.to_nat (Zlen (tm_Addresses tm) mod 2 ^ 8)) (tm_Addresses tm) |}.
Proof.
  intros [Ht Hs Hp Ha] Hd.
  assert (data = [byte_of_Z (tm_Type tm)] ++ put_u8_block (tm_SenderID tm) ++ put_u8_block (tm_PeerID tm) ++
      [byte_of_Z (Zlen (tm_Addresses tm))] ++ concat (put_u8_block <$> tm_Addresses tm)) as ->
    by by injection Hd. clear Hd.
  set (n := Z.to_nat (Zlen (tm_Addresses tm) mod 2 ^ 8)).
  assert (Z.to_nat (Z_of_byte (byte_of_Z (Zlen (tm_Addresses tm)))) = n) as Hn.
  { by rewrite Z_of_byte_of_Z. }
  assert (length (take n (tm_Addresses tm)) = n) as Hlen.
  { rewrite length_take. pose proof (Z.mod_le (Zlen (tm_Addresses tm)) (2 ^ 8) (Zlen_nonneg _) eq_refl).
    unfold n, Zlen in *. lia. }
  unfold DeserializeTopologyMessage. rewrite <- (take_drop n (tm_Addresses tm)) at 2.
  rewrite fmap_app, concat_app, !app_assoc.
  apply (reads_run anything); [|done]. rewrite <- !app_assoc. unfold DeserializeTopologyMessage_reader.
  eapply reads_bind_rest; [apply reads_wrap, read_byte_reads|].
  eapply reads_bind_rest; [by apply get_u8_block_reads|].
  eapply reads_bind_rest; [by apply get_u8_block_reads|].
  eapply reads_bind_rest; [apply reads_wrap, read_byte_reads|].
  rewrite Hn, <- (app_nil_r (concat _)). eapply reads_bind_rest.
  - rewrite <- Hlen at 1. apply (repeat_read_reads _ put_u8_block id). intros d Hd.
    apply get_u8_block_reads. apply (Forall_take _ n) in Ha. rewrite Forall_forall in Ha. by apply Ha.
  - rewrite list_fmap_id, Z_of_byte_of_Z, Z.mod_small by done. apply reads_ret.
Qed.

(** A topology message whose identifiers and addresses are shorter than 256
    bytes comes back from its serialization; of more than 255 addresses only
    the first [n mod 256] do, without an error, since their number is written
    in one byte.  Decoding never panics. *)
Theorem TopologyMessage_roundtrip tm data :
  TopologyMessage_ok tm -> Topology_Serialize tm = Ok data ->
  (Zlen (tm_Addresses tm) < 2 ^ 8 -> DeserializeTopologyMessage data = Ok tm) /\
  (exists tm', DeserializeTopologyMessage data = Ok tm' /\
     tm_Addresses tm' = take (Z.to_nat (Zlen (tm_Addresses tm) mod 2 ^ 8)) (tm_Addresses tm)) /\
  forall data', no_panic (DeserializeTopologyMessage data').
Proof.
  intros Hok Hd. rewrite (topology_reads_back tm data Hok Hd). split; [|split].
  - intros Hlt. pose proof (Zlen_nonneg (tm_Addresses tm)). rewrite Z.mod_small by lia.
    rewrite firstn_all2 by (unfold Zlen; lia). by destruct tm.
  - by eexists.
  - intros data'. unfold DeserializeTopologyMessage. apply safe_run.
    unfold DeserializeTopologyMessage_reader, get_u8_block.
    repeat first [apply safe_repeat|progress safe_tac].
Qed.

Definition message_example : TopologyMessage :=
  {| tm_Type := PeerJoinMessage; tm_SenderID := str "a"; tm_PeerID := str "b";
     tm_Addresses := [str "/ip4/1.2.3.4"; []] |}.
Lemma TopologyMessage_roundtrip_witness :
  exists data, Topology_Serialize message_example = Ok data /\
    DeserializeTopologyMessage data = Ok message_example.
Proof.
  eexists. split; [reflexivity|].
  apply (TopologyMessage_roundtrip message_example); [|reflexivity|vm_compute; reflexivity].
  split; try (vm_compute; (reflexivity || (split; [discriminate|reflexivity]))).
  repeat apply Forall_cons_2; try apply Forall_nil_2; vm_compute; reflexivity.
Defined.

(** * state.go: the nodes of the network *)
Record Node := { nd_PeerID : bytes; nd_Addresses : list bytes }.
Abbreviation NetworkTopology := (gmap bytes Node).
Definition NewNetworkTopology : NetworkTopology := ∅.
Definition AddNode (nt : NetworkTopology) (peerID : bytes) (addresses : list bytes) : NetworkTopology :=
  match nt !! peerID with
  | Some _ => nt
  | None => <[peerID := {| nd_PeerID := peerID; nd_Addresses := addresses |}]> nt
  end.
Definition RemoveNode (nt : NetworkTopology) (peerID : bytes) : NetworkTopology := delete peerID nt.
Definition GetNode (nt : NetworkTopology) (peerID : bytes) : res Node :=
  match nt !! peerID with Some node => Ok node | None => Err (ErrMsg "node %s not found") end.
Definition GetAllNodes (nt : NetworkTopology) (ord : list bytes) : list Node :=
  omap (fun k => nt !! k) ord.

(** * manager.go, topology.go: the manager with its network *)
Record PeerInfo := { pi_ID : bytes; pi_Addresses : list bytes; pi_Status : string }.
Record TopologyManager := { tm_peers : gmap bytes PeerInfo; tm_topology : NetworkTopology }.
Definition NewTopology : TopologyManager :=
  {| tm_peers := ∅; tm_topology := NewNetworkTopology |}.

Definition AddPeer (peerID : bytes) (addresses : list bytes) : io TopologyManager unit := fun tm =>
  match tm_peers tm !! peerID with
  | Some _ => (tm, Err (ErrMsg "peer %s already exists in topology"))
  | None =>
      ({| tm_peers := <[peerID := {| pi_ID := peerID; pi_Addresses := addresses;
                                     pi_Status := "connected" |}]> (tm_peers tm);
          tm_topology := AddNode (tm_topology tm) peerID addresses |}, Ok tt)
  end.
Definition RemovePeer (peerID : bytes) : io TopologyManager unit := fun tm =>
  match tm_peers tm !! peerID with
  | None => (tm, Err (ErrMsg "peer %s not found in topology"))
  | Some _ =>
      ({| tm_peers := delete peerID (tm_peers tm);
          tm_topology := RemoveNode (tm_topology tm) peerID |}, Ok tt)
  end.
Definition GetPeers (tm : TopologyManager) (ord : list bytes) : list PeerInfo :=
  omap (fun k => tm_peers tm !! k) ord.
(** [BroadcastTopologyMessage] serializes the message and logs. *)
Definition BroadcastTopologyMessage (msg : TopologyMessage) : res unit :=
  _ ← Topology_Serialize msg; Ok tt.

Inductive topology_reachable : TopologyManager -> Prop :=
| topology_new : topology_reachable NewTopology
| topology_add tm p a : topology_reachable tm -> topology_reachable (AddPeer p a tm).1
| topology_remove tm p : topology_reachable tm -> topology_reachable (RemovePeer p tm).1.

Definition same_peers (tm : TopologyManager) : Prop := forall p,
  tm_topology tm !! p = (fun i => {| nd_PeerID := p; nd_Addresses := pi_Addresses i |}) <$> tm_peers tm !! p /\
  forall i, tm_peers tm !! p = Some i -> pi_ID i = p /\ pi_Status i = "connected"%string.

Lemma topology_same_peers tm : topology_reachable tm -> same_peers tm.
Proof.
  induction 1 as [|tm p a _ IH|tm p _ IH]; intros q; [by cbn; rewrite !lookup_empty| |];
    destruct (IH q) as [E1 E2]; destruct (IH p) as [P1 P2].
  - unfold AddPeer, AddNode. destruct (tm_peers tm !! p) as [i|] eqn:E; [done|]. cbn. rewrite P1. cbn.
    destruct (decide (p = q)) as [->|Hne]; [rewrite !lookup_insert_eq|rewrite !lookup_insert_ne by done; by split].
    split; [done|]. by intros i [= <-].
  - unfold RemovePeer, RemoveNode. destruct (tm_peers tm !! p) as [i|] eqn:E; [|done]. cbn.
    destruct (decide (p = q)) as [->|Hne]; [by rewrite !lookup_delete_eq|rewrite !lookup_delete_ne by done; by split].
Qed.

(** The manager and the network agree.  In every state reached by adding and
    removing peers, the nodes of the network are the peers of the manager with
    the same addresses, every peer is connected; adding succeeds exactly for
    unknown peers and removing exactly for known ones, and both leave the
    other peers alone. *)
Theorem topology_spec tm p addresses :
  topology_reachable tm ->
  (forall q, (exists i, tm_peers tm !! q = Some i) <-> is_ok (GetNode (tm_topology tm) q) = true) /\
  (forall q i, tm_peers tm !! q = Some i ->
     GetNode (tm_topology tm) q = Ok {| nd_PeerID := q; nd_Addresses := pi_Addresses i |} /\
     pi_ID i = q /\ pi_Status i = "connected"%string) /\
  ((AddPeer p addresses tm).2 = Ok tt <-> tm_peers tm !! p = None) /\
  ((RemovePeer p tm).2 = Ok tt <-> tm_peers tm !! p <> None) /\
  ((AddPeer p addresses tm).2 = Ok tt -> GetNode (tm_topology (AddPeer p addresses tm).1) p =
     Ok {| nd_PeerID := p; nd_Addresses := addresses |}) /\
  (is_ok (GetNode (tm_topology (RemovePeer p tm).1) p) = false) /\
  (forall q, q <> p -> tm_peers (AddPeer p addresses tm).1 !! q = tm_peers tm !! q /\
     tm_peers (RemovePeer p tm).1 !! q = tm_peers tm !! q).
Proof.
  intros Hr. pose proof (topology_same_peers tm Hr) as Hs.
  assert (forall q i, tm_peers tm !! q = Some i ->
     GetNode (tm_topology tm) q = Ok {| nd_PeerID := q; nd_Addresses := pi_Addresses i |} /\
     pi_ID i = q /\ pi_Status i = "connected"%string) as Hall.
  { intros q i Hq. destruct (Hs q) as [E1 E2]. unfold GetNode. rewrite E1, Hq. cbn. auto. }
  split; [|split; [done|]].
  - intros q. destruct (Hs q) as [E1 _]. unfold GetNode. rewrite E1.
    destruct (tm_peers tm !! q) as [i|]; cbn; naive_solver.
  - pose proof (topology_same_peers _ (topology_add tm p addresses Hr) p) as [Ea _].
    pose proof (topology_same_peers _ (topology_remove tm p Hr) p) as [Er _].
    unfold GetNode. rewrite Ea, Er. clear Ea Er. unfold AddPeer, RemovePeer.
    destruct (tm_peers tm !! p) as [i|] eqn:E; cbn; rewrite ?E, ?lookup_insert_eq, ?lookup_delete_eq; cbn;
      split_and!; try naive_solver.
    + intros q Hq. by rewrite lookup_delete_ne.
    + intros q Hq. by rewrite lookup_insert_ne.
Qed.

Definition topology_example : TopologyManager := (AddPeer (str "a") [str "x"] NewTopology).1.
Lemma topology_spec_witness :
  GetNode (tm_topology topology_example) (str "a") =
    Ok {| nd_PeerID := str "a"; nd_Addresses := [str "x"] |} /\
  (AddPeer (str "a") [] topology_example).2 <> Ok tt.
Proof.
  destruct (topology_spec topology_example (str "a") []) as (_ & H & Ha & _).
  - apply topology_add, topology_new.
  - split.
    + apply (H (str "a") {| pi_ID := str "a"; pi_Addresses := [str "x"]; pi_Status := "connected" |}).
      by vm_compute.
    + rewrite Ha. by vm_compute.
Defined.
