(* ===== verification/TopologyMetrics.v ===== *)
(** [pkg/topology/metrics.go]: the collector of latencies and bandwidths.

    A latency is a [time.Duration], 64 bits with a sign; a bandwidth a float64.
    The loops over the maps take the order in which they visit the peers. *)
From Stdlib Require Import Floats.SpecFloat.
From S2P Require Import Prelude Bytes Validators.

(** * Folds over the values of a map *)
(** The element a loop [if better(x, best) { best = x }] ends with. *)
Section Best.
Context {A : Type} (better : A -> A -> bool).
Definition best (start : A) (l : list A) : A :=
  fold_left (fun b a => if better a b then a else b) l start.

Context (irrefl : forall a, better a a = false)
  (trans : forall a b c, better a b = true -> better b c = true -> better a c = true).

Lemma best_spec l : forall start,
  (best start l = start \/ best start l ∈ l /\ better (best start l) start = true) /\
  forall a, a = start \/ a ∈ l -> better a (best start l) = false.
Proof.
  induction l as [|x l IH]; intros start; cbn [best fold_left].
  { split; [by left|]. intros a [-> |Ha]; [apply irrefl|by apply not_elem_of_nil in Ha]. }
  change (fold_left _ l ?s) with (best s l). destruct (better x start) eqn:Hx.
  - destruct (IH x) as [Hin Hmax]. split.
    + right. destruct Hin as [-> |[Hin Hb]]; (split; [|eauto]); [left|by right].
    + intros a [-> |[-> |Ha]%elem_of_cons]; [|apply Hmax; auto..].
      apply not_true_iff_false. intros Hs. specialize (Hmax x (or_introl eq_refl)).
      by rewrite (trans _ _ _ Hx Hs) in Hmax.
  - destruct (IH start) as [Hin Hmax]. split.
    + destruct Hin as [-> |[Hin Hb]]; [by left|right]. split; [by right|done].
    + intros a [-> |[-> |Ha]%elem_of_cons]; [apply Hmax; auto| |apply Hmax; auto].
      apply not_true_iff_false. intros Hs. destruct Hin as [He|[_ Hb]].
      * by rewrite He, Hx in Hs.
      * by rewrite (trans _ _ _ Hs Hb) in Hx.
Qed.
End Best.

Lemma i64_add_i64 a b : i64 (i64 a + b) = i64 (a + b).
Proof.
  assert (exists k, i64 a = a + k * 2 ^ 64) as [k ->].
  { unfold i64, signed. cbv zeta. pose proof (Z.div_mod a (2 ^ 64) ltac:(lia)).
    destruct (_ <? _); [exists (- (a / 2 ^ 64))|exists (- (a / 2 ^ 64) - 1)]; lia. }
  unfold i64. rewrite <- (signed_mod 64 (a + k * 2 ^ 64 + b)) by lia.
  replace (a + k * 2 ^ 64 + b) with (a + b + k * 2 ^ 64) by lia.
  by rewrite Z.mod_add, signed_mod.
Qed.

Definition sumZ (l : list Z) : Z := foldr Z.add 0 l.
#[export] Instance sumZ_Permutation : Proper (Permutation ==> eq) sumZ.
Proof. intros l l' Hl. unfold sumZ. induction Hl; cbn; lia. Qed.

Lemma fold_sum l : forall t, fold_left (fun t x => i64 (t + x)) l (i64 t) = i64 (t + sumZ l).
Proof.
  induction l as [|x l IH]; intros t; cbn.
  - by rewrite Z.add_0_r.
  - rewrite i64_add_i64, IH. f_equal. unfold sumZ. cbn. lia.
Qed.
Lemma sum_bounds lo hi l :
  Forall (fun x => lo <= x <= hi) l -> Z.of_nat (length l) * lo <= sumZ l <= Z.of_nat (length l) * hi.
Proof. unfold sumZ. induction 1; cbn; lia. Qed.
Lemma quot_bounds s n lo hi : 0 < n -> n * lo <= s <= n * hi -> lo <= Z.quot s n <= hi.
Proof.
  intros Hn [H1 H2]. split.
  - rewrite <- (Z.quot_mul lo n) by lia. apply Z.quot_le_mono; lia.
  - rewrite <- (Z.quot_mul hi n) by lia. apply Z.quot_le_mono; lia.
Qed.

(** * The collector *)
Record MetricsCollector := { peerLatencies : gmap bytes Z; peerBandwidth : gmap bytes float64 }.
Definition NewMetricsCollector : MetricsCollector := {| peerLatencies := ∅; peerBandwidth := ∅ |}.

Definition RecordLatency (mc : MetricsCollector) (peerID : bytes) (latency : Z) : MetricsCollector :=
  {| peerLatencies := <[peerID := latency]> (peerLatencies mc); peerBandwidth := peerBandwidth mc |}.
Definition RecordBandwidth (mc : MetricsCollector) (peerID : bytes) (bandwidth : float64) : MetricsCollector :=
  {| peerLatencies := peerLatencies mc; peerBandwidth := <[peerID := bandwidth]> (peerBandwidth mc) |}.
Definition GetLatency (mc : MetricsCollector) (peerID : bytes) : Z * bool :=
  match peerLatencies mc !! peerID with Some latency => (latency, true) | None => (0, false) end.
Definition GetBandwidth (mc : MetricsCollector) (peerID : bytes) : float64 * bool :=
  match peerBandwidth mc !! peerID with Some bandwidth => (bandwidth, true) | None => (f_zero, false) end.

(** [for _, v := range m]. *)
Definition values {A} (m : gmap bytes A) (ord : list bytes) : list A := omap (fun p => m !! p) ord.

Definition CalculateAverageLatency (mc : MetricsCollector) (ord : list bytes) : Z :=
  let totalLatency := fold_left (fun t latency => i64 (t + latency)) (values (peerLatencies mc) ord) 0 in
  if Nat.eqb (size (peerLatencies mc)) 0 then 0
  else Z.quot totalLatency (Z.of_nat (size (peerLatencies mc))).
Definition CalculateTotalBandwidth (mc : MetricsCollector) (ord : list bytes) : float64 :=
  fold_left f_add (values (peerBandwidth mc) ord) f_zero.

Definition MaxInt64 : Z := 2 ^ 63 - 1.
Definition GetMinLatency (mc : MetricsCollector) (ord : list bytes) : Z :=
  let minLatency := best Z.ltb MaxInt64 (values (peerLatencies mc) ord) in
  if minLatency =? MaxInt64 then 0 else minLatency.
Definition GetMaxBandwidth (mc : MetricsCollector) (ord : list bytes) : float64 :=
  best f_gt f_zero (values (peerBandwidth mc) ord).

(** * Recordings *)
Inductive recording := Latency (peerID : bytes) (latency : Z) | Bandwidth (peerID : bytes) (bandwidth : float64).
Definition record (mc : MetricsCollector) (r : recording) : MetricsCollector :=
  match r with
  | Latency p l => RecordLatency mc p l
  | Bandwidth p b => RecordBandwidth mc p b
  end.
Definition recorded (log : list recording) : MetricsCollector := fold_left record log NewMetricsCollector.
(** The values a log has for a peer, the last first. *)
Definition latencies_of (p : bytes) (log : list recording) : list Z :=
  omap (fun r => match r with Latency q l => if decide (q = p) then Some l else None | _ => None end) (rev log).
Definition bandwidths_of (p : bytes) (log : list recording) : list float64 :=
  omap (fun r => match r with Bandwidth q b => if decide (q = p) then Some b else None | _ => None end) (rev log).

(** The collector keeps the last value of either kind for each peer. *)
Lemma recorded_lookup log p :
  peerLatencies (recorded log) !! p = head (latencies_of p log) /\
  peerBandwidth (recorded log) !! p = head (bandwidths_of p log).
Proof.
  unfold latencies_of, bandwidths_of, recorded. induction log as [|r log IH] using rev_ind.
  { split; apply lookup_empty. }
  rewrite fold_left_app, rev_unit. cbn [fold_left omap list_omap]. destruct IH as [IHl IHb].
  destruct r as [q l|q b]; cbn; destruct (decide (q = p)) as [-> |Hne];
    rewrite ?lookup_insert_eq, ?lookup_insert_ne by done; auto.
Qed.

(** * The statistics *)
Lemma values_in {A} (m : gmap bytes A) ord a : is_order m ord -> a ∈ values m ord <-> exists p, m !! p = Some a.
Proof.
  intros Hord. unfold values. rewrite list_elem_of_omap. split.
  - intros (p & _ & Hp). eauto.
  - intros [p Hp]. exists p. split; [|done]. by apply (is_order_elem _ _ _ Hord).
Qed.
Lemma values_length {A} (m : gmap bytes A) ord : is_order m ord -> length (values m ord) = size m.
Proof. intros Hord. unfold values. rewrite (is_order_values _ _ Hord), length_fmap. apply length_map_to_list. Qed.

Definition total_latency (mc : MetricsCollector) : Z := sumZ (map_to_list (peerLatencies mc)).*2.

Lemma average_total mc ord : is_order (peerLatencies mc) ord ->
  CalculateAverageLatency mc ord =
    if Nat.eqb (size (peerLatencies mc)) 0 then 0
    else Z.quot (i64 (total_latency mc)) (Z.of_nat (size (peerLatencies mc))).
Proof.
  intros Hord. unfold CalculateAverageLatency. cbv zeta.
  pose proof (fold_sum (values (peerLatencies mc) ord) 0) as Hf.
  rewrite (i64_small 0), Z.add_0_l in Hf by (unfold is_i64; lia). rewrite Hf.
  unfold values. by rewrite (is_order_values _ _ Hord).
Qed.

(** The average does not depend on the order of the loop; it is the sum within 64
    bits divided by the number of peers, rounded to zero, so between the bounds of
    the latencies whenever their sum has no overflow.  The minimum is one of the
    latencies and below all others, except that it is 0 when there is none below
    the greatest duration, and that includes peers that have just this latency. *)
Theorem latency_statistics (mc : MetricsCollector) (ord : list bytes) :
  is_order (peerLatencies mc) ord -> map_Forall (fun _ => is_i64) (peerLatencies mc) ->
  (peerLatencies mc = ∅ -> CalculateAverageLatency mc ord = 0) /\
  (peerLatencies mc <> ∅ -> CalculateAverageLatency mc ord =
     Z.quot (i64 (total_latency mc)) (Z.of_nat (size (peerLatencies mc)))) /\
  (peerLatencies mc <> ∅ -> is_i64 (total_latency mc) ->
     forall lo hi, map_Forall (fun _ l => lo <= l <= hi) (peerLatencies mc) ->
     lo <= CalculateAverageLatency mc ord <= hi) /\
  (GetMinLatency mc ord = 0 /\ map_Forall (fun _ l => l = MaxInt64) (peerLatencies mc) \/
   (exists p, peerLatencies mc !! p = Some (GetMinLatency mc ord)) /\
     map_Forall (fun _ l => GetMinLatency mc ord <= l) (peerLatencies mc)).
Proof.
  intros Hord H64. rewrite (average_total _ _ Hord).
  assert (peerLatencies mc <> ∅ -> Nat.eqb (size (peerLatencies mc)) 0 = false) as Hsz.
  { intros Hne. apply Nat.eqb_neq. by intros ?%map_size_empty_inv. }
  split; [by intros ->|]. split; [by intros ->%Hsz|]. split.
  { intros Hne Htot lo hi Hb. rewrite Hsz, i64_small by done. specialize (Hsz Hne). apply Nat.eqb_neq in Hsz.
    apply quot_bounds; [lia|]. rewrite <- (length_map_to_list (peerLatencies mc)), <- (length_fmap snd).
    apply sum_bounds, Forall_forall. intros l ([p l'] & -> & Hin%elem_of_map_to_list)%list_elem_of_fmap.
    by apply (Hb p). }
  destruct (best_spec Z.ltb Z.ltb_irrefl ltac:(lia) (values (peerLatencies mc) ord) MaxInt64) as [Hin Hmin].
  unfold GetMinLatency. cbv zeta. set (b := best _ _ _) in *.
  assert (map_Forall (fun _ l => b <= l) (peerLatencies mc)) as Hall.
  { intros p l Hp. assert (l ∈ values (peerLatencies mc) ord) as Hl by (apply values_in; eauto).
    specialize (Hmin l (or_intror Hl)). lia. }
  destruct (Z.eqb_spec b MaxInt64) as [Hb|Hb].
  - left. split; [done|]. intros p l Hp. specialize (Hall p l Hp). specialize (H64 p l Hp).
    unfold is_i64, MaxInt64 in *. cbn in *. lia.
  - right. split; [|done]. destruct Hin as [?|[Hin _]]; [done|]. by apply values_in in Hin.
Qed.

(** The greatest bandwidth is a recorded one above 0 that no other exceeds, or 0
    when none is above 0; bandwidths that are not numbers never count. *)
Theorem bandwidth_maximum (mc : MetricsCollector) (ord : list bytes) :
  is_order (peerBandwidth mc) ord ->
  (GetMaxBandwidth mc ord = f_zero \/
   (exists p, peerBandwidth mc !! p = Some (GetMaxBandwidth mc ord)) /\
     f_gt (GetMaxBandwidth mc ord) f_zero = true) /\
  map_Forall (fun _ b => f_gt b (GetMaxBandwidth mc ord) = false) (peerBandwidth mc).
Proof.
  intros Hord. unfold GetMaxBandwidth.
  destruct (best_spec f_gt f_gt_irrefl f_gt_trans (values (peerBandwidth mc) ord) f_zero) as [Hin Hmax].
  split.
  - destruct Hin as [->|[Hin Hgt]]; [by left|right]. split; [|done]. by apply values_in in Hin.
  - intros p b Hp. apply Hmax. right. apply values_in; eauto.
Qed.

(** * Examples *)
Definition slow_peers : MetricsCollector := recorded [Latency (str "a") (2 ^ 62); Latency (str "b") 5; Latency (str "b") (2 ^ 62)].
Lemma slow_peers_order : is_order (peerLatencies slow_peers) [str "b"; str "a"].
Proof. apply (bool_decide_eq_true_1 (_ ≡ₚ _)). by vm_compute. Qed.

(** Two latencies of 146 years: the sum overflows and the average is negative. *)
Example average_overflows : CalculateAverageLatency slow_peers [str "b"; str "a"] = - 2 ^ 62.
Proof. by vm_compute. Qed.
Lemma latency_statistics_witness : GetMinLatency slow_peers [str "b"; str "a"] = 2 ^ 62 /\
  CalculateAverageLatency slow_peers [str "b"; str "a"] = Z.quot (i64 (total_latency slow_peers)) 2.
Proof.
  split; [by vm_compute|].
  refine (proj1 (proj2 (latency_statistics slow_peers [str "b"; str "a"] slow_peers_order _)) _).
  - apply (bool_decide_eq_true_1 (map_Forall (fun _ z => - 2 ^ 63 <= z < 2 ^ 63) _)). by vm_compute.
  - intros He. apply (f_equal size) in He. revert He. by vm_compute.
Defined.

(** 2^53 and twice 1: the sum of floats depends on the order of the loop. *)
Definition f_2_53 : float64 := S754_finite false 4503599627370496 1.
Definition three_links : MetricsCollector :=
  recorded [Bandwidth (str "a") f_2_53; Bandwidth (str "b") f_one; Bandwidth (str "c") f_one].
Lemma total_bandwidth_order : exists ord ord',
  is_order (peerBandwidth three_links) ord /\ is_order (peerBandwidth three_links) ord' /\
  f_gt (CalculateTotalBandwidth three_links ord) (CalculateTotalBandwidth three_links ord') = true.
Proof.
  exists [str "b"; str "c"; str "a"], [str "a"; str "b"; str "c"].
  split; [apply (bool_decide_eq_true_1 (_ ≡ₚ _)); by vm_compute|].
  split; [apply (bool_decide_eq_true_1 (_ ≡ₚ _)); by vm_compute|by vm_compute].
Qed.
Lemma bandwidth_maximum_witness :
  map_Forall (fun _ b => f_gt b (GetMaxBandwidth three_links [str "b"; str "c"; str "a"]) = false)
    (peerBandwidth three_links).
Proof.
  apply (bandwidth_maximum three_links [str "b"; str "c"; str "a"]).
  apply (bool_decide_eq_true_1 (_ ≡ₚ _)). by vm_compute.
Defined.
