(* ===== verification/Routing.v ===== *)
(** [pkg/routing]: the route entries ([entry.go], [signature.go]) and the
    routing manager ([manager.go]), with the kernel's map of routes behind it
    ([pkg/ebpf/manager.go] and [types.go]).

    The map itself is the kernel's: a [Class] states what is used of it.
    Signing and verifying go through methods the account manager does not have
    (the package does not compile), so they are parameters; an entry is not
    changed once it is in the map of routes. *)
From stdpp Require Import pretty.
From S2P Require Import Prelude Bytes Packets.

(** * net.IP *)
Definition v4InV6Prefix : bytes := zeros 10 ++ [Byte.xff; Byte.xff].
Definition To4 (ip : bytes) : option bytes :=
  if Zlen ip =? 4 then Some ip
  else if (Zlen ip =? 16) && bool_decide (take 12 ip = v4InV6Prefix) then Some (drop 12 ip)
  else None.
(** nil is the empty slice. *)
Definition To16 (ip : bytes) : bytes :=
  if Zlen ip =? 4 then v4InV6Prefix ++ ip else if Zlen ip =? 16 then ip else [].

Definition print_nat (z : Z) : bytes := str (pretty (Z.to_N z)).
Fixpoint join (sep : bytes) (l : list bytes) : bytes :=
  match l with [] => [] | [x] => x | x :: l => x ++ sep ++ join sep l end.
Fixpoint groups (ip : bytes) : list Z :=
  match ip with a :: b :: ip => be_Z [a; b] :: groups ip | _ => [] end.
(** A group in hexadecimal, without leading zeros. *)
Fixpoint strip_zeros (s : bytes) : bytes :=
  match s with
  | [] | [_] => s
  | c :: s' => if bool_decide (c = Byte.x30) then strip_zeros s' else s
  end.
Definition print_group (g : Z) : bytes := strip_zeros (hex_encode (be_bytes 2 g)).
Fixpoint zero_run (l : list Z) : nat := match l with 0 :: l => S (zero_run l) | _ => 0 end.
(** The first of the longest runs of zero groups: its place and length. *)
Fixpoint best_run (i : nat) (l : list Z) (best : nat * nat) : nat * nat :=
  match l with
  | [] => best
  | _ :: l' => best_run (S i) l' (if bool_decide (best.2 < zero_run l)%nat then (i, zero_run l) else best)
  end.
Definition print_v6 (gs : list Z) : bytes :=
  let '(i, n) := best_run 0 gs (0%nat, 1%nat) in
  if bool_decide (n < 2)%nat then join (str ":") (print_group <$> gs)
  else join (str ":") (print_group <$> take i gs) ++ str "::" ++
       join (str ":") (print_group <$> drop (i + n) gs).
Definition IP_String (ip : bytes) : bytes :=
  if Zlen ip =? 0 then str "<nil>"
  else match To4 ip with
       | Some ip4 => join (str ".") ((fun b => print_nat (Z_of_byte b)) <$> ip4)
       | None => if Zlen ip =? 16 then print_v6 (groups ip) else str "?" ++ hex_encode ip
       end.
Example IP_String_examples :
  IP_String [Byte.x0a; Byte.x00; Byte.x00; Byte.x01] = str "10.0.0.1" /\
  IP_String (zeros 15 ++ [Byte.x01]) = str "::1" /\
  IP_String ([Byte.x20; Byte.x01; Byte.x0d; Byte.xb8] ++ zeros 11 ++ [Byte.x01]) = str "2001:db8::1".
Proof. by vm_compute. Qed.

(** * entry.go *)
Record RouteEntry := {
  re_SrcIP : bytes;
  re_DstIP : bytes;
  re_SrcPort : Z;
  re_DstPort : Z;
  re_NextHopMAC : bytes;
  re_Signature : bytes;
}.
#[export] Instance RouteEntry_eq_dec : EqDecision RouteEntry.
Proof. solve_decision. Defined.

Definition RouteEntry_Serialize (re : RouteEntry) : res bytes :=
  Ok (To16 (re_SrcIP re) ++ To16 (re_DstIP re) ++ be_bytes 2 (re_SrcPort re) ++
      be_bytes 2 (re_DstPort re) ++ re_NextHopMAC re ++
      be_bytes 2 (Zlen (re_Signature re)) ++ re_Signature re).

(** [buf.Read(p)] into an array that already holds [p]: a short read leaves its
    end as it was. *)
Definition read_into (p : bytes) : reader bytes := fun s =>
  if Zlen s =? 0 then Err EOF
  else Ok (take (length p) s ++ drop (length s) p, drop (length p) s).

(** Both addresses are read into [ipBytes], and both fields are that slice: the
    source address becomes what was read for the destination. *)
Definition DeserializeRouteEntry_reader : reader RouteEntry :=
  ipBytes ← rwrap "failed to deserialize SrcIP" (read_into (zeros 16));
  ipBytes ← rwrap "failed to deserialize DstIP" (read_into ipBytes);
  srcPort ← rwrap "failed to deserialize SrcPort" (read_be 2);
  dstPort ← rwrap "failed to deserialize DstPort" (read_be 2);
  macBytes ← rwrap "failed to deserialize NextHopMAC" (reader_read 6);
  sigLen ← rwrap "failed to deserialize Signature length" (read_be 2);
  signature ← rwrap "failed to deserialize Signature" (reader_read sigLen);
  mret {| re_SrcIP := ipBytes; re_DstIP := ipBytes; re_SrcPort := srcPort; re_DstPort := dstPort;
          re_NextHopMAC := macBytes; re_Signature := signature |}.
Definition DeserializeRouteEntry (data : bytes) : res RouteEntry :=
  run_reader DeserializeRouteEntry_reader data.

(** * signature.go *)
Definition uint16ToBytes (val : Z) : bytes := [byte_of_Z (Z.shiftr val 8); byte_of_Z (Z.land val 255)].
Definition getSignableData (re : RouteEntry) : bytes :=
  To16 (re_SrcIP re) ++ To16 (re_DstIP re) ++ uint16ToBytes (re_SrcPort re) ++
  uint16ToBytes (re_DstPort re) ++ re_NextHopMAC re.

(** * pkg/ebpf: the kernel's routes *)
Record RouteKey := { rk_SrcIP : Z; rk_DstIP : Z; rk_SrcPort : Z; rk_DstPort : Z; rk_Pad : Z }.
Record RouteValue := { rv_NextHopMAC : bytes; rv_Pad : Z }.
#[export] Instance RouteKey_eq_dec : EqDecision RouteKey.
Proof. solve_decision. Defined.
#[export] Program Instance RouteKey_countable : Countable RouteKey :=
  inj_countable (fun k => (rk_SrcIP k, rk_DstIP k, rk_SrcPort k, rk_DstPort k, rk_Pad k))
    (fun '(a, b, c, d, e) => Some {| rk_SrcIP := a; rk_DstIP := b; rk_SrcPort := c; rk_DstPort := d;
                                     rk_Pad := e |}) _.
Next Obligation. by intros []. Qed.

Definition ipToUint32 (ip : bytes) : Z := match To4 ip with None => 0 | Some ip4 => be_Z ip4 end.
Definition constructKey (entry : RouteEntry) : RouteKey :=
  {| rk_SrcIP := ipToUint32 (re_SrcIP entry); rk_DstIP := ipToUint32 (re_DstIP entry);
     rk_SrcPort := re_SrcPort entry; rk_DstPort := re_DstPort entry; rk_Pad := 0 |}.
Definition constructValue (entry : RouteEntry) : RouteValue :=
  {| rv_NextHopMAC := copy_into (zeros 6) (re_NextHopMAC entry); rv_Pad := 0 |}.

(** A map of the kernel: [Put] replaces the value of a key, [Delete] of a
    missing key is an error. *)
Class BpfMap (M : Type) := {
  bpf_contents : M -> gmap RouteKey RouteValue;
  bpf_Put : M -> RouteKey -> RouteValue -> M * res unit;
  bpf_Delete : M -> RouteKey -> M * res unit;
}.
Class BpfMapLaws (M : Type) `{BpfMap M} := {
  bpf_Put_law m k v :
    match bpf_Put m k v with
    | (m', Ok _) => bpf_contents m' = <[k := v]> (bpf_contents m)
    | (m', _) => bpf_contents m' = bpf_contents m
    end;
  bpf_Delete_law m k :
    match bpf_Delete m k with
    | (m', Ok _) => is_Some (bpf_contents m !! k) /\ bpf_contents m' = delete k (bpf_contents m)
    | (m', _) => bpf_contents m' = bpf_contents m
    end;
}.

Section Routing.
Context {M : Type} `{BpfMap M}.
(** [identityManager.VerifySignature(peerID, data, signature)]. *)
Context (VerifySignature : bytes -> bytes -> bytes -> res bool).

(** The kernel's map is nil until a program with one is loaded. *)
Record RoutingManager := { rm_kernel : option M; rm_Routes : gmap bytes RouteEntry }.
Definition NewRoutingManager (ebpfManager : option M) : RoutingManager :=
  {| rm_kernel := ebpfManager; rm_Routes := ∅ |}.

Definition on_kernel (failed : string) (f : M -> M * res unit) : io RoutingManager unit := fun rm =>
  match rm_kernel rm with
  | None => (rm, Err (ErrMsg "routes_map is not initialized"))
  | Some m => let '(m, r) := f m in
      ({| rm_kernel := Some m; rm_Routes := rm_Routes rm |}, wrap failed r)
  end.
Definition ebpf_AddRoute (entry : RouteEntry) : io RoutingManager unit :=
  on_kernel "failed to add route to eBPF map"
    (fun m => bpf_Put m (constructKey entry) (constructValue entry)).
Definition ebpf_DeleteRoute (entry : RouteEntry) : io RoutingManager unit :=
  on_kernel "failed to delete route from eBPF map" (fun m => bpf_Delete m (constructKey entry)).

(** * manager.go *)
Definition VerifyRouteEntrySignature (entry : RouteEntry) (peerID : bytes) : res bool :=
  wrap "failed to verify route entry signature"
    (VerifySignature peerID (getSignableData entry) (re_Signature entry)).
(** [if err != nil || !valid]. *)
Definition signature_valid (entry : RouteEntry) : res bool :=
  match VerifyRouteEntrySignature entry (IP_String (re_SrcIP entry)) with
  | Ok valid => Ok valid
  | Err _ => Ok false
  | Panic => Panic
  end.
Definition getRouteKey (entry : RouteEntry) : bytes :=
  IP_String (re_SrcIP entry) ++ str ":" ++ print_nat (re_SrcPort entry) ++ str "-" ++
  IP_String (re_DstIP entry) ++ str ":" ++ print_nat (re_DstPort entry).

Definition put_route (entry : RouteEntry) : io RoutingManager unit := fun rm =>
  ({| rm_kernel := rm_kernel rm; rm_Routes := <[getRouteKey entry := entry]> (rm_Routes rm) |}, Ok tt).
Definition drop_route (entry : RouteEntry) : io RoutingManager unit := fun rm =>
  ({| rm_kernel := rm_kernel rm; rm_Routes := delete (getRouteKey entry) (rm_Routes rm) |}, Ok tt).

Definition AddRoute (entry : RouteEntry) : io RoutingManager unit :=
  valid ← io_lift (signature_valid entry);
  if negb valid then io_lift (Err (ErrMsg "invalid signature for route entry"))
  else
    _ ← io_wrap "failed to add route to eBPF" (ebpf_AddRoute entry);
    put_route entry.
Definition DeleteRoute (entry : RouteEntry) : io RoutingManager unit :=
  _ ← io_wrap "failed to delete route from eBPF" (ebpf_DeleteRoute entry);
  drop_route entry.
(** [net] is the outcome of [BroadcastData]. *)
Definition ShareRoute (BroadcastData : bytes -> res unit) (entry : RouteEntry) : res unit :=
  data ← wrap "failed to serialize route entry" (RouteEntry_Serialize entry);
  wrap "failed to share route entry" (BroadcastData data).
Definition HandleIncomingRoute (data : bytes) : io RoutingManager unit :=
  entry ← io_wrap "failed to deserialize route entry" (io_lift (DeserializeRouteEntry data));
  valid ← io_lift (signature_valid entry);
  if negb valid then io_lift (Err (ErrMsg "invalid signature for incoming route"))
  else io_wrap "failed to add incoming route" (AddRoute entry).
End Routing.

(** * What a shared route becomes *)
Definition ip_ok (ip : bytes) : Prop := Zlen ip = 4 \/ Zlen ip = 16.
Record RouteEntry_ok (re : RouteEntry) : Prop := {
  re_SrcIP_ok : ip_ok (re_SrcIP re);
  re_DstIP_ok : ip_ok (re_DstIP re);
  re_SrcPort_ok : 0 <= re_SrcPort re < 2 ^ 16;
  re_DstPort_ok : 0 <= re_DstPort re < 2 ^ 16;
  re_NextHopMAC_ok : Zlen (re_NextHopMAC re) = 6;
  re_Signature_ok : Zlen (re_Signature re) < 2 ^ 16;
}.
(** The entry on the other side. *)
Definition received (re : RouteEntry) : RouteEntry :=
  {| re_SrcIP := To16 (re_DstIP re); re_DstIP := To16 (re_DstIP re); re_SrcPort := re_SrcPort re;
     re_DstPort := re_DstPort re; re_NextHopMAC := re_NextHopMAC re; re_Signature := re_Signature re |}.

Lemma length_To16 ip : ip_ok ip -> length (To16 ip) = 16%nat.
Proof.
  unfold ip_ok, To16. intros [E|E]; rewrite E; cbn [Z.eqb Pos.eqb]; unfold Zlen in E; [|lia].
  rewrite length_app. change (length v4InV6Prefix) with 12%nat. lia.
Qed.
Lemma To16_idem ip : ip_ok ip -> To16 (To16 ip) = To16 ip.
Proof. intros Hip. apply length_To16 in Hip as Hl. unfold To16 at 1, Zlen. by rewrite Hl. Qed.

Lemma read_into_reads p e : length p = length e -> e <> [] -> reads anything (read_into p) e e.
Proof.
  intros Hp He rest _. unfold read_into. destruct (Z.eqb_spec (Zlen (e ++ rest)) 0) as [Hz|_].
  { apply Zlen_0 in Hz. by destruct e. }
  rewrite Hp, take_app_length, drop_app_length. rewrite (drop_ge p) by (rewrite length_app; lia).
  by rewrite app_nil_r.
Qed.

(** Reading the encoding of [a] and going on with the rest. *)
Lemma reads_step {A B} P (m : reader A) (k : A -> reader B) e a rest :
  reads P m e a -> P rest -> (m ≫= k) (e ++ rest) = k a rest.
Proof. intros Hm HP. cbv [mbind reader_bind]. by rewrite Hm. Qed.
Lemma read_be_step {B} text (n : nat) v (k : Z -> reader B) rest :
  0 <= v < 2 ^ (8 * Z.of_nat n) -> (rwrap text (read_be n) ≫= k) (be_bytes n v ++ rest) = k v rest.
Proof.
  intros Hv. erewrite (reads_step anything); [|apply reads_wrap, read_be_reads|done]. by rewrite Z.mod_small.
Qed.

(** Everything up to the signature. *)
Lemma route_head_step re :
  RouteEntry_ok re ->
  DeserializeRouteEntry_reader
    (To16 (re_SrcIP re) ++ To16 (re_DstIP re) ++ be_bytes 2 (re_SrcPort re) ++
     be_bytes 2 (re_DstPort re) ++ re_NextHopMAC re ++ be_bytes 2 (Zlen (re_Signature re)) ++
     re_Signature re) =
  (signature ← rwrap "failed to deserialize Signature" (reader_read (Zlen (re_Signature re)));
   mret {| re_SrcIP := To16 (re_DstIP re); re_DstIP := To16 (re_DstIP re); re_SrcPort := re_SrcPort re;
           re_DstPort := re_DstPort re; re_NextHopMAC := re_NextHopMAC re; re_Signature := signature |})
    (re_Signature re).
Proof.
  intros [Hs Hd Hsp Hdp Hm Hsig]. pose proof (length_To16 _ Hs) as Ls. pose proof (length_To16 _ Hd) as Ld.
  unfold DeserializeRouteEntry_reader.
  erewrite (reads_step anything);
    [|apply reads_wrap, read_into_reads; [by rewrite Ls|by intros E; rewrite E in Ls]|done].
  erewrite (reads_step anything);
    [|apply reads_wrap, read_into_reads; [by rewrite Ls, Ld|by intros E; rewrite E in Ld]|done].
  rewrite read_be_step by done. rewrite read_be_step by done.
  erewrite reads_step; [|by apply reads_wrap, reader_read_reads|].
  - rewrite read_be_step; [done|]. split; [apply Zlen_nonneg|done].
  - cbn beta. by destruct (re_NextHopMAC re).
Qed.

Lemma route_decoded re :
  RouteEntry_ok re -> exists data, RouteEntry_Serialize re = Ok data /\
  DeserializeRouteEntry data =
    if bool_decide (re_Signature re = []) then Err (ErrWrap "failed to deserialize Signature" EOF)
    else Ok (received re).
Proof.
  intros Hok. eexists. split; [reflexivity|]. unfold DeserializeRouteEntry, run_reader.
  rewrite (route_head_step re Hok). case_bool_decide as Hsig; [by rewrite Hsig|].
  pose proof (reader_read_reads (Zlen (re_Signature re)) (re_Signature re) eq_refl []) as Hr.
  rewrite !app_nil_r in Hr. specialize (Hr Hsig). cbv [mbind reader_bind]. unfold rwrap. by rewrite Hr.
Qed.

Lemma DeserializeRouteEntry_safe data : no_panic (DeserializeRouteEntry data).
Proof.
  unfold DeserializeRouteEntry. apply safe_run. unfold DeserializeRouteEntry_reader.
  assert (forall p, safe (read_into p)) as Hin by (intros p s; unfold read_into; by case_match).
  repeat first [apply Hin|progress safe_tac].
Qed.

(** A route entry does not survive its own encoding.  Whatever entry with
    valid fields is serialized, decoding gives an entry whose source address
    is the destination address, since the decoder reads both into one slice;
    the other fields come back.  An entry without a signature is refused,
    because reading nothing at the end of the data is an error.  Decoding
    never panics. *)
Theorem route_source_lost re data :
  RouteEntry_ok re -> RouteEntry_Serialize re = Ok data ->
  (re_Signature re <> [] -> DeserializeRouteEntry data = Ok (received re)) /\
  (re_Signature re = [] -> DeserializeRouteEntry data =
     Err (ErrWrap "failed to deserialize Signature" EOF)) /\
  forall data', no_panic (DeserializeRouteEntry data').
Proof.
  intros Hok Hdata. destruct (route_decoded re Hok) as (data1 & E & Hd).
  rewrite Hdata in E. injection E as <-. rewrite Hd. split; [|split].
  - intros Hsig. by rewrite bool_decide_false.
  - intros Hsig. by rewrite bool_decide_true.
  - apply DeserializeRouteEntry_safe.
Qed.

(** A signed route is refused.  When a signature is accepted for the data it
    was made for and no other, every peer that gets a shared route between two
    different addresses rejects it without a change, because it checks the
    signature against an entry whose source is the destination. *)
Theorem shared_route_rejected {M : Type} `{BpfMap M}
    (VerifySignature : bytes -> bytes -> bytes -> res bool) re (rm : RoutingManager (M := M)) data :
  RouteEntry_ok re -> re_Signature re <> [] ->
  (forall id d, no_panic (VerifySignature id d (re_Signature re))) ->
  (forall id d, VerifySignature id d (re_Signature re) = Ok true -> d = getSignableData re) ->
  To16 (re_SrcIP re) <> To16 (re_DstIP re) -> RouteEntry_Serialize re = Ok data ->
  HandleIncomingRoute VerifySignature data rm =
    (rm, Err (ErrMsg "invalid signature for incoming route")).
Proof.
  intros Hok Hsig Hnp Hver Hne Hdata. destruct (route_decoded re Hok) as (data1 & E & Hd).
  rewrite Hdata in E. injection E as <-. rewrite bool_decide_false in Hd by done.
  unfold HandleIncomingRoute. cbv [mbind io_bind io_wrap io_lift]. rewrite Hd. cbn [wrap].
  assert (signature_valid VerifySignature (received re) = Ok false) as ->; [|done].
  unfold signature_valid, VerifyRouteEntrySignature. cbn [re_Signature received].
  specialize (Hnp (IP_String (re_SrcIP (received re))) (getSignableData (received re))).
  specialize (Hver (IP_String (re_SrcIP (received re))) (getSignableData (received re))).
  destruct (VerifySignature _ _ _) as [[]|e|]; [|done..]. exfalso. apply Hne.
  specialize (Hver eq_refl). unfold getSignableData in Hver. cbn [re_SrcIP re_DstIP received] in Hver.
  destruct Hok as [Hs Hd' _ _ _ _]. rewrite To16_idem in Hver by done.
  apply app_inj_1 in Hver as [Hver _]; [done|]. by rewrite !length_To16.
Qed.

(** Two entries without an IPv4 address and with the same ports share a key. *)
Lemma constructKey_v6 e1 e2 :
  To4 (re_SrcIP e1) = None -> To4 (re_DstIP e1) = None ->
  To4 (re_SrcIP e2) = None -> To4 (re_DstIP e2) = None ->
  re_SrcPort e1 = re_SrcPort e2 -> re_DstPort e1 = re_DstPort e2 -> constructKey e1 = constructKey e2.
Proof. unfold constructKey, ipToUint32. by intros -> -> -> -> -> ->. Qed.

Section collide.
Context {M : Type} `{BpfMapLaws M} (VerifySignature : bytes -> bytes -> bytes -> res bool).
Implicit Types (rm : RoutingManager (M := M)).

Lemma AddRoute_Ok e rm rm' :
  AddRoute VerifySignature e rm = (rm', Ok tt) -> exists m m',
  rm_kernel rm = Some m /\ rm_kernel rm' = Some m' /\
  bpf_contents m' = <[constructKey e := constructValue e]> (bpf_contents m) /\
  rm_Routes rm' = <[getRouteKey e := e]> (rm_Routes rm).
Proof.
  unfold AddRoute. intros Ha. apply io_bind_inv in Ha as (s1 & valid & [= <- _] & Ha).
  destruct (negb valid); [done|]. apply io_bind_inv in Ha as (s2 & [] & He%io_wrap_inv & Ha).
  unfold ebpf_AddRoute, on_kernel in He. destruct (rm_kernel rm) as [m|]; [|done].
  pose proof (bpf_Put_law m (constructKey e) (constructValue e)) as Hl.
  destruct (bpf_Put m _ _) as [m' [[]|x|]]; [|done..]. injection He as <-. injection Ha as <-.
  by exists m, m'.
Qed.
Lemma DeleteRoute_Ok e rm rm' :
  DeleteRoute e rm = (rm', Ok tt) -> exists m m',
  rm_kernel rm = Some m /\ rm_kernel rm' = Some m' /\
  bpf_contents m' = delete (constructKey e) (bpf_contents m) /\
  rm_Routes rm' = delete (getRouteKey e) (rm_Routes rm).
Proof.
  unfold DeleteRoute. intros Ha. apply io_bind_inv in Ha as (s2 & [] & He%io_wrap_inv & Ha).
  unfold ebpf_DeleteRoute, on_kernel in He. destruct (rm_kernel rm) as [m|]; [|done].
  pose proof (bpf_Delete_law m (constructKey e)) as Hl.
  destruct (bpf_Delete m _) as [m' [[]|x|]]; [|done..]. injection He as <-. injection Ha as <-.
  exists m, m'. by destruct Hl.
Qed.

(** IPv6 routes collide in the kernel.  The kernel's key holds IPv4
    addresses and zero for all others, so of two IPv6 routes with the same
    ports the second takes the first one's place: after both were added the
    kernel forwards packets of the first to the next hop of the second, and
    after the second is deleted the first is still in the manager's map but no
    longer in the kernel's. *)
Theorem ipv6_routes_collide e1 e2 rm rm1 rm2 rm3 :
  To4 (re_SrcIP e1) = None -> To4 (re_DstIP e1) = None ->
  To4 (re_SrcIP e2) = None -> To4 (re_DstIP e2) = None ->
  re_SrcPort e1 = re_SrcPort e2 -> re_DstPort e1 = re_DstPort e2 -> getRouteKey e1 <> getRouteKey e2 ->
  AddRoute VerifySignature e1 rm = (rm1, Ok tt) -> AddRoute VerifySignature e2 rm1 = (rm2, Ok tt) ->
  DeleteRoute e2 rm2 = (rm3, Ok tt) ->
  rm_Routes rm2 !! getRouteKey e1 = Some e1 /\
  (rm_kernel rm2 ≫= (fun m => bpf_contents m !! constructKey e1)) = Some (constructValue e2) /\
  rm_Routes rm3 !! getRouteKey e1 = Some e1 /\
  (rm_kernel rm3 ≫= (fun m => bpf_contents m !! constructKey e1)) = None.
Proof.
  intros S1 D1 S2 D2 Hs Hd Hne H1 H2 H3. rewrite (constructKey_v6 e1 e2) by done.
  apply AddRoute_Ok in H1 as (m0 & m1 & _ & K1 & C1 & R1).
  apply AddRoute_Ok in H2 as (m1' & m2 & K1' & K2 & C2 & R2).
  apply DeleteRoute_Ok in H3 as (m2' & m3 & K2' & K3 & C3 & R3). simplify_eq.
  rewrite K2, K3. cbn. rewrite C3, C2, R3, R2, R1.
  rewrite lookup_insert_eq, lookup_delete_eq, lookup_delete_ne, !lookup_insert_ne, !lookup_insert_eq by done.
  done.
Qed.
End collide.

(** * Examples *)
#[export] Instance mem_bpf : BpfMap (gmap RouteKey RouteValue) := {|
  bpf_contents m := m;
  bpf_Put m k v := (<[k := v]> m, Ok tt);
  bpf_Delete m k := match m !! k with
    | Some _ => (delete k m, Ok tt)
    | None => (m, Err (ErrMsg "key does not exist")) end |}.
#[export] Program Instance mem_bpf_laws : BpfMapLaws (gmap RouteKey RouteValue).
Next Obligation. done. Qed.
Next Obligation. intros m k. cbn. destruct (m !! k) eqn:E; [|done]. by split; [eexists|]. Qed.

Definition v4_route : RouteEntry :=
  {| re_SrcIP := [Byte.x0a; Byte.x00; Byte.x00; Byte.x01]; re_DstIP := [Byte.x0a; Byte.x00; Byte.x00; Byte.x02];
     re_SrcPort := 80; re_DstPort := 443; re_NextHopMAC := zeros 6; re_Signature := str "sig" |}.
Definition v6_route (n : Z) : RouteEntry :=
  {| re_SrcIP := [Byte.x20; Byte.x01] ++ zeros 13 ++ [byte_of_Z n]; re_DstIP := zeros 15 ++ [Byte.x01];
     re_SrcPort := 80; re_DstPort := 443; re_NextHopMAC := zeros 5 ++ [byte_of_Z n];
     re_Signature := str "sig" |}.
Lemma v4_route_ok : RouteEntry_ok v4_route.
Proof. split; try (left; reflexivity); vm_compute; (reflexivity || (split; [discriminate|reflexivity])). Qed.

Lemma route_source_lost_witness : exists data re,
  RouteEntry_Serialize v4_route = Ok data /\ DeserializeRouteEntry data = Ok re /\
  IP_String (re_SrcIP re) = str "10.0.0.2".
Proof.
  eexists _, (received v4_route). split; [reflexivity|]. split; [|by vm_compute].
  apply (route_source_lost v4_route); [apply v4_route_ok|reflexivity|discriminate].
Defined.

(** A scheme that knows what "sig" was made for. *)
Definition verify_v4 (id d sig : bytes) : res bool := Ok (bool_decide (d = getSignableData v4_route)).
Lemma shared_route_rejected_witness : exists data,
  RouteEntry_Serialize v4_route = Ok data /\
  HandleIncomingRoute verify_v4 data (NewRoutingManager (Some (∅ : gmap RouteKey RouteValue))) =
    (NewRoutingManager (Some ∅), Err (ErrMsg "invalid signature for incoming route")).
Proof.
  eexists. split; [reflexivity|].
  apply (shared_route_rejected verify_v4 v4_route).
  - apply v4_route_ok.
  - discriminate.
  - intros id d. done.
  - intros id d Hv. injection Hv as Hv. by apply bool_decide_eq_true in Hv.
  - intros E. by vm_compute in E.
  - reflexivity.
Defined.

Definition verify_all (id d sig : bytes) : res bool := Ok true.
Definition no_routes : RoutingManager (M := gmap RouteKey RouteValue) := NewRoutingManager (Some ∅).
Definition one_route := (AddRoute verify_all (v6_route 2) no_routes).1.
Definition two_routes := (AddRoute verify_all (v6_route 3) one_route).1.
Lemma ipv6_routes_collide_witness :
  rm_Routes two_routes !! getRouteKey (v6_route 2) = Some (v6_route 2) /\
  (rm_kernel two_routes ≫= (fun m => bpf_contents m !! constructKey (v6_route 2))) =
    Some (constructValue (v6_route 3)).
Proof.
  destruct (ipv6_routes_collide verify_all (v6_route 2) (v6_route 3) no_routes one_route two_routes
    (DeleteRoute (v6_route 3) two_routes).1) as (H1 & H2 & _); [by vm_compute..| | | | |].
  - intros E. by vm_compute in E.
  - reflexivity.
  - reflexivity.
  - reflexivity.
  - split; [exact H1|exact H2].
Defined.
