(* ===== verification/StateStore.v ===== *)
(** [pkg/state]: the records of proposals, peers, latencies and finalizations
    ([proposal.go], [peer.go], [latency_record.go], [finalization.go]) and the
    manager that keeps them in a database ([state.go]).

    The database is one of [Storage.v]; the s2 compression is a parameter with
    its laws: [s2.Encode] panics on more than it can hold (about 4 GiB), and
    what it encodes is decoded again.  (The package calls [ListKeysWithPrefix]
    without its context and so does not compile; here it gets the background
    context.)  A method of
    the manager holds its lock throughout and is one step.  An identifier is a
    byte string. *)
From stdpp Require Import pretty.
From S2P Require Import Prelude Bytes Packets Storage.

(** * The four records *)
Record Proposal := { p_ID : bytes; p_BlockHash : bytes; p_Content : bytes; p_Timestamp : Z }.
Record Peer := { pe_ID : bytes; pe_Address : bytes; pe_JoinedAt : Z; pe_LeftAt : option Z }.
Record LatencyRecord := { lr_PeerID : bytes; lr_LatencyMs : Z; lr_Timestamp : Z }.
Record Finalization := { f_BlockHash : bytes; f_Timestamp : Z }.
#[export] Instance Proposal_eq_dec : EqDecision Proposal.
Proof. solve_decision. Defined.
#[export] Instance Peer_eq_dec : EqDecision Peer.
Proof. solve_decision. Defined.

(** A length as an [int32] and the bytes; [make] panics on a negative length,
    and a short [Read] leaves zeros. *)
Definition put_i32_block (d : bytes) : bytes := le_bytes 4 (Zlen d) ++ d.
Definition get_i32_block : reader bytes :=
  n ← read_le 4;
  if i32 n <? 0 then rlift Panic else reader_read (i32 n).
Definition get_i64 : reader Z := n ← read_le 8; mret (i64 n).

Section Codecs.
(** [s2.Encode(nil, d)] and [s2.Decode(nil, d)]. *)
Context (s2_Encode : bytes -> res bytes) (s2_Decode : bytes -> res bytes).

Definition run_decoder {A} (m : reader A) (data : bytes) : res A :=
  decompressed ← s2_Decode data; run_reader m decompressed.

Definition Proposal_bytes (p : Proposal) : bytes :=
  put_i32_block (p_ID p) ++ put_i32_block (p_BlockHash p) ++ put_i32_block (p_Content p) ++
  le_bytes 8 (p_Timestamp p).
Definition Proposal_reader : reader Proposal :=
  id ← get_i32_block;
  hash ← get_i32_block;
  content ← get_i32_block;
  timestamp ← get_i64;
  mret {| p_ID := id; p_BlockHash := hash; p_Content := content; p_Timestamp := timestamp |}.
Definition Proposal_Encode (p : Proposal) : res bytes := s2_Encode (Proposal_bytes p).
Definition DecodeProposal (data : bytes) : res Proposal := run_decoder Proposal_reader data.

Definition Peer_bytes (p : Peer) : bytes :=
  put_i32_block (pe_ID p) ++ put_i32_block (pe_Address p) ++ le_bytes 8 (pe_JoinedAt p) ++
  match pe_LeftAt p with Some leftAt => [Byte.x01] ++ le_bytes 8 leftAt | None => [Byte.x00] end.
Definition Peer_reader : reader Peer :=
  id ← get_i32_block;
  addr ← get_i32_block;
  joinedAt ← get_i64;
  flag ← read_le 1;
  leftAt ← (if flag =? 1 then t ← get_i64; mret (Some t) else mret None);
  mret {| pe_ID := id; pe_Address := addr; pe_JoinedAt := joinedAt; pe_LeftAt := leftAt |}.
Definition Peer_Encode (p : Peer) : res bytes := s2_Encode (Peer_bytes p).
Definition DecodePeer (data : bytes) : res Peer := run_decoder Peer_reader data.

Definition LatencyRecord_bytes (lr : LatencyRecord) : bytes :=
  put_i32_block (lr_PeerID lr) ++ le_bytes 8 (lr_LatencyMs lr) ++ le_bytes 8 (lr_Timestamp lr).
Definition LatencyRecord_reader : reader LatencyRecord :=
  peerID ← get_i32_block;
  latencyMs ← get_i64;
  timestamp ← get_i64;
  mret {| lr_PeerID := peerID; lr_LatencyMs := latencyMs; lr_Timestamp := timestamp |}.
Definition LatencyRecord_Encode (lr : LatencyRecord) : res bytes :=
  s2_Encode (LatencyRecord_bytes lr).
Definition DecodeLatencyRecord (data : bytes) : res LatencyRecord :=
  run_decoder LatencyRecord_reader data.

Definition Finalization_bytes (f : Finalization) : bytes :=
  put_i32_block (f_BlockHash f) ++ le_bytes 8 (f_Timestamp f).
Definition Finalization_reader : reader Finalization :=
  hash ← get_i32_block;
  timestamp ← get_i64;
  mret {| f_BlockHash := hash; f_Timestamp := timestamp |}.
Definition Finalization_Encode (f : Finalization) : res bytes := s2_Encode (Finalization_bytes f).
Definition DecodeFinalization (data : bytes) : res Finalization :=
  run_decoder Finalization_reader data.

(** * state.go *)
Section Manager.
Context {P : Type} `{Provider P}.

Definition proposal_key (id : bytes) : bytes := str "proposal:" ++ id.
Definition peer_key (id : bytes) : bytes := str "peer:" ++ id.
Definition latency_prefix (peerID : bytes) : bytes := str "latency:" ++ peerID ++ str ":".
Definition latency_key (lr : LatencyRecord) : bytes :=
  latency_prefix (lr_PeerID lr) ++ str (pretty (lr_Timestamp lr)).
Definition finalization_key (blockHash : bytes) : bytes := str "finalization:" ++ hex_encode blockHash.

(** The body that [AddProposal], [AddPeer] and [AddFinalization] share. *)
Definition add_new (check exists_ encode store : string) (key : bytes) (encoded : res bytes) : io P unit :=
  present ← io_wrap check (io_read (fun db => Provider_Exists db key));
  if present : bool then io_lift (Err (ErrMsg exists_))
  else
    encoded ← io_wrap encode (io_lift encoded);
    io_wrap store (fun db => Provider_Set db key encoded).
Definition AddProposal (proposal : Proposal) : io P unit :=
  add_new "failed to check proposal existence" "proposal with ID %s already exists"
    "failed to encode proposal" "failed to store proposal"
    (proposal_key (p_ID proposal)) (Proposal_Encode proposal).
Definition AddPeer (peer : Peer) : io P unit :=
  add_new "failed to check peer existence" "peer with ID %s already exists"
    "failed to encode peer" "failed to store peer" (peer_key (pe_ID peer)) (Peer_Encode peer).
Definition AddFinalization (finalization : Finalization) : io P unit :=
  add_new "failed to check finalization existence" "finalization for block hash %x already exists"
    "failed to encode finalization" "failed to store finalization"
    (finalization_key (f_BlockHash finalization)) (Finalization_Encode finalization).

Definition GetProposal (db : P) (id : bytes) : res Proposal :=
  data ← wrap "failed to get proposal" (Provider_Get db (proposal_key id));
  wrap "failed to decode proposal" (DecodeProposal data).
Definition GetPeer (db : P) (id : bytes) : res Peer :=
  data ← wrap "failed to get peer" (Provider_Get db (peer_key id));
  wrap "failed to decode peer" (DecodePeer data).
Definition GetFinalization (db : P) (blockHash : bytes) : res Finalization :=
  data ← wrap "failed to get finalization" (Provider_Get db (finalization_key blockHash));
  wrap "failed to decode finalization" (DecodeFinalization data).

(** The loops over the keys: what cannot be read or decoded is skipped. *)
Fixpoint list_loop {A} (db : P) (decode : bytes -> res A) (keys : list bytes) : res (list A) :=
  match keys with
  | [] => Ok []
  | key :: keys =>
      match Provider_Get db key with
      | Panic => Panic
      | Err _ => list_loop db decode keys
      | Ok data =>
          match decode data with
          | Panic => Panic
          | Err _ => list_loop db decode keys
          | Ok x => xs ← list_loop db decode keys; Ok (x :: xs)
          end
      end
  end.
Definition list_with (failed : string) {A} (fuel : nat) (db : P) (prefix : bytes)
    (decode : bytes -> res A) : res (list A) :=
  keys ← wrap failed (Provider_ListKeysWithPrefix fuel db Background prefix);
  list_loop db decode keys.
Definition ListProposals (fuel : nat) (db : P) : res (list Proposal) :=
  list_with "failed to list proposal keys" fuel db (str "proposal:") DecodeProposal.
Definition ListPeers (fuel : nat) (db : P) : res (list Peer) :=
  peers ← list_with "failed to list peer keys" fuel db (str "peer:") DecodePeer;
  Ok (base.filter (fun p => pe_LeftAt p = None) peers).
Definition ListFinalizations (fuel : nat) (db : P) : res (list Finalization) :=
  list_with "failed to list finalization keys" fuel db (str "finalization:") DecodeFinalization.
Definition GetLatencyRecords (fuel : nat) (db : P) (peerID : bytes) : res (list LatencyRecord) :=
  list_with "failed to list latency keys" fuel db (latency_prefix peerID) DecodeLatencyRecord.

Definition RecordLatency (record : LatencyRecord) : io P unit :=
  encoded ← io_wrap "failed to encode latency record" (io_lift (LatencyRecord_Encode record));
  io_wrap "failed to store latency record" (fun db => Provider_Set db (latency_key record) encoded).

Definition RemovePeer (id : bytes) (leftAt : Z) : io P unit :=
  peer ← io_read (fun db => GetPeer db id);
  match pe_LeftAt peer with
  | Some _ => io_lift (Err (ErrMsg "peer %s is already removed"))
  | None =>
      encoded ← io_wrap "failed to encode updated peer" (io_lift (Peer_Encode
        {| pe_ID := pe_ID peer; pe_Address := pe_Address peer; pe_JoinedAt := pe_JoinedAt peer;
           pe_LeftAt := Some leftAt |}));
      io_wrap "failed to update peer" (fun db => Provider_Set db (peer_key id) encoded)
  end.

(** The operations that change the database. *)
Inductive operation :=
| OAddProposal (p : Proposal)
| OAddPeer (p : Peer)
| ORemovePeer (id : bytes) (leftAt : Z)
| ORecordLatency (lr : LatencyRecord)
| OAddFinalization (f : Finalization).
Definition operate (op : operation) : io P unit :=
  match op with
  | OAddProposal p => AddProposal p
  | OAddPeer p => AddPeer p
  | ORemovePeer id leftAt => RemovePeer id leftAt
  | ORecordLatency lr => RecordLatency lr
  | OAddFinalization f => AddFinalization f
  end.
Definition run_operations (ops : list operation) (db : P) : P := foldl (fun db op => (operate op db).1) db ops.
End Manager.
End Codecs.

(** * Round trips *)
Definition medium (d : bytes) : Prop := Zlen d < 2 ^ 31.
Definition Proposal_ok (p : Proposal) : Prop :=
  medium (p_ID p) /\ medium (p_BlockHash p) /\ medium (p_Content p) /\ is_i64 (p_Timestamp p).
Definition Peer_ok (p : Peer) : Prop :=
  medium (pe_ID p) /\ medium (pe_Address p) /\ is_i64 (pe_JoinedAt p) /\
  match pe_LeftAt p with Some t => is_i64 t | None => True end.
Definition LatencyRecord_ok (lr : LatencyRecord) : Prop :=
  medium (lr_PeerID lr) /\ is_i64 (lr_LatencyMs lr) /\ is_i64 (lr_Timestamp lr).
Definition Finalization_ok (f : Finalization) : Prop :=
  medium (f_BlockHash f) /\ is_i64 (f_Timestamp f).

Lemma get_i64_reads t : is_i64 t -> reads anything get_i64 (le_bytes 8 t) t.
Proof.
  intros Ht. unfold get_i64. rewrite <- (app_nil_r (le_bytes 8 t)).
  eapply reads_bind_rest; [apply read_le_reads|]. change (8 * Z.of_nat 8) with 64.
  pose proof (le_Z_i64 t Ht) as Hl. rewrite le_Z_le_bytes in Hl. change (8 * Z.of_nat 8) with 64 in Hl.
  rewrite Hl. apply reads_ret.
Qed.

Lemma get_i32_block_reads d :
  medium d -> reads something get_i32_block (put_i32_block d) d.
Proof.
  intros Hd. unfold get_i32_block, put_i32_block. pose proof (Zlen_nonneg d) as Hn.
  eapply reads_bind_rest; [apply read_le_reads|]. change (8 * Z.of_nat 4) with 32.
  rewrite Z.mod_small by (unfold medium in Hd; lia).
  assert (i32 (Zlen d) = Zlen d) as -> by (unfold i32; apply signed_small; [done|unfold medium in Hd; lia]).
  rewrite (proj2 (Z.ltb_ge _ _)) by lia.
  intros rest Hrest. apply (reader_read_reads (Zlen d) d eq_refl). unfold something in Hrest.
  by destruct d.
Qed.

(** A block followed by what is never empty. *)
Lemma block_then {B} P d (k : bytes -> reader B) enc b :
  medium d -> enc <> [] -> reads P (k d) enc b ->
  reads P (get_i32_block ≫= k) (put_i32_block d ++ enc) b.
Proof.
  intros Hd He Hk. eapply (reads_bind P something); [by apply get_i32_block_reads|done|].
  intros rest _. by destruct enc.
Qed.
Lemma i64_then {B} P t (k : Z -> reader B) enc b :
  is_i64 t -> reads P (k t) enc b -> reads P (get_i64 ≫= k) (le_bytes 8 t ++ enc) b.
Proof. intros Ht Hk. eapply reads_bind_rest; [by apply get_i64_reads|done]. Qed.
Lemma block_nonempty d enc : put_i32_block d ++ enc <> [].
Proof. done. Qed.
Lemma i64_nonempty t enc : le_bytes 8 t ++ enc <> [].
Proof. done. Qed.

Lemma Proposal_reads p : Proposal_ok p -> reads anything Proposal_reader (Proposal_bytes p) p.
Proof.
  intros (H1 & H2 & H3 & H4). unfold Proposal_reader, Proposal_bytes.
  apply block_then; [done|apply block_nonempty|]. apply block_then; [done|apply block_nonempty|].
  rewrite <- (app_nil_r (le_bytes 8 _)). apply block_then; [done|apply i64_nonempty|].
  apply i64_then; [done|]. destruct p. apply reads_ret.
Qed.
Lemma Peer_reads p : Peer_ok p -> reads anything Peer_reader (Peer_bytes p) p.
Proof.
  intros (H1 & H2 & H3 & H4). unfold Peer_reader, Peer_bytes.
  apply block_then; [done|apply block_nonempty|]. apply block_then; [done|apply i64_nonempty|].
  apply i64_then; [done|]. destruct p as [id ad jo [t|]];
    cbn [pe_ID pe_Address pe_JoinedAt pe_LeftAt] in *.
  - change [Byte.x01] with (le_bytes 1 1). eapply reads_bind_rest; [apply read_le_reads|].
    cbn [Z.of_nat]. rewrite Z.mod_small by done. cbn [Z.eqb Pos.eqb].
    rewrite <- (app_nil_r (le_bytes 8 t)). eapply reads_bind_rest; [|apply reads_ret].
    rewrite <- (app_nil_r (le_bytes 8 t)). apply i64_then; [done|apply reads_ret].
  - change [Byte.x00] with (le_bytes 1 0 ++ []). eapply reads_bind_rest; [apply read_le_reads|].
    cbn [Z.of_nat]. rewrite Z.mod_small by done. cbn [Z.eqb Pos.eqb].
    eapply (reads_bind anything anything _ _ [] []); [apply reads_ret|apply reads_ret|done].
Qed.
Lemma LatencyRecord_reads lr :
  LatencyRecord_ok lr -> reads anything LatencyRecord_reader (LatencyRecord_bytes lr) lr.
Proof.
  intros (H1 & H2 & H3). unfold LatencyRecord_reader, LatencyRecord_bytes.
  apply block_then; [done|apply i64_nonempty|]. apply i64_then; [done|].
  rewrite <- (app_nil_r (le_bytes 8 _)). apply i64_then; [done|]. destruct lr. apply reads_ret.
Qed.
Lemma Finalization_reads f :
  Finalization_ok f -> reads anything Finalization_reader (Finalization_bytes f) f.
Proof.
  intros (H1 & H2). unfold Finalization_reader, Finalization_bytes.
  rewrite <- (app_nil_r (le_bytes 8 _)). apply block_then; [done|apply i64_nonempty|].
  apply i64_then; [done|]. destruct f. apply reads_ret.
Qed.

Section Laws.
Context (s2_Encode : bytes -> res bytes) (s2_Decode : bytes -> res bytes).
Hypothesis s2_law : forall d e, s2_Encode d = Ok e -> s2_Decode e = Ok d.
Hypothesis s2_total : forall d, Zlen d < 2 ^ 31 -> exists e, s2_Encode d = Ok e.

Lemma decodes {A} (m : reader A) enc e (x : A) :
  reads anything m enc x -> s2_Encode enc = Ok e -> run_decoder s2_Decode m e = Ok x.
Proof.
  intros Hm He. unfold run_decoder. rewrite (s2_law _ _ He), bind_Ok. rewrite <- (app_nil_r enc).
  by apply (reads_run anything).
Qed.

(** C33: The records of the state store come back from their encodings, also with
    empty fields and, for a peer, with and without the time it left; and
    encoding succeeds on what has less than 2^31 bytes. *)
Theorem state_records_roundtrip :
  (forall p d, Proposal_ok p -> Proposal_Encode s2_Encode p = Ok d -> DecodeProposal s2_Decode d = Ok p) /\
  (forall p d, Peer_ok p -> Peer_Encode s2_Encode p = Ok d -> DecodePeer s2_Decode d = Ok p) /\
  (forall r d, LatencyRecord_ok r -> LatencyRecord_Encode s2_Encode r = Ok d ->
     DecodeLatencyRecord s2_Decode d = Ok r) /\
  (forall f d, Finalization_ok f -> Finalization_Encode s2_Encode f = Ok d ->
     DecodeFinalization s2_Decode d = Ok f) /\
  (forall p, Zlen (Proposal_bytes p) < 2 ^ 31 -> exists d, Proposal_Encode s2_Encode p = Ok d) /\
  (forall p, Zlen (Peer_bytes p) < 2 ^ 31 -> exists d, Peer_Encode s2_Encode p = Ok d) /\
  (forall r, Zlen (LatencyRecord_bytes r) < 2 ^ 31 -> exists d, LatencyRecord_Encode s2_Encode r = Ok d) /\
  (forall f, Zlen (Finalization_bytes f) < 2 ^ 31 -> exists d, Finalization_Encode s2_Encode f = Ok d).
Proof.
  split_and!; [..|intros x; apply s2_total|intros x; apply s2_total|intros x; apply s2_total
    |intros x; apply s2_total]; intros x d Hx Hd; eapply decodes; try exact Hd;
    auto using Proposal_reads, Peer_reads, LatencyRecord_reads, Finalization_reads.
Qed.

(** * The manager *)
Section Manager_laws.
Context {P : Type} `{ProviderLaws P}.
Implicit Types (db : P).

(** What adding a record under a key does. *)
Definition added db key (enc : res bytes) (r : P * res unit) : Prop :=
  match r with
  | (db', Ok _) => provider_contents db !! key = None /\
                   exists e, enc = Ok e /\ provider_contents db' = <[key := e]> (provider_contents db)
  | (db', Err _) => provider_contents db' = provider_contents db
  | (db', Panic) => db' = db
  end.

Lemma add_new_spec a b c d key enc db :
  added db key enc (add_new a b c d key enc db) /\
  (provider_contents db !! key <> None -> add_new a b c d key enc db = (db, Err (ErrMsg b))).
Proof.
  unfold add_new. cbv [mbind io_bind io_wrap io_read io_lift]. rewrite Provider_Exists_law. cbn [wrap].
  destruct (provider_contents db !! key) as [v|] eqn:E; cbn [bool_decide].
  - rewrite bool_decide_true by by eexists. done.
  - rewrite bool_decide_false by (intros [? ?]; done). split; [|done].
    destruct enc as [enc|e|]; [|done..]. cbn [wrap].
    pose proof (Provider_Set_law db key enc) as Hs.
    destruct (Provider_Set db key enc) as [db' [[]|e|]]; cbn in *; [|done..].
    split; [done|]. by exists enc.
Qed.
Lemma AddProposal_added p db :
  added db (proposal_key (p_ID p)) (s2_Encode (Proposal_bytes p)) (AddProposal s2_Encode p db).
Proof. apply add_new_spec. Qed.
Lemma AddPeer_added p db :
  added db (peer_key (pe_ID p)) (s2_Encode (Peer_bytes p)) (AddPeer s2_Encode p db).
Proof. apply add_new_spec. Qed.
Lemma AddFinalization_added f db :
  added db (finalization_key (f_BlockHash f)) (s2_Encode (Finalization_bytes f))
    (AddFinalization s2_Encode f db).
Proof. apply add_new_spec. Qed.

(** A second addition: what can be read is stored under the key. *)
Lemma add_new_taken a b c d key enc db {A} (f : bytes -> res A) s x :
  (data ← wrap s (Provider_Get db key); f data) = Ok x ->
  add_new a b c d key enc db = (db, Err (ErrMsg b)).
Proof.
  intros Hx. apply add_new_spec. rewrite Provider_Get_law in Hx.
  by destruct (provider_contents db !! key).
Qed.

(** Adding leaves what there was. *)
Lemma added_keeps db key enc r k d :
  added db key enc r -> provider_contents db !! k = Some d -> provider_contents r.1 !! k = Some d.
Proof.
  destruct r as [db' [[]|e|]]; cbn; [|by intros ->..]. intros (Hn & e & _ & ->) Hk.
  rewrite lookup_insert_ne; [done|]. congruence.
Qed.

Definition departed (p : Peer) (leftAt : Z) : Peer :=
  {| pe_ID := pe_ID p; pe_Address := pe_Address p; pe_JoinedAt := pe_JoinedAt p; pe_LeftAt := Some leftAt |}.
Lemma RemovePeer_spec id leftAt db :
  match RemovePeer s2_Encode s2_Decode id leftAt db with
  | (db', Ok _) => exists p e, GetPeer s2_Decode db id = Ok p /\ pe_LeftAt p = None /\
      s2_Encode (Peer_bytes (departed p leftAt)) = Ok e /\
      provider_contents db' = <[peer_key id := e]> (provider_contents db)
  | (db', _) => provider_contents db' = provider_contents db
  end.
Proof.
  unfold RemovePeer. cbv [mbind io_bind io_wrap io_read io_lift].
  destruct (GetPeer s2_Decode db id) as [p|e|]; [|done..].
  destruct (pe_LeftAt p) eqn:El; [done|]. fold (departed p leftAt). unfold Peer_Encode.
  destruct (s2_Encode (Peer_bytes (departed p leftAt))) as [enc|e|] eqn:Ee; [|done..]. cbn [wrap].
  pose proof (Provider_Set_law db (peer_key id) enc) as Hs.
  destruct (Provider_Set _ _ _) as [db' [[]|e|]]; cbn [wrap]; [|done..]. by exists p, enc.
Qed.

Lemma RecordLatency_spec lr db :
  match RecordLatency s2_Encode lr db with
  | (db', Ok _) => exists e, s2_Encode (LatencyRecord_bytes lr) = Ok e /\
      provider_contents db' = <[latency_key lr := e]> (provider_contents db)
  | (db', _) => provider_contents db' = provider_contents db
  end.
Proof.
  unfold RecordLatency, LatencyRecord_Encode. cbv [mbind io_bind io_wrap io_lift].
  destruct (s2_Encode (LatencyRecord_bytes lr)) as [enc|e|]; [|done..]. cbn [wrap].
  pose proof (Provider_Set_law db (latency_key lr) enc) as Hs.
  destruct (Provider_Set _ _ _) as [db' [[]|e|]]; cbn [wrap]; [|done..]. by exists enc.
Qed.

(** The first letters of the keys. *)
Definition keeps_key (key : bytes) : Prop :=
  (exists id, key = proposal_key id) \/ (exists h, key = finalization_key h).

(** No operation changes what is stored under such a key. *)
Lemma operate_keeps op db key d :
  keeps_key key -> provider_contents db !! key = Some d ->
  provider_contents (operate s2_Encode s2_Decode op db).1 !! key = Some d.
Proof.
  intros Hkey Hd. destruct op as [p|p|id t|lr|f]; cbn [operate].
  - by eapply added_keeps; [apply AddProposal_added|].
  - by eapply added_keeps; [apply AddPeer_added|].
  - pose proof (RemovePeer_spec id t db) as Hr. destruct (RemovePeer _ _ _ _ _) as [db' [[]|e|]]; cbn [fst];
      [|by rewrite Hr..]. destruct Hr as (p & e & _ & _ & _ & ->). rewrite lookup_insert_ne; [done|].
    by destruct Hkey as [[? ->]|[? ->]].
  - pose proof (RecordLatency_spec lr db) as Hr. destruct (RecordLatency _ _ _) as [db' [[]|e|]]; cbn [fst];
      [|by rewrite Hr..]. destruct Hr as (e & _ & ->). rewrite lookup_insert_ne; [done|]. by destruct Hkey as [[? ->]|[? ->]].
  - by eapply added_keeps; [apply AddFinalization_added|].
Qed.

Lemma run_operations_keeps ops db key d :
  keeps_key key -> provider_contents db !! key = Some d ->
  provider_contents (run_operations s2_Encode s2_Decode ops db) !! key = Some d.
Proof.
  intros Hkey. revert db. induction ops as [|op ops IH]; intros db Hd; [done|].
  apply IH. by apply operate_keeps.
Qed.

(** What is stored for a peer: the record that was added, perhaps with the time
    it left. *)
Definition same_peer (p q : Peer) : Prop :=
  pe_ID q = pe_ID p /\ pe_Address q = pe_Address p /\ pe_JoinedAt q = pe_JoinedAt p /\
  (pe_LeftAt q = pe_LeftAt p \/ pe_LeftAt p = None).
Definition stored_peer db (p : Peer) : Prop :=
  exists q d, provider_contents db !! peer_key (pe_ID p) = Some d /\ s2_Encode (Peer_bytes q) = Ok d /\
              Peer_ok q /\ same_peer p q.
Definition operation_ok (op : operation) : Prop :=
  match op with ORemovePeer _ leftAt => is_i64 leftAt | _ => True end.

Lemma stored_peer_read db p :
  stored_peer db p -> exists q, GetPeer s2_Decode db (pe_ID p) = Ok q /\ Peer_ok q /\ same_peer p q.
Proof.
  intros (q & d & Hd & He & Hq & Hs). exists q. split; [|done]. unfold GetPeer.
  rewrite Provider_Get_law, Hd. cbn [wrap]. rewrite bind_Ok. unfold DecodePeer.
  by rewrite (decodes _ _ _ q (Peer_reads _ Hq) He).
Qed.

Lemma stored_peer_same db db' p :
  provider_contents db' !! peer_key (pe_ID p) = provider_contents db !! peer_key (pe_ID p) ->
  stored_peer db p -> stored_peer db' p.
Proof. intros E (q & d & Hd & ?). exists q, d. by rewrite E. Qed.

Lemma added_keeps_peer db key enc r p :
  added db key enc r -> stored_peer db p -> stored_peer r.1 p.
Proof. intros Ha (q & d & Hd & ?). exists q, d. split; [by eapply added_keeps|done]. Qed.

Lemma departed_same p q t :
  same_peer p q -> pe_LeftAt q = None -> is_i64 t -> Peer_ok q -> same_peer p (departed q t) /\ Peer_ok (departed q t).
Proof.
  intros (H1 & H2 & H3 & H4) Hn Ht (? & ? & ? & ?). split; [|done]. split_and!; [done..|]. right.
  destruct H4 as [<-|]; done.
Qed.

Lemma operate_keeps_peer op db p :
  operation_ok op -> stored_peer db p -> stored_peer (operate s2_Encode s2_Decode op db).1 p.
Proof.
  intros Hop Hp. destruct op as [x|x|id t|lr|f]; cbn [operate operation_ok] in *.
  - eapply added_keeps_peer; [apply AddProposal_added|done].
  - eapply added_keeps_peer; [apply AddPeer_added|done].
  - pose proof (RemovePeer_spec id t db) as Hr. destruct (RemovePeer _ _ _ _ _) as [db' [[]|e|]]; cbn [fst];
      [|by eapply stored_peer_same; [rewrite Hr|]..].
    destruct Hr as (q & e & Hget & Hleft & He & Hc).
    destruct (decide (id = pe_ID p)) as [->|Hne].
    + destruct (stored_peer_read _ _ Hp) as (q' & Hget' & Hok & Hsame).
      rewrite Hget in Hget'. injection Hget' as <-.
      destruct (departed_same _ _ _ Hsame Hleft Hop Hok). exists (departed q t), e.
      by rewrite Hc, lookup_insert_eq.
    + eapply stored_peer_same; [|done]. rewrite Hc, lookup_insert_ne; [done|].
      unfold peer_key. by intros ?%(inj (app _)).
  - pose proof (RecordLatency_spec lr db) as Hr. destruct (RecordLatency _ _ _) as [db' [[]|e|]]; cbn [fst];
      [|by eapply stored_peer_same; [rewrite Hr|]..].
    destruct Hr as (e & _ & Hc). eapply stored_peer_same; [|done]. by rewrite Hc, lookup_insert_ne.
  - eapply added_keeps_peer; [apply AddFinalization_added|done].
Qed.

Lemma run_operations_keeps_peer ops db p :
  Forall operation_ok ops -> stored_peer db p -> stored_peer (run_operations s2_Encode s2_Decode ops db) p.
Proof.
  intros Hops. revert db. induction Hops as [|op ops Hop _ IH]; intros db Hp; [done|].
  apply IH. by apply operate_keeps_peer.
Qed.

(** C26: The records of the state store are immutable.  A proposal or a finalization
    that was added is read back, and stays so whatever operations of the
    manager follow; a peer that was added keeps its identifier, its address
    and the time it joined, and only the time it left may be set, once.  An
    addition that fails changes nothing, and adding a record again, of any of
    the three kinds, fails. *)
Theorem state_records_immutable db ops :
  (forall p, Proposal_ok p ->
     match AddProposal s2_Encode p db with
     | (db', Ok _) => GetProposal s2_Decode (run_operations s2_Encode s2_Decode ops db') (p_ID p) = Ok p
     | (db', _) => forall id, GetProposal s2_Decode db' id = GetProposal s2_Decode db id
     end) /\
  (forall f, Finalization_ok f ->
     match AddFinalization s2_Encode f db with
     | (db', Ok _) => GetFinalization s2_Decode (run_operations s2_Encode s2_Decode ops db')
                        (f_BlockHash f) = Ok f
     | (db', _) => forall h, GetFinalization s2_Decode db' h = GetFinalization s2_Decode db h
     end) /\
  (forall p, Peer_ok p -> Forall operation_ok ops ->
     match AddPeer s2_Encode p db with
     | (db', Ok _) => exists q, GetPeer s2_Decode (run_operations s2_Encode s2_Decode ops db') (pe_ID p) = Ok q /\
                                same_peer p q
     | (db', _) => forall id, GetPeer s2_Decode db' id = GetPeer s2_Decode db id
     end) /\
  (forall p, (exists q, GetProposal s2_Decode db (p_ID p) = Ok q) ->
     AddProposal s2_Encode p db = (db, Err (ErrMsg "proposal with ID %s already exists"))) /\
  (forall f, (exists q, GetFinalization s2_Decode db (f_BlockHash f) = Ok q) ->
     AddFinalization s2_Encode f db = (db, Err (ErrMsg "finalization for block hash %x already exists"))) /\
  (forall p, (exists q, GetPeer s2_Decode db (pe_ID p) = Ok q) ->
     AddPeer s2_Encode p db = (db, Err (ErrMsg "peer with ID %s already exists"))) /\
  (forall id t q, GetPeer s2_Decode db id = Ok q -> pe_LeftAt q <> None ->
     RemovePeer s2_Encode s2_Decode id t db = (db, Err (ErrMsg "peer %s is already removed"))) /\
  (forall id q, GetProposal s2_Decode db id = Ok q ->
     GetProposal s2_Decode (run_operations s2_Encode s2_Decode ops db) id = Ok q) /\
  (forall h q, GetFinalization s2_Decode db h = Ok q ->
     GetFinalization s2_Decode (run_operations s2_Encode s2_Decode ops db) h = Ok q).
Proof.
  assert (forall (db db' : P) k, provider_contents db' = provider_contents db ->
    Provider_Get db' k = Provider_Get db k) as Hsame by (intros db1 db2 k E; by rewrite !Provider_Get_law, E).
  split_and!.
  - intros p Hp. pose proof (AddProposal_added p db) as Ha.
    destruct (AddProposal s2_Encode p db) as [db' [[]|e|]]; [destruct Ha as (_ & e & He & Hc)|
      intros id; unfold GetProposal; by rewrite (Hsame db db')|by rewrite Ha]. unfold GetProposal.
    rewrite Provider_Get_law.
    erewrite run_operations_keeps; [|left; by eexists|by rewrite Hc, lookup_insert_eq].
    cbn [wrap]. rewrite bind_Ok. unfold DecodeProposal. by rewrite (decodes _ _ _ p (Proposal_reads _ Hp) He).
  - intros f Hf. pose proof (AddFinalization_added f db) as Ha.
    destruct (AddFinalization s2_Encode f db) as [db' [[]|e|]]; [destruct Ha as (_ & e & He & Hc)|
      intros h; unfold GetFinalization; by rewrite (Hsame db db')|by rewrite Ha]. unfold GetFinalization.
    rewrite Provider_Get_law.
    erewrite run_operations_keeps; [|right; by eexists|by rewrite Hc, lookup_insert_eq].
    cbn [wrap]. rewrite bind_Ok. unfold DecodeFinalization.
    by rewrite (decodes _ _ _ f (Finalization_reads _ Hf) He).
  - intros p Hp Hops. pose proof (AddPeer_added p db) as Ha.
    destruct (AddPeer s2_Encode p db) as [db' [[]|e|]]; [destruct Ha as (_ & e & He & Hc)|
      intros id; unfold GetPeer; by rewrite (Hsame db db')|by rewrite Ha].
    destruct (stored_peer_read (run_operations s2_Encode s2_Decode ops db') p) as (q & Hq & _ & Hs); [|eauto].
    apply run_operations_keeps_peer; [done|]. exists p, e. rewrite Hc, lookup_insert_eq.
    split; [done|]. split; [done|]. split; [done|]. repeat split. by left.
  - intros p [q Hq]. eapply add_new_taken, Hq.
  - intros f [q Hq]. eapply add_new_taken, Hq.
  - intros p [q Hq]. eapply add_new_taken, Hq.
  - intros id t q Hq Hl. unfold RemovePeer. cbv [mbind io_bind io_read io_lift]. rewrite Hq.
    by destruct (pe_LeftAt q).
  - intros id q. unfold GetProposal. rewrite !Provider_Get_law.
    destruct (provider_contents db !! proposal_key id) as [d|] eqn:E; [|done].
    by rewrite (run_operations_keeps ops db _ d (or_introl (ex_intro _ id eq_refl)) E).
  - intros h q. unfold GetFinalization. rewrite !Provider_Get_law.
    destruct (provider_contents db !! finalization_key h) as [d|] eqn:E; [|done].
    by rewrite (run_operations_keeps ops db _ d (or_intror (ex_intro _ h eq_refl)) E).
Qed.

(** One bad record stops the manager.  A stored proposal whose first length is
    negative makes reading it panic, and listing all proposals too. *)
Theorem negative_length_panics db id fuel e :
  s2_Encode (le_bytes 4 (-1)) = Ok e -> provider_contents db !! proposal_key id = Some e ->
  (size (provider_contents db) < fuel)%nat ->
  (forall k d, k <> proposal_key id -> provider_contents db !! k = Some d ->
     no_panic (DecodeProposal s2_Decode d)) ->
  GetProposal s2_Decode db id = Panic /\ ListProposals s2_Decode fuel db = Panic.
Proof.
  intros He Hd Hf Hrest.
  assert (DecodeProposal s2_Decode e = Panic) as Hp.
  { unfold DecodeProposal, run_decoder. by rewrite (s2_law _ _ He), bind_Ok. }
  split; [unfold GetProposal; rewrite Provider_Get_law, Hd; cbn [wrap]; by rewrite bind_Ok, Hp|].
  unfold ListProposals, list_with. rewrite Provider_List_law by done. cbn [wrap]. rewrite bind_Ok.
  assert (proposal_key id ∈ keys_with_prefix (provider_contents db) (str "proposal:")) as Hin.
  { unfold keys_with_prefix. apply list_elem_of_filter. split; [apply has_prefix_spec; by eexists|].
    apply elem_of_sorted_keys. by eexists. }
  revert Hin. induction (keys_with_prefix _ _) as [|k ks IH]; [by intros ?%not_elem_of_nil|].
  intros Hin. cbn [list_loop]. rewrite Provider_Get_law.
  destruct (decide (k = proposal_key id)) as [->|Hne]; [by rewrite Hd, Hp|].
  apply elem_of_cons in Hin as [Heq|Hin]; [by destruct Hne|]. specialize (IH Hin).
  destruct (provider_contents db !! k) as [d|] eqn:E; [|done].
  specialize (Hrest k d Hne E). destruct (DecodeProposal s2_Decode d); [by rewrite IH|done|done].
Qed.
End Manager_laws.
End Laws.

(** * Examples, without compression *)
Definition plain_Encode (d : bytes) : res bytes := if Zlen d <? 2 ^ 32 then Ok d else Panic.
Lemma plain_law d e : plain_Encode d = Ok e -> Ok e = Ok d :> res bytes.
Proof. unfold plain_Encode. destruct (_ <? _); congruence. Qed.
Lemma plain_total d : Zlen d < 2 ^ 31 -> exists e, plain_Encode d = Ok e.
Proof. intros Hd. unfold plain_Encode. rewrite (proj2 (Z.ltb_lt _ _)) by lia. eauto. Qed.

Definition proposal_example : Proposal :=
  {| p_ID := str "p1"; p_BlockHash := str "hash"; p_Content := []; p_Timestamp := 1700000000 |}.
Definition peer_example : Peer :=
  {| pe_ID := str "a"; pe_Address := []; pe_JoinedAt := -1; pe_LeftAt := None |}.
Definition finalization_example : Finalization := {| f_BlockHash := str "hash"; f_Timestamp := 9 |}.
Lemma state_proposal_ok : Proposal_ok proposal_example.
Proof. by vm_compute. Qed.
Lemma state_peer_ok : Peer_ok peer_example.
Proof. by vm_compute. Qed.
Lemma state_records_roundtrip_witness :
  exists d, Proposal_Encode plain_Encode proposal_example = Ok d /\ DecodeProposal Ok d = Ok proposal_example.
Proof.
  eexists. split; [reflexivity|].
  apply (state_records_roundtrip plain_Encode Ok plain_law plain_total); [apply state_proposal_ok|reflexivity].
Defined.

Definition record_operations : list operation :=
  [OAddProposal proposal_example; OAddPeer peer_example; ORemovePeer (str "a") 7; ORemovePeer (str "a") 8].
Definition proposals_db : MemDb := (AddProposal plain_Encode proposal_example (∅ : MemDb)).1.
Definition peers_db : MemDb := (AddPeer plain_Encode peer_example proposals_db).1.
Lemma state_records_immutable_witness :
  GetProposal Ok (run_operations plain_Encode Ok record_operations proposals_db) (p_ID proposal_example) =
    Ok proposal_example /\
  (exists q, GetPeer Ok (run_operations plain_Encode Ok record_operations peers_db) (str "a") = Ok q /\
             same_peer peer_example q) /\
  (AddPeer plain_Encode peer_example peers_db).2 = Err (ErrMsg "peer with ID %s already exists").
Proof.
  pose proof (state_records_immutable plain_Encode Ok plain_law proposals_db record_operations)
    as (_ & _ & Hpeer & _ & _ & _ & _ & Hread & _).
  split; [apply Hread; by vm_compute|]. split.
  - refine (Hpeer peer_example state_peer_ok _). repeat (apply Forall_cons; split; [done|]). by apply Forall_nil.
  - pose proof (state_records_immutable plain_Encode Ok plain_law peers_db []) as (_ & _ & _ & _ & _ & Htaken & _).
    rewrite Htaken; [done|]. exists peer_example. by vm_compute.
Defined.

Definition bad_db : MemDb := {[ proposal_key (str "x") := le_bytes 4 (-1) ]}.
Lemma negative_length_panics_witness :
  GetProposal Ok bad_db (str "x") = Panic /\ ListProposals Ok 2 bad_db = Panic.
Proof.
  apply (negative_length_panics plain_Encode Ok plain_law bad_db (str "x") 2 (le_bytes 4 (-1))).
  - reflexivity.
  - reflexivity.
  - vm_compute. lia.
  - intros k d Hne Hk. change (bad_db !! k = Some d) in Hk. unfold bad_db in Hk.
    apply lookup_singleton_Some in Hk as [Hk _]. by destruct Hne.
Defined.

(** The records of a peer "a" are listed with those of a peer "a:b". *)
Definition latency_example : LatencyRecord :=
  {| lr_PeerID := str "a:b"; lr_LatencyMs := 3; lr_Timestamp := 9 |}.
Example latency_prefix_ambiguous :
  GetLatencyRecords Ok 2 (RecordLatency plain_Encode latency_example (∅ : MemDb)).1 (str "a") = Ok [latency_example].
Proof. by vm_compute. Qed.
