(* ===== verification/Config.v ===== *)
(** [pkg/config]: the configuration of the transports ([transports.go],
    [tcp.go], [udp.go], [quic.go], [uds.go], [dummy.go]) and of the network
    ([networking.go]), the lookups by name, and loading a file ([config.go]).

    YAML is a library: the class [Yaml] has what the decoder does with one node,
    and decoding a struct asks for the keys that the tags of its fields name (a
    field without a [yaml] tag has its name in lower case).  Several faults in
    one node are reported as the first of them.  Files, key pairs and
    multiaddresses are parameters too. *)
From Stdlib Require Import Strings.Byte Strings.String.
From stdpp Require Import pretty.
From S2P Require Import Prelude Bytes Types BatchWriter.

(** * Data *)
Record TLS := { tls_Insecure : bool; tls_Cert : bytes; tls_Key : bytes; tls_RootCA : bytes }.
Record DTLS := { dtls_Cert : bytes; dtls_Key : bytes; dtls_RootCA : bytes; dtls_Insecure : bool }.
Record TcpTransport := {
  tcp_Type : TransportType; tcp_Enabled : bool; tcp_IPv4 : bytes; tcp_Port : Z; tcp_TLS : option TLS }.
Record UdpTransport := {
  udp_Type : TransportType; udp_Enabled : bool; udp_IPv4 : bytes; udp_Port : Z; udp_DTLS : option DTLS }.
Record QuicTransport := {
  quic_Type : TransportType; quic_Enabled : bool; quic_IPv4 : bytes; quic_Port : Z; quic_TLS : TLS }.
Record DummyTransport := {
  dummy_Type : TransportType; dummy_Enabled : bool; dummy_IPv4 : bytes; dummy_Port : Z; dummy_TLS : TLS }.
Record UdsTransport := { uds_Type : TransportType; uds_Enabled : bool; uds_Socket : bytes }.

(** The interface [TransportConfig] and the types that implement it. *)
Inductive TransportConfig :=
| DummyConfig (t : DummyTransport)
| UdsConfig (t : UdsTransport)
| QuicConfig (t : QuicTransport)
| TcpConfig (t : TcpTransport)
| UdpConfig (t : UdpTransport).

Definition GetTransportType (c : TransportConfig) : TransportType :=
  match c with
  | DummyConfig t => dummy_Type t
  | UdsConfig t => uds_Type t
  | QuicConfig t => quic_Type t
  | TcpConfig t => tcp_Type t
  | UdpConfig t => udp_Type t
  end.

(** [Addr], which the five types have besides the interface. *)
Definition host_port (IPv4 : bytes) (Port : Z) : bytes := IPv4 ++ str ":" ++ str (pretty Port).
Definition Addr (c : TransportConfig) : bytes :=
  match c with
  | DummyConfig t => host_port (dummy_IPv4 t) (dummy_Port t)
  | UdsConfig t => uds_Socket t
  | QuicConfig t => host_port (quic_IPv4 t) (quic_Port t)
  | TcpConfig t => host_port (tcp_IPv4 t) (tcp_Port t)
  | UdpConfig t => host_port (udp_IPv4 t) (udp_Port t)
  end.

(** A nil [Config] is [None]. *)
Record Transport := { tr_Type : TransportType; tr_Enabled : bool; tr_Config : option TransportConfig }.

(** The zero values. *)
Definition zero_Type : TransportType := UDPTransportType.
Definition zero_TLS : TLS := {| tls_Insecure := false; tls_Cert := []; tls_Key := []; tls_RootCA := [] |}.
Definition zero_DTLS : DTLS := {| dtls_Cert := []; dtls_Key := []; dtls_RootCA := []; dtls_Insecure := false |}.
Definition zero_Tcp : TcpTransport :=
  {| tcp_Type := zero_Type; tcp_Enabled := false; tcp_IPv4 := []; tcp_Port := 0; tcp_TLS := None |}.
Definition zero_Udp : UdpTransport :=
  {| udp_Type := zero_Type; udp_Enabled := false; udp_IPv4 := []; udp_Port := 0; udp_DTLS := None |}.
Definition zero_Quic : QuicTransport :=
  {| quic_Type := zero_Type; quic_Enabled := false; quic_IPv4 := []; quic_Port := 0; quic_TLS := zero_TLS |}.
Definition zero_Dummy : DummyTransport :=
  {| dummy_Type := zero_Type; dummy_Enabled := false; dummy_IPv4 := []; dummy_Port := 0;
     dummy_TLS := zero_TLS |}.
Definition zero_Uds : UdsTransport := {| uds_Type := zero_Type; uds_Enabled := false; uds_Socket := [] |}.
Definition zero_Transport : Transport :=
  {| tr_Type := zero_Type; tr_Enabled := false; tr_Config := None |}.

(** * Decoding

    [node_null n]: the decoder takes [n] for null, as it does the zero [Node];
    [node_field n k]: the value of a key of a mapping, an error if [n] is not
    one; the others decode a scalar or a sequence. *)
Class Yaml (Node : Type) := {
  zero_node : Node;
  node_null : Node -> bool;
  node_field : Node -> bytes -> res (option Node);
  node_string : Node -> res bytes;
  node_bool : Node -> res bool;
  node_int : Node -> res Z;
  node_list : Node -> res (list Node);
}.

Section Decoding.
Context {Node : Type} `{Yaml Node}.

(** The field of a struct with the key [k]; null and absent leave the zero
    value. *)
Definition field {A} (zero : A) (dec : Node -> res A) (n : Node) (k : string) : res A :=
  if node_null n then Ok zero
  else
    o ← node_field n (str k);
    match o with
    | None => Ok zero
    | Some v => if node_null v then Ok zero else dec v
    end.
(** A field of type [yaml.Node] keeps the node itself. *)
Definition raw_field (n : Node) (k : string) : res Node :=
  if node_null n then Ok zero_node else default zero_node <$> node_field n (str k).

Definition TransportType_UnmarshalYAML (n : Node) : res TransportType :=
  s ← node_string n; ParseTransportType (string_of_list_byte s).

(** [TLS] has [json] tags and, for [insecure], a [yaml] one. *)
Definition decode_TLS (n : Node) : res TLS :=
  insecure ← field false node_bool n "insecure";
  cert ← field [] node_string n "cert";
  key ← field [] node_string n "key";
  rootCA ← field [] node_string n "rootca";
  Ok {| tls_Insecure := insecure; tls_Cert := cert; tls_Key := key; tls_RootCA := rootCA |}.
Definition decode_DTLS (n : Node) : res DTLS :=
  cert ← field [] node_string n "cert";
  key ← field [] node_string n "key";
  rootCA ← field [] node_string n "root_ca";
  insecure ← field false node_bool n "insecure";
  Ok {| dtls_Cert := cert; dtls_Key := key; dtls_RootCA := rootCA; dtls_Insecure := insecure |}.

Definition decode_type (n : Node) : res TransportType :=
  field zero_Type TransportType_UnmarshalYAML n "type".

(** The methods [UnmarshalYAML] assign to their receiver at the end. *)
Definition Tcp_UnmarshalYAML (value : Node) : io TcpTransport unit := fun t =>
  match wrap "failed to unmarshal TCP transport fields" (
    ty ← decode_type value;
    enabled ← field false node_bool value "enabled";
    ipv4 ← field [] node_string value "ipv4";
    port ← field 0 node_int value "port";
    tls ← field None (fun n => Some <$> decode_TLS n) value "tls";
    Ok {| tcp_Type := ty; tcp_Enabled := enabled; tcp_IPv4 := ipv4; tcp_Port := port; tcp_TLS := tls |})
  with Ok t' => (t', Ok tt) | Err e => (t, Err e) | Panic => (t, Panic) end.
Definition Udp_UnmarshalYAML (value : Node) : io UdpTransport unit := fun t =>
  match wrap "failed to unmarshal UDP transport fields" (
    ty ← decode_type value;
    enabled ← field false node_bool value "enabled";
    ipv4 ← field [] node_string value "ipv4";
    port ← field 0 node_int value "port";
    dtls ← field None (fun n => Some <$> decode_DTLS n) value "dtls";
    Ok {| udp_Type := ty; udp_Enabled := enabled; udp_IPv4 := ipv4; udp_Port := port; udp_DTLS := dtls |})
  with Ok t' => (t', Ok tt) | Err e => (t, Err e) | Panic => (t, Panic) end.
Definition Quic_UnmarshalYAML (value : Node) : io QuicTransport unit := fun t =>
  match wrap "failed to unmarshal QUIC transport fields" (
    ty ← decode_type value;
    enabled ← field false node_bool value "enabled";
    ipv4 ← field [] node_string value "ipv4";
    port ← field 0 node_int value "port";
    tls ← field zero_TLS decode_TLS value "tls";
    Ok {| quic_Type := ty; quic_Enabled := enabled; quic_IPv4 := ipv4; quic_Port := port; quic_TLS := tls |})
  with Ok t' => (t', Ok tt) | Err e => (t, Err e) | Panic => (t, Panic) end.
Definition Dummy_UnmarshalYAML (value : Node) : io DummyTransport unit := fun t =>
  match wrap "failed to unmarshal dummy transport fields" (
    ty ← decode_type value;
    enabled ← field false node_bool value "enabled";
    ipv4 ← field [] node_string value "ipv4";
    port ← field 0 node_int value "port";
    tls ← field zero_TLS decode_TLS value "tls";
    Ok {| dummy_Type := ty; dummy_Enabled := enabled; dummy_IPv4 := ipv4; dummy_Port := port;
          dummy_TLS := tls |})
  with Ok t' => (t', Ok tt) | Err e => (t, Err e) | Panic => (t, Panic) end.
Definition Uds_UnmarshalYAML (value : Node) : io UdsTransport unit := fun t =>
  match wrap "failed to unmarshal UDS transport fields" (
    ty ← decode_type value;
    enabled ← field false node_bool value "enabled";
    socket ← field [] node_string value "socket";
    Ok {| uds_Type := ty; uds_Enabled := enabled; uds_Socket := socket |})
  with Ok t' => (t', Ok tt) | Err e => (t, Err e) | Panic => (t, Panic) end.

(** [node.Decode(&v)] for a type with [UnmarshalYAML], from the zero value:
    a null node leaves it alone. *)
Definition Decode {T} (unmarshal : Node -> io T unit) (zero : T) (n : Node) : res T :=
  if node_null n then Ok zero
  else match unmarshal n zero with (t, Ok _) => Ok t | (_, Err e) => Err e | (_, Panic) => Panic end.

(** The second half of [Transport.UnmarshalYAML]: the [config] node in the
    struct that the type selects, whose own type is then overwritten. *)
Definition decode_config (ty : TransportType) (config : Node) : res TransportConfig :=
  match ty with
  | DummyTransportType =>
      c ← wrap "failed to unmarshal dummy transport config" (Decode Dummy_UnmarshalYAML zero_Dummy config);
      Ok (DummyConfig {| dummy_Type := DummyTransportType; dummy_Enabled := dummy_Enabled c;
        dummy_IPv4 := dummy_IPv4 c; dummy_Port := dummy_Port c; dummy_TLS := dummy_TLS c |})
  | UDSTransportType =>
      c ← wrap "failed to unmarshal UDS transport config" (Decode Uds_UnmarshalYAML zero_Uds config);
      Ok (UdsConfig {| uds_Type := UDSTransportType; uds_Enabled := uds_Enabled c; uds_Socket := uds_Socket c |})
  | QUICTransportType =>
      c ← wrap "failed to unmarshal QUIC transport config" (Decode Quic_UnmarshalYAML zero_Quic config);
      Ok (QuicConfig {| quic_Type := QUICTransportType; quic_Enabled := quic_Enabled c;
        quic_IPv4 := quic_IPv4 c; quic_Port := quic_Port c; quic_TLS := quic_TLS c |})
  | TCPTransportType =>
      c ← wrap "failed to unmarshal TCP transport config" (Decode Tcp_UnmarshalYAML zero_Tcp config);
      Ok (TcpConfig {| tcp_Type := TCPTransportType; tcp_Enabled := tcp_Enabled c;
        tcp_IPv4 := tcp_IPv4 c; tcp_Port := tcp_Port c; tcp_TLS := tcp_TLS c |})
  | UDPTransportType =>
      c ← wrap "failed to unmarshal UDP transport config" (Decode Udp_UnmarshalYAML zero_Udp config);
      Ok (UdpConfig {| udp_Type := UDPTransportType; udp_Enabled := udp_Enabled c;
        udp_IPv4 := udp_IPv4 c; udp_Port := udp_Port c; udp_DTLS := udp_DTLS c |})
  end.

Definition Transport_UnmarshalYAML (value : Node) : io Transport unit := fun t =>
  match wrap "failed to unmarshal common transport fields" (
    ty ← decode_type value;
    enabled ← field false node_bool value "enabled";
    config ← raw_field value "config";
    Ok (ty, enabled, config))
  with
  | Err e => (t, Err e)
  | Panic => (t, Panic)
  | Ok (ty, enabled, config) =>
      let t := {| tr_Type := ty; tr_Enabled := enabled; tr_Config := tr_Config t |} in
      match decode_config ty config with
      | Err e => (t, Err e)
      | Panic => (t, Panic)
      | Ok c => ({| tr_Type := ty; tr_Enabled := enabled; tr_Config := Some c |}, Ok tt)
      end
  end.
End Decoding.

(** * mdbx.go, pprof.go, networking.go: the sections with operations *)
Record MdbxConfig := { mdbx_Enabled : bool; mdbx_Nodes : list Manager.MdbxNode }.
Record Pprof := { pp_Enabled : bool; pp_Name : bytes; pp_Addr : bytes }.
Record Networking := {
  ListenAddrs : list bytes;
  ProtocolID : bytes;
  nt_PeerID : bytes;
  BootstrapPeers : list bytes;
  BootstrapNode : bool;
  EnableMDNS : bool;
  EnableRelay : bool;
  InterfaceName : bytes;
}.

(** * config.go: the sections without operations of their own are [O]. *)
Record Config (O : Type) := {
  Transports : list Transport;
  cfg_Mdbx : MdbxConfig;
  cfg_Networking : Networking;
  cfg_Pprof : list Pprof;
  cfg_other : O;
}.
Arguments Transports {O} _.
Arguments cfg_Mdbx {O} _.
Arguments cfg_Networking {O} _.
Arguments cfg_Pprof {O} _.
Arguments cfg_other {O} _.

Section Lookups.
Context {O : Type}.
Implicit Types (c : Config O).

Definition Validate (c : Config O) : res unit := Ok tt.
Definition GetTransportByType (c : Config O) (transportType : TransportType) : option Transport :=
  List.find (fun t => bool_decide (tr_Type t = transportType)) (Transports c).
Definition GetMdbxNodeByName (c : Config O) (name : string) : option Manager.MdbxNode :=
  List.find (fun node => bool_decide (Manager.node_Name node = name)) (mdbx_Nodes (cfg_Mdbx c)).
Definition GetPprofByServiceTag (c : Config O) (service : bytes) : res Pprof :=
  match List.find (fun opts => bool_decide (pp_Name opts = service)) (cfg_Pprof c) with
  | Some opts => Ok opts
  | None => Err (ErrMsg "could not discover pprof service by tag: %s")
  end.

(** [ReadFile] is the file system, [parse] the parser of YAML, and
    [decode_sections] fills the other sections, which the decoder does by
    reflection. *)
Context {Node : Type} `{Yaml Node}.
Context (ReadFile : bytes -> res bytes) (parse : bytes -> res Node)
  (decode_sections : Node -> res (MdbxConfig * Networking * list Pprof * O)).

Definition decode_transports (n : Node) : res (list Transport) :=
  field [] (fun v => l ← node_list v; mapM (Decode Transport_UnmarshalYAML zero_Transport) l) n "transports".

Definition LoadConfig (filename : bytes) : res (Config O) :=
  data ← wrap "failed to read config file" (ReadFile filename);
  rawConfig ← wrap "failed to unmarshal yaml" (
    n ← parse data;
    ts ← decode_transports n;
    rest ← decode_sections n;
    let '(mdbx, net, pprof, o) := rest in
    Ok {| Transports := ts; cfg_Mdbx := mdbx; cfg_Networking := net; cfg_Pprof := pprof; cfg_other := o |});
  _ ← wrap "invalid configuration" (Validate rawConfig);
  Ok rawConfig.

(** The variable [global]. *)
Definition InitializeGlobalConfig (filename : bytes) : io (option (Config O)) (Config O) := fun global =>
  match LoadConfig filename with
  | Ok rawConfig => (Some rawConfig, Ok rawConfig)
  | Err e => (global, Err e)
  | Panic => (global, Panic)
  end.
End Lookups.

(** * TLS *)
Inductive file_status := StatOk | NotExist | StatError.
(** What is used of [os], [crypto/tls] and [crypto/x509]. *)
Class TlsLib (Cert Pool : Type) := {
  Stat : bytes -> file_status;
  LoadX509KeyPair : bytes -> bytes -> res Cert;
  os_ReadFile : bytes -> res bytes;
  AppendCertsFromPEM : bytes -> option Pool;
}.

Section Tls.
Context {Cert Pool : Type} `{TlsLib Cert Pool}.

(** [tls.Config]; without root certificates the host's are used. *)
Record tls_Config := {
  InsecureSkipVerify : bool;
  Certificates : list Cert;
  NextProtos : list bytes;
  RootCAs : option Pool;
}.

(** The body that the three transports with certificates share. *)
Definition load_tls (insecure : bool) (protos : list bytes) (certFile keyFile rootCA : bytes) :
    res tls_Config :=
  _ ← ensure (match Stat certFile with NotExist => false | _ => true end)
    (ErrMsg "certificate file does not exist: %s");
  _ ← ensure (match Stat keyFile with NotExist => false | _ => true end)
    (ErrMsg "key file does not exist: %s");
  cert ← wrap "failed to load certificate and key" (LoadX509KeyPair certFile keyFile);
  let tlsConfig roots :=
    {| InsecureSkipVerify := insecure; Certificates := [cert]; NextProtos := protos; RootCAs := roots |} in
  if bool_decide (rootCA = []) then Ok (tlsConfig None)
  else
    caCert ← wrap "failed to read root CA file" (os_ReadFile rootCA);
    match AppendCertsFromPEM caCert with
    | None => Err (ErrMsg "failed to append root CA certificates")
    | Some pool => Ok (tlsConfig (Some pool))
    end.

(** A nil configuration is [None]. *)
Definition Tcp_GetTLSConfig (t : TcpTransport) : res (option tls_Config) :=
  match tcp_TLS t with
  | None => Ok None
  | Some tls => Some <$> load_tls (tls_Insecure tls) [] (tls_Cert tls) (tls_Key tls) (tls_RootCA tls)
  end.
Definition GetDTLSConfig (t : UdpTransport) : res (option tls_Config) :=
  match udp_DTLS t with
  | None => Ok None
  | Some dtls => Some <$> load_tls (dtls_Insecure dtls) [] (dtls_Cert dtls) (dtls_Key dtls) (dtls_RootCA dtls)
  end.
Definition Quic_GetTLSConfig (q : QuicTransport) : res (option tls_Config) :=
  let tls := quic_TLS q in
  Some <$> load_tls false [str "quic-example"] (tls_Cert tls) (tls_Key tls) (tls_RootCA tls).
Definition Dummy_GetTLSConfig (q : DummyTransport) : res (option tls_Config) :=
  Ok (Some {| InsecureSkipVerify := true; Certificates := []; NextProtos := []; RootCAs := None |}).
End Tls.
Arguments tls_Config Cert Pool : clear implicits.

(** * networking.go *)

(** [strings.TrimSpace(s) == ""]: every rune of [s] is white space, here in its
    UTF-8 encoding. *)
Definition space2 (b1 b2 : Z) : bool := (b1 =? 194) && ((b2 =? 133) || (b2 =? 160)).
Definition space3 (b1 b2 b3 : Z) : bool :=
  (b1 =? 225) && (b2 =? 154) && (b3 =? 128) ||
  (b1 =? 226) && ((b2 =? 128) && ((128 <=? b3) && (b3 <=? 138) || (b3 =? 168) || (b3 =? 169) || (b3 =? 175)) ||
                  (b2 =? 129) && (b3 =? 159)) ||
  (b1 =? 227) && (b2 =? 128) && (b3 =? 128).
Fixpoint blank (s : bytes) : bool :=
  match s with
  | [] => true
  | b1 :: s1 =>
      let z := Z_of_byte b1 in
      if (9 <=? z) && (z <=? 13) || (z =? 32) then blank s1
      else match s1 with
      | [] => false
      | b2 :: s2 =>
          if space2 z (Z_of_byte b2) then blank s2
          else match s2 with
          | [] => false
          | b3 :: s3 => space3 z (Z_of_byte b2) (Z_of_byte b3) && blank s3
          end
      end
  end.

(** libp2p's addresses and identifiers, and the interfaces of the host. *)
Record AddrInfo (MA : Type) := { ai_ID : bytes; ai_Addrs : list MA }.
Arguments Build_AddrInfo {MA} _ _.
Arguments ai_ID {MA} _.
Arguments ai_Addrs {MA} _.
Class Multiaddrs (MA : Type) := {
  NewMultiaddr : bytes -> res MA;
  AddrInfoFromP2pAddr : MA -> res (AddrInfo MA);
  ID_String : bytes -> bytes;
  net_Interfaces : res (list bytes);
}.

Section Networking.
Context {MA : Type} `{Multiaddrs MA}.

(** The first loop of [Validate], with the set [uniqueAddrs]. *)
Fixpoint validate_listen (uniqueAddrs : gset bytes) (addrs : list bytes) : res unit :=
  match addrs with
  | [] => Ok tt
  | addr :: addrs =>
      _ ← ensure (negb (bool_decide (addr ∈ uniqueAddrs))) (ErrMsg "duplicate listen address found: %s");
      _ ← wrap "invalid listen address: %s" (NewMultiaddr addr);
      validate_listen ({[addr]} ∪ uniqueAddrs) addrs
  end.
Definition validate_bootstrap (peerAddr : bytes) : res unit :=
  _ ← wrap "invalid bootstrap peer address: %s" (NewMultiaddr peerAddr);
  ma ← wrap "invalid bootstrap peer multiaddress: %s" (NewMultiaddr peerAddr);
  _ ← wrap "bootstrap peer address must include a peer ID: %s" (AddrInfoFromP2pAddr ma);
  Ok tt.
Definition validate_interface (name : bytes) : res unit :=
  if blank name then Ok tt
  else
    ifaces ← wrap "failed to list network interfaces" net_Interfaces;
    ensure (bool_decide (name ∈ ifaces))
      (ErrMsg "networking.interface_name does not match any existing network interface: %s").

Definition Networking_Validate (n : Networking) : res unit :=
  _ ← ensure (negb (bool_decide (ListenAddrs n = [])))
    (ErrMsg "networking.listenAddrs must have at least one address");
  _ ← validate_listen ∅ (ListenAddrs n);
  _ ← ensure (negb (blank (ProtocolID n))) (ErrMsg "networking.protocolId cannot be empty");
  _ ← ensure (negb (blank (ID_String (nt_PeerID n))))
    (ErrMsg "networking.peerId cannot be empty and must be provided");
  _ ← fold_res (fun _ => validate_bootstrap) tt (BootstrapPeers n);
  validate_interface (InterfaceName n).

Definition bootstrap_addr (peerAddr : bytes) : res (AddrInfo MA) :=
  maddr ← wrap "failed to parse multiaddress: %s" (NewMultiaddr peerAddr);
  wrap "failed to convert multiaddress to peer.AddrInfo: %s" (AddrInfoFromP2pAddr maddr).
Definition BootstrapPeersAsAddrs (n : Networking) : res (list (AddrInfo MA)) :=
  mapM bootstrap_addr (BootstrapPeers n).

(** [pkg/networking/helpers.go] *)
Definition parseListenAddresses (addrs : list bytes) : res (list MA) :=
  mapM (fun addr => wrap "invalid multiaddress %s" (NewMultiaddr addr)) addrs.
End Networking.

(** * Decoding gives well-typed transports *)

(** The type that goes with a constructor. *)
Definition shape (c : TransportConfig) : TransportType :=
  match c with
  | DummyConfig _ => DummyTransportType
  | UdsConfig _ => UDSTransportType
  | QuicConfig _ => QUICTransportType
  | TcpConfig _ => TCPTransportType
  | UdpConfig _ => UDPTransportType
  end.
(** What [tr_Type], the constructor and the interface say agree. *)
Definition well_typed (t : Transport) : Prop :=
  exists c, tr_Config t = Some c /\ shape c = tr_Type t /\ GetTransportType c = tr_Type t.

Section Typing.
Context {Node : Type} `{Yaml Node}.

Lemma decode_config_typed ty n c : decode_config ty n = Ok c -> shape c = ty /\ GetTransportType c = ty.
Proof. destruct ty; cbn; intros Hc; res_inv; done. Qed.

Lemma Transport_UnmarshalYAML_typed n t t' : Transport_UnmarshalYAML n t = (t', Ok tt) -> well_typed t'.
Proof.
  unfold Transport_UnmarshalYAML. destruct (wrap _ _) as [[[ty enabled] config]|e|]; [|done..].
  destruct (decode_config ty config) as [c|e|] eqn:Hc; [|done..]. intros [= <-].
  exists c. by apply decode_config_typed in Hc.
Qed.

Lemma Decode_Transport n t :
  Decode Transport_UnmarshalYAML zero_Transport n = Ok t -> t = zero_Transport \/ well_typed t.
Proof.
  unfold Decode. case_match; [intros [= <-]; by left|]. right.
  destruct (Transport_UnmarshalYAML n zero_Transport) as [t' [[]|e|]] eqn:Ht; [|done..].
  simplify_eq. by eapply Transport_UnmarshalYAML_typed.
Qed.

Lemma mapM_res_Forall2 {A B} (f : A -> res B) l k : mapM f l = Ok k <-> Forall2 (fun a b => f a = Ok b) l k.
Proof.
  revert k. induction l as [|a l IH]; intros k; cbn.
  - split; [intros [= <-]; constructor|by inversion 1].
  - split.
    + intros Hk. res_inv. constructor; [done|]. by apply IH.
    + inversion 1 as [|? b ? k' Ha Hl]; subst. rewrite Ha, bind_Ok. apply IH in Hl.
      change (mapM f l) with (mapM f l) in Hl. by rewrite Hl.
Qed.

Lemma decode_transports_typed n ts t :
  decode_transports n = Ok ts -> t ∈ ts -> t = zero_Transport \/ well_typed t.
Proof.
  unfold decode_transports, field. case_match.
  { intros [= <-] Ht. by apply not_elem_of_nil in Ht. }
  intros Hts Ht. apply bind_Ok_inv in Hts as (o & _ & Hts).
  destruct o as [v|]; [|simplify_eq; by apply not_elem_of_nil in Ht].
  case_match; [simplify_eq; by apply not_elem_of_nil in Ht|].
  apply bind_Ok_inv in Hts as (l & _ & Hts). apply mapM_res_Forall2 in Hts.
  apply list_elem_of_lookup in Ht as [i Ht].
  destruct (Forall2_lookup_r _ _ _ _ _ Hts Ht) as (x & _ & Hx). by eapply Decode_Transport.
Qed.
End Typing.

(** The first element that satisfies a test, as the lookup loops return it. *)
Lemma find_spec {A} (p : A -> bool) l :
  match List.find p l with
  | Some a => exists l1 l2, l = l1 ++ a :: l2 /\ p a = true /\ Forall (fun b => p b = false) l1
  | None => Forall (fun b => p b = false) l
  end.
Proof.
  induction l as [|a l IH]; cbn; [constructor|]. destruct (p a) eqn:Ha.
  - exists [], l. split_and!; [done|done|constructor].
  - destruct (List.find p l) as [b|]; [|by constructor].
    destruct IH as (l1 & l2 & -> & Hb & Hl1). exists (a :: l1), l2. split_and!; [done|done|by constructor].
Qed.

(** C34: The transports of a configuration that loads are well typed: unless an
    entry of the list is null, its configuration is there, is of the struct
    that its type selects, and says that type itself.  Looking a type up gives
    the first transport that has it, or nothing when none has.  The one way to
    get a transport without configuration is the null entry, which counts as
    UDP, the zero of the enumeration. *)
Theorem loaded_transports_typed {O Node : Type} `{Yaml Node} ReadFile parse sections filename (c : Config O) :
  LoadConfig ReadFile parse sections filename = Ok c ->
  (forall t, t ∈ Transports c -> t = zero_Transport \/ well_typed t) /\
  (forall ty,
    match GetTransportByType c ty with
    | Some t =>
        tr_Type t = ty /\
        (exists before after, Transports c = before ++ t :: after /\ Forall (fun u => tr_Type u <> ty) before) /\
        (ty <> UDPTransportType -> well_typed t)
    | None => Forall (fun t => tr_Type t <> ty) (Transports c)
    end) /\
  forall global, InitializeGlobalConfig ReadFile parse sections filename global = (Some c, Ok c).
Proof.
  intros Hload.
  assert (forall t, t ∈ Transports c -> t = zero_Transport \/ well_typed t) as Hty.
  { revert Hload. unfold LoadConfig. intros Hload. res_inv.
    match goal with H : (let '(_, _) := ?r in _) = Ok _ |- _ => destruct r as [[[m nt] p] o]; cbn in H; simplify_eq end.
    cbn. intros t. by eapply decode_transports_typed. }
  split; [done|]. split; [|by intros; unfold InitializeGlobalConfig; rewrite Hload].
  intros ty. unfold GetTransportByType.
  pose proof (find_spec (fun t => bool_decide (tr_Type t = ty)) (Transports c)) as Hfind.
  destruct (List.find _ _) as [t|].
  - destruct Hfind as (l1 & l2 & Hl & Ht & Hl1). apply bool_decide_eq_true in Ht. split; [done|]. split.
    + exists l1, l2. split; [done|]. eapply Forall_impl; [exact Hl1|]. intros u. by rewrite bool_decide_eq_false.
    + intros Hudp. destruct (Hty t) as [->|]; [rewrite Hl; set_solver|by destruct Hudp|done].
  - eapply Forall_impl; [exact Hfind|]. intros u. by rewrite bool_decide_eq_false.
Qed.

(** * The network configuration *)
Section Networking_laws.
Context {MA : Type} `{Multiaddrs MA}.

Lemma validate_listen_spec seen addrs :
  validate_listen seen addrs = Ok tt <->
  NoDup addrs /\ Forall (fun a => (a ∉ seen) /\ is_ok (NewMultiaddr a) = true) addrs.
Proof.
  revert seen. induction addrs as [|a addrs IH]; intros seen; cbn [validate_listen].
  { split; [|done]. intros _. split; constructor. }
  rewrite ensure_bind, negb_true_iff, bool_decide_eq_false. rewrite NoDup_cons, Forall_cons.
  destruct (NewMultiaddr a) as [m|e|]; cbn; [|naive_solver..]. rewrite IH, !Forall_forall.
  set_solver.
Qed.

Lemma validate_bootstrap_spec a :
  validate_bootstrap a = Ok tt <-> exists ma i, NewMultiaddr a = Ok ma /\ AddrInfoFromP2pAddr ma = Ok i.
Proof.
  unfold validate_bootstrap. split.
  - intros Ha. res_inv. eauto.
  - intros (ma & i & -> & Hi). rewrite !wrap_Ok, !bind_Ok. by rewrite Hi.
Qed.

Lemma validate_all l :
  fold_res (fun _ => validate_bootstrap) tt l = Ok tt <-> Forall (fun a => validate_bootstrap a = Ok tt) l.
Proof.
  induction l as [|a l IH]; cbn; [by split|]. rewrite Forall_cons, <- IH.
  destruct (validate_bootstrap a) as [[]|e|]; cbn; naive_solver.
Qed.

Lemma mapM_res_total {A B} (f : A -> res B) l :
  Forall (fun a => exists b, f a = Ok b) l -> exists k, mapM f l = Ok k.
Proof.
  induction 1 as [|a l [b Hb] Hl [k Hk]]; [by exists []|]. exists (b :: k).
  apply mapM_res_Forall2. constructor; [done|]. by apply mapM_res_Forall2.
Qed.

Lemma validate_interface_spec name :
  validate_interface name = Ok tt <->
  blank name = true \/ exists ifaces, net_Interfaces = Ok ifaces /\ name ∈ ifaces.
Proof.
  unfold validate_interface. destruct (blank name); [naive_solver|].
  destruct net_Interfaces as [l|e|]; cbn; [|naive_solver..].
  rewrite ensure_Ok, bool_decide_eq_true. naive_solver.
Qed.

Lemma Networking_Validate_steps n :
  Networking_Validate n = Ok tt <-> ListenAddrs n <> [] /\ validate_listen ∅ (ListenAddrs n) = Ok tt /\
    blank (ProtocolID n) = false /\ blank (ID_String (nt_PeerID n)) = false /\
    fold_res (fun _ => validate_bootstrap) tt (BootstrapPeers n) = Ok tt /\
    validate_interface (InterfaceName n) = Ok tt.
Proof.
  unfold Networking_Validate. rewrite ensure_bind, negb_true_iff, bool_decide_eq_false.
  destruct (validate_listen _ _) as [[]|e|]; [rewrite bind_Ok|cbn; naive_solver..].
  rewrite !ensure_bind, !negb_true_iff.
  destruct (fold_res _ _ _) as [[]|e|]; [rewrite bind_Ok|cbn; naive_solver..]. naive_solver.
Qed.

Lemma parseListenAddresses_total l :
  Forall (fun a => is_ok (NewMultiaddr a) = true) l ->
  exists ms, parseListenAddresses l = Ok ms /\ Forall2 (fun a m => NewMultiaddr a = Ok m) l ms.
Proof.
  intros Hl. unfold parseListenAddresses.
  destruct (mapM_res_total (fun addr => wrap "invalid multiaddress %s" (NewMultiaddr addr)) l) as [ms Hms].
  { eapply Forall_impl; [exact Hl|]. cbn. intros a. destruct (NewMultiaddr a); naive_solver. }
  exists ms. split; [done|]. apply mapM_res_Forall2 in Hms.
  eapply Forall2_impl; [exact Hms|]. cbn. intros a m. apply wrap_Ok_inv.
Qed.

Lemma BootstrapPeersAsAddrs_total n :
  Forall (fun a => exists ma i, NewMultiaddr a = Ok ma /\ AddrInfoFromP2pAddr ma = Ok i) (BootstrapPeers n) ->
  exists infos, BootstrapPeersAsAddrs n = Ok infos /\
    Forall2 (fun a i => exists m, NewMultiaddr a = Ok m /\ AddrInfoFromP2pAddr m = Ok i) (BootstrapPeers n) infos.
Proof.
  intros Hl.
  assert (Forall (fun a => exists i, bootstrap_addr a = Ok i) (BootstrapPeers n)) as [rs Hrs]%mapM_res_total.
  { eapply Forall_impl; [exact Hl|]. intros a (ma & i & Hma & Hi). exists i.
    unfold bootstrap_addr. by rewrite Hma, wrap_Ok, bind_Ok, Hi. }
  exists rs. split; [done|]. apply mapM_res_Forall2 in Hrs.
  eapply Forall2_impl; [exact Hrs|]. unfold bootstrap_addr. cbn. intros a i Hi. res_inv. eauto.
Qed.

(** What [Networking.Validate] accepts: at least one listen address, all of
    them distinct multiaddresses; a protocol and a peer identifier that are not
    blank; bootstrap peers that are multiaddresses with an identifier; an
    interface of the host if one is named.  On such a configuration the two
    conversions that follow at start, of the listen addresses and of the
    bootstrap peers, succeed and translate the lists element by element. *)
Theorem Networking_Validate_spec n :
  (Networking_Validate n = Ok tt <->
    ListenAddrs n <> [] /\ NoDup (ListenAddrs n) /\
    Forall (fun a => is_ok (NewMultiaddr a) = true) (ListenAddrs n) /\
    blank (ProtocolID n) = false /\ blank (ID_String (nt_PeerID n)) = false /\
    Forall (fun a => exists ma i, NewMultiaddr a = Ok ma /\ AddrInfoFromP2pAddr ma = Ok i) (BootstrapPeers n) /\
    (blank (InterfaceName n) = true \/
     exists ifaces, net_Interfaces = Ok ifaces /\ InterfaceName n ∈ ifaces)) /\
  (Networking_Validate n = Ok tt -> exists maddrs infos,
    parseListenAddresses (ListenAddrs n) = Ok maddrs /\
    Forall2 (fun a m => NewMultiaddr a = Ok m) (ListenAddrs n) maddrs /\
    BootstrapPeersAsAddrs n = Ok infos /\
    Forall2 (fun a i => exists m, NewMultiaddr a = Ok m /\ AddrInfoFromP2pAddr m = Ok i) (BootstrapPeers n) infos).
Proof.
  assert (forall l, Forall (fun a => (a ∉ (∅ : gset bytes)) /\ is_ok (NewMultiaddr a) = true) l <->
    Forall (fun a => is_ok (NewMultiaddr a) = true) l) as Hl.
  { intros l. rewrite !Forall_forall. set_solver. }
  pose proof (Networking_Validate_steps n) as Hv.
  rewrite validate_listen_spec, validate_all, validate_interface_spec, Hl in Hv.
  setoid_rewrite validate_bootstrap_spec in Hv. split; [rewrite Hv; tauto|].
  intros Hok. apply Hv in Hok as (_ & [_ Hlisten] & _ & _ & Hboot & _).
  destruct (parseListenAddresses_total _ Hlisten) as (ms & ? & ?).
  destruct (BootstrapPeersAsAddrs_total _ Hboot) as (rs & ? & ?). by exists ms, rs.
Qed.
End Networking_laws.

(** * TLS *)
Section Tls_laws.
Context {Cert Pool : Type} `{TlsLib Cert Pool}.

Lemma load_tls_spec insecure protos certFile keyFile rootCA cfg :
  load_tls insecure protos certFile keyFile rootCA = Ok cfg <->
  Stat certFile <> NotExist /\ Stat keyFile <> NotExist /\
  exists cert roots, LoadX509KeyPair certFile keyFile = Ok cert /\
    cfg = {| InsecureSkipVerify := insecure; Certificates := [cert]; NextProtos := protos; RootCAs := roots |} /\
    (if bool_decide (rootCA = []) then roots = None
     else exists pem pool, os_ReadFile rootCA = Ok pem /\ AppendCertsFromPEM pem = Some pool /\ roots = Some pool).
Proof.
  unfold load_tls. rewrite !ensure_bind.
  assert (forall f, match Stat f with NotExist => false | _ => true end = true <-> Stat f <> NotExist) as Hst.
  { intros f. destruct (Stat f); naive_solver. }
  rewrite !Hst. apply and_iff_compat_l, and_iff_compat_l.
  split.
  - intros (cert & Hc & Hl)%bind_Ok_inv. apply wrap_Ok_inv in Hc. exists cert. case_bool_decide.
    + simplify_eq. by exists None.
    + apply bind_Ok_inv in Hl as (pem & Hp & Hl). apply wrap_Ok_inv in Hp.
      destruct (AppendCertsFromPEM pem) as [pool|] eqn:Ha; simplify_eq. eauto 10.
  - intros (cert & roots & -> & -> & Hr). rewrite wrap_Ok, bind_Ok. case_bool_decide; [by subst|].
    destruct Hr as (pem & pool & -> & Ha & ->). rewrite wrap_Ok, bind_Ok. by rewrite Ha.
Qed.

(** A TLS section that names its root certificates with the key [rootCa],
    as the documentation of the transports does, is read without them: the
    decoder looks for [rootca] (and, under DTLS, for [root_ca]), nothing fails,
    and whenever a TLS configuration is made from the section it trusts the
    roots of the host.  What [insecure] says reaches TCP and UDP; QUIC verifies
    in any case. *)
Theorem documented_root_ca_ignored {Node : Type} `{Yaml Node} (n : Node) :
  (node_field n (str "rootca") = Ok None -> forall tls, decode_TLS n = Ok tls ->
    tls_RootCA tls = [] /\
    (forall t cfg, tcp_TLS t = Some tls -> Tcp_GetTLSConfig t = Ok (Some cfg) ->
      RootCAs cfg = None /\ InsecureSkipVerify cfg = tls_Insecure tls) /\
    (forall q cfg, quic_TLS q = tls -> Quic_GetTLSConfig q = Ok (Some cfg) ->
      RootCAs cfg = None /\ InsecureSkipVerify cfg = false)) /\
  (node_field n (str "root_ca") = Ok None -> forall dtls, decode_DTLS n = Ok dtls ->
    dtls_RootCA dtls = [] /\
    forall t cfg, udp_DTLS t = Some dtls -> GetDTLSConfig t = Ok (Some cfg) ->
      RootCAs cfg = None /\ InsecureSkipVerify cfg = dtls_Insecure dtls).
Proof.
  assert (forall i p c k cfg, Some <$> load_tls i p c k [] = Ok (Some cfg) ->
    RootCAs cfg = None /\ InsecureSkipVerify cfg = i) as Hload.
  { intros i p c k cfg Hl. destruct (load_tls i p c k []) as [cfg'|e|] eqn:Hc; cbn in Hl; simplify_eq.
    apply load_tls_spec in Hc as (_ & _ & cert & roots & _ & -> & ->). done. }
  assert (forall k, node_field n (str k) = Ok None -> field [] node_string n k = Ok []) as Hf.
  { intros k Hk. unfold field. destruct (node_null n); [done|]. by rewrite Hk. }
  split.
  - intros Hr%Hf tls Ht. unfold decode_TLS in Ht. rewrite Hr in Ht. res_inv. split; [done|].
    split; [intros t cfg Htcp|intros q cfg Hq].
    + unfold Tcp_GetTLSConfig. rewrite Htcp. apply Hload.
    + unfold Quic_GetTLSConfig. rewrite Hq. apply Hload.
  - intros Hr%Hf dtls Ht. unfold decode_DTLS in Ht. rewrite Hr in Ht. res_inv. split; [done|].
    intros t cfg Hudp. unfold GetDTLSConfig. rewrite Hudp. apply Hload.
Qed.
End Tls_laws.

(** * Concrete runs: a tree of YAML values *)
#[warnings="-register-all"]
Inductive tree :=
| Null
| Scalar (s : bytes)
| Sequence (l : list tree)
| Mapping (l : list (bytes * tree)).

Fixpoint assoc (k : bytes) (l : list (bytes * tree)) : option tree :=
  match l with
  | [] => None
  | (k', v) :: l => if bool_decide (k = k') then Some v else assoc k l
  end.
Definition mismatch {A} : res A := Err (ErrMsg "yaml: unmarshal errors").
Fixpoint digits (n : Z) (s : bytes) : res Z :=
  match s with
  | [] => Ok n
  | b :: s =>
      let d := Z_of_byte b - 48 in
      if (0 <=? d) && (d <=? 9) then digits (10 * n + d) s else mismatch
  end.
#[export] Instance tree_yaml : Yaml tree := {|
  zero_node := Null;
  node_null n := match n with Null => true | _ => false end;
  node_field n k := match n with Mapping l => Ok (assoc k l) | _ => mismatch end;
  node_string n := match n with Scalar s => Ok s | _ => mismatch end;
  node_bool n := match n with
    | Scalar s => if bool_decide (s = str "true") then Ok true
                  else if bool_decide (s = str "false") then Ok false else mismatch
    | _ => mismatch end;
  node_int n := match n with Scalar s => digits 0 s | _ => mismatch end;
  node_list n := match n with Sequence l => Ok l | _ => mismatch end |}.

Definition key (k : string) (v : tree) : bytes * tree := (str k, v).
Definition text (s : string) : tree := Scalar (str s).
(** The example in the documentation of [TcpTransport.UnmarshalYAML]. *)
Definition tls_example : tree :=
  Mapping [key "insecure" (text "true"); key "cert" (text "/path/to/cert.pem");
           key "key" (text "/path/to/key.pem"); key "rootCa" (text "/path/to/rootCA.pem")].
Definition tcp_example : tree :=
  Mapping [key "type" (text "tcp"); key "enabled" (text "true");
    key "config" (Mapping [key "ipv4" (text "127.0.0.1"); key "port" (text "4242"); key "tls" tls_example])].
Definition config_example : tree := Mapping [key "transports" (Sequence [Null; tcp_example])].

Definition no_sections (n : tree) : res (MdbxConfig * Networking * list Pprof * unit) :=
  Ok ({| mdbx_Enabled := false; mdbx_Nodes := [] |},
      {| ListenAddrs := []; ProtocolID := []; nt_PeerID := []; BootstrapPeers := []; BootstrapNode := false;
         EnableMDNS := false; EnableRelay := false; InterfaceName := [] |}, [], tt).
Definition example_file (f : bytes) : res bytes := Ok [].
Definition example_parse (d : bytes) : res tree := Ok config_example.

Lemma loaded_transports_typed_witness : exists c,
  LoadConfig example_file example_parse no_sections (str "config.yaml") = Ok c /\
  (exists t tcp, GetTransportByType c TCPTransportType = Some t /\ tr_Config t = Some (TcpConfig tcp) /\
    Addr (TcpConfig tcp) = str "127.0.0.1:4242") /\
  GetTransportByType c UDPTransportType = Some zero_Transport /\
  forall t, t ∈ Transports c -> t = zero_Transport \/ well_typed t.
Proof.
  eexists. split; [vm_compute; reflexivity|]. split; [|split; [vm_compute; reflexivity|]].
  - eexists _, _. split; [vm_compute; reflexivity|]. split; [reflexivity|]. vm_compute. reflexivity.
  - apply (loaded_transports_typed example_file example_parse no_sections (str "config.yaml")).
    vm_compute. reflexivity.
Defined.

#[export] Instance example_tls : TlsLib bytes bytes := {|
  Stat f := if bool_decide (f = []) then NotExist else StatOk;
  LoadX509KeyPair c k := Ok (c ++ k);
  os_ReadFile f := Ok f;
  AppendCertsFromPEM d := Some d |}.
Definition tls_read : TLS := match decode_TLS tls_example with Ok tls => tls | _ => zero_TLS end.
Definition tcp_read : TcpTransport :=
  {| tcp_Type := TCPTransportType; tcp_Enabled := true; tcp_IPv4 := []; tcp_Port := 0; tcp_TLS := Some tls_read |}.
Lemma documented_root_ca_ignored_witness :
  decode_TLS tls_example = Ok tls_read /\ tls_RootCA tls_read = [] /\
  exists cfg, Tcp_GetTLSConfig tcp_read = Ok (Some cfg) /\ RootCAs cfg = None.
Proof.
  split; [vm_compute; reflexivity|].
  destruct (documented_root_ca_ignored (Cert := bytes) (Pool := bytes) tls_example) as [Htls _].
  destruct (Htls eq_refl tls_read) as (Hr & Htcp & _); [vm_compute; reflexivity|].
  split; [exact Hr|]. eexists. split; [vm_compute; reflexivity|].
  eapply (Htcp tcp_read); [reflexivity|]. vm_compute. reflexivity.
Defined.

(** A table of multiaddresses: those that start with a slash; the last
    component of one that has a peer identifier. *)
#[export] Instance example_multiaddrs : Multiaddrs bytes := {|
  NewMultiaddr a := if has_prefix a (str "/") then Ok a else Err (ErrMsg "must begin with /");
  AddrInfoFromP2pAddr m := Ok {| ai_ID := m; ai_Addrs := [m] |};
  ID_String i := i;
  net_Interfaces := Ok [str "eth0"] |}.
Definition networking_example : Networking :=
  {| ListenAddrs := [str "/ip4/0.0.0.0/tcp/4000"]; ProtocolID := str "/peerdns/1.0"; nt_PeerID := str "peer";
     BootstrapPeers := [str "/ip4/10.0.0.1/tcp/4000/p2p/boot"]; BootstrapNode := false; EnableMDNS := true;
     EnableRelay := false; InterfaceName := str "eth0" |}.
Lemma Networking_Validate_spec_witness :
  Networking_Validate networking_example = Ok tt /\
  exists maddrs infos, parseListenAddresses (ListenAddrs networking_example) = Ok maddrs /\
    BootstrapPeersAsAddrs networking_example = Ok infos /\ length infos = 1%nat.
Proof.
  split; [vm_compute; reflexivity|].
  destruct (proj2 (Networking_Validate_spec networking_example)) as (ms & rs & Hms & _ & Hrs & Hl);
    [vm_compute; reflexivity|].
  exists ms, rs. split; [exact Hms|]. split; [exact Hrs|]. apply Forall2_length in Hl. exact (eq_sym Hl).
Defined.
