(* ===== verification/Network.v ===== *)
(** [pkg/networking]: the network of a node ([network.go], [host.go],
    [mdns.go]), its peers ([peers.go]) and its counters
    ([network_metrics.go]).

    libp2p is the class [Host]: the calls made on the host, the topic and the
    mDNS service act on a state [H] and may fail.  [PeersManager.GetPeers]
    hands out the pointers it keeps, so the peers live in a store, a list whose
    positions are the pointers.  A counter is the total of what was added to
    it; of the histogram the number of records is kept.  [nw_connected] is a
    record of the connections that succeeded, for the theorems. *)
From S2P Require Import Prelude Bytes Config.

(** * network_metrics.go *)
Record P2PMetrics := {
  PeersConnectedTotal : Z;
  PeersConnectionFailed : Z;
  MessagesSentTotal : Z;
  MessagesReceivedTotal : Z;
  MessageLatencySeconds : nat;
  ActivePeers : Z;
  PeersRemovedTotal : Z;
}.
Definition new_P2PMetrics : P2PMetrics :=
  {| PeersConnectedTotal := 0; PeersConnectionFailed := 0; MessagesSentTotal := 0; MessagesReceivedTotal := 0;
     MessageLatencySeconds := 0; ActivePeers := 0; PeersRemovedTotal := 0 |}.

(** [meter name]: creating the instrument [name]. *)
Definition P2PMetrics_names : list string :=
  ["networking.p2p.peers_connected_total"; "networking.p2p.peers_connection_failed_total";
   "networking.p2p.messages_sent_total"; "networking.p2p.messages_received_total";
   "networking.p2p.message_latency_seconds"; "networking.p2p.active_peers";
   "networking.p2p.peers_removed_total"].
Definition InitializeP2PMetrics (meter : string -> res unit) : res P2PMetrics :=
  _ ← fold_res (fun _ => meter) tt P2PMetrics_names; Ok new_P2PMetrics.

Definition RecordPeersConnected (count : Z) (m : P2PMetrics) : P2PMetrics :=
  {| PeersConnectedTotal := PeersConnectedTotal m + count; PeersConnectionFailed := PeersConnectionFailed m;
     MessagesSentTotal := MessagesSentTotal m; MessagesReceivedTotal := MessagesReceivedTotal m;
     MessageLatencySeconds := MessageLatencySeconds m; ActivePeers := ActivePeers m;
     PeersRemovedTotal := PeersRemovedTotal m |}.
Definition RecordPeersConnectionFailed (count : Z) (m : P2PMetrics) : P2PMetrics :=
  {| PeersConnectedTotal := PeersConnectedTotal m; PeersConnectionFailed := PeersConnectionFailed m + count;
     MessagesSentTotal := MessagesSentTotal m; MessagesReceivedTotal := MessagesReceivedTotal m;
     MessageLatencySeconds := MessageLatencySeconds m; ActivePeers := ActivePeers m;
     PeersRemovedTotal := PeersRemovedTotal m |}.
Definition RecordMessagesSent (count : Z) (m : P2PMetrics) : P2PMetrics :=
  {| PeersConnectedTotal := PeersConnectedTotal m; PeersConnectionFailed := PeersConnectionFailed m;
     MessagesSentTotal := MessagesSentTotal m + count; MessagesReceivedTotal := MessagesReceivedTotal m;
     MessageLatencySeconds := MessageLatencySeconds m; ActivePeers := ActivePeers m;
     PeersRemovedTotal := PeersRemovedTotal m |}.
Definition RecordMessagesReceived (count : Z) (m : P2PMetrics) : P2PMetrics :=
  {| PeersConnectedTotal := PeersConnectedTotal m; PeersConnectionFailed := PeersConnectionFailed m;
     MessagesSentTotal := MessagesSentTotal m; MessagesReceivedTotal := MessagesReceivedTotal m + count;
     MessageLatencySeconds := MessageLatencySeconds m; ActivePeers := ActivePeers m;
     PeersRemovedTotal := PeersRemovedTotal m |}.
Definition RecordMessageLatency (m : P2PMetrics) : P2PMetrics :=
  {| PeersConnectedTotal := PeersConnectedTotal m; PeersConnectionFailed := PeersConnectionFailed m;
     MessagesSentTotal := MessagesSentTotal m; MessagesReceivedTotal := MessagesReceivedTotal m;
     MessageLatencySeconds := S (MessageLatencySeconds m); ActivePeers := ActivePeers m;
     PeersRemovedTotal := PeersRemovedTotal m |}.
Definition RecordActivePeers (delta : Z) (m : P2PMetrics) : P2PMetrics :=
  {| PeersConnectedTotal := PeersConnectedTotal m; PeersConnectionFailed := PeersConnectionFailed m;
     MessagesSentTotal := MessagesSentTotal m; MessagesReceivedTotal := MessagesReceivedTotal m;
     MessageLatencySeconds := MessageLatencySeconds m; ActivePeers := ActivePeers m + delta;
     PeersRemovedTotal := PeersRemovedTotal m |}.
Definition RecordPeersRemoved (count : Z) (m : P2PMetrics) : P2PMetrics :=
  {| PeersConnectedTotal := PeersConnectedTotal m; PeersConnectionFailed := PeersConnectionFailed m;
     MessagesSentTotal := MessagesSentTotal m; MessagesReceivedTotal := MessagesReceivedTotal m;
     MessageLatencySeconds := MessageLatencySeconds m; ActivePeers := ActivePeers m;
     PeersRemovedTotal := PeersRemovedTotal m + count |}.

(** * peers.go *)
Section Peers.
Context {MA : Type}.

Record PeerInfo := { pi_ID : bytes; pi_Addresses : list MA; pi_Metadata : gmap bytes bytes }.
Record PeersManager := { pm_peers : gmap bytes nat; pm_store : list PeerInfo }.

Definition NewPeersManager : PeersManager := {| pm_peers := ∅; pm_store := [] |}.
Definition set_Addresses (addrs : list MA) (p : PeerInfo) : PeerInfo :=
  {| pi_ID := pi_ID p; pi_Addresses := addrs; pi_Metadata := pi_Metadata p |}.

Definition AddPeer (id : bytes) (addrs : list MA) (pm : PeersManager) : PeersManager :=
  match pm_peers pm !! id with
  | Some existingPeer =>
      {| pm_peers := pm_peers pm; pm_store := alter (set_Addresses addrs) existingPeer (pm_store pm) |}
  | None =>
      {| pm_peers := <[id := length (pm_store pm)]> (pm_peers pm);
         pm_store := pm_store pm ++ [{| pi_ID := id; pi_Addresses := addrs; pi_Metadata := ∅ |}] |}
  end.
Definition RemovePeer (id : bytes) (pm : PeersManager) : PeersManager :=
  match pm_peers pm !! id with
  | Some _ => {| pm_peers := delete id (pm_peers pm); pm_store := pm_store pm |}
  | None => pm
  end.
(** The pointers, in the order [ord] of the loop. *)
Definition GetPeers (ord : list bytes) (pm : PeersManager) : list nat :=
  omap (fun id => pm_peers pm !! id) ord.
End Peers.
Arguments PeerInfo : clear implicits.
Arguments PeersManager : clear implicits.

(** * network.go *)

(** The calls on libp2p; [Stream_Write target d] writes to the stream opened to
    [target]. *)
Class Host (H MA : Type) := {
  host_Connect : AddrInfo MA -> io H unit;
  host_AddAddrs : bytes -> list MA -> H -> H;
  host_NewStream : bytes -> bytes -> io H unit;
  Stream_Write : bytes -> bytes -> io H unit;
  host_SetStreamHandler : bytes -> H -> H;
  host_Close : io H unit;
  NewGossipSub : io H unit;
  PubSub_Join : bytes -> io H unit;
  Topic_Publish : bytes -> io H unit;
  mdns_Start : io H unit;
  mdns_Close : io H unit;
}.

Section Network.
Context {H MA : Type} `{!Multiaddrs MA, !Host H MA}.

(** [nw_Topic], [nw_mdns]: the field is not nil. *)
Record Network := {
  nw_Host : H;
  nw_Topic : bool;
  nw_ProtocolID : bytes;
  nw_cancelled : bool;
  nw_PeersManager : PeersManager MA;
  nw_cfg : Networking;
  nw_mdns : bool;
  nw_Metrics : P2PMetrics;
  nw_connected : list (AddrInfo MA);
}.

Definition with_Host (h : H) (n : Network) : Network :=
  {| nw_Host := h; nw_Topic := nw_Topic n; nw_ProtocolID := nw_ProtocolID n; nw_cancelled := nw_cancelled n;
     nw_PeersManager := nw_PeersManager n; nw_cfg := nw_cfg n; nw_mdns := nw_mdns n; nw_Metrics := nw_Metrics n;
     nw_connected := nw_connected n |}.
Definition set_Topic (n : Network) : Network :=
  {| nw_Host := nw_Host n; nw_Topic := true; nw_ProtocolID := nw_ProtocolID n; nw_cancelled := nw_cancelled n;
     nw_PeersManager := nw_PeersManager n; nw_cfg := nw_cfg n; nw_mdns := nw_mdns n; nw_Metrics := nw_Metrics n;
     nw_connected := nw_connected n |}.
Definition Cancel (n : Network) : Network :=
  {| nw_Host := nw_Host n; nw_Topic := nw_Topic n; nw_ProtocolID := nw_ProtocolID n; nw_cancelled := true;
     nw_PeersManager := nw_PeersManager n; nw_cfg := nw_cfg n; nw_mdns := nw_mdns n; nw_Metrics := nw_Metrics n;
     nw_connected := nw_connected n |}.
Definition set_mdns (n : Network) : Network :=
  {| nw_Host := nw_Host n; nw_Topic := nw_Topic n; nw_ProtocolID := nw_ProtocolID n;
     nw_cancelled := nw_cancelled n; nw_PeersManager := nw_PeersManager n; nw_cfg := nw_cfg n; nw_mdns := true;
     nw_Metrics := nw_Metrics n; nw_connected := nw_connected n |}.
Definition Network_AddPeer (pi : AddrInfo MA) (n : Network) : Network :=
  {| nw_Host := nw_Host n; nw_Topic := nw_Topic n; nw_ProtocolID := nw_ProtocolID n;
     nw_cancelled := nw_cancelled n; nw_PeersManager := AddPeer (ai_ID pi) (ai_Addrs pi) (nw_PeersManager n);
     nw_cfg := nw_cfg n; nw_mdns := nw_mdns n; nw_Metrics := nw_Metrics n;
     nw_connected := nw_connected n ++ [pi] |}.
Definition record (f : P2PMetrics -> P2PMetrics) (n : Network) : Network :=
  {| nw_Host := nw_Host n; nw_Topic := nw_Topic n; nw_ProtocolID := nw_ProtocolID n;
     nw_cancelled := nw_cancelled n; nw_PeersManager := nw_PeersManager n; nw_cfg := nw_cfg n;
     nw_mdns := nw_mdns n; nw_Metrics := f (nw_Metrics n); nw_connected := nw_connected n |}.

(** A call on the host. *)
Definition on_host {A} (m : io H A) : io Network A := fun n =>
  let '(h, r) := m (nw_Host n) in (with_Host h n, r).
Definition modify (f : Network -> Network) : io Network unit := fun n => (f n, Ok tt).
(** [if err := m(); err != nil { failed; return fmt.Errorf(text, err) }]. *)
Definition or_else {A} (failed : Network -> Network) (text : string) (m : io Network A) : io Network A := fun n =>
  match m n with
  | (n, Err e) => (failed n, Err (ErrWrap text e))
  | r => r
  end.

Definition connection_failed (n : Network) : Network := record (RecordPeersConnectionFailed 1) n.
Definition connection_failed_late (n : Network) : Network :=
  record (fun m => RecordMessageLatency (RecordPeersConnectionFailed 1 m)) n.

(** host.go: [libp2p_New] makes the host from the listen addresses and the
    relay option. *)
Definition CreateHost (libp2p_New : list MA -> bool -> res H) (cfg : Networking) : res H :=
  _ ← wrap "invalid networking configuration" (Networking_Validate cfg);
  listenAddrs ← wrap "invalid listen addresses" (parseListenAddresses (ListenAddrs cfg));
  wrap "failed to create libp2p host" (libp2p_New listenAddrs (EnableRelay cfg)).

Definition NewNetwork (libp2p_New : list MA -> bool -> res H) (meter : string -> res unit) (cfg : Networking) :
    res Network :=
  libp2pHost ← wrap "failed to create libp2p host" (CreateHost libp2p_New cfg);
  metrics ← wrap "failed to initialize P2P metrics" (InitializeP2PMetrics meter);
  Ok {| nw_Host := libp2pHost; nw_Topic := false; nw_ProtocolID := ProtocolID cfg; nw_cancelled := false;
        nw_PeersManager := NewPeersManager; nw_cfg := cfg; nw_mdns := false; nw_Metrics := metrics;
        nw_connected := [] |}.

(** The end of [ConnectPeer] and all of [ConnectPeerInfo]. *)
Definition ConnectPeerInfo (pi : AddrInfo MA) : io Network unit :=
  _ ← or_else connection_failed_late "failed to connect to peer %s" (on_host (host_Connect pi));
  _ ← modify (Network_AddPeer pi);
  _ ← modify (record (RecordPeersConnected 1));
  _ ← modify (record (RecordActivePeers 1));
  modify (record RecordMessageLatency).

Definition ConnectPeer (peerAddr : bytes) : io Network unit :=
  maddr ← or_else connection_failed "invalid multiaddress" (io_lift (NewMultiaddr peerAddr));
  peerInfo ← or_else connection_failed "failed to get peer info" (io_lift (AddrInfoFromP2pAddr maddr));
  _ ← modify (fun n => with_Host (host_AddAddrs (ai_ID peerInfo) (ai_Addrs peerInfo) (nw_Host n)) n);
  ConnectPeerInfo peerInfo.

(** [HandlePeerFound], called by the mDNS service. *)
Definition HandlePeerFound (pi : AddrInfo MA) : io Network unit := fun n =>
  match ai_Addrs pi with
  | [] => (n, Ok tt)
  | _ => match ConnectPeerInfo pi n with (n, Panic) => (n, Panic) | (n, _) => (n, Ok tt) end
  end.

(** The errors of the bootstrap peers are only logged. *)
Definition try_bootstrap (peerAddr : bytes) : io Network unit := fun n =>
  match ConnectPeer peerAddr n with (n, Panic) => (n, Panic) | (n, _) => (n, Ok tt) end.
Definition start_mdns : io Network unit := fun n =>
  if EnableMDNS (nw_cfg n) then
    match on_host mdns_Start n with
    | (n, Ok _) => (set_mdns n, Ok tt)
    | (n, Err _) => (n, Ok tt)
    | (n, Panic) => (n, Panic)
    end
  else (n, Ok tt).

Definition Start : io Network unit := fun n =>
  (_ ← or_else id "failed to create pubsub" (on_host NewGossipSub);
   _ ← or_else id "failed to join topic" (on_host (PubSub_Join (ProtocolID (nw_cfg n))));
   _ ← modify set_Topic;
   _ ← start_mdns;
   _ ← modify (fun n => with_Host (host_SetStreamHandler (nw_ProtocolID n) (nw_Host n)) n);
   io_iter try_bootstrap (BootstrapPeers (nw_cfg n))) n.

Definition record_removed (n : Network) : Network :=
  let activePeers := Z.of_nat (size (pm_peers (nw_PeersManager n))) in
  if 0 <? activePeers
  then record (RecordActivePeers (- activePeers)) (record (RecordPeersRemoved activePeers) n)
  else n.
Definition Shutdown : io Network unit := fun n =>
  (_ ← modify Cancel;
   _ ← (if nw_mdns n then or_else id "failed to close mdns service" (on_host mdns_Close) else mret tt);
   _ ← or_else id "failed to shut down network host" (on_host host_Close);
   modify record_removed) n.

(** [read]: the outcome of reading from the stream into the buffer. *)
Definition handleStream (read : res bytes) : io Network unit :=
  match read with
  | Err _ => mret tt
  | Panic => io_lift Panic
  | Ok _ =>
      _ ← modify (record (RecordMessagesReceived 1));
      modify (record RecordMessageLatency)
  end.

Definition SendMessage (target message : bytes) : io Network unit := fun n =>
  (_ ← or_else connection_failed_late "failed to create stream" (on_host (host_NewStream target (nw_ProtocolID n)));
   _ ← or_else connection_failed_late "failed to write message" (on_host (Stream_Write target message));
   _ ← modify (record (RecordMessagesSent 1));
   modify (record RecordMessageLatency)) n.

(** Publishing on a nil topic panics. *)
Definition Network_BroadcastMessage (message : bytes) : io Network unit := fun n =>
  if negb (nw_Topic n) then (n, Panic)
  else
    (_ ← or_else connection_failed_late "failed to broadcast message" (on_host (Topic_Publish message));
     _ ← modify (record (RecordMessagesSent 1));
     modify (record RecordMessageLatency)) n.

(** What can happen to a network after [NewNetwork].  The network never calls
    [RemovePeer] of its manager of peers, nor does anything else. *)
Inductive network_call :=
| CStart
| CConnectInfo (pi : AddrInfo MA)
| CConnect (peerAddr : bytes)
| CFound (pi : AddrInfo MA)
| CStream (read : res bytes)
| CSend (target message : bytes)
| CBroadcast (message : bytes)
| CShutdown.
Definition network_run (c : network_call) : io Network unit :=
  match c with
  | CStart => Start
  | CConnectInfo pi => ConnectPeerInfo pi
  | CConnect a => ConnectPeer a
  | CFound pi => HandlePeerFound pi
  | CStream r => handleStream r
  | CSend t m => SendMessage t m
  | CBroadcast m => Network_BroadcastMessage m
  | CShutdown => Shutdown
  end.
Definition network_runs (cs : list network_call) (n : Network) : Network :=
  foldl (fun n c => (network_run c n).1) n cs.
End Network.
Arguments Network : clear implicits.
Arguments network_call : clear implicits.

(** * The peers and the counters *)

Lemma size_list_to_set_bound {A} `{Countable A} (l : list A) :
  (size (list_to_set l : gset A) <= length l)%nat /\
  (size (list_to_set l : gset A) = length l <-> NoDup l).
Proof.
  induction l as [|x l [Hle Heq]]; cbn.
  { rewrite size_empty. split; [lia|]. split; [constructor|done]. }
  destruct (decide (x ∈ l)) as [Hx|Hx].
  - replace ({[x]} ∪ list_to_set l) with (list_to_set l : gset A) by set_solver.
    split; [lia|]. split; [lia|]. intros Hnd. by inversion Hnd.
  - rewrite size_union, size_singleton by set_solver. split; [lia|].
    rewrite NoDup_cons. split; [intros; split; [done|apply Heq; lia]|].
    intros [_ Hnd]. apply Heq in Hnd. lia.
Qed.

Section Accounting.
Context {H MA : Type} `{!Multiaddrs MA, !Host H MA}.
Implicit Types (n : Network H MA).

(** The last connection to a peer. *)
Definition last_connection (log : list (AddrInfo MA)) (id : bytes) : option (AddrInfo MA) :=
  last (filter (fun pi => ai_ID pi = id) log).

(** The table of peers is what the connections say. *)
Definition peers_ok (pm : PeersManager MA) (log : list (AddrInfo MA)) : Prop :=
  dom (pm_peers pm) = list_to_set (ai_ID <$> log) /\
  forall id p, pm_peers pm !! id = Some p -> exists info pi,
    pm_store pm !! p = Some info /\ pi_ID info = id /\
    last_connection log id = Some pi /\ pi_Addresses info = ai_Addrs pi.

Record network_ok n : Prop := {
  no_peers : peers_ok (nw_PeersManager n) (nw_connected n);
  no_connected : PeersConnectedTotal (nw_Metrics n) = Z.of_nat (length (nw_connected n));
  no_active : ActivePeers (nw_Metrics n) = PeersConnectedTotal (nw_Metrics n) - PeersRemovedTotal (nw_Metrics n);
}.

Lemma last_connection_snoc log pi id :
  last_connection (log ++ [pi]) id = if decide (ai_ID pi = id) then Some pi else last_connection log id.
Proof.
  unfold last_connection. rewrite filter_app, filter_cons, filter_nil. case_decide; [|by rewrite app_nil_r].
  apply last_snoc.
Qed.

Lemma AddPeer_ok pm log pi :
  peers_ok pm log -> peers_ok (AddPeer (ai_ID pi) (ai_Addrs pi) pm) (log ++ [pi]).
Proof.
  intros [Hdom Hst]. unfold AddPeer. destruct (pm_peers pm !! ai_ID pi) as [p0|] eqn:Hp0; split; cbn.
  - rewrite Hdom, fmap_app, list_to_set_app_L. cbn.
    assert (ai_ID pi ∈ dom (pm_peers pm)) by (apply elem_of_dom; eauto). set_solver.
  - intros id p Hp. destruct (Hst id p Hp) as (info & pi' & Hinfo & Hid & Hlast & Haddr).
    rewrite last_connection_snoc. destruct (decide (ai_ID pi = id)) as [He|Hne].
    + assert (p = p0) as -> by congruence. rewrite list_lookup_alter, Hinfo, decide_True by done.
      eexists _, pi. by split_and!.
    + destruct (Hst _ _ Hp0) as (info0 & _ & Hinfo0 & Hid0 & _).
      rewrite list_lookup_alter_ne by congruence. by exists info, pi'.
  - rewrite dom_insert_L, Hdom, fmap_app, list_to_set_app_L. cbn. set_solver.
  - intros id p. rewrite last_connection_snoc, lookup_insert_Some.
    intros [[<- <-]|[Hne Hp]].
    + rewrite decide_True by done. rewrite list_lookup_middle by done.
      eexists _, pi. by split_and!.
    + rewrite decide_False by done. destruct (Hst id p Hp) as (info & pi' & Hinfo & Hrest).
      exists info, pi'. split; [|done]. rewrite lookup_app_l; [done|]. by eapply lookup_lt_Some.
Qed.

(** Changes that the invariant does not see. *)
Definition same_books n n' : Prop :=
  nw_PeersManager n' = nw_PeersManager n /\ nw_connected n' = nw_connected n /\
  PeersConnectedTotal (nw_Metrics n') = PeersConnectedTotal (nw_Metrics n) /\
  ActivePeers (nw_Metrics n') - ActivePeers (nw_Metrics n) =
    PeersRemovedTotal (nw_Metrics n) - PeersRemovedTotal (nw_Metrics n').
Ltac books := unfold same_books; split_and!; cbn; (done || lia).
Lemma same_books_ok n n' : same_books n n' -> network_ok n -> network_ok n'.
Proof.
  intros (Hpm & Hlog & Hc & Ha) [[? ?] ? ?].
  split; [split|..]; rewrite ?Hpm, ?Hlog; done || lia.
Qed.

Lemma keeps_on_host {A} (m : io H A) : io_keeps network_ok (on_host m).
Proof.
  intros n Hn. unfold on_host. destruct (m (nw_Host n)) as [h r]. apply (same_books_ok n); [books|done].
Qed.
Lemma keeps_modify f : (forall n, same_books n (f n)) -> io_keeps network_ok (modify f).
Proof. intros Hf n Hn. by apply (same_books_ok n). Qed.
Lemma keeps_or_else {A} f text (m : io (Network H MA) A) :
  (forall n, same_books n (f n)) -> io_keeps network_ok m -> io_keeps network_ok (or_else f text m).
Proof.
  intros Hf Hm n Hn. unfold or_else. specialize (Hm n Hn).
  destruct (m n) as [n' [a|e|]]; [done| |done]. by apply (same_books_ok n').
Qed.
Lemma same_books_refl n : same_books n n.
Proof. books. Qed.
Lemma same_id n : same_books n (id n).
Proof. apply same_books_refl. Qed.
Lemma same_record f n :
  PeersConnectedTotal (f (nw_Metrics n)) = PeersConnectedTotal (nw_Metrics n) ->
  ActivePeers (f (nw_Metrics n)) - ActivePeers (nw_Metrics n) =
    PeersRemovedTotal (nw_Metrics n) - PeersRemovedTotal (f (nw_Metrics n)) ->
  same_books n (record f n).
Proof. intros. unfold same_books. by repeat split. Qed.
Hint Resolve keeps_on_host keeps_modify keeps_or_else same_books_refl same_id : peerdns.
Hint Extern 1 (same_books _ _) => solve [books] : peerdns.

Lemma keeps_swallow {A} (m : io (Network H MA) A) :
  io_keeps network_ok m ->
  io_keeps network_ok (fun n => match m n with (n, Panic) => (n, Panic) | (n, _) => (n, Ok tt) end).
Proof. intros Hm n Hn. specialize (Hm n Hn). by destruct (m n) as [n' [a|e|]]. Qed.

Lemma keeps_ConnectPeerInfo pi : io_keeps network_ok (ConnectPeerInfo pi).
Proof.
  intros n Hn. unfold ConnectPeerInfo, or_else, on_host, modify. cbv [mbind io_bind].
  destruct (host_Connect pi (nw_Host n)) as [h [[]|e|]]; cbn;
    [|apply (same_books_ok n); [books|done]..].
  destruct Hn as [Hp Hc Ha]. split; cbn; [by apply AddPeer_ok|rewrite length_app; cbn; lia|lia].
Qed.
Hint Resolve keeps_ConnectPeerInfo keeps_swallow : peerdns.

Lemma keeps_ConnectPeer a : io_keeps network_ok (ConnectPeer a).
Proof. unfold ConnectPeer. eauto 10 with peerdns. Qed.
Hint Resolve keeps_ConnectPeer : peerdns.

Lemma keeps_start_mdns : io_keeps network_ok start_mdns.
Proof.
  intros n Hn. unfold start_mdns. destruct (EnableMDNS _); [|done].
  pose proof (keeps_on_host mdns_Start n Hn) as Hk.
  destruct (on_host mdns_Start n) as [n' [[]|e|]]; [|done..]. apply (same_books_ok n'); [books|done].
Qed.
Hint Resolve keeps_start_mdns : peerdns.
Lemma keeps_bootstrap l : io_keeps network_ok (io_iter try_bootstrap l).
Proof. apply io_keeps_iter. intros a _. unfold try_bootstrap. eauto with peerdns. Qed.
Hint Resolve keeps_bootstrap : peerdns.
Lemma keeps_apply {A} (m : io (Network H MA) A) n : io_keeps network_ok m -> network_ok n -> network_ok (m n).1.
Proof. intros Hm. apply Hm. Qed.
Lemma keeps_if {A} (b : bool) (m1 m2 : io (Network H MA) A) :
  io_keeps network_ok m1 -> io_keeps network_ok m2 -> io_keeps network_ok (if b then m1 else m2).
Proof. by destruct b. Qed.
Hint Resolve keeps_if : peerdns.

Lemma same_record_removed n : same_books n (record_removed n).
Proof. unfold record_removed. case_match; books. Qed.
Hint Resolve same_record_removed : peerdns.

Lemma network_run_keeps c : io_keeps network_ok (network_run c).
Proof.
  destruct c; cbn [network_run]; eauto with peerdns.
  - intros n Hn. unfold Start. apply keeps_apply; [|done]. eauto 12 with peerdns.
  - intros n Hn. unfold HandlePeerFound. destruct (ai_Addrs pi); [done|].
    by apply (keeps_swallow (ConnectPeerInfo pi)); [apply keeps_ConnectPeerInfo|].
  - unfold handleStream. destruct read; eauto 6 with peerdns.
  - intros n Hn. unfold SendMessage. apply keeps_apply; [|done]. eauto 12 with peerdns.
  - intros n Hn. unfold Network_BroadcastMessage. destruct (negb _); [done|].
    apply keeps_apply; [|done].
    eauto 12 with peerdns.
  - intros n Hn. unfold Shutdown. apply keeps_apply; [|done]. eauto 12 with peerdns.
Qed.

Lemma network_runs_keeps cs n : network_ok n -> network_ok (network_runs cs n).
Proof. revert n. induction cs as [|c cs IH]; intros n Hn; [done|]. cbn. apply IH, network_run_keeps, Hn. Qed.

Lemma InitializeP2PMetrics_Ok meter m : InitializeP2PMetrics meter = Ok m -> m = new_P2PMetrics.
Proof. intros Hm. unfold InitializeP2PMetrics in Hm. by res_inv. Qed.

Lemma NewNetwork_ok libp2p_New meter cfg n :
  NewNetwork libp2p_New meter cfg = Ok n -> network_ok n /\ nw_connected n = [] /\ Networking_Validate cfg = Ok tt.
Proof.
  unfold NewNetwork, CreateHost. intros Hn. res_inv.
  match goal with E : InitializeP2PMetrics _ = Ok _ |- _ => apply InitializeP2PMetrics_Ok in E as -> end.
  repeat match goal with a : unit |- _ => destruct a end. split_and!; [|done..].
  split; [split|..]; cbn; [by rewrite dom_empty_L|by intros ?? ?%lookup_empty_Some|done..].
Qed.

Lemma Shutdown_Ok n n' :
  Shutdown n = (n', Ok tt) ->
  nw_PeersManager n' = nw_PeersManager n /\
  ActivePeers (nw_Metrics n') = ActivePeers (nw_Metrics n) - Z.of_nat (size (pm_peers (nw_PeersManager n))).
Proof.
  unfold Shutdown, modify, or_else, on_host. cbv [mbind io_bind].
  destruct (nw_mdns n); cbn.
  1: destruct (mdns_Close (nw_Host n)) as [h [[]|e|]]; cbn; [|done..].
  1: destruct (host_Close h) as [h' [[]|e|]]; cbn; [|done..].
  2: destruct (host_Close (nw_Host n)) as [h' [[]|e|]]; cbn; [|done..].
  all: intros [= <-]; unfold record_removed; cbn; case_match eqn:Hz; cbn in *; split; [done..|].
  all: try apply Z.ltb_ge in Hz; lia.
Qed.

(** C35: The books of the network, for every sequence of calls after
    [NewNetwork] and whatever fails on the way.  The table of peers holds
    exactly the peers that were connected to, each with the addresses of its
    last connection; the counter of connections counts them, reconnections
    included, and [ActivePeers] is that counter less what shutting down took
    off.  So while nothing was taken off it is at least the number of peers, and
    equal to it exactly when no peer was connected to twice; a shutdown takes
    the number of peers off and leaves the table as it is. *)
Theorem network_accounting libp2p_New meter cfg n0 cs n :
  NewNetwork libp2p_New meter cfg = Ok n0 -> n = network_runs cs n0 ->
  let peers := pm_peers (nw_PeersManager n) in
  (forall id, is_Some (peers !! id) <-> id ∈ ai_ID <$> nw_connected n) /\
  (forall id p, peers !! id = Some p -> exists info pi,
    pm_store (nw_PeersManager n) !! p = Some info /\ pi_ID info = id /\
    last_connection (nw_connected n) id = Some pi /\ pi_Addresses info = ai_Addrs pi) /\
  PeersConnectedTotal (nw_Metrics n) = Z.of_nat (length (nw_connected n)) /\
  ActivePeers (nw_Metrics n) = PeersConnectedTotal (nw_Metrics n) - PeersRemovedTotal (nw_Metrics n) /\
  (PeersRemovedTotal (nw_Metrics n) = 0 ->
    Z.of_nat (size peers) <= ActivePeers (nw_Metrics n) /\
    (ActivePeers (nw_Metrics n) = Z.of_nat (size peers) <-> NoDup (ai_ID <$> nw_connected n))) /\
  (forall n', network_run CShutdown n = (n', Ok tt) ->
    ActivePeers (nw_Metrics n') = ActivePeers (nw_Metrics n) - Z.of_nat (size peers) /\
    nw_PeersManager n' = nw_PeersManager n).
Proof.
  intros (Hn0 & _)%NewNetwork_ok ->. cbv zeta.
  destruct (network_runs_keeps cs n0 Hn0) as [[Hdom Hst] Hc Ha].
  set (n := network_runs cs n0) in *.
  pose proof (size_list_to_set_bound (ai_ID <$> nw_connected n)) as [Hle Heq].
  rewrite <- Hdom, size_dom, length_fmap in Hle, Heq.
  split_and!; [|done..| |].
  - intros id. rewrite <- elem_of_dom, Hdom. apply elem_of_list_to_set.
  - intros Hr. split; [lia|]. rewrite <- Heq. lia.
  - intros n' Hs. apply Shutdown_Ok in Hs as [-> ->]. done.
Qed.

(** [GetPeers] says it returns a snapshot; it returns the pointers of the
    table, so a later connection to a peer changes the entry that the caller
    holds. *)
Lemma GetPeers_shared ord n id p info pi n' :
  network_ok n -> id ∈ ord -> pm_peers (nw_PeersManager n) !! id = Some p ->
  pm_store (nw_PeersManager n) !! p = Some info -> ai_ID pi = id ->
  ConnectPeerInfo pi n = (n', Ok tt) ->
  p ∈ GetPeers ord (nw_PeersManager n) /\
  pm_store (nw_PeersManager n') !! p = Some (set_Addresses (ai_Addrs pi) info).
Proof.
  intros Hn Hord Hp Hinfo Hid Hc. split; [apply list_elem_of_omap; eauto|].
  revert Hc. unfold ConnectPeerInfo, or_else, on_host, modify. cbv [mbind io_bind].
  destruct (host_Connect pi (nw_Host n)) as [h [[]|e|]]; cbn; [|done..].
  intros [= <-]. cbn. unfold AddPeer. rewrite Hid, Hp. cbn.
  rewrite list_lookup_alter, Hinfo. by rewrite decide_True.
Qed.
End Accounting.

(** * A concrete run: every host but the one with the empty identifier answers *)
#[export] Instance example_host : Host unit bytes := {|
  host_Connect pi h := (h, if bool_decide (ai_ID pi = []) then Err (ErrMsg "dial backoff") else Ok tt);
  host_AddAddrs _ _ h := h;
  host_NewStream _ _ h := (h, Ok tt);
  Stream_Write _ _ h := (h, Ok tt);
  host_SetStreamHandler _ h := h;
  host_Close h := (h, Ok tt);
  NewGossipSub h := (h, Ok tt);
  PubSub_Join _ h := (h, Ok tt);
  Topic_Publish _ h := (h, Ok tt);
  mdns_Start h := (h, Ok tt);
  mdns_Close h := (h, Ok tt) |}.
Definition example_new (addrs : list bytes) (relay : bool) : res unit := Ok tt.
Definition example_meter (name : string) : res unit := Ok tt.
Definition example_network : res (Network unit bytes) := NewNetwork example_new example_meter networking_example.
Definition example_calls : list (network_call bytes) :=
  [CStart; CFound {| ai_ID := str "b"; ai_Addrs := [str "/x"] |};
   CConnectInfo {| ai_ID := str "b"; ai_Addrs := [str "/y"] |};
   CConnectInfo {| ai_ID := []; ai_Addrs := [str "/y"] |}; CBroadcast (str "hello"); CShutdown].

(** One peer was connected to twice: after the shutdown one peer is still
    counted as active. *)
Lemma network_accounting_witness : exists n0,
  example_network = Ok n0 /\
  let n := network_runs example_calls n0 in
  length (nw_connected n) = 3%nat /\ size (pm_peers (nw_PeersManager n)) = 2%nat /\
  ActivePeers (nw_Metrics n) = PeersConnectedTotal (nw_Metrics n) - PeersRemovedTotal (nw_Metrics n) /\
  ActivePeers (nw_Metrics n) = 1.
Proof.
  eexists. split; [vm_compute; reflexivity|]. cbv zeta. split; [vm_compute; reflexivity|].
  split; [vm_compute; reflexivity|]. split; [|vm_compute; reflexivity].
  refine (proj1 (proj2 (proj2 (proj2 (network_accounting example_new example_meter networking_example _
    example_calls _ _ eq_refl))))). vm_compute. reflexivity.
Defined.
