(* ===== verification/Streams.v ===== *)
(** [pkg/networking]: what is sent and received outside of [network.go]: the
    stream handler ([handlers.go]), the topic service ([pubsub.go]) and the
    network that the tests of the consensus use ([p2p_mock.go]).

    A stream is its outcome: what one call of [Read] gives, which may be less
    than was sent, and what [Write] does to a world [W].  The subscriptions of the mock network are shared pointers,
    found again by their topic; each method holds the lock and is one step. *)
From Stdlib Require Import Strings.Byte.
From S2P Require Import Prelude Bytes Packets.

(** * handlers.go *)
Definition stream_buffer : nat := 4096.

(** What the handler logs in the end. *)
Inductive handled :=
| NotRead (e : error)
| NotDecoded (e : error)
| ReceivedPing (sender : PeerID)
| ReceivedRequest (sender : PeerID)
| ReceivedResponse (sender : PeerID)
| UnknownPacket (sender : PeerID)
| HandlerPanic.

(** [read n]: the stream read into a buffer of [n] bytes. *)
Definition HandleStream (read : nat -> res bytes) : handled :=
  match read stream_buffer with
  | Err e => NotRead e
  | Panic => HandlerPanic
  | Ok data =>
      match DeserializeNetworkPacket data with
      | Err e => NotDecoded e
      | Panic => HandlerPanic
      | Ok packet =>
          if np_Type packet =? PacketTypePing then ReceivedPing (np_SenderID packet)
          else if np_Type packet =? PacketTypeRequest then ReceivedRequest (np_SenderID packet)
          else if np_Type packet =? PacketTypeResponse then ReceivedResponse (np_SenderID packet)
          else UnknownPacket (np_SenderID packet)
      end
  end.

Section SendResponse.
Context {W : Type} (Write : bytes -> io W unit).

Definition as_response (response : NetworkPacket) : NetworkPacket :=
  {| np_Type := PacketTypeResponse; np_SenderID := np_SenderID response;
     np_ReceiverID := np_ReceiverID response; np_Payload := np_Payload response;
     np_Signature := np_Signature response |}.
Definition SendResponse (response : NetworkPacket) : io W unit :=
  data ← io_wrap "failed to serialize response" (io_lift (NetworkPacket_Serialize (as_response response)));
  io_wrap "failed to write response" (Write data).
End SendResponse.

(** * pubsub.go *)
Section PubSub.
Context {W : Type} (Join : bytes -> io W unit) (Subscribe : io W unit) (Publish : bytes -> io W unit)
  (Next : io W bytes).

Definition NewPubSubService (topicName : bytes) : io W unit :=
  _ ← io_wrap "failed to join topic" (Join topicName);
  io_wrap "failed to subscribe to topic" Subscribe.
Definition PublishMessage (message : bytes) : io W unit := Publish message.

(** [ReadMessages] with [fuel] turns of its loop: the messages logged, [None]
    for a failure; the loop itself has no end. *)
Fixpoint ReadMessages (fuel : nat) (w : W) : list (option bytes) :=
  match fuel with
  | O => []
  | S fuel =>
      match Next w with
      | (w, Ok msg) => Some msg :: ReadMessages fuel w
      | (w, _) => None :: ReadMessages fuel w
      end
  end.
End PubSub.

(** * p2p_mock.go *)
Record MockSubscription := { ms_messages : list bytes; ms_closed : bool }.
Record MockP2PNetwork := {
  m_broadcasted : list bytes;
  m_subscriptions : gmap bytes MockSubscription;
  m_hostID : bytes;
  m_broadcastCh : nat;
}.
Definition broadcastCh_capacity : nat := 100.

Definition NewMockSubscription : MockSubscription := {| ms_messages := []; ms_closed := false |}.
Definition EnqueueMessage (message : bytes) (ms : MockSubscription) : MockSubscription :=
  {| ms_messages := ms_messages ms ++ [message]; ms_closed := ms_closed ms |}.
Definition ErrCanceled : error := ErrMsg "context canceled".
(** A nil message is [None]. *)
Definition Mock_Next : io MockSubscription (option bytes) := fun ms =>
  if ms_closed ms then (ms, Err ErrCanceled)
  else
    match ms_messages ms with
    | [] => (ms, Ok None)
    | msg :: messages => ({| ms_messages := messages; ms_closed := ms_closed ms |}, Ok (Some msg))
    end.
Definition Mock_Cancel (ms : MockSubscription) : MockSubscription :=
  {| ms_messages := ms_messages ms; ms_closed := true |}.

Definition NewMockP2PNetwork (hostID : bytes) : MockP2PNetwork :=
  {| m_broadcasted := []; m_subscriptions := ∅; m_hostID := hostID; m_broadcastCh := 0 |}.
Definition set_subscriptions (subs : gmap bytes MockSubscription) (m : MockP2PNetwork) : MockP2PNetwork :=
  {| m_broadcasted := m_broadcasted m; m_subscriptions := subs; m_hostID := m_hostID m;
     m_broadcastCh := m_broadcastCh m |}.
Definition Mock_BroadcastMessage (message : bytes) (m : MockP2PNetwork) : MockP2PNetwork :=
  {| m_broadcasted := m_broadcasted m ++ [message];
     m_subscriptions := EnqueueMessage message <$> m_subscriptions m;
     m_hostID := m_hostID m;
     m_broadcastCh := if (m_broadcastCh m <? broadcastCh_capacity)%nat then S (m_broadcastCh m)
                      else m_broadcastCh m |}.
Definition PubSubSubscribe (topic : bytes) (m : MockP2PNetwork) : MockP2PNetwork :=
  match m_subscriptions m !! topic with
  | Some _ => m
  | None => set_subscriptions (<[topic := NewMockSubscription]> (m_subscriptions m)) m
  end.
Definition GetBroadcastedMessages (m : MockP2PNetwork) : list bytes := m_broadcasted m.
Definition GetBroadcastedCount (m : MockP2PNetwork) : nat := length (m_broadcasted m).

(** The calls of a test: through the network, and through the subscription that
    [PubSubSubscribe] returned for a topic. *)
Inductive mock_call :=
| MBroadcast (message : bytes)
| MSubscribe (topic : bytes)
| MNext (topic : bytes)
| MCancel (topic : bytes)
| MNotified
| MCount.
Inductive mock_output :=
| ODone
| ONoSubscription
| ONext (r : res (option bytes))
| ONotified (b : bool)
| OCount (n : nat).

Definition mock_step (c : mock_call) (m : MockP2PNetwork) : MockP2PNetwork * mock_output :=
  match c with
  | MBroadcast msg => (Mock_BroadcastMessage msg m, ODone)
  | MSubscribe topic => (PubSubSubscribe topic m, ODone)
  | MNext topic =>
      match m_subscriptions m !! topic with
      | None => (m, ONoSubscription)
      | Some ms => let '(ms, r) := Mock_Next ms in (set_subscriptions (<[topic := ms]> (m_subscriptions m)) m, ONext r)
      end
  | MCancel topic =>
      match m_subscriptions m !! topic with
      | None => (m, ONoSubscription)
      | Some ms => (set_subscriptions (<[topic := Mock_Cancel ms]> (m_subscriptions m)) m, ODone)
      end
  | MNotified =>
      match m_broadcastCh m with
      | O => (m, ONotified false)
      | S k => ({| m_broadcasted := m_broadcasted m; m_subscriptions := m_subscriptions m;
                   m_hostID := m_hostID m; m_broadcastCh := k |}, ONotified true)
      end
  | MCount => (m, OCount (GetBroadcastedCount m))
  end.
Fixpoint mock_run (cs : list mock_call) (m : MockP2PNetwork) : list mock_output :=
  match cs with
  | [] => []
  | c :: cs => let '(m, o) := mock_step c m in o :: mock_run cs m
  end.

(** * The contract of the mock network: one log of everything broadcast; a
    subscription is a position in the log, and whether it was cancelled. *)
Record log_network := {
  l_log : list bytes;
  l_cursors : gmap bytes (nat * bool);
  l_pending : nat;
}.
Definition log_step (c : mock_call) (l : log_network) : log_network * mock_output :=
  match c with
  | MBroadcast msg =>
      ({| l_log := l_log l ++ [msg]; l_cursors := l_cursors l; l_pending := Nat.min 100 (S (l_pending l)) |}, ODone)
  | MSubscribe topic =>
      ({| l_log := l_log l;
          l_cursors := match l_cursors l !! topic with
                       | Some _ => l_cursors l
                       | None => <[topic := (length (l_log l), false)]> (l_cursors l)
                       end;
          l_pending := l_pending l |}, ODone)
  | MNext topic =>
      match l_cursors l !! topic with
      | None => (l, ONoSubscription)
      | Some (k, true) => (l, ONext (Err ErrCanceled))
      | Some (k, false) =>
          match l_log l !! k with
          | None => (l, ONext (Ok None))
          | Some msg => ({| l_log := l_log l; l_cursors := <[topic := (S k, false)]> (l_cursors l);
                            l_pending := l_pending l |}, ONext (Ok (Some msg)))
          end
      end
  | MCancel topic =>
      match l_cursors l !! topic with
      | None => (l, ONoSubscription)
      | Some (k, _) => ({| l_log := l_log l; l_cursors := <[topic := (k, true)]> (l_cursors l);
                           l_pending := l_pending l |}, ODone)
      end
  | MNotified =>
      ({| l_log := l_log l; l_cursors := l_cursors l; l_pending := pred (l_pending l) |},
       ONotified (bool_decide (l_pending l <> O)))
  | MCount => (l, OCount (length (l_log l)))
  end.
Fixpoint log_run (cs : list mock_call) (l : log_network) : list mock_output :=
  match cs with
  | [] => []
  | c :: cs => let '(l, o) := log_step c l in o :: log_run cs l
  end.
Definition empty_log : log_network := {| l_log := []; l_cursors := ∅; l_pending := 0 |}.

(** A subscription's queue is the part of the log that it has not read. *)
Definition queue_of (log : list bytes) (ms : MockSubscription) (c : nat * bool) : Prop :=
  ms_messages ms = drop c.1 log /\ ms_closed ms = c.2 /\ (c.1 <= length log)%nat.
Record implements (m : MockP2PNetwork) (l : log_network) : Prop := {
  im_log : m_broadcasted m = l_log l;
  im_pending : m_broadcastCh m = l_pending l;
  im_bound : (l_pending l <= broadcastCh_capacity)%nat;
  im_subs : forall t, option_Forall2 (queue_of (l_log l)) (m_subscriptions m !! t) (l_cursors l !! t);
}.

#[local] Arguments Nat.min : simpl never.
#[local] Arguments Nat.ltb : simpl never.
Lemma queue_enqueue log ms c msg :
  queue_of log ms c -> queue_of (log ++ [msg]) (EnqueueMessage msg ms) c.
Proof.
  intros (Hm & Hc & Hk). split_and!; cbn; [|done|rewrite length_app; lia].
  by rewrite Hm, drop_app_le.
Qed.

Lemma option_Forall2_insert {A B} (R : A -> B -> Prop) (m1 : gmap bytes A) (m2 : gmap bytes B) k a b :
  (forall t, option_Forall2 R (m1 !! t) (m2 !! t)) -> R a b ->
  forall t, option_Forall2 R (<[k := a]> m1 !! t) (<[k := b]> m2 !! t).
Proof.
  intros Hm HR t. destruct (decide (k = t)) as [->|].
  - rewrite !lookup_insert_eq. by constructor.
  - by rewrite !lookup_insert_ne.
Qed.

Lemma insert_same {A B} (R : A -> B -> Prop) (m1 : gmap bytes A) (m2 : gmap bytes B) k a b :
  (forall t, option_Forall2 R (m1 !! t) (m2 !! t)) -> m2 !! k = Some b -> R a b ->
  forall t, option_Forall2 R (<[k := a]> m1 !! t) (m2 !! t).
Proof. intros Hm Hk HR. rewrite <- (insert_id m2 k b) by done. by apply option_Forall2_insert. Qed.

Lemma mock_Next_refines m l topic :
  implements m l ->
  implements (mock_step (MNext topic) m).1 (log_step (MNext topic) l).1 /\
  (mock_step (MNext topic) m).2 = (log_step (MNext topic) l).2.
Proof.
  intros [Hlog Hp Hb Hs]. cbn. specialize (Hs topic) as Ht.
  inversion Ht as [ms [k closed] (Hm & Hc & Hk) E1 E2|E1 E2]; [|done]. cbn in Hm, Hc, Hk.
  unfold Mock_Next. rewrite Hc. destruct closed; cbn.
  { split; [|done]. split; cbn; [done..|]. by eapply insert_same. }
  rewrite Hm. destruct (l_log l !! k) as [msg|] eqn:Hmsg.
  - rewrite (drop_S _ msg) by done. cbn. split; [|done]. split; cbn; [done..|].
    apply option_Forall2_insert; [done|]. split_and!; cbn; [done..|].
    apply lookup_lt_Some in Hmsg. lia.
  - apply lookup_ge_None in Hmsg. rewrite drop_ge by done. cbn. split; [|done].
    split; cbn; [done..|]. by eapply insert_same.
Qed.

Lemma mock_step_refines c m l :
  implements m l ->
  implements (mock_step c m).1 (log_step c l).1 /\ (mock_step c m).2 = (log_step c l).2.
Proof.
  intros Hi. destruct c as [msg|topic|topic|topic| |]; [| |by apply mock_Next_refines|..];
    destruct Hi as [Hlog Hp Hb Hs]; cbn.
  - split; [|done]. split; cbn.
    + by rewrite Hlog.
    + rewrite Hp. unfold broadcastCh_capacity in *. destruct (Nat.ltb_spec (l_pending l) 100); lia.
    + unfold broadcastCh_capacity. lia.
    + intros t. rewrite lookup_fmap. specialize (Hs t). inversion Hs; constructor. by apply queue_enqueue.
  - split; [|done]. unfold PubSubSubscribe. specialize (Hs topic) as Ht.
    inversion Ht as [ms kc _ E1 E2|E1 E2]; split; cbn; try done.
    apply option_Forall2_insert; [done|]. split_and!; cbn; [by rewrite drop_ge|done|lia].
  - specialize (Hs topic) as Ht. inversion Ht as [ms [k closed] (Hm & Hc & Hk) E1 E2|E1 E2]; [|done].
    split; [|done]. split; cbn; [done..|]. apply option_Forall2_insert; [done|]. by split_and!.
  - rewrite Hp. destruct (l_pending l) as [|k] eqn:Hl; cbn; (split; [|done]); split; cbn; done || lia.
  - unfold GetBroadcastedCount. by rewrite Hlog.
Qed.

(** C36: The mock network keeps the contract of a log: for every sequence of
    broadcasts, subscriptions, reads, cancellations and notifications its
    outputs are those of one log in which a subscription is a position.  So a
    subscription gets, in order and once each, exactly the messages broadcast
    after the first [PubSubSubscribe] to its topic, a nil message when there
    are no more and an error once cancelled; two callers that subscribe to one
    topic share one position; notifications beyond a hundred are dropped. *)
Theorem MockP2PNetwork_refines_log hostID cs :
  mock_run cs (NewMockP2PNetwork hostID) = log_run cs empty_log.
Proof.
  assert (implements (NewMockP2PNetwork hostID) empty_log) as Hi.
  { split; cbn; [done..|lia|]. intros t. rewrite !lookup_empty. constructor. }
  revert Hi. generalize (NewMockP2PNetwork hostID), empty_log.
  induction cs as [|c cs IH]; intros m l Hi; [done|]. cbn.
  apply (mock_step_refines c) in Hi as [Hi Ho].
  destruct (mock_step c m) as [m' o], (log_step c l) as [l' o']. cbn in *. by rewrite Ho, (IH _ _ Hi).
Qed.

(** * What becomes of a response whose stream is read once *)

(** A packet up to its payload. *)
Definition response_head (np : NetworkPacket) : bytes :=
  le_bytes 1 PacketTypeResponse ++ serializePeerID (np_SenderID np) ++ serializePeerID (np_ReceiverID np) ++
  le_bytes 4 (Zlen (np_Payload np)).
(** The flag and the length of a signature. *)
Definition signature_head (sig : bytes) : bytes :=
  le_bytes 1 (if Zlen sig =? 0 then 0 else 1) ++ le_bytes 4 (Zlen sig).

Lemma as_response_ok np : NetworkPacket_ok np -> NetworkPacket_ok (as_response np).
Proof. intros []. split; [done..]. Qed.

Lemma length_response_head np :
  length (response_head np) = (13 + length (np_SenderID np) + length (np_ReceiverID np))%nat.
Proof. unfold response_head, serializePeerID, put_block. rewrite !length_app, !length_le_bytes. lia. Qed.
Lemma length_signature_head sig : length (signature_head sig) = 5%nat.
Proof. unfold signature_head. by rewrite length_app, !length_le_bytes. Qed.

Lemma put_signature_split sig : short sig -> put_signature sig = signature_head sig ++ sig.
Proof.
  intros Hs. unfold put_signature, signature_head. rewrite short_u32 by done.
  destruct (Z.eqb_spec (Zlen sig) 0) as [E|]; cbn [negb]; [|by rewrite <- app_assoc].
  apply Zlen_0 in E as ->. by rewrite !app_nil_r.
Qed.

Lemma response_layout np :
  NetworkPacket_ok np ->
  NetworkPacket_Serialize (as_response np) =
    Ok (response_head np ++ np_Payload np ++ signature_head (np_Signature np) ++ np_Signature np).
Proof.
  intros []. rewrite <- put_signature_split by done.
  unfold NetworkPacket_Serialize, response_head, put_block. cbn [as_response np_Type np_SenderID
    np_ReceiverID np_Payload np_Signature]. rewrite short_u32 by done. by rewrite <- !app_assoc.
Qed.

Definition with_signature (np : NetworkPacket) (payload sig : bytes) : NetworkPacket :=
  {| np_Type := PacketTypeResponse; np_SenderID := np_SenderID np; np_ReceiverID := np_ReceiverID np;
     np_Payload := payload; np_Signature := sig |}.
(** The decoder behind the head of the response. *)
Definition tail_reader (np : NetworkPacket) : reader NetworkPacket :=
  payload ← rwrap "failed to deserialize payload" (reader_read (Zlen (np_Payload np)));
  signature ← get_signature reader_read;
  mret (with_signature np payload signature).

Lemma head_read np rest :
  NetworkPacket_ok np -> DeserializeNetworkPacket_reader (response_head np ++ rest) = tail_reader np rest.
Proof.
  intros [_ Hs Hr Hp _]. unfold response_head, DeserializeNetworkPacket_reader, tail_reader.
  cbv [mbind reader_bind]. rewrite <- !app_assoc.
  rewrite (reads_wrap _ "failed to deserialize packet type" _ _ _ (read_le_reads 1 PacketTypeResponse)) by done.
  rewrite (reads_wrap _ "failed to deserialize sender ID" _ _ _ (deserializePeerID_reads _ Hs)) by done.
  rewrite (reads_wrap _ "failed to deserialize receiver ID" _ _ _ (deserializePeerID_reads _ Hr)) by done.
  rewrite (reads_wrap _ "failed to deserialize payload length" _ _ _ (read_le_reads 4 (Zlen (np_Payload np)))) by done.
  by rewrite Z.mod_small by (by apply short_range).
Qed.

Lemma refuses_PeerID id : short id -> refuses (rwrap "failed to deserialize peer ID length" (read_le 4) ≫=
  fun n => rwrap "failed to deserialize peer ID" (read_full n)) (serializePeerID id).
Proof.
  intros Hs. unfold serializePeerID, put_block. rewrite short_u32 by done.
  eapply refuses_bind; [apply reads_wrap, read_le_reads|apply refuses_wrap, refuses_read_le|].
  rewrite Z.mod_small by (by apply short_range). by apply refuses_wrap, refuses_read_full.
Qed.

(** A response that ends in its head is refused. *)
Lemma head_cut np : NetworkPacket_ok np -> refuses DeserializeNetworkPacket_reader (response_head np).
Proof.
  intros [_ Hs Hr Hp _]. unfold response_head, DeserializeNetworkPacket_reader.
  eapply refuses_bind; [apply reads_wrap, read_le_reads|apply refuses_wrap, refuses_read_le|].
  do 2 (eapply refuses_bind;
    [by apply reads_wrap, deserializePeerID_reads|by apply refuses_wrap, refuses_PeerID|]).
  apply refuses_stop, refuses_wrap, refuses_read_le.
Qed.

(** One that ends in its payload, or in the flag and the length. *)
Lemma payload_none np : tail_reader np [] = Err (ErrWrap "failed to deserialize payload" EOF).
Proof. done. Qed.
Lemma payload_cut np kept lost :
  np_Payload np = kept ++ lost -> kept <> [] ->
  tail_reader np kept = Err (ErrWrap "failed to deserialize signature presence flag" EOF).
Proof.
  intros Hcut Hkept. unfold tail_reader. cbv [mbind reader_bind].
  unfold rwrap at 1, reader_read, reader_read_n. cbv [mbind reader_bind].
  destruct (Z.eqb_spec (Zlen kept) 0) as [E|E]; [by apply Zlen_0 in E|]. cbn [wrap].
  rewrite drop_ge; [done|]. rewrite Hcut, Zlen_app. unfold Zlen. lia.
Qed.

Lemma payload_read np rest :
  np_Payload np ++ rest <> [] ->
  tail_reader np (np_Payload np ++ rest) =
    (signature ← get_signature reader_read; mret (with_signature np (np_Payload np) signature)) rest.
Proof.
  intros Hne. unfold tail_reader. cbv [mbind reader_bind].
  rewrite (reads_wrap (fun rest => np_Payload np ++ rest <> []) "failed to deserialize payload" _ _ _
    (reader_read_reads _ _ eq_refl)) by done. done.
Qed.

Lemma flag_cut sig : refuses (get_signature reader_read) (signature_head sig).
Proof.
  unfold get_signature, signature_head.
  eapply refuses_bind; [apply reads_wrap, read_le_reads|apply refuses_wrap, refuses_read_le|].
  apply refuses_stop, refuses_wrap, refuses_read_le.
Qed.

(** What follows the flag and the length of a signature. *)
Lemma signature_read sig d :
  short sig ->
  get_signature reader_read (signature_head sig ++ d) =
    if Zlen sig =? 0 then Ok ([], d)
    else rwrap "failed to deserialize signature" (reader_read (Zlen sig)) d.
Proof.
  intros Hs. unfold get_signature, signature_head. cbv [mbind reader_bind]. rewrite <- app_assoc.
  rewrite (reads_wrap _ "failed to deserialize signature presence flag" _ _ _
    (read_le_reads 1 (if Zlen sig =? 0 then 0 else 1))) by done.
  rewrite (reads_wrap _ "failed to deserialize signature length" _ _ _ (read_le_reads 4 (Zlen sig))) by done.
  rewrite (Z.mod_small (Zlen _)) by (by apply short_range). pose proof (Zlen_nonneg sig).
  destruct (Z.eqb_spec (Zlen sig) 0) as [->|]; [done|].
  by rewrite (proj2 (Z.ltb_lt 0 _)) by lia.
Qed.

Lemma signature_none sig : short sig -> sig <> [] ->
  get_signature reader_read (signature_head sig) = Err (ErrWrap "failed to deserialize signature" EOF).
Proof.
  intros Hs Hne. rewrite <- (app_nil_r (signature_head sig)), signature_read by done.
  destruct (Z.eqb_spec (Zlen sig) 0) as [E|]; [by apply Zlen_0 in E|done].
Qed.
Lemma signature_cut sig kept lost : short sig -> sig = kept ++ lost -> kept <> [] ->
  get_signature reader_read (signature_head sig ++ kept) = Ok (kept ++ zeros (Zlen lost), []).
Proof.
  intros Hs E Hne. rewrite signature_read by done.
  assert (0 < Zlen kept) by (destruct kept; [done|unfold Zlen; cbn; lia]). pose proof (Zlen_nonneg lost).
  rewrite (proj2 (Z.eqb_neq (Zlen sig) 0)) by (rewrite E, Zlen_app; lia).
  unfold rwrap, reader_read, reader_read_n. cbv [mbind reader_bind].
  rewrite (proj2 (Z.eqb_neq (Zlen kept) 0)) by lia. cbn [wrap mret reader_ret fst].
  rewrite take_ge, drop_ge by (rewrite E, Zlen_app; unfold Zlen in *; lia).
  replace (Zlen sig - Zlen kept) with (Zlen lost) by (rewrite E, Zlen_app; lia). done.
Qed.

(** ** The ways to cut a response *)
Definition head_length (np : NetworkPacket) : Z := 13 + Zlen (np_SenderID np) + Zlen (np_ReceiverID np).
Definition body_length (np : NetworkPacket) : Z :=
  13 + Zlen (np_SenderID np) + Zlen (np_ReceiverID np) + Zlen (np_Payload np) + 5.
(** The signature that arrives when [lost] of it does not. *)
Definition zeroed (sig : bytes) (n : nat) : bytes := take n sig ++ zeros (Zlen (drop n sig)).

Section Cut.
Context (np : NetworkPacket) (Hok : NetworkPacket_ok np).
Local Abbreviation sig := (np_Signature np).
Local Abbreviation data := (response_head np ++ np_Payload np ++ signature_head sig ++ sig).

Lemma run_reader_Err {A} (m : reader A) d e : m d = Err e -> run_reader m d = Err e.
Proof. intros E. unfold run_reader. by rewrite E. Qed.

Lemma decode_tail rest : DeserializeNetworkPacket (response_head np ++ rest) = run_reader (tail_reader np) rest.
Proof. unfold DeserializeNetworkPacket, run_reader. by rewrite head_read. Qed.

Lemma take_nonempty {A} n (l : list A) : (0 < n)%nat -> l <> [] -> take n l <> [].
Proof. destruct n, l; cbn; [lia..|done|done]. Qed.

Lemma decode_flag n : (0 < length (np_Payload np) + n < length (np_Payload np) + 5)%nat ->
  exists e, DeserializeNetworkPacket (response_head np ++ np_Payload np ++ take n (signature_head sig)) = Err e.
Proof.
  intros Hn. pose proof (length_signature_head sig) as Hl.
  destruct (flag_cut sig (take n (signature_head sig)) (drop n (signature_head sig))) as [e He].
  - by rewrite take_drop.
  - intros E%(f_equal length). rewrite length_drop in E. change (length (@nil byte)) with O in E. lia.
  - exists e. rewrite decode_tail. apply run_reader_Err. rewrite payload_read.
    + cbv [mbind reader_bind]. by rewrite He.
    + intros E%(f_equal length). rewrite length_app, length_take in E. change (length (@nil byte)) with O in E. lia.
Qed.

Lemma decode_signature n : (0 < n)%nat -> sig <> [] ->
  DeserializeNetworkPacket (response_head np ++ np_Payload np ++ signature_head sig ++ take n sig) =
    Ok (with_signature np (np_Payload np) (zeroed sig n)).
Proof.
  intros Hn Hne. rewrite decode_tail. unfold run_reader. rewrite payload_read by by intros [_ ?]%app_nil.
  cbv [mbind reader_bind].
  rewrite (signature_cut sig (take n sig) (drop n sig));
    [done|by destruct Hok|by rewrite take_drop|by apply take_nonempty].
Qed.

Lemma decode_whole : DeserializeNetworkPacket data = Ok (as_response np).
Proof.
  destruct (NetworkPacket_roundtrip _ [] (as_response_ok np Hok)) as (d & Hs & Hd).
  rewrite response_layout in Hs by done. injection Hs as <-. by rewrite app_nil_r in Hd.
Qed.
End Cut.

(** The bytes of a response that arrive. *)
Lemma cut_response np n :
  let data := response_head np ++ np_Payload np ++ signature_head (np_Signature np) ++ np_Signature np in
  let h := length (response_head np) in
  let p := length (np_Payload np) in
  ((n < h)%nat /\ take n data = take n (response_head np)) \/
  ((h <= n <= h + p)%nat /\ take n data = response_head np ++ take (n - h) (np_Payload np)) \/
  ((h + p < n <= h + p + 5)%nat /\
   take n data = response_head np ++ np_Payload np ++ take (n - h - p) (signature_head (np_Signature np))) \/
  ((h + p + 5 < n)%nat /\ take n data =
   response_head np ++ np_Payload np ++ signature_head (np_Signature np) ++ take (n - h - p - 5) (np_Signature np)).
Proof.
  cbv zeta. pose proof (length_signature_head (np_Signature np)) as Hl.
  destruct (decide (n < length (response_head np))%nat).
  { left. split; [done|]. by rewrite take_app_le by lia. }
  destruct (decide (n <= length (response_head np) + length (np_Payload np))%nat).
  { right. left. split; [lia|]. by rewrite take_app_ge, take_app_le by lia. }
  right. right. rewrite !take_app_ge with (l := response_head np) by lia.
  rewrite take_app_ge by lia.
  destruct (decide (n <= length (response_head np) + length (np_Payload np) + 5)%nat).
  - left. split; [lia|]. by rewrite take_app_le by lia.
  - right. split; [lia|]. rewrite take_app_ge by lia. by rewrite Hl.
Qed.

(** What the handler decodes of a response. *)
Lemma got_cases np k :
  NetworkPacket_ok np ->
  let data := response_head np ++ np_Payload np ++ signature_head (np_Signature np) ++ np_Signature np in
  let got := take (Nat.min k 4096) data in
  (got = data -> DeserializeNetworkPacket got = Ok (as_response np)) /\
  (Zlen got <= body_length np -> got <> data -> exists e, DeserializeNetworkPacket got = Err e) /\
  (head_length np < Zlen got <= head_length np + Zlen (np_Payload np) ->
    DeserializeNetworkPacket got = Err (ErrWrap "failed to deserialize signature presence flag" EOF)) /\
  (body_length np < Zlen got -> DeserializeNetworkPacket got =
    Ok (with_signature np (np_Payload np) (zeroed (np_Signature np) (Z.to_nat (Zlen got - body_length np))))).
Proof.
  intros Hok data. set (n := Nat.min k 4096). cbv zeta.
  assert (length data = length (response_head np) + length (np_Payload np) + 5 + length (np_Signature np))%nat
    as Hdata by (subst data; rewrite !length_app, length_signature_head; lia).
  assert (take n data = take (Nat.min n (length data)) data) as ->.
  { destruct (decide (n <= length data)%nat); [by rewrite Nat.min_l|].
    rewrite Nat.min_r, !take_ge by lia. done. }
  assert (Zlen (take (Nat.min n (length data)) data) = Z.of_nat (Nat.min n (length data))) as Hlen.
  { unfold Zlen. rewrite length_take. lia. }
  rewrite Hlen. set (m := Nat.min n (length data)) in *. assert (m <= length data)%nat as Hm by lia.
  clearbody m. clear Hlen n. pose proof (length_response_head np) as Hh.
  assert (body_length np = Z.of_nat (length (response_head np) + length (np_Payload np) + 5)) as Hb
    by (unfold body_length, Zlen; lia).
  assert (head_length np = Z.of_nat (length (response_head np))) as Hhl by (unfold head_length, Zlen; lia).
  rewrite Hb, Hhl. split; [intros ->; by apply decode_whole|].
  destruct (cut_response np m) as [[Hn E]|[[Hn E]|[[Hn E]|[Hn E]]]]; fold data in E; rewrite E; split_and!;
    try (intros Hx; exfalso; unfold Zlen in *; lia).
  - intros _ _. destruct (head_cut np Hok (take m (response_head np)) (drop m (response_head np))) as [e He].
    + by rewrite take_drop.
    + intros El%(f_equal length). rewrite length_drop in El. change (length (@nil byte)) with O in El. lia.
    + exists e. by apply run_reader_Err.
  - intros _ _. rewrite decode_tail by done.
    destruct (decide (take (m - length (response_head np)) (np_Payload np) = [])) as [->|Hne].
    + eexists. by apply run_reader_Err, payload_none.
    + eexists. eapply run_reader_Err, payload_cut; [by rewrite take_drop|done].
  - intros [Hlt _]. rewrite decode_tail by done. eapply run_reader_Err, payload_cut; [by rewrite take_drop|].
    intros El%(f_equal length). rewrite length_take in El. unfold Zlen in *. change (length (@nil byte)) with O in El. lia.
  - intros _ Hne. destruct (decide (m = length (response_head np) + length (np_Payload np) + 5)%nat) as [Em|].
    + rewrite take_ge by (rewrite length_signature_head; lia). rewrite decode_tail by done.
      eexists. apply run_reader_Err. rewrite payload_read.
      * cbv [mbind reader_bind]. rewrite signature_none; [done|by destruct Hok|].
        intros Hnil. apply Hne. subst data. rewrite Hnil, app_nil_r.
        by rewrite take_ge by (rewrite length_signature_head; lia).
      * by intros [_ ?]%app_nil.
    + apply decode_flag; [done|]. lia.
  - intros _. rewrite decode_signature.
    + by replace (Z.to_nat (_ - _)) with (m - length (response_head np) - length (np_Payload np) - 5)%nat by lia.
    + done.
    + lia.
    + intros Hnil. rewrite Hnil in Hdata. change (length (@nil byte)) with O in Hdata. lia.
Qed.

Lemma zeroed_same (sig : bytes) (n : nat) :
  zeroed sig n = sig <-> exists z, drop n sig = zeros z.
Proof.
  unfold zeroed. split.
  - intros E. exists (Zlen (drop n sig)). rewrite <- (take_drop n sig) in E at 3. by apply app_inv_head in E.
  - intros [z E]. rewrite <- (take_drop n sig) at 3. f_equal. rewrite E.
    unfold Zlen, zeros. by rewrite length_replicate, Nat2Z.id.
Qed.

(** A stream of [data] of which [k] bytes have arrived when it is read. *)
Definition stream_of (data : bytes) (k n : nat) : res bytes := Ok (take (Nat.min k n) data).
(** A stream that keeps what is written to it. *)
Definition record_write (d : bytes) : io (list bytes) unit := fun w => (w ++ [d], Ok tt).

(** C37: What becomes of a response on its way from [SendResponse] to
    [HandleStream], which reads once and into 4096 bytes: it gets the beginning
    [got] of the encoding that has arrived and fits.  All of it is received as
    sent.  What ends before the signature is refused, for the missing flag
    where it ends in the payload.  What ends in the signature is received all
    the same, with zeros for the rest of it.  So the response is received as
    it was sent exactly when nothing is missing, or only zeros at the end of
    the signature. *)
Theorem response_fits np w k :
  NetworkPacket_ok np ->
  exists data, SendResponse record_write np w = (w ++ [data], Ok tt) /\
  let got := take (Nat.min k 4096) data in
  let received := HandleStream (stream_of data k) in
  let cut := Z.to_nat (Zlen got - body_length np) in
  (got = data ->
    DeserializeNetworkPacket got = Ok (as_response np) /\ received = ReceivedResponse (np_SenderID np)) /\
  (Zlen got <= body_length np -> got <> data -> exists e, received = NotDecoded e) /\
  (head_length np < Zlen got <= head_length np + Zlen (np_Payload np) ->
    received = NotDecoded (ErrWrap "failed to deserialize signature presence flag" EOF)) /\
  (body_length np < Zlen got ->
    DeserializeNetworkPacket got =
      Ok (with_signature np (np_Payload np) (zeroed (np_Signature np) cut)) /\
    received = ReceivedResponse (np_SenderID np)) /\
  (DeserializeNetworkPacket got = Ok (as_response np) <->
    got = data \/ (body_length np < Zlen got /\ exists z, drop cut (np_Signature np) = zeros z)).
Proof.
  intros Hok. eexists. split; [unfold SendResponse; rewrite response_layout by done; reflexivity|]. cbv zeta.
  set (data := response_head np ++ _). set (got := take _ data).
  assert (HandleStream (stream_of data k) = match DeserializeNetworkPacket got with
    | Err e => NotDecoded e | Panic => HandlerPanic
    | Ok packet => HandleStream (fun _ => Ok got) end) as Hrec.
  { unfold HandleStream, stream_of, stream_buffer. fold got. by case_match. }
  rewrite Hrec. clear Hrec. destruct (got_cases np k Hok) as (Hw & Hcut & Hflag & Hsig).
  fold data in Hw, Hcut, Hflag, Hsig. fold got in Hw, Hcut, Hflag, Hsig. split_and!.
  - intros E. split; [by apply Hw|]. unfold HandleStream. by rewrite (Hw E).
  - intros Hlen Hne. destruct (Hcut Hlen Hne) as [e ->]. by exists e.
  - intros Hlen. by rewrite Hflag.
  - intros Hlen. split; [by apply Hsig|]. unfold HandleStream. by rewrite (Hsig Hlen).
  - split.
    + intros E. destruct (decide (got = data)) as [|Hne]; [by left|]. right.
      destruct (decide (Zlen got <= body_length np)) as [Hle|Hgt].
      { destruct (Hcut Hle Hne) as [e He]. congruence. }
      split; [lia|]. rewrite Hsig in E by lia. apply zeroed_same. by injection E.
    + intros [E|[Hlen Hz]]; [by apply Hw|]. rewrite Hsig by done. apply zeroed_same in Hz. by rewrite Hz.
Qed.

(** A response with a payload of [n] bytes. *)
Definition response_example (n : nat) : NetworkPacket :=
  {| np_Type := PacketTypeRequest; np_SenderID := str "alice"; np_ReceiverID := str "bob";
     np_Payload := replicate n Byte.x41; np_Signature := str "signature" |}.
Lemma response_fits_witness :
  NetworkPacket_ok (response_example 4068) /\
  exists data, SendResponse record_write (response_example 4068) [] = ([data], Ok tt) /\
    HandleStream (stream_of data 5000) = ReceivedResponse (str "alice") /\
    HandleStream (stream_of data 1000) =
      NotDecoded (ErrWrap "failed to deserialize signature presence flag" EOF).
Proof.
  assert (NetworkPacket_ok (response_example 4068)) as Hok by (by split).
  split; [exact Hok|].
  destruct (response_fits _ [] 5000 Hok) as (data & Hs & _ & _ & _ & Hcut & _).
  destruct (response_fits _ [] 1000 Hok) as (data' & Hs' & _ & _ & Hflag & _).
  rewrite Hs in Hs'. injection Hs' as <-. exists data. split; [exact Hs|].
  vm_compute in Hs. injection Hs as <-. split.
  - apply Hcut. vm_compute. reflexivity.
  - apply Hflag. vm_compute. split; [reflexivity|discriminate].
Defined.
