(* ===== verification/Discovery.v ===== *)
(** [pkg/networking/discovery.go] and [discovery_metrics.go]: the discovery of
    peers through the distributed hash table.

    The host and the table are the class [Dht], acting on a state [D]; waiting
    between two attempts to advertise is left out, so [Advertise] is the loop
    of its attempts, with fuel.  A counter is the total of what was added to it
    and of the histogram the number of records is kept. *)
From S2P Require Import Prelude Bytes Config.

(** * discovery_metrics.go *)
Record DiscoveryMetrics := {
  PeersAdvertisedTotal : Z;
  PeersAdvertisementFailures : Z;
  PeersDiscoveredTotal : Z;
  PeersDiscoveryFailures : Z;
  DiscoveryLatencySeconds : nat;
  BootstrapPeersConnected : Z;
  BootstrapPeersFailed : Z;
  ActivePeers : Z;
  PeersRemovedTotal : Z;
}.
Definition new_DiscoveryMetrics : DiscoveryMetrics :=
  {| PeersAdvertisedTotal := 0; PeersAdvertisementFailures := 0; PeersDiscoveredTotal := 0;
     PeersDiscoveryFailures := 0; DiscoveryLatencySeconds := 0; BootstrapPeersConnected := 0;
     BootstrapPeersFailed := 0; ActivePeers := 0; PeersRemovedTotal := 0 |}.
Definition DiscoveryMetrics_names : list string :=
  ["networking.discovery.peers_advertised_total"; "networking.discovery.peers_advertisement_failures";
   "networking.discovery.peers_discovered_total"; "networking.discovery.peers_discovery_failures";
   "networking.discovery.latency_seconds"; "networking.bootstrap.peers_connected_total";
   "networking.bootstrap.peers_failed_total"; "networking.discovery.active_peers";
   "networking.discovery.peers_removed_total"].
Definition InitializeDiscoveryMetrics (meter : string -> res unit) : res DiscoveryMetrics :=
  _ ← fold_res (fun _ => meter) tt DiscoveryMetrics_names; Ok new_DiscoveryMetrics.

(** The [Record] methods add to one counter each; [added] has what is added to
    each of the nine. *)
Definition added (adv advf disc discf : Z) (lat : nat) (boot bootf act rem : Z) (m : DiscoveryMetrics) :
    DiscoveryMetrics :=
  {| PeersAdvertisedTotal := PeersAdvertisedTotal m + adv;
     PeersAdvertisementFailures := PeersAdvertisementFailures m + advf;
     PeersDiscoveredTotal := PeersDiscoveredTotal m + disc;
     PeersDiscoveryFailures := PeersDiscoveryFailures m + discf;
     DiscoveryLatencySeconds := DiscoveryLatencySeconds m + lat;
     BootstrapPeersConnected := BootstrapPeersConnected m + boot;
     BootstrapPeersFailed := BootstrapPeersFailed m + bootf;
     ActivePeers := ActivePeers m + act;
     PeersRemovedTotal := PeersRemovedTotal m + rem |}.
Definition RecordPeersAdvertised (count : Z) := added count 0 0 0 0 0 0 0 0.
Definition RecordPeersAdvertisementFailure (count : Z) := added 0 count 0 0 0 0 0 0 0.
Definition RecordPeersDiscovered (count : Z) := added 0 0 count 0 0 0 0 0 0.
Definition RecordPeersDiscoveryFailure (count : Z) := added 0 0 0 count 0 0 0 0 0.
Definition RecordDiscoveryLatency := added 0 0 0 0 1 0 0 0 0.
Definition RecordBootstrapPeersConnected (count : Z) := added 0 0 0 0 0 count 0 0 0.
Definition RecordBootstrapPeersFailed (count : Z) := added 0 0 0 0 0 0 count 0 0.
Definition RecordActivePeers (delta : Z) := added 0 0 0 0 0 0 0 delta 0.
Definition RecordPeersRemoved (count : Z) := added 0 0 0 0 0 0 0 0 count.

(** * discovery.go *)
Class Dht (D MA : Type) := {
  dht_New : io D unit;
  dht_AddAddrs : AddrInfo MA -> D -> D;
  dht_ClearAddrs : bytes -> D -> D;
  dht_Connect : AddrInfo MA -> io D unit;
  dht_Bootstrap : io D unit;
  dht_Advertise : bytes -> io D unit;
  dht_FindPeers : bytes -> io D (list (AddrInfo MA));
  RoutingTable_RemovePeer : bytes -> D -> D;
  RoutingTable_ListPeers : D -> list bytes;
  dht_Close : io D unit;
}.

(** The error whose text [Advertise] looks for. *)
Definition ErrNoPeers : error := ErrMsg "failed to find any peer in table".

Section Discovery.
Context {D MA : Type} `{!Dht D MA}.

Record DiscoveryService := {
  ds_DHT : D;
  ds_BootstrapPeers : list (AddrInfo MA);
  ds_Metrics : DiscoveryMetrics;
}.
Definition with_DHT (d : D) (ds : DiscoveryService) : DiscoveryService :=
  {| ds_DHT := d; ds_BootstrapPeers := ds_BootstrapPeers ds; ds_Metrics := ds_Metrics ds |}.
Definition record (f : DiscoveryMetrics -> DiscoveryMetrics) (ds : DiscoveryService) : DiscoveryService :=
  {| ds_DHT := ds_DHT ds; ds_BootstrapPeers := ds_BootstrapPeers ds; ds_Metrics := f (ds_Metrics ds) |}.

(** One turn of the loop that connects to the bootstrap peers: a failure is
    counted. *)
Definition connect_bootstrap (peerInfo : AddrInfo MA) : io (D * DiscoveryMetrics) unit := fun '(d, m) =>
  match dht_Connect peerInfo d with
  | (d, Ok _) => (d, RecordDiscoveryLatency (RecordBootstrapPeersConnected 1 m), Ok tt)
  | (d, Err _) => (d, RecordDiscoveryLatency (RecordBootstrapPeersFailed 1 m), Ok tt)
  | (d, Panic) => (d, m, Panic)
  end.
Definition on_dht (m : io D unit) : io (D * DiscoveryMetrics) unit := fun '(d, ms) =>
  let '(d, r) := m d in (d, ms, r).

(** The host is the state; the service is made when all went well. *)
Definition NewDiscoveryService (meter : string -> res unit) (bootstrapPeers : list (AddrInfo MA)) :
    io D DiscoveryService := fun d =>
  match wrap "failed to initialize discovery metrics" (InitializeDiscoveryMetrics meter) with
  | Err e => (d, Err e)
  | Panic => (d, Panic)
  | Ok metrics =>
      match (_ ← io_wrap "failed to create DHT instance" (on_dht dht_New);
             _ ← (fun '(d, m) => (foldl (fun d pi => dht_AddAddrs pi d) d bootstrapPeers, m, Ok tt));
             _ ← io_iter connect_bootstrap bootstrapPeers;
             io_wrap "failed to bootstrap DHT" (on_dht dht_Bootstrap)) (d, metrics) with
      | (d, m, Ok _) => (d, Ok {| ds_DHT := d; ds_BootstrapPeers := bootstrapPeers; ds_Metrics := m |})
      | (d, _, Err e) => (d, Err e)
      | (d, _, Panic) => (d, Panic)
      end
  end.

(** At most [fuel] attempts; [None] when they are used up. *)
Fixpoint Advertise (fuel : nat) (serviceTag : bytes) (ds : DiscoveryService) : DiscoveryService * option (res unit) :=
  match fuel with
  | O => (ds, None)
  | S fuel =>
      let '(d, r) := dht_Advertise serviceTag (ds_DHT ds) in
      let ds := with_DHT d ds in
      match r with
      | Panic => (ds, Some Panic)
      | Ok _ => (record RecordDiscoveryLatency (record (RecordPeersAdvertised 1) ds), Some (Ok tt))
      | Err e =>
          let ds := record (RecordPeersAdvertisementFailure 1) ds in
          if bool_decide (e = ErrNoPeers) then Advertise fuel serviceTag ds
          else (ds, Some (Err (ErrWrap "failed to advertise service" e)))
      end
  end.

Definition FindPeers (serviceTag : bytes) : io DiscoveryService (list (AddrInfo MA)) := fun ds =>
  let '(d, r) := dht_FindPeers serviceTag (ds_DHT ds) in
  let ds := with_DHT d ds in
  match r with
  | Panic => (ds, Panic)
  | Err e => (record (RecordPeersDiscoveryFailure 1) ds, Err (ErrWrap "failed to find peers" e))
  | Ok peers => (record RecordDiscoveryLatency (record (RecordPeersDiscovered 1) ds), Ok peers)
  end.

Definition AddBootstrapPeer (peerInfo : AddrInfo MA) : io DiscoveryService unit := fun ds =>
  let '(d, r) := dht_Connect peerInfo (dht_AddAddrs peerInfo (ds_DHT ds)) in
  let ds := with_DHT d ds in
  match r with
  | Panic => (ds, Panic)
  | Err e => (record RecordDiscoveryLatency (record (RecordBootstrapPeersFailed 1) ds),
              Err (ErrWrap "failed to connect to bootstrap peer %s" e))
  | Ok _ => (record RecordDiscoveryLatency (record (RecordBootstrapPeersConnected 1) ds), Ok tt)
  end.

Definition RemovePeer (peerID : bytes) (ds : DiscoveryService) : DiscoveryService :=
  record (RecordActivePeers (-1)) (record (RecordPeersRemoved 1)
    (with_DHT (RoutingTable_RemovePeer peerID (dht_ClearAddrs peerID (ds_DHT ds))) ds)).

Definition Shutdown : io DiscoveryService unit := fun ds =>
  let '(d, r) := dht_Close (ds_DHT ds) in
  let ds := with_DHT d ds in
  match r with
  | Panic => (ds, Panic)
  | Ok _ => (ds, Ok tt)
  | Err e =>
      let activePeers := Z.of_nat (length (RoutingTable_ListPeers (ds_DHT ds))) in
      (record (RecordActivePeers (- activePeers)) (record (RecordPeersRemoved activePeers) ds),
       Err (ErrWrap "failed to shut down DHT" e))
  end.

Inductive discovery_call :=
| DAdvertise (fuel : nat) (tag : bytes)
| DFind (tag : bytes)
| DAdd (pi : AddrInfo MA)
| DRemove (id : bytes)
| DShutdown.
Definition discovery_run (c : discovery_call) (ds : DiscoveryService) : DiscoveryService :=
  match c with
  | DAdvertise fuel tag => (Advertise fuel tag ds).1
  | DFind tag => (FindPeers tag ds).1
  | DAdd pi => (AddBootstrapPeer pi ds).1
  | DRemove id => RemovePeer id ds
  | DShutdown => (Shutdown ds).1
  end.
End Discovery.
Arguments DiscoveryService : clear implicits.
Arguments discovery_call : clear implicits.

(** * Advertising *)
Section Advertising.
Context {D MA : Type} `{!Dht D MA}.
Implicit Types (ds : DiscoveryService D MA).

(** The state of the table after [k] attempts. *)
Fixpoint after_attempts (k : nat) (tag : bytes) (d : D) : D :=
  match k with O => d | S k => after_attempts k tag (dht_Advertise tag d).1 end.
(** The table has no peers at the first [k] attempts. *)
Definition no_peers_for (k : nat) (tag : bytes) (d : D) : Prop :=
  forall i, (i < k)%nat -> (dht_Advertise tag (after_attempts i tag d)).2 = Err ErrNoPeers.

Lemma Advertise_step fuel tag ds :
  (dht_Advertise tag (ds_DHT ds)).2 = Err ErrNoPeers ->
  Advertise (S fuel) tag ds =
    Advertise fuel tag
      (record (RecordPeersAdvertisementFailure 1) (with_DHT (dht_Advertise tag (ds_DHT ds)).1 ds)).
Proof. intros Hr. cbn [Advertise]. destruct (dht_Advertise tag (ds_DHT ds)) as [d r]. cbn in Hr. by rewrite Hr. Qed.

Lemma failures_add a b d1 d2 ds :
  record (RecordPeersAdvertisementFailure b) (with_DHT d2 (record (RecordPeersAdvertisementFailure a) (with_DHT d1 ds))) =
  record (RecordPeersAdvertisementFailure (a + b)) (with_DHT d2 ds).
Proof.
  destruct ds as [d l m]. unfold record, with_DHT. cbn. f_equal. destruct m.
  unfold RecordPeersAdvertisementFailure, added. cbn. f_equal; lia.
Qed.
Lemma failures_none ds : record (RecordPeersAdvertisementFailure 0) (with_DHT (ds_DHT ds) ds) = ds.
Proof.
  destruct ds as [d l m]. unfold record, with_DHT. cbn. f_equal. destruct m.
  unfold RecordPeersAdvertisementFailure, added. cbn. f_equal; lia.
Qed.

(** [k] attempts without peers. *)
Lemma Advertise_attempts k fuel tag ds :
  no_peers_for k tag (ds_DHT ds) ->
  Advertise (k + fuel) tag ds =
    Advertise fuel tag (record (RecordPeersAdvertisementFailure (Z.of_nat k))
      (with_DHT (after_attempts k tag (ds_DHT ds)) ds)).
Proof.
  revert ds. induction k as [|k IH]; intros ds Hk.
  - cbn [Nat.add after_attempts Z.of_nat]. by rewrite failures_none.
  - change (S k + fuel)%nat with (S (k + fuel)). rewrite Advertise_step by (apply (Hk O); lia).
    rewrite IH by (intros i Hi; apply (Hk (S i)); lia). rewrite failures_add. f_equal.
    by replace (1 + Z.of_nat k) with (Z.of_nat (S k)) by lia.
Qed.

(** [Advertise] stops at the first attempt that the table answers
    otherwise than with its lack of peers: after [k] such answers, with enough
    fuel, it returns nil or that error wrapped, whatever the fuel, having
    counted [k] failures and the last answer.  As long as the table stays
    without peers it does not return. *)
Theorem Advertise_returns k tag ds :
  let d := ds_DHT ds in let '(d', r) := dht_Advertise tag (after_attempts k tag d) in
  no_peers_for k tag d ->
  (forall fuel, (fuel <= k)%nat -> (Advertise fuel tag ds).2 = None) /\
  (r <> Err ErrNoPeers -> forall fuel, (k < fuel)%nat ->
    let '(ds', o) := Advertise fuel tag ds in
    ds_DHT ds' = d' /\ o = Some (wrap "failed to advertise service" r) /\
    PeersAdvertisedTotal (ds_Metrics ds') =
      PeersAdvertisedTotal (ds_Metrics ds) + (if r is Ok _ then 1 else 0) /\
    PeersAdvertisementFailures (ds_Metrics ds') =
      PeersAdvertisementFailures (ds_Metrics ds) + Z.of_nat k + (if r is Err _ then 1 else 0)).
Proof.
  cbv zeta. destruct (dht_Advertise tag (after_attempts k tag (ds_DHT ds))) as [d' r] eqn:Hr. intros Hk. split.
  - intros fuel Hf. rewrite <- (Nat.add_0_r fuel), Advertise_attempts; [done|]. intros i Hi. apply Hk. lia.
  - intros Hne fuel Hf. replace fuel with (k + S (fuel - k - 1))%nat by lia.
    rewrite Advertise_attempts by done. cbn [Advertise with_DHT record ds_DHT]. rewrite Hr.
    destruct r as [[]|e|]; cbn; [split_and!; done || lia| |split_and!; done || lia].
    rewrite bool_decide_false by congruence. cbn. split_and!; done || lia.
Qed.

(** * The active peers *)
Lemma Advertise_active fuel tag ds :
  ActivePeers (ds_Metrics (Advertise fuel tag ds).1) = ActivePeers (ds_Metrics ds) /\
  PeersRemovedTotal (ds_Metrics (Advertise fuel tag ds).1) = PeersRemovedTotal (ds_Metrics ds).
Proof.
  revert ds. induction fuel as [|fuel IH]; intros ds; cbn [Advertise]; [done|].
  destruct (dht_Advertise tag (ds_DHT ds)) as [d [[]|e|]]; cbn; [lia| |done].
  case_bool_decide; cbn; [|lia]. edestruct IH as [-> ->]. cbn. lia.
Qed.

Definition balanced (m : DiscoveryMetrics) : Prop :=
  ActivePeers m = - PeersRemovedTotal m /\ 0 <= PeersRemovedTotal m.

Lemma discovery_run_balanced c ds : balanced (ds_Metrics ds) -> balanced (ds_Metrics (discovery_run c ds)).
Proof.
  unfold balanced. intros [Ha Hr]. destruct c as [fuel tag|tag|pi|id|]; cbn [discovery_run].
  - destruct (Advertise_active fuel tag ds) as [-> ->]. done.
  - unfold FindPeers. destruct (dht_FindPeers tag (ds_DHT ds)) as [d [l|e|]]; cbn; lia.
  - unfold AddBootstrapPeer. destruct (dht_Connect pi _) as [d [[]|e|]]; cbn; lia.
  - cbn. lia.
  - unfold Shutdown. destruct (dht_Close (ds_DHT ds)) as [d [[]|e|]]; cbn; lia.
Qed.

Lemma connect_bootstrap_balanced l d m : balanced m -> balanced (io_iter connect_bootstrap l (d, m)).1.2.
Proof.
  revert d m. induction l as [|pi l IH]; intros d m Hm; cbn [io_iter]; [done|].
  cbv [mbind io_bind connect_bootstrap]. destruct (dht_Connect pi d) as [d' [[]|e|]]; cbn; [..|done].
  all: apply IH; unfold balanced in *; cbn; lia.
Qed.

Lemma NewDiscoveryService_balanced meter boot d d' ds :
  NewDiscoveryService meter boot d = (d', Ok ds) -> balanced (ds_Metrics ds).
Proof.
  unfold NewDiscoveryService. destruct (wrap _ (InitializeDiscoveryMetrics meter)) as [m|e|] eqn:Hm; [|done..].
  apply wrap_Ok_inv in Hm. unfold InitializeDiscoveryMetrics in Hm. apply bind_Ok_inv in Hm as (_ & _ & [= <-]).
  cbv [mbind io_bind io_wrap on_dht]. destruct (dht_New d) as [d1 [[]|e|]]; cbn; [|done..].
  set (d2 := foldl _ d1 boot).
  pose proof (connect_bootstrap_balanced boot d2 new_DiscoveryMetrics) as Hb.
  destruct (io_iter connect_bootstrap boot (d2, new_DiscoveryMetrics)) as [[d3 m3] [[]|e|]]; cbn in *; [|done..].
  destruct (dht_Bootstrap d3) as [d4 [[]|e|]]; cbn; [|done..]. intros [= _ <-]. cbn. apply Hb. done.
Qed.

(** The gauge [active_peers] of the discovery, "current number of active
    peers in the routing table", is never positive: nothing ever adds to it,
    and it is minus the number of removed peers after any sequence of calls. *)
Theorem discovery_active_peers_nonpos meter boot d0 d ds0 cs :
  NewDiscoveryService meter boot d0 = (d, Ok ds0) ->
  let m := ds_Metrics (foldl (fun ds c => discovery_run c ds) ds0 cs) in
  ActivePeers m = - PeersRemovedTotal m /\ ActivePeers m <= 0.
Proof.
  intros Hb%NewDiscoveryService_balanced. cbv zeta.
  enough (balanced (ds_Metrics (foldl (fun ds c => discovery_run c ds) ds0 cs))) as [? ?] by lia.
  revert ds0 Hb. induction cs as [|c cs IH]; intros ds0 Hb; [done|]. cbn. by apply IH, discovery_run_balanced.
Qed.
End Advertising.

(** * A concrete table: it has peers after three attempts *)
#[export] Instance example_dht : Dht nat bytes := {|
  dht_New d := (d, Ok tt);
  dht_AddAddrs _ d := d;
  dht_ClearAddrs _ d := d;
  dht_Connect _ d := (d, Ok tt);
  dht_Bootstrap d := (d, Ok tt);
  dht_Advertise _ d := (S d, if (d <? 3)%nat then Err ErrNoPeers else Ok tt);
  dht_FindPeers _ d := (d, Ok []);
  RoutingTable_RemovePeer _ d := d;
  RoutingTable_ListPeers d := [];
  dht_Close d := (d, Ok tt) |}.
Definition example_service : DiscoveryService nat bytes :=
  {| ds_DHT := O; ds_BootstrapPeers := []; ds_Metrics := new_DiscoveryMetrics |}.

Lemma Advertise_returns_witness :
  no_peers_for 3 (str "peerdns") O /\
  (Advertise 4 (str "peerdns") example_service).2 = Some (Ok tt) /\
  PeersAdvertisementFailures (ds_Metrics (Advertise 4 (str "peerdns") example_service).1) = 3.
Proof.
  assert (no_peers_for 3 (str "peerdns") O) as Hno.
  { intros i Hi. do 3 (destruct i as [|i]; [reflexivity|]). lia. }
  split; [exact Hno|].
  pose proof (Advertise_returns 3 (str "peerdns") example_service) as Hadv. cbv zeta in Hadv. cbn in Hadv.
  destruct (Hadv Hno) as [_ Hret]. specialize (Hret ltac:(discriminate) 4%nat ltac:(lia)). cbn in Hret.
  destruct Hret as (_ & Ho & _ & Hf). split; [exact Ho|exact Hf].
Defined.

Definition service_example_meter (name : string) : res unit := Ok tt.
Lemma discovery_active_peers_nonpos_witness : exists ds,
  NewDiscoveryService service_example_meter [] O = (O, Ok ds) /\
  ActivePeers (ds_Metrics (foldl (fun ds c => discovery_run c ds) ds
    [DAdvertise 4 (str "peerdns"); DRemove (str "a"); DRemove (str "a")])) = -2 /\
  ActivePeers (ds_Metrics (foldl (fun ds c => discovery_run c ds) ds
    [DAdvertise 4 (str "peerdns"); DRemove (str "a"); DRemove (str "a")])) <= 0.
Proof.
  eexists. split; [vm_compute; reflexivity|]. split; [vm_compute; reflexivity|].
  eapply (discovery_active_peers_nonpos service_example_meter [] O O). vm_compute. reflexivity.
Defined.
