(* ===== verification/Ebpf.v ===== *)
(** [pkg/ebpf/manager.go]: loading and attaching the eBPF programs, and closing
    them.  (The routes in the map of the kernel are in [Routing.v].)

    The kernel is modelled by what the program can lose: every program, map and
    link it hands out is a fresh handle, open until it is closed.  What a
    compiled object contains and which calls fail are arguments. *)
From S2P Require Import Prelude Bytes.

Record EBPFProgram := { ep_Name : bytes; ep_Section : bytes; ep_IsTest : bool }.
Record EBPF := { eb_InterfaceName : bytes; eb_Programs : list EBPFProgram }.

(** The compiled object of a program: its programs and its maps by name. *)
Record CollectionSpec := { sp_Programs : gset bytes; sp_Maps : gset bytes }.
(** [LoadCollectionSpecFromReader] on the test object or the other one, and the
    outcomes of [NewCollection], [net.InterfaceByName] and [link.AttachXDP]. *)
Record Platform := {
  LoadCollectionSpecFromReader : bool -> res CollectionSpec;
  NewCollection_outcome : EBPFProgram -> res unit;
  InterfaceByName : bytes -> res Z;
  AttachXDP_outcome : EBPFProgram -> res unit;
}.

Record kernel := { k_open : gset nat; k_next : nat }.
Definition open_handle (k : kernel) : kernel * nat :=
  ({| k_open := {[k_next k]} ∪ k_open k; k_next := S (k_next k) |}, k_next k).
Definition close_handle (h : nat) (k : kernel) : kernel :=
  {| k_open := k_open k ∖ {[h]}; k_next := k_next k |}.
Definition close_handles (hs : list nat) (k : kernel) : kernel := foldl (fun k h => close_handle h k) k hs.
Fixpoint open_all (names : list bytes) (k : kernel) : kernel * gmap bytes nat :=
  match names with
  | [] => (k, ∅)
  | name :: names =>
      let '(k, h) := open_handle k in
      let '(k, m) := open_all names k in
      (k, <[name := h]> m)
  end.

Record Manager := {
  Programs : gmap bytes nat;
  Maps : gmap bytes nat;
  Links : gmap bytes nat;
  interfaceName : bytes;
}.
Definition routes_map : bytes := str "routes_map".
#[global] Opaque routes_map.

Section Loading.
Context (pf : Platform).

(** A load that failed is an error in the state it left behind. *)
Definition fail (text : string) (e : error) (s : kernel * Manager) : kernel * Manager * res unit :=
  (s, Err (ErrWrap text e)).

(** One program: the body of the loops of [NewManager] and [LoadDefaults]. *)
Definition load_program (progCfg : EBPFProgram) : io (kernel * Manager) unit := fun '(k, manager) =>
  match LoadCollectionSpecFromReader pf (ep_IsTest progCfg) with
  | Panic => (k, manager, Panic)
  | Err e => fail "failed to load eBPF collection spec for program %s" e (k, manager)
  | Ok spec =>
  match NewCollection_outcome pf progCfg with
  | Panic => (k, manager, Panic)
  | Err e => fail "failed to create eBPF collection for program %s" e (k, manager)
  | Ok _ =>
  let '(k, coll_Programs) := open_all (elements (sp_Programs spec)) k in
  let '(k, coll_Maps) := open_all (elements (sp_Maps spec)) k in
  match coll_Programs !! ep_Section progCfg with
  | None => (k, manager, Err (ErrMsg "failed to find program section %s for program %s"))
  | Some program =>
  let routesMap := coll_Maps !! routes_map in
  match InterfaceByName pf (interfaceName manager) with
  | Panic => (k, manager, Panic)
  | Err e => fail "failed to get interface index" e (k, manager)
  | Ok _ =>
  match AttachXDP_outcome pf progCfg with
  | Panic => (k, manager, Panic)
  | Err e =>
      let k := close_handle program k in
      let k := match routesMap with Some h => close_handle h k | None => k end in
      fail "failed to attach XDP program %s" e (k, manager)
  | Ok _ =>
      let '(k, xdpLink) := open_handle k in
      (k, {| Programs := <[ep_Name progCfg := program]> (Programs manager);
             Maps := match routesMap with Some h => <[routes_map := h]> (Maps manager) | None => Maps manager end;
             Links := <[ep_Name progCfg := xdpLink]> (Links manager);
             interfaceName := interfaceName manager |}, Ok tt)
  end end end end end.

(** The manager is dropped when a program fails. *)
Definition NewManager (cfg : EBPF) : io kernel Manager := fun k =>
  match io_iter load_program (eb_Programs cfg)
          (k, {| Programs := ∅; Maps := ∅; Links := ∅; interfaceName := eb_InterfaceName cfg |}) with
  | (k, manager, Ok _) => (k, Ok manager)
  | (k, _, Err e) => (k, Err e)
  | (k, _, Panic) => (k, Panic)
  end.

Definition LoadDefaults (defaultPrograms : list EBPFProgram) : io (kernel * Manager) unit :=
  io_iter (fun progCfg s =>
    match Programs s.2 !! ep_Name progCfg with
    | Some _ => (s, Ok tt)
    | None => load_program progCfg s
    end) defaultPrograms.
End Loading.

(** [Close]: links, then programs, then maps. *)
Definition handles (m : gmap bytes nat) : list nat := (map_to_list m).*2.
Definition Close (s : kernel * Manager) : kernel * Manager :=
  let '(k, m) := s in
  (close_handles (handles (Maps m)) (close_handles (handles (Programs m)) (close_handles (handles (Links m)) k)),
   {| Programs := ∅; Maps := ∅; Links := ∅; interfaceName := interfaceName m |}).

(** * What is open *)
Definition held (m : Manager) : gset nat :=
  list_to_set (handles (Programs m)) ∪ list_to_set (handles (Maps m)) ∪ list_to_set (handles (Links m)).
(** Handles are never given out twice. *)
Definition kernel_ok (k : kernel) : Prop := forall h, h ∈ k_open k -> (h < k_next k)%nat.

Lemma elem_of_handles (h : nat) (m : gmap bytes nat) : h ∈ handles m <-> exists name, m !! name = Some h.
Proof.
  unfold handles. rewrite list_elem_of_fmap. split.
  - intros ([name h'] & -> & Hin). apply elem_of_map_to_list in Hin. eauto.
  - intros [name Hn]. exists (name, h). by rewrite elem_of_map_to_list.
Qed.

Lemma elem_of_held (h : nat) (m : Manager) :
  h ∈ held m <-> exists name, Programs m !! name = Some h \/ Maps m !! name = Some h \/ Links m !! name = Some h.
Proof. unfold held. rewrite !elem_of_union, !elem_of_list_to_set, !elem_of_handles. naive_solver. Qed.

Lemma close_handles_open hs k :
  k_open (close_handles hs k) = k_open k ∖ list_to_set hs /\ k_next (close_handles hs k) = k_next k.
Proof.
  revert k. induction hs as [|h hs IH]; intros k; [cbn; split; [set_solver|done]|].
  change (close_handles (h :: hs) k) with (close_handles hs (close_handle h k)).
  destruct (IH (close_handle h k)) as [-> ->]. cbn. split; [set_solver|done].
Qed.

Lemma Close_open s : k_open (Close s).1 = k_open s.1 ∖ held s.2.
Proof.
  destruct s as [k m]. unfold Close, held. cbn [fst snd].
  destruct (close_handles_open (handles (Maps m))
    (close_handles (handles (Programs m)) (close_handles (handles (Links m)) k))) as [-> _].
  destruct (close_handles_open (handles (Programs m)) (close_handles (handles (Links m)) k)) as [-> _].
  destruct (close_handles_open (handles (Links m)) k) as [-> _]. set_solver.
Qed.

(** [open_all] opens fresh handles, one for each name. *)
Lemma open_all_spec (names : list bytes) (k k' : kernel) (m : gmap bytes nat) :
  NoDup names -> open_all names k = (k', m) ->
  (k_next k <= k_next k')%nat /\
  (forall h, h ∈ k_open k' <-> h ∈ k_open k \/ (k_next k <= h < k_next k')%nat) /\
  (forall h, (k_next k <= h < k_next k')%nat <-> exists name, m !! name = Some h) /\
  (forall name, is_Some (m !! name) <-> name ∈ names).
Proof.
  revert k k' m. induction names as [|name names IH]; intros k k' m Hnd.
  - intros [= <- <-]. split_and!; [lia|intros; split; [by left|by intros [?|?]; [|lia]]|..].
    + intros h. split; [lia|]. by intros [? ?%lookup_empty_Some].
    + intros n. rewrite lookup_empty. split; [by intros []|by intros ?%not_elem_of_nil].
  - apply NoDup_cons in Hnd as [Hname Hnd]. cbn [open_all open_handle].
    destruct (open_all names _) as [k1 m1] eqn:Ho. intros [= <- <-].
    apply IH in Ho as (Hle & Hop & Hm & Hn); [|done]. cbn in *. split_and!; [lia| | |].
    + intros h. rewrite Hop, elem_of_union, elem_of_singleton. split.
      * intros [[->|?]|?]; [right; lia|by left|right; lia].
      * intros [?|?]; [by left; right|]. destruct (decide (h = k_next k)); [by left; left|right; lia].
    + intros h. split.
      * intros Hh. destruct (decide (h = k_next k)) as [->|Hne]; [exists name; by rewrite lookup_insert_eq|].
        destruct (proj1 (Hm h)) as [n Hn']; [lia|]. exists n. rewrite lookup_insert_ne; [done|].
        intros <-. apply Hname, Hn. eauto.
      * intros [n [[_ <-]|[_ Hn']]%lookup_insert_Some]; [lia|].
        destruct (proj2 (Hm h)) as [? ?]; [eauto|]. lia.
    + intros n. rewrite lookup_insert_is_Some, Hn, elem_of_cons. destruct (decide (name = n)); naive_solver.
Qed.

Section Resources.
Context (pf : Platform).
Implicit Types (k : kernel) (m : Manager) (s : kernel * Manager).

(** How a program that loads goes. *)
Record loaded (p : EBPFProgram) (k : kernel) (m : Manager) (s : kernel * Manager) (spec : CollectionSpec)
    (kp km : kernel) (cp cm : gmap bytes nat) (program : nat) : Prop := {
  ld_spec : LoadCollectionSpecFromReader pf (ep_IsTest p) = Ok spec;
  ld_programs : open_all (elements (sp_Programs spec)) k = (kp, cp);
  ld_maps : open_all (elements (sp_Maps spec)) kp = (km, cm);
  ld_section : cp !! ep_Section p = Some program;
  ld_state : s =
    ({| k_open := {[k_next km]} ∪ k_open km; k_next := S (k_next km) |},
     {| Programs := <[ep_Name p := program]> (Programs m);
        Maps := match cm !! routes_map with Some h => <[routes_map := h]> (Maps m) | None => Maps m end;
        Links := <[ep_Name p := k_next km]> (Links m);
        interfaceName := interfaceName m |});
}.

Lemma load_program_Ok p k m s :
  load_program pf p (k, m) = (s, Ok tt) ->
  exists spec kp km cp cm program, loaded p k m s spec kp km cp cm program.
Proof.
  unfold load_program, fail, open_handle.
  destruct (LoadCollectionSpecFromReader _ _) as [spec|e|] eqn:Hspec; [|done..].
  destruct (NewCollection_outcome _ _); [|done..].
  destruct (open_all (elements (sp_Programs spec)) k) as [kp cp] eqn:Hp.
  destruct (open_all (elements (sp_Maps spec)) kp) as [km cm] eqn:Hm.
  destruct (cp !! ep_Section p) as [program|] eqn:Hs; [|done].
  destruct (InterfaceByName _ _); [|done..]. destruct (AttachXDP_outcome _ _); [|done..].
  intros [= <-]. exists spec, kp, km, cp, cm, program. by split.
Qed.

(** What every load leaves alone, also one that fails: the handles that were
    given out before stay as they are. *)
Record grows k m s : Prop := {
  gr_next : (k_next k <= k_next s.1)%nat;
  gr_old : forall h, (h < k_next k)%nat -> h ∈ k_open s.1 <-> h ∈ k_open k;
  gr_ok : kernel_ok k -> kernel_ok s.1;
  gr_held : forall h, h ∈ held s.2 -> h ∈ held m \/ (k_next k <= h < k_next s.1)%nat;
}.

Lemma grows_refl k m : grows k m (k, m).
Proof. split; cbn; [lia|done|done|by left]. Qed.
Lemma grows_trans k m s1 s2 : grows k m s1 -> grows s1.1 s1.2 s2 -> grows k m s2.
Proof.
  intros [Hn1 Ho1 Hk1 Hh1] [Hn2 Ho2 Hk2 Hh2]. split; [lia| |tauto|].
  - intros h Hh. rewrite Ho2 by lia. by apply Ho1.
  - intros h [[Hh|Hh]%Hh1|Hh]%Hh2; [by left|right; lia|right; lia].
Qed.

Lemma grows_open names k k' cs m :
  NoDup names -> open_all names k = (k', cs) -> grows k m (k', m).
Proof.
  intros Hnd Ho. destruct (open_all_spec _ _ _ _ Hnd Ho) as (Hle & Hop & _). split; cbn; [done|..|by left].
  - intros h Hh. rewrite Hop. split; [intros [?|?]; [done|lia]|by left].
  - intros Hk h. rewrite Hop. intros [Hh%Hk|?]; lia.
Qed.

Lemma grows_close h k0 k m : (k_next k0 <= h)%nat -> grows k0 m (k, m) -> grows k0 m (close_handle h k, m).
Proof.
  intros Hh [Hn Ho Hk Hl]. split; cbn in *; [done|..|by left].
  - intros h' Hh'. rewrite <- Ho by done. rewrite elem_of_difference, elem_of_singleton. split; [by intros []|].
    intros ?. split; [done|lia].
  - intros Hok h' [Hin _]%elem_of_difference. by apply Hk.
Qed.

Lemma open_all_range names k k' cs name h :
  NoDup names -> open_all names k = (k', cs) -> cs !! name = Some h -> (k_next k <= h < k_next k')%nat.
Proof. intros Hnd Ho Hh. apply (open_all_spec _ _ _ _ Hnd Ho). eauto. Qed.

Lemma loaded_grows p k m s spec kp km cp cm program :
  loaded p k m s spec kp km cp cm program -> grows k m s.
Proof.
  intros [_ Hp Hm Hs ->].
  pose proof (grows_open _ _ _ _ m (NoDup_elements _) Hp) as Hgp.
  pose proof (grows_open _ _ _ _ m (NoDup_elements _) Hm) as Hgm.
  pose proof (grows_trans _ _ _ _ Hgp Hgm) as [Hn Ho Hk _]. cbn in *.
  destruct Hgp as [Hnp _ _ _], Hgm as [Hnm _ _ _]. cbn in *.
  pose proof (open_all_range _ _ _ _ _ _ (NoDup_elements _) Hp Hs) as Hprog. split; cbn; [lia|..].
  - intros h Hh. rewrite <- Ho by done. rewrite elem_of_union, elem_of_singleton.
    split; [intros [->|?]; [lia|done]|by right].
  - intros Hok h. cbn. rewrite elem_of_union, elem_of_singleton. intros [->|Hh%(Hk Hok)]; lia.
  - intros h. rewrite !elem_of_held. cbn.
    intros [name [[[_ <-]|[_ Hh]]%lookup_insert_Some|[Hh|[[_ <-]|[_ Hh]]%lookup_insert_Some]]];
      [right; lia|left; exists name; left; exact Hh| |right; lia|left; exists name; right; right; exact Hh].
    destruct (cm !! routes_map) as [hr|] eqn:Hr; [|left; exists name; right; left; exact Hh].
    apply lookup_insert_Some in Hh as [[_ <-]|[_ Hh]]; [right|left; exists name; right; left; exact Hh].
    pose proof (open_all_range _ _ _ _ _ _ (NoDup_elements _) Hm Hr). lia.
Qed.

Lemma load_program_grows p k m : grows k m (load_program pf p (k, m)).1.
Proof.
  destruct (load_program pf p (k, m)) as [s r] eqn:Hl. cbn.
  destruct r as [[]|e|]; [by apply load_program_Ok in Hl as (? & ? & ? & ? & ? & ? & ?%loaded_grows)|..].
  all: revert Hl; unfold load_program, fail, open_handle.
  all: destruct (LoadCollectionSpecFromReader _ _) as [spec|e'|]; [|intros [= <-]; apply grows_refl..].
  all: destruct (NewCollection_outcome _ _) as [u|e'|]; [|intros [= <-]; apply grows_refl..].
  all: destruct (open_all (elements (sp_Programs spec)) k) as [kp cp] eqn:Hp.
  all: destruct (open_all (elements (sp_Maps spec)) kp) as [km cm] eqn:Hm.
  all: pose proof (grows_open _ _ _ _ m (NoDup_elements _) Hp) as Hgp.
  all: pose proof (grows_trans _ _ _ _ Hgp (grows_open _ _ _ _ m (NoDup_elements _) Hm)) as Hg.
  all: destruct (cp !! ep_Section p) as [program|] eqn:Hs; [|intros [= <-]; exact Hg || discriminate].
  all: destruct (InterfaceByName _ _) as [i|e'|]; [|intros [= <-]; exact Hg..].
  all: destruct (AttachXDP_outcome _ _) as [u'|e'|]; intros [= <-]; try exact Hg.
  pose proof (open_all_range _ _ _ _ _ _ (NoDup_elements _) Hp Hs) as Hprog.
  destruct (cm !! routes_map) as [hr|] eqn:Hr; [apply grows_close|]; [|by apply grows_close; [lia|]..].
  pose proof (open_all_range _ _ _ _ _ _ (NoDup_elements _) Hm Hr). destruct Hgp as [Hnp _ _ _]. cbn in Hnp. lia.
Qed.

Lemma load_all_grows ps s : grows s.1 s.2 (io_iter (load_program pf) ps s).1.
Proof.
  revert s. induction ps as [|p ps IH]; intros [k m]; cbn [io_iter]; [apply grows_refl|].
  cbv [mbind io_bind]. pose proof (load_program_grows p k m) as Hg.
  destruct (load_program pf p (k, m)) as [s' [u|e|]]; cbn in *; [|done..].
  by eapply grows_trans.
Qed.

Lemma io_iter_cons p ps s s' :
  io_iter (load_program pf) (p :: ps) s = (s', Ok tt) ->
  exists s1, load_program pf p s = (s1, Ok tt) /\ io_iter (load_program pf) ps s1 = (s', Ok tt).
Proof. cbn [io_iter]. intros (s1 & [] & Hp & Hps)%io_bind_inv. eauto. Qed.

Definition empty_manager (name : bytes) : Manager :=
  {| Programs := ∅; Maps := ∅; Links := ∅; interfaceName := name |}.
Lemma held_empty name : held (empty_manager name) = ∅.
Proof. reflexivity. Qed.

Lemma NewManager_Ok cfg k0 k m :
  NewManager pf cfg k0 = (k, Ok m) ->
  io_iter (load_program pf) (eb_Programs cfg) (k0, empty_manager (eb_InterfaceName cfg)) = ((k, m), Ok tt).
Proof.
  unfold NewManager. change {| Programs := ∅; Maps := ∅; Links := ∅; interfaceName := eb_InterfaceName cfg |}
    with (empty_manager (eb_InterfaceName cfg)).
  by destruct (io_iter _ _ _) as [[k' m'] [[]|e|]]; intros [= <- <-].
Qed.

(** The map of routes of a program that loads is open, and was opened by it. *)
Lemma loaded_map_open p k m s spec kp km cp cm program h :
  loaded p k m s spec kp km cp cm program -> cm !! routes_map = Some h ->
  h ∈ k_open s.1 /\ (k_next kp <= h < k_next km)%nat /\ (k_next k <= k_next kp)%nat /\ k_next s.1 = S (k_next km).
Proof.
  intros [_ Hp Hm _ ->] Hr. cbn.
  destruct (open_all_spec _ _ _ _ (NoDup_elements _) Hm) as (_ & Hop & Hrange & _).
  destruct (open_all_spec _ _ _ _ (NoDup_elements _) Hp) as (Hle & _).
  assert ((k_next kp <= h < k_next km)%nat) by (apply Hrange; eauto).
  split_and!; [|lia..|done]. apply elem_of_union_r, Hop. by right.
Qed.

(** Two programs with a map of routes: the first map is in the table no more. *)
Lemma second_map_overwrites p1 p2 name k0 s1 s2 spec1 kp1 km1 cp1 cm1 pr1 spec2 kp2 km2 cp2 cm2 pr2 h1 h2 :
  loaded p1 k0 (empty_manager name) s1 spec1 kp1 km1 cp1 cm1 pr1 ->
  loaded p2 s1.1 s1.2 s2 spec2 kp2 km2 cp2 cm2 pr2 ->
  cm1 !! routes_map = Some h1 -> cm2 !! routes_map = Some h2 -> h1 ∉ held s2.2.
Proof.
  intros Hl1 Hl2 Hr1 Hr2. rewrite elem_of_held.
  destruct (loaded_map_open _ _ _ _ _ _ _ _ _ _ _ Hl1 Hr1) as (_ & Hh1 & Hn1 & Hs1).
  destruct (loaded_map_open _ _ _ _ _ _ _ _ _ _ _ Hl2 Hr2) as (_ & Hh2 & Hn2 & Hs2).
  destruct Hl1 as [_ Hp1 Hm1 Hpr1 ->], Hl2 as [_ Hp2 Hm2 Hpr2 ->].
  pose proof (open_all_range _ _ _ _ _ _ (NoDup_elements _) Hp1 Hpr1) as Hprog1.
  pose proof (open_all_range _ _ _ _ _ _ (NoDup_elements _) Hp2 Hpr2) as Hprog2.
  cbn in *. rewrite Hr1, Hr2. intros [n [[[_ Hh]|[_ Hh]]%lookup_insert_Some|[[[_ Hh]|[Hne Hh]]%lookup_insert_Some|
    [[_ Hh]|[_ Hh]]%lookup_insert_Some]]]; try (clear - Hh Hh1 Hh2 Hn2 Hprog2 Hs1; lia).
  all: apply lookup_insert_Some in Hh as [[He Hh]|[_ Hh]]; [|by apply lookup_empty_Some in Hh].
  - clear - Hh Hprog1 Hh1. lia.
  - by destruct Hne.
  - clear - Hh Hh1. lia.
Qed.
End Resources.

Section Theorems.
Context (pf : Platform).

(** The part of the object of [p] that the manager has a place for. *)
Definition exact_object (p : EBPFProgram) : Prop :=
  exists spec, LoadCollectionSpecFromReader pf (ep_IsTest p) = Ok spec /\
    sp_Programs spec = {[ep_Section p]} /\ sp_Maps spec ⊆ {[routes_map]}.
Definition has_routes (p : EBPFProgram) : Prop :=
  exists spec, LoadCollectionSpecFromReader pf (ep_IsTest p) = Ok spec /\ routes_map ∈ sp_Maps spec.

(** One program whose object has nothing but it and the map of routes: the
    manager holds everything that was opened. *)
Lemma exact_held (p : EBPFProgram) (k : kernel) name s spec kp km cp cm program (h : nat) :
  loaded pf p k (empty_manager name) s spec kp km cp cm program -> exact_object p ->
  (k_next k <= h < k_next s.1)%nat -> h ∈ held s.2.
Proof.
  intros [Hspec Hp Hm Hpr ->] (spec' & Hspec' & Hsp & Hsm) Hh. rewrite Hspec in Hspec'. injection Hspec' as <-.
  destruct (open_all_spec _ _ _ _ (NoDup_elements _) Hp) as (Hle1 & _ & Hr1 & Hn1).
  destruct (open_all_spec _ _ _ _ (NoDup_elements _) Hm) as (Hle2 & _ & Hr2 & Hn2).
  apply elem_of_held. cbn in *.
  destruct (decide (h < k_next kp)%nat) as [H1|H1]; [|destruct (decide (h < k_next km)%nat) as [H2|H2]].
  - destruct (proj1 (Hr1 h)) as [n Hn]; [lia|]. exists (ep_Name p). left. rewrite lookup_insert_eq.
    assert (n ∈ elements (sp_Programs spec)) as Hin by (apply Hn1; eauto).
    rewrite elem_of_elements, Hsp, elem_of_singleton in Hin. subst n. congruence.
  - destruct (proj1 (Hr2 h)) as [n Hn]; [lia|]. exists routes_map. right; left.
    assert (n ∈ elements (sp_Maps spec)) as Hin by (apply Hn2; eauto).
    rewrite elem_of_elements in Hin. apply Hsm, elem_of_singleton in Hin. subst n.
    rewrite Hn. by rewrite lookup_insert_eq.
  - exists (ep_Name p). right; right. rewrite lookup_insert_eq. f_equal. lia.
Qed.

(** [Close] releases what the manager holds: every handle in its three maps
    is closed, nothing else is, and the maps are empty, so closing again does
    nothing.  Handles that were open before [NewManager] stay open throughout.
    A manager for one program whose object has nothing but that program and the
    map of routes leaves the kernel, once closed, as it found it. *)
Theorem Close_releases cfg k0 k m :
  kernel_ok k0 -> NewManager pf cfg k0 = (k, Ok m) ->
  k_open (Close (k, m)).1 = k_open k ∖ held m /\ held (Close (k, m)).2 = ∅ /\
  k_open (Close (Close (k, m))).1 = k_open (Close (k, m)).1 /\
  k_open k0 ⊆ k_open (Close (k, m)).1 /\
  (forall p, eb_Programs cfg = [p] -> exact_object p -> k_open (Close (k, m)).1 = k_open k0).
Proof.
  intros Hok0 Hnew%NewManager_Ok.
  pose proof (load_all_grows pf (eb_Programs cfg) (k0, empty_manager (eb_InterfaceName cfg))) as Hg.
  rewrite Hnew in Hg. destruct Hg as [_ Hold Hk Hheld]. cbn [fst snd] in *. specialize (Hk Hok0).
  assert (k_open k0 ⊆ k_open (Close (k, m)).1) as Hkeep.
  { intros h Hh. rewrite Close_open. cbn. apply elem_of_difference. split; [by apply Hold; [apply Hok0|]|].
    intros [Hin|Hr]%Hheld; [by rewrite held_empty in Hin|]. apply Hok0 in Hh. lia. }
  split; [apply (Close_open (k, m))|]. split; [reflexivity|].
  split; [rewrite (Close_open (Close (k, m))); apply difference_empty_L|]. split; [done|].
  intros p Hps Hex. apply set_eq. intros h. split; [|apply Hkeep]. rewrite Close_open. cbn.
  intros [Ho Hnh]%elem_of_difference. destruct (decide (h < k_next k0)%nat) as [Hlt|Hge]; [by apply Hold|].
  exfalso. apply Hnh. rewrite Hps in Hnew. apply io_iter_cons in Hnew as (s1 & Hl & [= ->]).
  apply load_program_Ok in Hl as (spec & kp & km & cp & cm & program & Hl).
  eapply (exact_held p k0 _ (k, m)); [exact Hl|done|]. split; [lia|]. by apply Hk.
Qed.

Lemma first_map_lost cfg k0 p1 p2 ps k m :
  kernel_ok k0 -> eb_Programs cfg = p1 :: p2 :: ps -> NewManager pf cfg k0 = (k, Ok m) ->
  has_routes p1 -> has_routes p2 -> exists h, (h ∉ k_open k0) /\ h ∈ k_open (Close (k, m)).1.
Proof.
  intros Hok0 Hcfg Hnew%NewManager_Ok Hroutes1 Hroutes2. rewrite Hcfg in Hnew. rewrite (Close_open (k, m)).
  apply io_iter_cons in Hnew as ([k1 m1] & Hl1 & Hnew). apply io_iter_cons in Hnew as (s2 & Hl2 & Hnew).
  apply load_program_Ok in Hl1 as (spec1 & kp1 & km1 & cp1 & cm1 & pr1 & Hl1).
  apply load_program_Ok in Hl2 as (spec2 & kp2 & km2 & cp2 & cm2 & pr2 & Hl2).
  assert (forall p k m s spec kp km cp cm pr, loaded pf p k m s spec kp km cp cm pr -> has_routes p ->
    exists h, cm !! routes_map = Some h) as Hmap.
  { intros ?????????? [Hs _ Hm _ _] (spec & Hs' & Hin). rewrite Hs in Hs'. injection Hs' as <-.
    apply (open_all_spec _ _ _ _ (NoDup_elements _) Hm). by apply elem_of_elements. }
  destruct (Hmap _ _ _ _ _ _ _ _ _ _ Hl1 Hroutes1) as [h1 Hr1].
  destruct (Hmap _ _ _ _ _ _ _ _ _ _ Hl2 Hroutes2) as [h2 Hr2].
  pose proof (second_map_overwrites _ _ _ _ _ _ _ _ _ _ _ _ _ _ _ _ _ _ _ _ _ Hl1 Hl2 Hr1 Hr2) as Hlost.
  destruct (loaded_map_open _ _ _ _ _ _ _ _ _ _ _ _ Hl1 Hr1) as (Ho & Hrange & Hn & Hn1).
  pose proof (loaded_grows _ _ _ _ _ _ _ _ _ _ _ Hl2) as [Hg2 Hold2 _ _].
  pose proof (load_all_grows pf ps s2) as [Hg Hold _ Hheld]. rewrite Hnew in Hold, Hheld. cbn in *.
  exists h1. split; [intros Hin%Hok0; lia|]. apply elem_of_difference. split.
  + apply Hold; [lia|]. apply Hold2; [lia|done].
  + intros [?|?]%Hheld; [done|lia].
Qed.

Lemma first_link_lost cfg k0 p1 p2 ps s1 k e :
  kernel_ok k0 -> eb_Programs cfg = p1 :: p2 :: ps ->
  load_program pf p1 (k0, empty_manager (eb_InterfaceName cfg)) = (s1, Ok tt) ->
  NewManager pf cfg k0 = (k, Err e) ->
  exists link, Links s1.2 !! ep_Name p1 = Some link /\ (link ∉ k_open k0) /\ link ∈ k_open k.
Proof.
  intros Hok0 Hcfg Hl1 Hnew. pose proof (load_program_Ok _ _ _ _ _ Hl1) as (spec & kp & km & cp & cm & pr & Hl).
  pose proof (loaded_grows _ _ _ _ _ _ _ _ _ _ _ Hl) as [Hg _ _ _]. destruct Hl as [_ Hp Hm _ ->].
  pose proof (grows_open _ _ _ _ (empty_manager []) (NoDup_elements _) Hp) as [Hnp _ _ _].
  pose proof (grows_open _ _ _ _ (empty_manager []) (NoDup_elements _) Hm) as [Hnm _ _ _]. cbn in Hg, Hnp, Hnm |- *.
  exists (k_next km). split; [by rewrite lookup_insert_eq|]. split; [intros Hin%Hok0; lia|].
  unfold NewManager in Hnew. rewrite Hcfg in Hnew.
  change {| Programs := ∅; Maps := ∅; Links := ∅; interfaceName := eb_InterfaceName cfg |}
    with (empty_manager (eb_InterfaceName cfg)) in Hnew.
  assert (forall s, load_program pf p1 (k0, empty_manager (eb_InterfaceName cfg)) = (s, Ok tt) ->
    io_iter (load_program pf) (p1 :: p2 :: ps) (k0, empty_manager (eb_InterfaceName cfg)) =
    io_iter (load_program pf) (p2 :: ps) s) as Hstep.
  { intros s Hs. exact (io_bind_Ok (load_program pf p1) (fun _ => io_iter (load_program pf) (p2 :: ps)) _ _ _ Hs). }
  apply Hstep in Hl1.
  rewrite Hl1 in Hnew.
  match type of Hnew with context [io_iter _ _ ?s] => pose proof (load_all_grows pf (p2 :: ps) s) as [_ Hold _ _] end.
  destruct (io_iter _ (p2 :: ps) _) as [[k' m'] [[]|e'|]]; simplify_eq. cbn in Hold. apply Hold; [lia|]. set_solver.
Qed.

(** C39: Handles the manager loses: they stay open with nothing left in the
    manager that closes them (the finalizers of the library are not modelled;
    they would close what is unreachable when the collector runs).  The maps of two programs go under one name:
    when the objects of the first two programs both have a map of routes, the
    map of the first stays open after [Close].  And when a later program fails,
    the first is still attached, with no manager left to close it. *)
Theorem ebpf_handles_lost cfg k0 p1 p2 ps :
  kernel_ok k0 -> eb_Programs cfg = p1 :: p2 :: ps ->
  (forall k m, NewManager pf cfg k0 = (k, Ok m) -> has_routes p1 -> has_routes p2 ->
    exists h, (h ∉ k_open k0) /\ h ∈ k_open (Close (k, m)).1) /\
  (forall s1 k e, load_program pf p1 (k0, empty_manager (eb_InterfaceName cfg)) = (s1, Ok tt) ->
    NewManager pf cfg k0 = (k, Err e) ->
    exists link, Links s1.2 !! ep_Name p1 = Some link /\ (link ∉ k_open k0) /\ link ∈ k_open k).
Proof.
  intros Hok0 Hcfg. split.
  - intros k m. by apply (first_map_lost cfg k0 p1 p2 ps).
  - intros s1 k e. by apply (first_link_lost cfg k0 p1 p2 ps).
Qed.
End Theorems.

(** * A concrete kernel *)
Definition no_kernel : kernel := {| k_open := ∅; k_next := 0 |}.
Definition example_object : CollectionSpec :=
  {| sp_Programs := {[str "xdp"]}; sp_Maps := {[routes_map]} |}.
(** Attaching fails for the programs named in [refused]. *)
Definition example_platform (refused : list bytes) : Platform :=
  {| LoadCollectionSpecFromReader _ := Ok example_object;
     NewCollection_outcome _ := Ok tt;
     InterfaceByName _ := Ok 2;
     AttachXDP_outcome p := if bool_decide (ep_Name p ∈ refused) then Err (ErrMsg "operation not permitted") else Ok tt |}.
Definition example_program (name : string) : EBPFProgram :=
  {| ep_Name := str name; ep_Section := str "xdp"; ep_IsTest := false |}.
Definition example_ebpf (names : list string) : EBPF :=
  {| eb_InterfaceName := str "eth0"; eb_Programs := example_program <$> names |}.

Lemma no_kernel_ok : kernel_ok no_kernel.
Proof. intros h Hh. by apply elem_of_empty in Hh. Qed.
Lemma example_exact refused name : exact_object (example_platform refused) (example_program name).
Proof. exists example_object. by split_and!. Qed.


Definition start (refused : list bytes) (names : list string) : kernel * res Manager :=
  NewManager (example_platform refused) (example_ebpf names) no_kernel.
Definition managed (names : list string) : kernel * Manager :=
  let '(k, r) := start [] names in (k, match r with Ok m => m | _ => empty_manager [] end).
Lemma managed_Ok names :
  is_ok (start [] names).2 = true ->
  NewManager (example_platform []) (example_ebpf names) no_kernel = ((managed names).1, Ok (managed names).2).
Proof. unfold managed. fold (start [] names). by destruct (start [] names) as [k [m|e|]]. Qed.

Lemma Close_releases_witness :
  let s := managed ["one"] in
  NewManager (example_platform []) (example_ebpf ["one"]) no_kernel = (s.1, Ok s.2) /\
  size (k_open s.1) = 3%nat /\ k_open (Close s).1 = ∅.
Proof.
  assert (NewManager (example_platform []) (example_ebpf ["one"]) no_kernel =
    ((managed ["one"]).1, Ok (managed ["one"]).2)) as Hnew by (apply managed_Ok; vm_compute; reflexivity).
  cbv zeta. split; [exact Hnew|]. split; [vm_compute; reflexivity|].
  destruct (Close_releases (example_platform []) _ _ _ _ no_kernel_ok Hnew) as (_ & _ & _ & _ & Hclose).
  rewrite <- surjective_pairing in Hclose.
  exact (Hclose (example_program "one") eq_refl (example_exact [] "one")).
Defined.

Lemma ebpf_handles_lost_witness :
  (exists h, h ∈ k_open (Close (managed ["one"; "two"])).1) /\
  is_ok (start [str "two"] ["one"; "two"]).2 = false /\
  exists link, link ∈ k_open (start [str "two"] ["one"; "two"]).1.
Proof.
  assert (forall refused name, has_routes (example_platform refused) (example_program name)) as Hroutes.
  { intros refused name. exists example_object. split; [reflexivity|]. by apply (elem_of_singleton routes_map routes_map). }
  split; [|split; [vm_compute; reflexivity|]].
  - destruct (ebpf_handles_lost (example_platform []) (example_ebpf ["one"; "two"]) no_kernel
      (example_program "one") (example_program "two") [] no_kernel_ok eq_refl) as [Hmap _].
    destruct (Hmap (managed ["one"; "two"]).1 (managed ["one"; "two"]).2) as (h & _ & Hh);
      [apply managed_Ok; vm_compute; reflexivity|apply Hroutes..|]. exists h. by rewrite <- surjective_pairing in Hh.
  - destruct (ebpf_handles_lost (example_platform [str "two"]) (example_ebpf ["one"; "two"]) no_kernel
      (example_program "one") (example_program "two") [] no_kernel_ok eq_refl) as [_ Hlink].
    assert (is_ok (start [str "two"] ["one"; "two"]).2 = false) as Herr by (vm_compute; reflexivity).
    assert ((start [str "two"] ["one"; "two"]).2 <> Panic) as Hnp by (vm_compute; discriminate).
    unfold start in *.
    destruct (NewManager (example_platform [str "two"]) (example_ebpf ["one"; "two"]) no_kernel) as [k [m|e|]];
      [discriminate Herr| |by destruct Hnp].
    destruct (load_program (example_platform [str "two"]) (example_program "one")
      (no_kernel, empty_manager (eb_InterfaceName (example_ebpf ["one"; "two"])))) as [s1 r] eqn:Hl.
    assert (r = Ok tt) as -> by (apply (f_equal snd) in Hl; cbn [snd] in Hl; rewrite <- Hl; vm_compute; reflexivity).
    destruct (Hlink s1 k e eq_refl eq_refl) as (h & _ & _ & Hh). exists h. exact Hh.
Defined.
