(* ===== verification/Privacy.v ===== *)
(** [pkg/privacy/manager.go]: encryption of messages with one key.

    AES-GCM ([crypto/aes], [crypto/cipher]) and the random source are
    parameters.  [SealLaws] is what the mode promises: a nonce has a fixed
    size, and opening with a key and a nonce accepts exactly what sealing with
    them gives, and gives it back. *)
From S2P Require Import Prelude Bytes Validators.

Class Aead := {
  NewCipher_ok : bytes -> res unit;
  NewGCM_ok : bytes -> res unit;
  NonceSize : nat;
  Seal : bytes -> bytes -> bytes -> bytes;
  Open : bytes -> bytes -> bytes -> res bytes;
}.
Class SealLaws `{Aead} := {
  Open_Seal : forall key nonce p, length nonce = NonceSize -> Open key nonce (Seal key nonce p) = Ok p;
  Open_inv : forall key nonce c p, length nonce = NonceSize -> Open key nonce c = Ok p -> c = Seal key nonce p;
  Open_no_panic : forall key nonce c, Open key nonce c <> Panic;
}.

Section Privacy.
Context `{Aead}.

Record PrivacyManager := { pm_key : bytes }.

(** [rand n]: the outcome of reading [n] random bytes. *)
Definition NewPrivacyManager (rand : nat -> res bytes) : res PrivacyManager :=
  key ← wrap "failed to generate encryption key" (rand 32%nat);
  Ok {| pm_key := key |}.

Definition new_gcm (pm : PrivacyManager) : res unit :=
  _ ← wrap "failed to create cipher block" (NewCipher_ok (pm_key pm));
  wrap "failed to create AES-GCM" (NewGCM_ok (pm_key pm)).

Definition Encrypt (rand : nat -> res bytes) (pm : PrivacyManager) (plaintext : bytes) : res bytes :=
  _ ← new_gcm pm;
  nonce ← wrap "failed to generate nonce" (rand NonceSize);
  Ok (nonce ++ Seal (pm_key pm) nonce plaintext).

Definition Decrypt (pm : PrivacyManager) (ciphertext : bytes) : res bytes :=
  _ ← new_gcm pm;
  if (length ciphertext <? NonceSize)%nat then Err (ErrMsg "ciphertext too short")
  else
    wrap "failed to decrypt ciphertext"
      (Open (pm_key pm) (take NonceSize ciphertext) (drop NonceSize ciphertext)).

(** The account is not used. *)
Definition EncryptMessage (rand : nat -> res bytes) (pm : PrivacyManager) (recipient : Account) (message : bytes) :
    res bytes := Encrypt rand pm message.
Definition DecryptMessage (pm : PrivacyManager) (sender : Account) (ciphertext : bytes) : res bytes :=
  Decrypt pm ciphertext.

(** A random source that fills the buffers it is given. *)
Definition fills (rand : nat -> res bytes) : Prop := forall n b, rand n = Ok b -> length b = n.

Context `{!SealLaws}.

(** [Decrypt] accepts exactly the messages that [Encrypt] makes with the
    same key, for whatever nonce the random source gives, and gives the
    plaintext back; everything else is an error, never a panic.  The recipient
    named in [EncryptMessage] has no part in it: every account decrypts what
    was encrypted for another. *)
Theorem Decrypt_accepts pm c p :
  new_gcm pm = Ok tt ->
  (Decrypt pm c = Ok p <->
    exists nonce, length nonce = NonceSize /\ c = nonce ++ Seal (pm_key pm) nonce p) /\
  (Decrypt pm c = Ok p <-> exists rand, fills rand /\ Encrypt rand pm p = Ok c) /\
  no_panic (Decrypt pm c) /\
  forall rand alice bob, fills rand -> EncryptMessage rand pm alice p = Ok c -> DecryptMessage pm bob c = Ok p.
Proof.
  intros Hgcm.
  assert (Decrypt pm c = Ok p <->
    exists nonce, length nonce = NonceSize /\ c = nonce ++ Seal (pm_key pm) nonce p) as Hdec.
  { unfold Decrypt. rewrite Hgcm, bind_Ok. destruct (Nat.ltb_spec (length c) NonceSize) as [Hlt|Hge].
    - split; [done|]. intros (nonce & Hn & ->). rewrite length_app in Hlt. lia.
    - split.
      + intros Ho%wrap_Ok_inv. exists (take NonceSize c).
        assert (length (take NonceSize c) = NonceSize) as Hl by (rewrite length_take; lia). split; [done|].
        rewrite <- (Open_inv _ _ _ _ Hl Ho). by rewrite take_drop.
      + intros (nonce & Hn & ->). rewrite <- Hn, take_app_length, drop_app_length. by rewrite Open_Seal. }
  assert (forall rand, fills rand -> Encrypt rand pm p = Ok c -> Decrypt pm c = Ok p) as Henc.
  { intros rand Hr He. unfold Encrypt in He. rewrite Hgcm, bind_Ok in He. res_inv.
    apply Hdec. eexists. split; [by eapply Hr|done]. }
  split; [done|]. split; [|split].
  - split; [|intros (rand & Hr & He); by eapply Henc]. rewrite Hdec. intros (nonce & Hn & ->).
    exists (fun n => if decide (n = NonceSize) then Ok nonce else Err EOF). split.
    + intros n b. case_decide; [|done]. by intros [= <-]; subst.
    + unfold Encrypt. rewrite Hgcm, bind_Ok. by rewrite decide_True.
  - unfold Decrypt. rewrite Hgcm, bind_Ok. case_match; [done|]. apply no_panic_wrap, Open_no_panic.
  - intros rand alice bob. apply Henc.
Qed.
End Privacy.

(** A mode for concrete runs: the key and the nonce are the tag. *)
#[export] Instance example_aead : Aead := {|
  NewCipher_ok key := ensure (length key =? 32)%nat (ErrMsg "crypto/aes: invalid key size");
  NewGCM_ok _ := Ok tt;
  NonceSize := 12;
  Seal key nonce p := (key ++ nonce) ++ p;
  Open key nonce c :=
    if bool_decide (take (length (key ++ nonce)) c = key ++ nonce) then Ok (drop (length (key ++ nonce)) c)
    else Err (ErrMsg "cipher: message authentication failed") |}.
#[export] Instance example_seal : SealLaws.
Proof.
  split.
  - intros key nonce p _. cbn. by rewrite take_app_length, bool_decide_true, drop_app_length.
  - intros key nonce c p _. cbn. case_bool_decide as Ht; [|done]. intros [= <-].
    rewrite <- Ht at 1. by rewrite take_drop.
  - intros key nonce c. cbn. by case_bool_decide.
Qed.
Definition example_rand (n : nat) : res bytes := Ok (zeros (Z.of_nat n)).
Definition example_manager : PrivacyManager := {| pm_key := zeros 32 |}.
Lemma Decrypt_accepts_witness : exists c,
  Encrypt example_rand example_manager (str "hello") = Ok c /\ Decrypt example_manager c = Ok (str "hello").
Proof.
  eexists. split; [reflexivity|].
  assert (new_gcm example_manager = Ok tt) as Hgcm by (vm_compute; reflexivity).
  apply (Decrypt_accepts example_manager _ (str "hello") Hgcm).
  exists example_rand. split; [|reflexivity]. intros n b [= <-]. unfold zeros. rewrite length_replicate. apply Nat2Z.id.
Defined.
