(* ===== verification/Monitor.v ===== *)
(** [pkg/metrics/monitor.go]: the performance monitor, which pings the peers
    and writes their responsiveness and reliability into the collector of
    [Validators.v].

    The collecting goroutine, the workers and [Stop] interleave: the channel of
    peers is a queue of at most [concurrency], a worker is idle, pinging a peer,
    between the two updates that follow a ping, or gone.  The outcome of a ping
    is given with the step; [now] are clock readings.  [Stop] returns when all
    workers are gone; the steps after its cancellation are counted. *)
From Stdlib Require Import Floats.SpecFloat.
From S2P Require Import Prelude Bytes Packets Validators.

Definition f_div (a b : float64) : float64 := SFdiv 53 1024 a b.

(** How a ping ends: the errors of the three calls on the stream, or an answer
    after [latency] seconds. *)
Inductive ping_outcome :=
| NoStream (e : error)
| WriteFailed (e : error)
| ReadFailed (e : error)
| Answered (response : bytes) (latency : float64).

(** What [pingPeer] writes: responsiveness, then reliability. *)
Definition ping_values (o : ping_outcome) : float64 * float64 :=
  match o with
  | Answered response latency =>
      if bool_decide (response = str "pong") then (f_div f_one latency, f_one) else (f_zero, f_zero)
  | _ => (f_zero, f_zero)
  end.

(** The other side: what the stream handler of [Node.Start] writes for the
    outcome of its read. *)
Definition ping_request : bytes := str "ping".
Definition ping_handler (request : res bytes) : option bytes :=
  match request with
  | Ok request => if bool_decide (request = str "ping") then Some (str "pong") else None
  | _ => None
  end.
(** A node answers a ping with what [pingPeer] takes for full reliability. *)
Lemma ping_pong latency :
  exists r, ping_handler (Ok ping_request) = Some r /\ ping_values (Answered r latency) = (f_div f_one latency, f_one).
Proof. by eexists. Qed.

(** [pingPeer] of one worker alone. *)
Definition pingPeer (now1 now2 : Z) (p : PeerID) (o : ping_outcome) (mc : Collector) : Collector :=
  UpdateReliability now2 (UpdateResponsiveness now1 mc p (ping_values o).1) p (ping_values o).2.

Inductive worker :=
| Idle
| Pinging (p : PeerID)
| Updating (p : PeerID) (reliability : float64)
| Gone.

(** [pf_collecting] is the collecting goroutine: the peers of the tick it still
    has to offer, or [None] once it has closed the channel. *)
Record PerformanceMonitor := {
  pf_self : PeerID;
  pf_concurrency : nat;
  pf_peerChan : list PeerID;
  pf_collecting : option (list PeerID);
  pf_cancelled : bool;
  pf_workers : list worker;
  pf_collector : Collector;
}.

(** [NewPerformanceMonitor] and [Start]: the goroutines are running. *)
Definition Start (self : PeerID) (concurrency : nat) (collector : Collector) : PerformanceMonitor :=
  {| pf_self := self; pf_concurrency := concurrency; pf_peerChan := []; pf_collecting := Some [];
     pf_cancelled := false; pf_workers := replicate concurrency Idle; pf_collector := collector |}.

Definition set_peerChan (q : list PeerID) (pm : PerformanceMonitor) : PerformanceMonitor :=
  {| pf_self := pf_self pm; pf_concurrency := pf_concurrency pm; pf_peerChan := q;
     pf_collecting := pf_collecting pm; pf_cancelled := pf_cancelled pm; pf_workers := pf_workers pm;
     pf_collector := pf_collector pm |}.
Definition set_worker (i : nat) (w : worker) (pm : PerformanceMonitor) : PerformanceMonitor :=
  {| pf_self := pf_self pm; pf_concurrency := pf_concurrency pm; pf_peerChan := pf_peerChan pm;
     pf_collecting := pf_collecting pm; pf_cancelled := pf_cancelled pm; pf_workers := <[i := w]> (pf_workers pm);
     pf_collector := pf_collector pm |}.
Definition set_collector (mc : Collector) (pm : PerformanceMonitor) : PerformanceMonitor :=
  {| pf_self := pf_self pm; pf_concurrency := pf_concurrency pm; pf_peerChan := pf_peerChan pm;
     pf_collecting := pf_collecting pm; pf_cancelled := pf_cancelled pm; pf_workers := pf_workers pm;
     pf_collector := mc |}.

Definition set_collecting (c : option (list PeerID)) (pm : PerformanceMonitor) : PerformanceMonitor :=
  {| pf_self := pf_self pm; pf_concurrency := pf_concurrency pm; pf_peerChan := pf_peerChan pm;
     pf_collecting := c; pf_cancelled := pf_cancelled pm; pf_workers := pf_workers pm;
     pf_collector := pf_collector pm |}.

(** One turn of the loop over the peers of a tick: a peer other than the host
    itself goes into the channel, unless it is full. *)
Definition offer (p : PeerID) (pm : PerformanceMonitor) : PerformanceMonitor :=
  if bool_decide (p = pf_self pm) then pm
  else if (length (pf_peerChan pm) <? pf_concurrency pm)%nat then set_peerChan (pf_peerChan pm ++ [p]) pm
  else pm.
(** The first half of [Stop]; the second waits until every worker is gone. *)
Definition Cancel (pm : PerformanceMonitor) : PerformanceMonitor :=
  {| pf_self := pf_self pm; pf_concurrency := pf_concurrency pm; pf_peerChan := pf_peerChan pm;
     pf_collecting := pf_collecting pm; pf_cancelled := true; pf_workers := pf_workers pm;
     pf_collector := pf_collector pm |}.
Definition stopped (pm : PerformanceMonitor) : Prop := Forall (fun w => w = Gone) (pf_workers pm).

(** A turn of worker [i]: its own, or the end of its ping, which is the peer's
    doing: only opening the stream is under [metricsTimeout]. *)
Inductive worker_step (i : nat) : option ping_outcome -> PerformanceMonitor -> PerformanceMonitor -> Prop :=
| worker_receives pm p q :
    pf_workers pm !! i = Some Idle -> pf_peerChan pm = p :: q ->
    worker_step i None pm (set_worker i (Pinging p) (set_peerChan q pm))
| worker_pinged pm p now o :
    pf_workers pm !! i = Some (Pinging p) ->
    worker_step i (Some o) pm (set_worker i (Updating p (ping_values o).2)
      (set_collector (UpdateResponsiveness now (pf_collector pm) p (ping_values o).1) pm))
| worker_updates pm p r now :
    pf_workers pm !! i = Some (Updating p r) ->
    worker_step i None pm (set_worker i Idle (set_collector (UpdateReliability now (pf_collector pm) p r) pm))
| worker_cancelled pm :
    pf_workers pm !! i = Some Idle -> pf_cancelled pm = true -> worker_step i None pm (set_worker i Gone pm)
| worker_closed pm :
    pf_workers pm !! i = Some Idle -> pf_peerChan pm = [] -> pf_collecting pm = None ->
    worker_step i None pm (set_worker i Gone pm).

(** A step of the collecting goroutine: a tick, a turn of its loop, and the
    closing of the channel once it is back at its [select], which may still
    choose a tick when the context is done.  The label has the peers of a tick. *)
Inductive collecting_step : option (list PeerID) -> PerformanceMonitor -> PerformanceMonitor -> Prop :=
| step_tick pm peers :
    pf_collecting pm = Some [] -> collecting_step (Some peers) pm (set_collecting (Some peers) pm)
| step_offer pm p rest :
    pf_collecting pm = Some (p :: rest) -> collecting_step None pm (set_collecting (Some rest) (offer p pm))
| step_close pm :
    pf_collecting pm = Some [] -> pf_cancelled pm = true -> collecting_step None pm (set_collecting None pm).

Definition some_worker (pm pm' : PerformanceMonitor) : Prop := exists i l, worker_step i l pm pm'.
Inductive monitor_step : PerformanceMonitor -> PerformanceMonitor -> Prop :=
| step_collecting l pm pm' : collecting_step l pm pm' -> monitor_step pm pm'
| step_cancel pm : monitor_step pm (Cancel pm)
| step_worker pm pm' : some_worker pm pm' -> monitor_step pm pm'.

(** * Invariant *)

Definition metrics_of (mc : Collector) (p : PeerID) : Metrics := default zero_Metrics (mc_metrics mc !! p).
(** What the monitor has made of the metrics [m0] of a peer. *)
Record written (m0 m : Metrics) : Prop := {
  wr_BandwidthUsage : BandwidthUsage m = BandwidthUsage m0;
  wr_Computational : Computational m = Computational m0;
  wr_Storage : Storage m = Storage m0;
  wr_Uptime : Uptime m = Uptime m0;
  wr_Responsiveness :
    Responsiveness m = Responsiveness m0 \/ Responsiveness m = f_zero \/
    exists latency, Responsiveness m = f_div f_one latency;
  wr_Reliability : Reliability m = Reliability m0 \/ Reliability m = f_zero \/ Reliability m = f_one;
}.
Definition only_pings (mc0 mc : Collector) : Prop :=
  mc_weights mc = mc_weights mc0 /\ forall p, written (metrics_of mc0 p) (metrics_of mc p).

Definition worker_ok (self : PeerID) (w : worker) : Prop :=
  match w with
  | Pinging p => p <> self
  | Updating p r => p <> self /\ (r = f_zero \/ r = f_one)
  | _ => True
  end.
Record monitor_ok (self : PeerID) (concurrency : nat) (mc0 : Collector) (pm : PerformanceMonitor) : Prop := {
  mo_self : pf_self pm = self;
  mo_concurrency : pf_concurrency pm = concurrency;
  mo_bound : (length (pf_peerChan pm) <= concurrency)%nat;
  mo_queue : self ∉ pf_peerChan pm;
  mo_length : length (pf_workers pm) = concurrency;
  mo_workers : Forall (worker_ok self) (pf_workers pm);
  mo_metrics : only_pings mc0 (pf_collector pm);
}.

Lemma ping_values_ok o :
  ((ping_values o).1 = f_zero \/ exists latency, (ping_values o).1 = f_div f_one latency) /\
  ((ping_values o).2 = f_zero \/ (ping_values o).2 = f_one).
Proof. destruct o; cbn; eauto. case_bool_decide; cbn; eauto. Qed.

Lemma update_peer_metrics (mc : Collector) (p q : PeerID) (f : Metrics -> Metrics) :
  metrics_of (update_peer mc p f) q = if decide (p = q) then f (metrics_of mc p) else metrics_of mc q.
Proof.
  unfold metrics_of, update_peer, ensurePeer. cbn. destruct (decide (p = q)) as [<-|Hne].
  - rewrite lookup_alter_eq. destruct (mc_metrics mc !! p) eqn:Hp; [by rewrite Hp|].
    cbn. by rewrite lookup_insert_eq.
  - rewrite lookup_alter_ne by done. destruct (mc_metrics mc !! p); [done|]. cbn. by rewrite lookup_insert_ne.
Qed.
Lemma update_peer_weights mc p f : mc_weights (update_peer mc p f) = mc_weights mc.
Proof. unfold update_peer, ensurePeer. cbn. by destruct (mc_metrics mc !! p). Qed.

Lemma only_pings_update (mc0 mc : Collector) (p : PeerID) (f : Metrics -> Metrics) :
  only_pings mc0 mc -> (forall m0 m, written m0 m -> written m0 (f m)) -> only_pings mc0 (update_peer mc p f).
Proof.
  intros [Hw Hm] Hf. split; [by rewrite update_peer_weights|]. intros q. rewrite update_peer_metrics.
  destruct (decide (p = q)) as [<-|]; [|apply Hm]. apply Hf, Hm.
Qed.

Section Invariant.
Context (self : PeerID) (concurrency : nat) (mc0 : Collector).
Local Abbreviation ok := (monitor_ok self concurrency mc0).

Lemma offer_ok p pm : ok pm -> ok (offer p pm).
Proof.
  intros []. unfold offer. case_bool_decide as Hp; [done|]. case_match eqn:Hl; [|done].
  apply Nat.ltb_lt in Hl. split; cbn; [done..| |set_solver|done|done|done]. rewrite length_app. cbn. lia.
Qed.

Lemma set_collecting_ok c pm : ok pm -> ok (set_collecting c pm).
Proof. intros []. by split. Qed.
Lemma set_worker_ok i w pm : ok pm -> worker_ok self w -> ok (set_worker i w pm).
Proof. intros [] Hw. split; cbn; [done..|by rewrite length_insert|by apply Forall_insert|done]. Qed.
Lemma set_collector_ok mc pm : ok pm -> only_pings mc0 mc -> ok (set_collector mc pm).
Proof. intros []. by split. Qed.
Lemma worker_at i w pm : ok pm -> pf_workers pm !! i = Some w -> worker_ok self w.
Proof. intros []. by apply Forall_lookup_1. Qed.

Lemma worker_step_ok i l pm pm' : worker_step i l pm pm' -> ok pm -> ok pm'.
Proof.
  destruct 1 as [pm p q Hi Hq|pm p now o Hi|pm p r now Hi|pm Hi Hc|pm Hi Hq Hc]; intros Hok;
    pose proof (worker_at _ _ _ Hok Hi) as Hw.
  - pose proof Hok as [? ? Hb Hself ? ? ?]. rewrite Hq in *.
    apply set_worker_ok; [split; cbn in *; (done || lia || set_solver)|]. cbn. set_solver.
  - destruct (ping_values_ok o) as [H1 H2]. apply set_worker_ok; [|done].
    apply set_collector_ok; [done|]. apply only_pings_update; [by destruct Hok|].
    intros m0 m []. split; cbn; auto.
  - apply set_worker_ok; [|done]. apply set_collector_ok; [done|]. apply only_pings_update; [by destruct Hok|].
    intros m0 m []. destruct Hw as [_ Hr]. split; cbn; auto.
  - by apply set_worker_ok.
  - by apply set_worker_ok.
Qed.

Lemma monitor_step_ok pm pm' : monitor_step pm pm' -> ok pm -> ok pm'.
Proof.
  destruct 1 as [l pm pm' Hc|pm|pm pm' (i & l & Hi)]; [|by intros []; split|by eapply worker_step_ok].
  destruct Hc; intros; apply set_collecting_ok; [done|by apply offer_ok|done].
Qed.
End Invariant.

(** In every reachable state of a monitor the channel holds at most
    [concurrency] peers and never the host itself, there are [concurrency]
    workers, and all that has changed in the collector since the start is the
    responsiveness of peers, to zero or to the inverse of a latency, and their
    reliability, to zero or one. *)
Theorem monitor_inv self concurrency mc0 pm :
  rtc monitor_step (Start self concurrency mc0) pm ->
  (length (pf_peerChan pm) <= concurrency)%nat /\ (self ∉ pf_peerChan pm) /\
  length (pf_workers pm) = concurrency /\
  Forall (fun w => forall p, w = Pinging p -> p <> self) (pf_workers pm) /\
  mc_weights (pf_collector pm) = mc_weights mc0 /\
  forall p, written (metrics_of mc0 p) (metrics_of (pf_collector pm) p).
Proof.
  intros Hr. assert (monitor_ok self concurrency mc0 (Start self concurrency mc0)) as Hok.
  { split; cbn; [done..|lia|by apply not_elem_of_nil|apply length_replicate|by apply Forall_replicate|].
    split; [done|]. intros p. split; auto. }
  assert (monitor_ok self concurrency mc0 pm) as [_ _ Hb Hq Hl Hw [Hwt Hm]].
  { revert Hok. induction Hr as [|pm1 pm2 pm3 Hs _ IH]; [done|]. intros Hok. by eapply IH, monitor_step_ok. }
  split_and!; [done..| |done|done]. eapply Forall_impl; [exact Hw|]. by intros w Hok' p ->.
Qed.

Lemma monitor_inv_witness :
  length (pf_workers (Cancel (Start (str "self") 2 (NewCollector zero_Metrics)))) = 2%nat.
Proof.
  refine (proj1 (proj2 (proj2 (monitor_inv (str "self") 2 (NewCollector zero_Metrics) _ _)))).
  apply rtc_once, step_cancel.
Defined.

(** * [Stop] *)

(** The steps after the cancellation, with the peers of each tick. *)
Inductive stopping : list (option (list PeerID)) -> PerformanceMonitor -> PerformanceMonitor -> Prop :=
| stopping_here pm : stopping [] pm pm
| stopping_collecting l ls pm pm1 pm2 :
    collecting_step l pm pm1 -> stopping ls pm1 pm2 -> stopping (l :: ls) pm pm2
| stopping_worker ls pm pm1 pm2 : some_worker pm pm1 -> stopping ls pm1 pm2 -> stopping (None :: ls) pm pm2.

Definition work (w : worker) : nat :=
  match w with Pinging _ => 3 | Updating _ _ => 2 | Idle => 1 | Gone => 0 end.
Definition offers (pm : PerformanceMonitor) : nat :=
  match pf_collecting pm with Some peers => 1 + 4 * length peers | None => 0 end.
Definition remaining (pm : PerformanceMonitor) : nat :=
  (sum_list_with work (pf_workers pm) + 3 * length (pf_peerChan pm) + offers pm)%nat.
(** What the ticks add. *)
Definition tick_work (l : option (list PeerID)) : nat :=
  match l with Some peers => 1 + 4 * length peers | None => 0 end.

Lemma work_insert i w0 w (ws : list worker) :
  ws !! i = Some w0 -> (sum_list_with work (<[i := w]> ws) + work w0 = sum_list_with work ws + work w)%nat.
Proof. revert i. induction ws as [|w1 ws IH]; intros [|i] Hi; simplify_eq/=; [lia|]. apply IH in Hi. lia. Qed.

Lemma worker_decreases pm pm' : some_worker pm pm' -> (remaining pm' < remaining pm)%nat.
Proof.
  intros (i & l & [pm1 p q Hi Hq|pm1 p now o Hi|pm1 p r now Hi|pm1 Hi Hc|pm1 Hi Hq Hc]); unfold remaining, offers; cbn;
    match goal with |- context [<[i := ?w]> _] => pose proof (work_insert i _ w _ Hi) as Hw end; cbn in Hw;
    [rewrite Hq; cbn|..]; lia.
Qed.

Lemma collecting_decreases l pm pm' : collecting_step l pm pm' -> (remaining pm' < remaining pm + tick_work l)%nat.
Proof.
  destruct 1 as [pm peers Hc|pm p rest Hc|pm Hc _]; unfold remaining, offers, tick_work; cbn; rewrite Hc; cbn; [lia| |lia].
  unfold offer. case_bool_decide; [lia|]. case_match; cbn; [rewrite length_app; cbn|]; lia.
Qed.

Lemma stopping_bound ls pm pm' :
  stopping ls pm pm' -> (length ls + remaining pm' <= remaining pm + sum_list_with tick_work ls)%nat.
Proof.
  induction 1 as [pm|l ls pm pm1 pm2 Hs _ IH|ls pm pm1 pm2 Hs _ IH]; cbn; [lia| |].
  - apply collecting_decreases in Hs. lia.
  - apply worker_decreases in Hs. lia.
Qed.

Lemma remaining_bound pm :
  (remaining pm <= 3 * (length (pf_workers pm) + length (pf_peerChan pm)) + offers pm)%nat.
Proof.
  unfold remaining. assert (sum_list_with work (pf_workers pm) <= 3 * length (pf_workers pm))%nat; [|lia].
  induction (pf_workers pm) as [|[] ws IH]; cbn in *; lia.
Qed.

Lemma worker_step_cancelled i l pm pm' : worker_step i l pm pm' -> pf_cancelled pm' = pf_cancelled pm.
Proof. by destruct 1. Qed.
Lemma collecting_step_cancelled l pm pm' : collecting_step l pm pm' -> pf_cancelled pm' = pf_cancelled pm.
Proof. destruct 1; [done| |done]. cbn. unfold offer. case_bool_decide; [done|]. by case_match. Qed.

(** Every run after the cancellation is such a run. *)
Lemma stopping_all pm pm' :
  rtc monitor_step pm pm' -> pf_cancelled pm = true -> exists ls, stopping ls pm pm' /\ pf_cancelled pm' = true.
Proof.
  induction 1 as [pm|pm pm1 pm2 Hs _ IH]; intros Hc; [exists []; split; [constructor|done]|].
  destruct Hs as [l pm pm1 Hs|pm|pm pm1 Hs].
  - destruct IH as (ls & ? & ?); [by rewrite (collecting_step_cancelled _ _ _ Hs)|].
    exists (l :: ls). split; [by eapply stopping_collecting|done].
  - assert (Cancel pm = pm) as E by (destruct pm; cbn in Hc; by rewrite Hc). rewrite E in IH. by apply IH.
  - destruct Hs as (i & l & Hs). destruct IH as (ls & ? & ?); [by rewrite (worker_step_cancelled _ _ _ _ Hs)|].
    exists (None :: ls). split; [|done]. eapply stopping_worker; [by exists i, l|done].
Qed.

Definition awaits (p : PeerID) (pm : PerformanceMonitor) : Prop := Pinging p ∈ pf_workers pm.
(** A turn that a worker takes by itself. *)
Definition leaving (pm pm' : PerformanceMonitor) : Prop := exists i, worker_step i None pm pm'.

(** A worker that is neither gone nor waiting can take such a turn, with less
    to do and with no wait. *)
Lemma worker_leaves pm i w :
  pf_cancelled pm = true -> pf_workers pm !! i = Some w -> w <> Gone -> (forall p, w <> Pinging p) ->
  exists w', work w = S (work w') /\ (forall p, w' <> Pinging p) /\
    exists pm', leaving pm pm' /\ pf_workers pm' = <[i := w']> (pf_workers pm).
Proof.
  intros Hc Hi Hg Hp. destruct w as [|p|p r|]; [|by destruct (Hp p)| |done].
  - exists Gone. split; [done|]. split; [done|]. eexists. split; [exists i; by apply worker_cancelled|done].
  - exists Idle. split; [done|]. split; [done|]. eexists. split; [exists i; by apply (worker_updates i pm p r 0)|done].
Qed.

Lemma stopped_or_left pm :
  (forall p, ~ awaits p pm) -> stopped pm \/ exists i w, pf_workers pm !! i = Some w /\ w <> Gone /\ forall p, w <> Pinging p.
Proof.
  intros Ha. destruct (decide (Forall (fun w => work w = 0%nat) (pf_workers pm))) as [Hall|Hex].
  - left. eapply Forall_impl; [exact Hall|]. by intros [].
  - right. apply not_Forall_Exists in Hex; [|apply _].
    apply Exists_exists in Hex as (w & [i Hi]%list_elem_of_lookup & Hw).
    exists i, w. split; [done|]. split; [intros ->; by apply Hw|]. intros p ->.
    apply (Ha p). by eapply list_elem_of_lookup_2.
Qed.

(** Once no worker awaits a peer the workers can leave by themselves. *)
Lemma leaving_stops pm :
  pf_cancelled pm = true -> (forall p, ~ awaits p pm) ->
  exists n pm', (n <= sum_list_with work (pf_workers pm))%nat /\ nsteps leaving n pm pm' /\ stopped pm'.
Proof.
  remember (sum_list_with work (pf_workers pm)) as k eqn:Hk. revert pm Hk.
  induction k as [k IH] using lt_wf_ind. intros pm -> Hc Ha.
  destruct (stopped_or_left pm Ha) as [Hs|(i & w & Hi & Hg & Hp)]; [exists 0%nat, pm; split; [lia|split; [constructor|done]]|].
  destruct (worker_leaves pm i w Hc Hi Hg Hp) as (w' & Hw & Hp' & pm1 & Hl & E).
  pose proof (work_insert i _ w' _ Hi) as Hsum. rewrite <- E in Hsum.
  destruct (IH (sum_list_with work (pf_workers pm1))) with pm1 as (n & pm' & Hn & Hr & Hs); [lia|done| | |].
  - destruct Hl as [j Hl]. by rewrite (worker_step_cancelled _ _ _ _ Hl).
  - intros p. unfold awaits. rewrite E. intros [j Hj]%list_elem_of_lookup.
    apply list_lookup_insert_Some in Hj as [(_ & Hj & _)|[_ Hj]]; [by destruct (Hp' p)|].
    apply (Ha p). by eapply list_elem_of_lookup_2.
  - exists (S n), pm'. split; [lia|]. split; [by eapply nsteps_l|done].
Qed.

(** A step in which the peer that worker [i] awaits does not answer. *)
Definition unanswered (i : nat) (pm pm' : PerformanceMonitor) : Prop :=
  (exists l, collecting_step l pm pm') \/ pm' = Cancel pm \/ exists j l, worker_step j l pm pm' /\ (j = i -> l = None).

Lemma unanswered_awaits i p pm pm' :
  unanswered i pm pm' -> pf_workers pm !! i = Some (Pinging p) -> pf_workers pm' !! i = Some (Pinging p).
Proof.
  intros [[l Hs]|[->|(j & l & Hs & Hl)]] Hi; [|done|].
  - destruct Hs; [done| |done]. cbn. unfold offer. case_bool_decide; [done|]. by case_match.
  - destruct (decide (j = i)) as [->|Hne].
    + rewrite (Hl eq_refl) in Hs. inversion Hs; subst; congruence.
    + inversion Hs; subst; cbn; by rewrite list_lookup_insert_ne.
Qed.

Lemma not_exists_work (ws : list worker) :
  ~ Exists (fun w => work w = 3%nat) ws -> (sum_list_with work ws <= 2 * length ws)%nat.
Proof.
  induction ws as [|w ws IH]; intros Hno; cbn; [lia|].
  assert (work w <> 3%nat) by (intros E; apply Hno; by constructor).
  assert (~ Exists (fun w => work w = 3%nat) ws) as Hno' by (intros E; apply Hno; by constructor).
  apply IH in Hno'. destruct w; cbn in *; lia.
Qed.

(** C38: After [Stop] has cancelled a monitor, whatever the order of the goroutines
    (the collecting one may still queue peers, and a tick may still be chosen
    before it closes the channel): a run has at most three steps for each
    worker and each queued peer, four for each peer still to be offered, of
    the ticks since too, and one for each tick and for the closing; and in
    each state reached either every worker is gone and [Stop] returns, or some
    worker awaits a peer, or the workers alone can leave within two turns
    each.  While a peer does not answer, the worker that awaits it stays,
    whatever the others do, so a peer that accepts the stream and never
    answers keeps [Stop] from returning. *)
Theorem monitor_stops pm pm' :
  rtc monitor_step (Cancel pm) pm' ->
  (exists ls, stopping ls (Cancel pm) pm') /\
  (forall ls, stopping ls (Cancel pm) pm' ->
     length ls <= 3 * (length (pf_workers pm) + length (pf_peerChan pm)) + offers pm +
                  sum_list_with tick_work ls)%nat /\
  (stopped pm' \/ (exists p, awaits p pm') \/
   exists n pm'', (n <= 2 * length (pf_workers pm'))%nat /\ nsteps leaving n pm' pm'' /\ stopped pm'') /\
  (forall i p pm'', pf_workers pm' !! i = Some (Pinging p) -> rtc (unanswered i) pm' pm'' ->
     pf_workers pm'' !! i = Some (Pinging p) /\ ~ stopped pm'').
Proof.
  intros Hr. destruct (stopping_all _ _ Hr eq_refl) as (ls & Hls & Hc). split; [by exists ls|]. split_and!.
  - intros ls' Hl%stopping_bound. pose proof (remaining_bound (Cancel pm)) as Hb.
    change (offers (Cancel pm)) with (offers pm) in Hb. cbn [Cancel pf_workers pf_peerChan] in Hb. lia.
  - destruct (decide (Exists (fun w => work w = 3%nat) (pf_workers pm'))) as [Hex|Hno].
    { apply Exists_exists in Hex as (w & Hin & Hw). right. left. destruct w as [|p| |]; try done. by exists p. }
    right. right. assert (forall p, ~ awaits p pm') as Ha.
    { intros p Hp. apply Hno, Exists_exists. by exists (Pinging p). }
    destruct (leaving_stops pm' Hc Ha) as (n & pm'' & Hn & ? & ?). exists n, pm''. split; [|done].
    apply not_exists_work in Hno. lia.
  - intros i p pm'' Hi Hu. assert (pf_workers pm'' !! i = Some (Pinging p)) as Hi''.
    { clear -Hi Hu. induction Hu as [|x y z Hs _ IH]; [done|]. by eapply IH, unanswered_awaits. }
    split; [done|]. intros Hs. by apply (Forall_lookup_1 _ _ _ _ Hs) in Hi''.
Qed.

(** Stopping after one tick: worker 0 has the peer; worker 1 leaves, the peer
    answers, the channel is closed and worker 0 leaves. *)
Definition monitor_pinging : PerformanceMonitor :=
  set_worker 0 (Pinging (str "peer")) (Start (str "self") 2 (NewCollector zero_Metrics)).
Definition monitor_stopped (mc : Collector) : PerformanceMonitor :=
  {| pf_self := str "self"; pf_concurrency := 2; pf_peerChan := []; pf_collecting := None;
     pf_cancelled := true; pf_workers := [Gone; Gone]; pf_collector := mc |}.
Lemma monitor_stopping :
  exists mc, stopping [None; None; None; None; None] (Cancel monitor_pinging) (monitor_stopped mc).
Proof.
  eexists. eapply stopping_worker; [exists 1%nat, None; by apply worker_cancelled|].
  eapply stopping_worker; [exists 0%nat, (Some (Answered (str "pong") f_one)); by eapply (worker_pinged 0 _ _ 0)|].
  eapply stopping_worker; [exists 0%nat, None; by eapply (worker_updates 0 _ _ _ 0)|].
  eapply stopping_collecting; [by apply step_close|].
  eapply stopping_worker; [exists 0%nat, None; by apply worker_cancelled|]. apply stopping_here.
Qed.
Lemma stopping_runs ls pm pm' : stopping ls pm pm' -> rtc monitor_step pm pm'.
Proof.
  induction 1; [done|eapply rtc_l; [by eapply step_collecting|done]|eapply rtc_l; [by eapply step_worker|done]].
Qed.
Lemma monitor_stops_witness :
  exists mc ls, stopping ls (Cancel monitor_pinging) (monitor_stopped mc) /\ length ls = 5%nat /\
    (length ls <= 3 * (2 + 0) + 1 + sum_list_with tick_work ls)%nat /\
    forall pm, rtc (unanswered 0) (Cancel monitor_pinging) pm -> ~ stopped pm.
Proof.
  destruct monitor_stopping as [mc Hs].
  destruct (monitor_stops monitor_pinging (monitor_stopped mc) (stopping_runs _ _ _ Hs)) as (_ & Hb & _ & _).
  destruct (monitor_stops monitor_pinging (Cancel monitor_pinging) (rtc_refl _ _)) as (_ & _ & _ & Hu).
  eexists mc, _. split; [exact Hs|]. split; [reflexivity|]. split; [exact (Hb _ Hs)|].
  intros pm Hr. by apply (Hu 0%nat (str "peer")).
Defined.

(** * Two workers, one peer *)

(** The interleaving: two ticks queue the peer twice, worker 0 is answered,
    worker 1 fails and writes both of its values before worker 0 writes its
    second. *)
Definition torn (mc0 : Collector) (p : PeerID) (answer failure : ping_outcome) : Collector :=
  let mc1 := UpdateResponsiveness 0 mc0 p (ping_values answer).1 in
  let mc2 := UpdateResponsiveness 0 mc1 p (ping_values failure).1 in
  UpdateReliability 0 (UpdateReliability 0 mc2 p (ping_values failure).2) p (ping_values answer).2.

Lemma torn_reachable self p answer failure mc0 :
  p <> self ->
  exists pm, rtc monitor_step (Start self 2 mc0) pm /\ pf_workers pm = [Idle; Idle] /\ pf_peerChan pm = [] /\
             pf_collector pm = torn mc0 p answer failure.
Proof.
  intros Hp. assert (forall pm, pf_self pm = self -> (length (pf_peerChan pm) < pf_concurrency pm)%nat ->
    offer p pm = set_peerChan (pf_peerChan pm ++ [p]) pm) as Hoffer.
  { intros pm <- Hl%Nat.ltb_lt. unfold offer. by rewrite bool_decide_eq_false_2, Hl. }
  eexists. split.
  - do 2 (eapply rtc_l; [by eapply step_collecting, (step_tick _ [p])|];
          eapply rtc_l; [by eapply step_collecting, step_offer|]; rewrite Hoffer by (cbn; lia || done)).
    eapply rtc_l; [apply step_worker; exists 0%nat, None; by apply (worker_receives 0 _ p [p])|].
    eapply rtc_l; [apply step_worker; exists 1%nat, None; by apply (worker_receives 1 _ p [])|].
    eapply rtc_l; [apply step_worker; exists 0%nat, (Some answer); by apply (worker_pinged 0 _ p 0 answer)|].
    eapply rtc_l; [apply step_worker; exists 1%nat, (Some failure); by apply (worker_pinged 1 _ p 0 failure)|].
    eapply rtc_l; [apply step_worker; exists 1%nat, None; by apply (worker_updates 1 _ p (ping_values failure).2 0)|].
    eapply rtc_l; [apply step_worker; exists 0%nat, None; by apply (worker_updates 0 _ p (ping_values answer).2 0)|].
    apply rtc_refl.
  - done.
Qed.

(** The two updates that follow a ping are two critical sections: when a
    peer is queued twice and two workers ping it at once, one answered and the
    other failing, the collector can be left with responsiveness zero and
    reliability one, which neither ping reports. *)
Theorem updates_torn self p latency e mc0 :
  p <> self -> f_div f_one latency <> f_zero ->
  exists pm, let m := metrics_of (pf_collector pm) p in
    rtc monitor_step (Start self 2 mc0) pm /\ pf_workers pm = [Idle; Idle] /\ pf_peerChan pm = [] /\
    Responsiveness m = f_zero /\ Reliability m = f_one /\
    (Responsiveness m, Reliability m) <> ping_values (Answered (str "pong") latency) /\
    (Responsiveness m, Reliability m) <> ping_values (NoStream e).
Proof.
  intros Hp Hl.
  destruct (torn_reachable self p (Answered (str "pong") latency) (NoStream e) mc0 Hp) as (pm & Hr & Hw & Hq & Hc).
  exists pm. cbn zeta. rewrite Hc. unfold torn, UpdateResponsiveness, UpdateReliability.
  rewrite !update_peer_metrics. rewrite !decide_True by done. cbn.
  split_and!; [done..| |]; [intros [=]; by apply Hl|intros [=]].
Qed.

Lemma updates_torn_witness :
  exists pm, rtc monitor_step (Start (str "self") 2 (NewCollector zero_Metrics)) pm /\ pf_peerChan pm = [].
Proof.
  refine (match updates_torn (str "self") (str "peer") f_one EOF (NewCollector zero_Metrics) _ _ with
          | ex_intro _ pm H => ex_intro _ pm (conj (proj1 H) (proj1 (proj2 (proj2 H)))) end).
  - by vm_compute.
  - by vm_compute.
Defined.
