(* ===== verification/Dns.v ===== *)
(** [pkg/dns/resolvers]: the DNS resolver and its five handlers.

    The messages are those of [github.com/miekg/dns], of which a question, the
    answer section and the compression flag are kept; [Rest] is the rest of a
    message.  The writer of the responses is an argument: whether the write
    fails.  [net.ParseIP] of the two literals is written out. *)
From S2P Require Import Prelude Bytes.

(** * Messages *)
Record Question := { Qname : bytes; Qtype : Z; Qclass : Z }.
Inductive Rdata :=
| A (ip : bytes)
| AAAA (ip : bytes)
| CNAME (target : bytes)
| MX (preference : Z) (mx : bytes)
| TXT (txt : list bytes).
Record RR := { Name : bytes; Rrtype : Z; Class_ : Z; Ttl : Z; Rdata_ : Rdata }.

(** [Rest] is the header and the sections that the resolver does not touch;
    [SetReply] and the message of [HandleFailed] are the library's, which start
    from a message without answers. *)
Class DnsLib := {
  Rest : Type;
  reply_rest : Rest -> list Question -> Rest;
  reply_question : list Question -> list Question;
  failed_rest : Rest -> list Question -> Rest;
}.

Section Resolvers.
Context `{DnsLib}.

Record Msg := { Msg_rest : Rest; Msg_Question : list Question; Answer : list RR; Compress : bool }.

Definition SetReply (req : Msg) : Msg :=
  {| Msg_rest := reply_rest (Msg_rest req) (Msg_Question req);
     Msg_Question := reply_question (Msg_Question req); Answer := []; Compress := false |}.
(** [dns.HandleFailed] writes a server failure and drops the error of the
    write. *)
Definition failure_reply (req : Msg) : Msg :=
  {| Msg_rest := failed_rest (Msg_rest req) (Msg_Question req);
     Msg_Question := reply_question (Msg_Question req); Answer := []; Compress := false |}.
Definition set_answer (m : Msg) (rrs : list RR) : Msg :=
  {| Msg_rest := Msg_rest m; Msg_Question := Msg_Question m; Answer := rrs; Compress := Compress m |}.
Definition set_compress (m : Msg) : Msg :=
  {| Msg_rest := Msg_rest m; Msg_Question := Msg_Question m; Answer := Answer m; Compress := true |}.

(** * The handlers *)
Definition TypeA : Z := 1.
Definition TypeCNAME : Z := 5.
Definition TypeMX : Z := 15.
Definition TypeTXT : Z := 16.
Definition TypeAAAA : Z := 28.
Definition ClassINET : Z := 1.

Definition Handler : Type := Msg -> Question -> res Msg.

(** What the five handlers share: one record after the answers of the reply. *)
Definition reply_with (req : Msg) (q : Question) (rrtype : Z) (data : Rdata) : Msg :=
  let response := SetReply req in
  set_answer response (Answer response ++
    [{| Name := Qname q; Rrtype := rrtype; Class_ := ClassINET; Ttl := 3600; Rdata_ := data |}]).

(** [net.ParseIP] of "127.0.0.1" and of "::1": sixteen bytes. *)
Definition localhost4 : option bytes :=
  Some (repeat Byte.x00 10 ++ [Byte.xff; Byte.xff; Byte.x7f; Byte.x00; Byte.x00; Byte.x01]).
Definition localhost6 : option bytes := Some (repeat Byte.x00 15 ++ [Byte.x01]).

Definition AHandler : Handler := fun req q =>
  match localhost4 with
  | None => Err (ErrMsg "invalid IP address for %s")
  | Some ip => Ok (reply_with req q TypeA (A ip))
  end.
Definition AAAAHandler : Handler := fun req q =>
  match localhost6 with
  | None => Err (ErrMsg "invalid IPv6 address for %s")
  | Some ip => Ok (reply_with req q TypeAAAA (AAAA ip))
  end.
Definition CNAMEHandler : Handler := fun req q => Ok (reply_with req q TypeCNAME (CNAME (str "example.com."))).
Definition MXHandler : Handler := fun req q => Ok (reply_with req q TypeMX (MX 10 (str "mail.example.com."))).
Definition TXTHandler : Handler := fun req q =>
  Ok (reply_with req q TypeTXT (TXT [str "v=spf1 include:example.com ~all"])).

(** * The resolver *)
Record Resolver := { handlers : gmap Z Handler }.
Definition NewResolver : Resolver := {| handlers :=
  <[TypeMX := MXHandler]> (<[TypeTXT := TXTHandler]> (<[TypeCNAME := CNAMEHandler]>
    (<[TypeAAAA := AAAAHandler]> (<[TypeA := AHandler]> ∅)))) |}.

(** The loop over the questions; [None] is the early return after
    [HandleFailed]. *)
Fixpoint resolve_questions (r : Resolver) (req : Msg) (qs : list Question) (response : Msg) : res Msg :=
  match qs with
  | [] => Ok response
  | q :: qs =>
      match handlers r !! Qtype q with
      | None => Err (ErrMsg "Unsupported query type: %d for domain %s")
      | Some handler =>
          msg ← wrap "Error handling query for %s: %v" (handler req q);
          resolve_questions r req qs (set_answer response (Answer response ++ Answer msg))
      end
  end.

(** The messages handed to the writer, and whether the call panics: the report
    of a failing write names the first question, which may be missing. *)
Definition Resolve (r : Resolver) (write_fails : Msg -> bool) (req : Msg) : list Msg * res unit :=
  let response := set_compress (SetReply req) in
  match resolve_questions r req (Msg_Question req) response with
  | Ok response =>
      ([response],
       if write_fails response then
         match Msg_Question req with [] => Panic | _ :: _ => Ok tt end
       else Ok tt)
  | Err _ => ([failure_reply req], Ok tt)
  | Panic => ([], Panic)
  end.

(** * What a query is answered *)
(** The record a supported type is answered with. *)
Definition record_data (qtype : Z) : option Rdata :=
  if decide (qtype = TypeA) then A <$> localhost4
  else if decide (qtype = TypeAAAA) then AAAA <$> localhost6
  else if decide (qtype = TypeCNAME) then Some (CNAME (str "example.com."))
  else if decide (qtype = TypeTXT) then Some (TXT [str "v=spf1 include:example.com ~all"])
  else if decide (qtype = TypeMX) then Some (MX 10 (str "mail.example.com."))
  else None.
Definition answer_of (q : Question) : option RR :=
  data ← record_data (Qtype q);
  Some {| Name := Qname q; Rrtype := Qtype q; Class_ := ClassINET; Ttl := 3600; Rdata_ := data |}.

Lemma handler_answers req q :
  match handlers NewResolver !! Qtype q with
  | Some handler => exists msg rr, handler req q = Ok msg /\ answer_of q = Some rr /\ Answer msg = [rr]
  | None => answer_of q = None
  end.
Proof.
  unfold answer_of, record_data, NewResolver. cbn [handlers].
  assert (forall handler data rrtype, Qtype q = rrtype ->
    handler req q = Ok (reply_with req q rrtype data) ->
    exists msg rr, handler req q = Ok msg /\
      Some {| Name := Qname q; Rrtype := Qtype q; Class_ := ClassINET; Ttl := 3600; Rdata_ := data |} = Some rr /\
      Answer msg = [rr]) as Hone.
  { intros handler data rrtype -> ->. by do 2 eexists. }
  repeat match goal with
  | |- context [decide (?x = ?y)] =>
      destruct (decide (x = y)) as [Heq|?];
      [rewrite Heq; simplify_map_eq; rewrite <- Heq; by eapply Hone|]
  end.
  by simplify_map_eq.
Qed.

Lemma resolve_questions_spec req qs response :
  match mapM answer_of qs with
  | Some rrs => resolve_questions NewResolver req qs response = Ok (set_answer response (Answer response ++ rrs))
  | None => exists e, resolve_questions NewResolver req qs response = Err e
  end.
Proof.
  revert response. induction qs as [|q qs IH]; intros response; cbn -[NewResolver].
  { destruct response. unfold set_answer. cbn. by rewrite app_nil_r. }
  pose proof (handler_answers req q) as Hh. destruct (handlers NewResolver !! Qtype q) as [handler|].
  - destruct Hh as (msg & rr & -> & -> & Ha). cbn. rewrite Ha.
    specialize (IH (set_answer response (Answer response ++ [rr]))).
    destruct (mapM answer_of qs); cbn in *; [|done]. rewrite IH. unfold set_answer. cbn.
    by rewrite <- app_assoc.
  - rewrite Hh. cbn. eauto.
Qed.

(** C40: A query is answered with exactly one message.  When every question
    asks for one of the five supported types it is the compressed reply with
    one record per question, in their order, for the name and type asked;
    otherwise it is the server failure, without any answer, whatever the other
    questions were.  The call panics exactly when the query has no question and
    the reply cannot be written. *)
Theorem Resolve_spec write_fails req :
  Resolve NewResolver write_fails req =
    match mapM answer_of (Msg_Question req) with
    | Some rrs =>
        let response := set_compress (set_answer (SetReply req) rrs) in
        ([response],
         if write_fails response && bool_decide (Msg_Question req = []) then Panic else Ok tt)
    | None => ([failure_reply req], Ok tt)
    end.
Proof.
  unfold Resolve. pose proof (resolve_questions_spec req (Msg_Question req) (set_compress (SetReply req))) as Hr.
  destruct (mapM answer_of (Msg_Question req)) as [rrs|].
  - rewrite Hr. cbn. unfold set_answer, set_compress. cbn. f_equal.
    destruct (write_fails _); [|done]. by destruct (Msg_Question req).
  - by destruct Hr as [e ->].
Qed.
End Resolvers.
