(* ===== verification/Keystore.v ===== *)
(** [cmd/keygen.go]: the commands of the keystore, each a process of its own
    that opens the directory of accounts of [Accounts.v], and a specification
    of what a sequence of them does to the directory.

    The flags are arguments, as are the answer typed at the confirmation and
    the random sources.  What a command prints is a list of [output]s, with the
    values and without the layout; [Raw] is libp2p's. *)
From S2P Require Import Prelude Bytes Hashes Types Signatures Packets Validators Accounts.

Section Keystore.
Context {K : Type} `{PairLib K} {FS : Type} `{Env FS}.
Context (Raw : bytes -> res bytes).
Local Abbreviation account := (StoredAccount (K := K)).
Local Abbreviation accounts := (gmap PeerID account).

(** The order in which the signers of a file are visited, and the accounts. *)
Record Orders := {
  or_signers : list SignerType -> list SignerType;
  or_accounts : accounts -> list PeerID;
}.

Inductive keystore_command :=
| Generate (fresh : Fresh (K := K)) (name comment : string) (save : bool)
| ListIdentities
| GetIdentity (peer_id : bytes)
| DeleteIdentity (peer_id : bytes) (force : bool) (response : bytes).

(** The lines about one identity. *)
Record Identity := {
  id_Address : Address;
  id_DID : bytes;
  id_PeerID : PeerID;
  id_PublicKey : bytes;
  id_Name : string;
  id_Comment : string;
}.
Inductive output :=
| IdentityCreated (i : Identity) (saved : bool)
| Persisted
| NoIdentitiesFound
| StoredIdentities (rows : list (bytes * string * PeerID))
| IdentityInformation (i : Identity)
| Confirmation (peer_id : bytes)
| Aborted
| SuccessfullyDeleted (peer_id : bytes).

(** The error of [Raw] is dropped. *)
Definition identity (did : account) : Identity :=
  {| id_Address := sa_Address did; id_DID := sa_ID did; id_PeerID := sa_PeerID did;
     id_PublicKey := match Raw (sa_PeerPublicKey did) with Ok b => b | _ => [] end;
     id_Name := sa_Name did; id_Comment := sa_Comment did |}.

Definition process : Type := FS -> FS * list output * res unit.

(** The first lines of every action: [accounts.NewManager] on the directory. *)
Definition with_manager (o : Orders) (action : Store (K := K) (FS := FS) -> FS * list output * res unit) :
    process := fun fs =>
  match NewManager (or_signers o) fs with
  | Ok identityManager => action identityManager
  | Err e => (fs, [], Err e)
  | Panic => (fs, [], Panic)
  end.

Definition keystore_generate (o : Orders) (fresh : Fresh (K := K)) (name comment : string) (save : bool) :
    process :=
  with_manager o (fun im =>
    match Manager_Create (or_accounts o (st_keys im)) fresh name comment save im with
    | (im, Ok did) =>
        (st_fs im, IdentityCreated (identity did) save :: (if save then [Persisted] else []), Ok tt)
    | (im, Err e) => (st_fs im, [], Err e)
    | (im, Panic) => (st_fs im, [], Panic)
    end).

Definition keystore_list (o : Orders) : process :=
  with_manager o (fun im =>
    match Manager_List im (or_accounts o (st_keys im)) with
    | Ok [] => (st_fs im, [NoIdentitiesFound], Ok tt)
    | Ok dids =>
        (st_fs im, [StoredIdentities (map (fun did => (sa_ID did, sa_Name did, sa_PeerID did)) dids)], Ok tt)
    | Err e => (st_fs im, [], Err e)
    | Panic => (st_fs im, [], Panic)
    end).

Definition keystore_get (o : Orders) (peerIDStr : bytes) : process :=
  with_manager o (fun im =>
    match peer_Decode peerIDStr ≫= Manager_GetByPeerID im with
    | Ok did => (st_fs im, [IdentityInformation (identity did)], Ok tt)
    | Err e => (st_fs im, [], Err e)
    | Panic => (st_fs im, [], Panic)
    end).

Definition confirmed (response : bytes) : bool := bool_decide (response = str "y" \/ response = str "Y").

Definition keystore_delete (o : Orders) (peerIDStr : bytes) (force : bool) (response : bytes) : process :=
  with_manager o (fun im =>
    match peer_Decode peerIDStr with
    | Ok peerID =>
        let prompt := if force then [] else [Confirmation peerIDStr] in
        if negb force && negb (confirmed response) then (st_fs im, prompt ++ [Aborted], Ok tt)
        else
          match Manager_Delete peerID im with
          | (im, Ok _) => (st_fs im, prompt ++ [SuccessfullyDeleted peerIDStr], Ok tt)
          | (im, Err e) => (st_fs im, prompt, Err e)
          | (im, Panic) => (st_fs im, prompt, Panic)
          end
    | Err e => (st_fs im, [], Err e)
    | Panic => (st_fs im, [], Panic)
    end).

Definition keystore (o : Orders) (c : keystore_command) : process :=
  match c with
  | Generate fresh name comment save => keystore_generate o fresh name comment save
  | ListIdentities => keystore_list o
  | GetIdentity peer_id => keystore_get o peer_id
  | DeleteIdentity peer_id force response => keystore_delete o peer_id force response
  end.

(** Commands one after the other, each a new process. *)
Fixpoint sessions (fs : FS) (cs : list (Orders * keystore_command)) : FS * list (list output * res unit) :=
  match cs with
  | [] => (fs, [])
  | (o, c) :: cs =>
      let '(fs, out, r) := keystore o c fs in
      let '(fs, outs) := sessions fs cs in (fs, (out, r) :: outs)
  end.

(** * The specification: a directory of accounts *)
Definition created (a : account) (save : bool) : list output :=
  IdentityCreated (identity a) save :: (if save then [Persisted] else []).
Definition prompt (peer_id : bytes) (force : bool) : list output := if force then [] else [Confirmation peer_id].
Definition is_err {A} (r : res A) : Prop := r <> Panic /\ is_ok r = false.

Definition directory_step (m : accounts) (c : keystore_command) (out : list output) (r : res unit)
    (m' : accounts) : Prop :=
  match c with
  | Generate _ name comment save =>
      (exists p a, m !! p = Some a /\ sa_Name a = name /\ m' = m /\ out = created a save /\ r = Ok tt) \/
      (forall p a, m !! p = Some a -> sa_Name a <> name) /\
      ((exists a, sa_Name a = name /\ sa_Comment a = comment /\
          m' = (if save then <[sa_PeerID a := a]> m else m) /\ out = created a save /\ r = Ok tt) \/
       (m' = m /\ out = [] /\ r <> Ok tt))
  | ListIdentities =>
      m' = m /\ r = Ok tt /\
      ((m = ∅ /\ out = [NoIdentitiesFound]) \/
       (m <> ∅ /\ exists rows, out = [StoredIdentities rows] /\
          rows ≡ₚ map (fun e => (sa_ID e.2, sa_Name e.2, sa_PeerID e.2)) (map_to_list m)))
  | GetIdentity peer_id =>
      m' = m /\
      match peer_Decode peer_id with
      | Ok p =>
          match m !! p with
          | Some a => out = [IdentityInformation (identity a)] /\ r = Ok tt
          | None => out = [] /\ is_err r
          end
      | Err e => out = [] /\ r = Err e
      | Panic => out = [] /\ r = Panic
      end
  | DeleteIdentity peer_id force response =>
      match peer_Decode peer_id with
      | Ok p =>
          if force || confirmed response then
            (m' = delete p m /\ is_Some (m !! p) /\ r = Ok tt /\
             out = prompt peer_id force ++ [SuccessfullyDeleted peer_id]) \/
            (m' = m /\ r <> Ok tt /\ out = prompt peer_id force)
          else m' = m /\ out = [Confirmation peer_id; Aborted] /\ r = Ok tt
      | Err e => m' = m /\ out = [] /\ r = Err e
      | Panic => m' = m /\ out = [] /\ r = Panic
      end
  end.

Fixpoint directory_run (m : accounts) (cs : list (Orders * keystore_command))
    (outs : list (list output * res unit)) (m' : accounts) : Prop :=
  match cs, outs with
  | [], [] => m' = m
  | (_, c) :: cs, (out, r) :: outs => exists m1, directory_step m c out r m1 /\ directory_run m1 cs outs m'
  | _, _ => False
  end.

(** A failing write may leave a file half written; a session counts where
    every command succeeds or leaves the directory as it was. *)
Fixpoint clean (fs : FS) (cs : list (Orders * keystore_command)) : Prop :=
  match cs with
  | [] => True
  | (o, c) :: cs =>
      ((keystore o c fs).2 = Ok tt \/ (keystore o c fs).1.1 = fs) /\ clean (keystore o c fs).1.1 cs
  end.

(** The same as a test, where directories can be compared. *)
Fixpoint cleanb `{EqDecision FS} (fs : FS) (cs : list (Orders * keystore_command)) : bool :=
  match cs with
  | [] => true
  | (o, c) :: cs =>
      let '(fs1, _, r) := keystore o c fs in (is_ok r || bool_decide (fs1 = fs)) && cleanb fs1 cs
  end.
Lemma cleanb_clean `{EqDecision FS} fs cs : cleanb fs cs = true -> clean fs cs.
Proof.
  revert fs. induction cs as [|[o c] cs IH]; intros fs; cbn; [done|].
  destruct (keystore o c fs) as [[fs1 out] r]. cbn.
  intros [[Hr|Hr%bool_decide_eq_true]%orb_true_iff Hc%IH]%andb_true_iff; (split; [|done]); [left|by right].
  by destruct r as [[]| |].
Qed.

Context `{!EnvLaws, !PairLaws K}.

Definition command_ok (oc : Orders * keystore_command) : Prop :=
  (forall l, or_signers oc.1 l ≡ₚ l) /\ (forall m, is_order m (or_accounts oc.1 m)) /\
  match oc.2 with Generate fresh _ _ _ => fresh_ok fresh | _ => True end.

Definition as_store (m : accounts) (fs : FS) : Store (K := K) (FS := FS) :=
  {| st_keys := m; st_addresses := ∅; st_fs := fs |}.
(** The directory holds exactly the accounts [m], with different names. *)
Definition holds (fs : FS) (m : accounts) : Prop := on_disk (as_store m fs) /\ names_unique (as_store m fs).

Lemma on_disk_as_store (s : Store) m fs : st_keys s = m -> st_fs s = fs -> on_disk s <-> on_disk (as_store m fs).
Proof. by intros <- <-. Qed.

Lemma with_manager_holds o fs m :
  (forall l, or_signers o l ≡ₚ l) -> holds fs m ->
  exists s, NewManager (or_signers o) fs = Ok s /\ st_keys s = m /\ st_fs s = fs /\ on_disk s.
Proof.
  intros Ho [Hd _]. destruct (NewStore_on_disk (or_signers o) _ Ho Hd) as (s & Hs & Hk & Hf & Hd' & _).
  exists s. cbn in *. unfold NewManager. by rewrite Hs.
Qed.

Lemma create_unsaved fresh name comment (s s' : Store (K := K) (FS := FS)) a :
  create_new fresh name comment false s = (s', Ok a) ->
  st_fs s' = st_fs s /\ sa_Name a = name /\ sa_Comment a = comment.
Proof.
  unfold create_new. intros Hc. apply io_bind_inv in Hc as (s1 & b & Hb & Hc). injection Hb as <- Hb.
  injection Hc as <- <-. split; [done|]. unfold new_account in Hb. res_inv. case_match. res_inv. done.
Qed.

Lemma create_saved fresh name comment (s s' : Store (K := K) (FS := FS)) a :
  on_disk s -> fresh_ok fresh -> create_new fresh name comment true s = (s', Ok a) -> sa_Comment a = comment.
Proof.
  unfold create_new. intros _ _ Hc. apply io_bind_inv in Hc as (s1 & b & Hb & Hc). injection Hb as <- Hb.
  apply io_bind_inv in Hc as (s2 & c & Hs%io_wrap_inv & Hc). injection Hc as <- <-.
  assert (sa_Comment b = comment) as <-.
  { unfold new_account in Hb. res_inv. case_match. res_inv. done. }
  unfold Save in Hs. repeat apply io_bind_inv in Hs as (? & ? & ? & Hs). by injection Hs as _ <-.
Qed.

(** [create_new] with the accounts of [m] on disk and no account of that name. *)
Lemma create_new_holds fresh name comment save (s s' : Store (K := K) (FS := FS)) a :
  on_disk s -> fresh_ok fresh -> (forall p b, st_keys s !! p = Some b -> sa_Name b <> name) ->
  names_unique s -> create_new fresh name comment save s = (s', Ok a) ->
  sa_Name a = name /\ sa_Comment a = comment /\
  holds (st_fs s') (if save then <[sa_PeerID a := a]> (st_keys s) else st_keys s).
Proof.
  intros Hd Hf Hfree Hn Hc. destruct save.
  - pose proof (create_saved _ _ _ _ _ _ Hd Hf Hc) as Hcomment.
    destruct (create_new_keeps _ _ _ _ _ _ Hd Hf Hc) as (Hd' & Hname & Hk & _).
    do 2 (split; [done|]). split; [by rewrite <- Hk|].
    intros p q b c. cbn. intros [[<- <-]|[? Hp]]%lookup_insert_Some [[<- <-]|[? Hq]]%lookup_insert_Some Hs;
      [done|..].
    + destruct (Hfree q c); [done|congruence].
    + destruct (Hfree p b); [done|congruence].
    + eauto.
  - destruct (create_unsaved _ _ _ _ _ _ Hc) as (-> & ? & ?). done.
Qed.

Lemma generate_refines o fresh name comment save fs fs' out r m :
  command_ok (o, Generate fresh name comment save) -> holds fs m ->
  keystore_generate o fresh name comment save fs = (fs', out, r) -> r = Ok tt \/ fs' = fs ->
  exists m', directory_step m (Generate fresh name comment save) out r m' /\ holds fs' m'.
Proof.
  intros (Ho & Hord & Hf) Hm Hrun Hclean. cbn in Ho, Hord, Hf.
  destruct (with_manager_holds o fs m Ho Hm) as (s & Hs & <- & <- & Hd).
  unfold keystore_generate, with_manager in Hrun. rewrite Hs in Hrun. unfold Manager_Create, io_wrap in Hrun.
  cbn [directory_step].
  destruct (Create_cases (or_accounts o (st_keys s)) fresh name comment save s)
    as [(p & a & Hp & Hna & He)|[Hfree He]]; rewrite He in Hrun.
  - injection Hrun as <- <- <-. exists (st_keys s). split; [left; eauto 10|done].
  - assert (forall p a, st_keys s !! p = Some a -> sa_Name a <> name) as Hfree'.
    { intros p a Hp. apply (Hfree p a); [|done]. rewrite (is_order_elem _ _ _ (Hord _)). eauto. }
    destruct (create_new fresh name comment save s) as [s' [a|e|]] eqn:Ec; injection Hrun as <- <- <-.
    + destruct (create_new_holds _ _ _ _ _ _ _ Hd Hf Hfree' (proj2 Hm) Ec) as (Hn & Hc & Hm').
      eexists. split; [right; split; [done|left; exists a; eauto]|done].
    + destruct Hclean as [|Hfs]; [done|]. exists (st_keys s). rewrite Hfs. split; [|done].
      right. split; [done|by right].
    + destruct Hclean as [|Hfs]; [done|]. exists (st_keys s). rewrite Hfs. split; [|done].
      right. split; [done|by right].
Qed.

Lemma list_refines o fs fs' out r m :
  command_ok (o, ListIdentities) -> holds fs m -> keystore_list o fs = (fs', out, r) ->
  exists m', directory_step m ListIdentities out r m' /\ holds fs' m'.
Proof.
  intros (Ho & Hord & _) Hm Hrun. cbn in Ho, Hord.
  destruct (with_manager_holds o fs m Ho Hm) as (s & Hs & <- & <- & Hd).
  unfold keystore_list, with_manager in Hrun. rewrite Hs in Hrun. unfold Manager_List, List in Hrun.
  pose proof (is_order_values _ _ (Hord (st_keys s))) as Hv.
  set (dids := omap _ _) in *. exists (st_keys s). cbn [wrap] in Hrun.
  assert (st_keys s = ∅ <-> dids = []) as Hempty.
  { rewrite <- (map_to_list_empty_iff (st_keys s)). split.
    - intros He. apply Permutation_nil. by rewrite Hv, He.
    - intros He. rewrite He in Hv. apply Permutation_nil in Hv. by apply fmap_nil_inv in Hv. }
  destruct dids as [|did dids].
  - injection Hrun as <- <- <-. split; [|done]. split; [done|]. split; [done|]. left. split; [by apply Hempty|done].
  - injection Hrun as <- <- <-. split; [|done]. split; [done|]. split; [done|]. right.
    split; [by intros ?%Hempty|]. eexists. split; [done|].
    change (map (fun did : account => (sa_ID did, sa_Name did, sa_PeerID did)) (did :: dids) ≡ₚ
            map (fun e : PeerID * account => (sa_ID e.2, sa_Name e.2, sa_PeerID e.2)) (map_to_list (st_keys s))).
    rewrite Hv, <- map_map with (f := snd) (g := fun did : account => (sa_ID did, sa_Name did, sa_PeerID did)).
    done.
Qed.

Lemma get_refines o peer_id fs fs' out r m :
  command_ok (o, GetIdentity peer_id) -> holds fs m -> keystore_get o peer_id fs = (fs', out, r) ->
  exists m', directory_step m (GetIdentity peer_id) out r m' /\ holds fs' m'.
Proof.
  intros (Ho & _ & _) Hm Hrun. cbn in Ho.
  destruct (with_manager_holds o fs m Ho Hm) as (s & Hs & <- & <- & Hd).
  unfold keystore_get, with_manager in Hrun. rewrite Hs in Hrun. exists (st_keys s). cbn [directory_step].
  destruct (peer_Decode peer_id) as [p|e|]; cbn in Hrun; [|by injection Hrun as <- <- <-..].
  unfold Manager_GetByPeerID, GetByPeerID in Hrun.
  destruct (st_keys s !! p) as [a|]; cbn in Hrun; by injection Hrun as <- <- <-.
Qed.

Lemma delete_refines o peer_id force response fs fs' out r m :
  command_ok (o, DeleteIdentity peer_id force response) -> holds fs m ->
  keystore_delete o peer_id force response fs = (fs', out, r) -> r = Ok tt \/ fs' = fs ->
  exists m', directory_step m (DeleteIdentity peer_id force response) out r m' /\ holds fs' m'.
Proof.
  intros (Ho & _ & _) Hm Hrun Hclean. cbn in Ho.
  destruct (with_manager_holds o fs m Ho Hm) as (s & Hs & <- & <- & Hd).
  unfold keystore_delete, with_manager in Hrun. rewrite Hs in Hrun. cbn [directory_step].
  destruct (peer_Decode peer_id) as [p|e|]; [|exists (st_keys s); by injection Hrun as <- <- <-..].
  replace (negb force && negb (confirmed response)) with (negb (force || confirmed response)) in Hrun
    by (by destruct force, (confirmed response)).
  destruct (force || confirmed response) eqn:Hyes; cbn [negb] in Hrun.
  2:{ exists (st_keys s). injection Hrun as <- <- <-. split; [|done].
      apply orb_false_iff in Hyes as [-> _]. done. }
  unfold Manager_Delete, io_wrap in Hrun.
  destruct (Delete p s) as [s' [[]|e|]] eqn:Edel; injection Hrun as <- <- <-.
  - destruct (Delete_on_disk _ _ _ Hd Edel) as (Hk & _ & Hd'). exists (delete p (st_keys s)). split.
    + left. split; [done|]. split; [|by destruct force]. unfold Delete in Edel. by destruct (st_keys s !! p).
    + split; [by rewrite <- Hk|]. intros q t b c. cbn.
      intros [_ Hq]%lookup_delete_Some [_ Ht]%lookup_delete_Some. by apply (proj2 Hm).
  - destruct Hclean as [|Hfs]; [done|]. exists (st_keys s). rewrite Hfs. split; [by right|done].
  - destruct Hclean as [|Hfs]; [done|]. exists (st_keys s). rewrite Hfs. split; [by right|done].
Qed.

Lemma keystore_refines o c fs fs' out r m :
  command_ok (o, c) -> holds fs m -> keystore o c fs = (fs', out, r) -> r = Ok tt \/ fs' = fs ->
  exists m', directory_step m c out r m' /\ holds fs' m'.
Proof.
  destruct c; cbn [keystore];
    eauto using generate_refines, list_refines, get_refines, delete_refines.
Qed.

(** C25: The keystore commands refine a directory of accounts: a session of
    commands, each a new process that opens the directory again, prints and
    returns exactly what the same commands do to a map from peers to accounts,
    and ends with a directory that holds that map.  Generating under a name
    that is taken changes nothing and prints the old account, without [--save]
    nothing is stored, listing prints every account once, getting prints the
    account with that peer, and deleting removes that account and only if it is
    forced or confirmed with y or Y: it asks unless it is forced, and says that
    the account is deleted exactly when it is.  The session is [clean]: a
    command that fails leaves the files as they were, which is not so of a
    write that stops in the middle. *)
Theorem keystore_refines_directory cs fs m :
  Forall command_ok cs -> holds fs m -> clean fs cs ->
  exists m', directory_run m cs (sessions fs cs).2 m' /\ holds (sessions fs cs).1 m'.
Proof.
  intros Hcs. revert fs m. induction Hcs as [|[o c] cs Hc _ IH]; intros fs m Hm Hclean.
  { by exists m. }
  cbn in *. destruct (keystore o c fs) as [[fs1 out] r] eqn:E. destruct Hclean as [Hone Hclean].
  destruct (keystore_refines _ _ _ _ _ _ _ Hc Hm E Hone) as (m1 & Hs & Hm1).
  destruct (IH fs1 m1 Hm1 Hclean) as (m' & Hr & Hm').
  destruct (sessions fs1 cs) as [fs2 outs]. exists m'. split; [by exists m1|done].
Qed.
End Keystore.

(** * An example *)
Import MemoryFS Sha256.
Definition toy_orders : Orders (K := Pair bytes bytes bytes bytes) := {| or_signers := id; or_accounts m := (map_to_list m).*1 |}.
Definition alice_peer : bytes := hex_encode (Sum256 (repeat (byte_of_Z 1) 64)).
Definition session_example : list (Orders (K := Pair bytes bytes bytes bytes) * keystore_command) :=
  (fun c => (toy_orders, c)) <$>
    [ListIdentities; Generate (toy_fresh 1) "alice" "first" true; Generate (toy_fresh 2) "alice" "second" true;
     Generate (toy_fresh 2) "bob" EmptyString false; GetIdentity alice_peer;
     DeleteIdentity alice_peer false (str "n"); DeleteIdentity alice_peer true []; GetIdentity alice_peer].
Definition session_results : list (list output * res unit) := (sessions (FS := gmap bytes bytes) Ok ∅ session_example).2.

Lemma session_commands_ok : Forall command_ok session_example.
Proof.
  repeat (apply Forall_cons; split); [..|by apply Forall_nil];
    (split; [done|split; [intros m; apply is_order_exists|]]); try done; apply toy_fresh_ok.
Qed.

Lemma keystore_refines_directory_witness :
  map (fun o => is_ok o.2) session_results = [true; true; true; true; true; true; true; false] /\
  exists m', directory_run Ok ∅ session_example session_results m'.
Proof.
  split; [by vm_compute|].
  destruct (keystore_refines_directory Ok session_example (∅ : gmap bytes bytes) ∅) as (m' & Hr & _).
  - apply session_commands_ok.
  - split; [split; cbn|].
    + intros p a. by rewrite lookup_empty.
    + intros f [? Hf]. by rewrite lookup_empty in Hf.
    + intros p q a b. cbn. by rewrite lookup_empty.
  - refine (cleanb_clean _ _ _ _). by vm_compute.
  - by exists m'.
Defined.
