(* ===== verification/Telemetry.v ===== *)
(** [pkg/logger] and [pkg/observability]: the logger of the process and how it is
    chosen, the providers of metrics and traces.

    zap and OpenTelemetry are libraries: [Zap] and [Otel] have the calls that can
    fail.  What the code sets up of them is data, and the variables of the two
    packages and of [otel] are the state. *)
From Stdlib Require Import Strings.Byte Strings.String.
From Stdlib Require Import Floats.SpecFloat.
From S2P Require Import Prelude Bytes Validators.

(** * [strings.ToLower]
    ASCII letters, and the two other runes that have an ASCII letter for lower
    case, the dotted capital I and the Kelvin sign.  The remaining runes have lower
    cases beyond ASCII, which the comparisons below do not tell apart. *)
Definition lower (c : Byte.byte) : Byte.byte :=
  let z := Z_of_byte c in if (65 <=? z) && (z <=? 90) then byte_of_Z (z + 32) else c.
Fixpoint ToLower (s : bytes) : bytes :=
  match s with
  | xc4 :: xb0 :: s => x69 :: ToLower s
  | xe2 :: x84 :: xaa :: s => x6b :: ToLower s
  | c :: s => lower c :: ToLower s
  | [] => []
  end.

(** * pkg/logger *)
Record LoggerConfig := { log_Enabled : bool; log_Environment : bytes; log_Level : bytes }.
Inductive Environment := Production | Development.
Inductive Level := DebugLevel | InfoLevel | WarnLevel | ErrorLevel.
#[export] Instance Environment_eq_dec : EqDecision Environment.
Proof. solve_decision. Defined.
#[export] Instance Level_eq_dec : EqDecision Level.
Proof. solve_decision. Defined.

(** The interface [Logger] and its two implementations; [S] is a logger of zap. *)
Inductive Logger (S : Type) := noOpLogger | ZapLogger (sugaredLogger : S).
Arguments noOpLogger {S}.
Arguments ZapLogger {S} _.
Definition NewNoOpLogger {S} : Logger S := noOpLogger.
(** [Fatal]: a logger of zap ends the process after it has logged, the other one
    does nothing and the caller goes on. *)
Definition Fatal_ends {S} (l : Logger S) : bool := match l with ZapLogger _ => true | noOpLogger => false end.

(** [EINVAL] is [syscall.EINVAL]. *)
Definition EINVAL : error := ErrMsg "invalid argument".
Class Zap (S : Type) := {
  Build : Environment -> Level -> res S;
  zap_Sync : S -> option error;
}.

Definition environment_of (s : bytes) : option Environment :=
  if decide (ToLower s = str "production") then Some Production
  else if decide (ToLower s = str "development") then Some Development
  else None.
Definition level_of (s : bytes) : option Level :=
  let level := ToLower s in
  if decide (level = str "debug") then Some DebugLevel
  else if decide (level = str "info") then Some InfoLevel
  else if decide (level = str "warn") then Some WarnLevel
  else if decide (level = str "error") then Some ErrorLevel
  else None.

Section Logging.
Context {S : Type} `{Zap S}.

Definition NewZapLogger (cfg : LoggerConfig) : res (Logger S) :=
  match environment_of (log_Environment cfg) with
  | None => Err (ErrMsg "invalid environment; must be 'production' or 'development'")
  | Some env =>
      match level_of (log_Level cfg) with
      | None => Err (ErrMsg "invalid log level; must be 'debug', 'info', 'warn', or 'error'")
      | Some level => ZapLogger <$> Build env level
      end
  end.
Definition Factory (cfg : LoggerConfig) : res (Logger S) :=
  if negb (log_Enabled cfg) then Ok NewNoOpLogger
  else
    match environment_of (log_Environment cfg) with
    | Some _ => NewZapLogger cfg
    | None => Err (ErrMsg "unsupported environment for logger")
    end.

(** The variable [globalLogger]. *)
Definition SetGlobalLogger (l : Logger S) : io (option (Logger S)) unit := fun _ => (Some l, Ok tt).
Definition logger_G (globalLogger : option (Logger S)) : Logger S := default NewNoOpLogger globalLogger.
Definition InitializeGlobalLogger (cfg : LoggerConfig) : io (option (Logger S)) (Logger S) :=
  l ← io_lift (Factory cfg); _ ← SetGlobalLogger l; mret l.
Definition Sync (globalLogger : option (Logger S)) : option error :=
  match globalLogger with
  | Some (ZapLogger sugaredLogger) =>
      match zap_Sync sugaredLogger with
      | Some err => if errors_is err EINVAL then None else Some err
      | None => None
      end
  | _ => None
  end.

(** The logger that a configuration asks for, and when it is a valid one. *)
Definition logger_valid (cfg : LoggerConfig) : Prop :=
  log_Enabled cfg = false \/
  exists env level, environment_of (log_Environment cfg) = Some env /\ level_of (log_Level cfg) = Some level /\
    is_ok (Build env level) = true.

(** The initialization succeeds exactly with a valid configuration; then the
    process logs with the logger of zap for the environment and the level, or with
    none if logging is disabled, and [Fatal] ends the process just in the first
    case.  Otherwise the logger the process had before stays. *)
Theorem InitializeGlobalLogger_spec (cfg : LoggerConfig) (g : option (Logger S)) :
  no_panic (Factory cfg) ->
  match InitializeGlobalLogger cfg g with
  | (g', Ok l) => logger_valid cfg /\ g' = Some l /\ logger_G g' = l /\ Fatal_ends l = log_Enabled cfg /\
      (log_Enabled cfg = true -> exists env level s,
         environment_of (log_Environment cfg) = Some env /\ level_of (log_Level cfg) = Some level /\
         Build env level = Ok s /\ l = ZapLogger s)
  | (g', _) => ~ logger_valid cfg /\ g' = g
  end.
Proof.
  unfold InitializeGlobalLogger, logger_valid, no_panic, Factory, NewZapLogger. cbv [mbind io_bind io_lift].
  destruct (log_Enabled cfg) eqn:He; cbn; [|by intros _; split; [left|]].
  destruct (environment_of _) as [env|] eqn:E1; cbn; [|intros _; split; [naive_solver|done]].
  destruct (level_of _) as [level|] eqn:E2; cbn; [|intros _; split; [naive_solver|done]].
  destruct (Build env level) as [s|e|] eqn:E3; cbn; intros Hp; [|split; [|done]|done].
  - split; [right; exists env, level; by rewrite E3|]. eauto 10.
  - intros [?|(env' & level' & [= <-] & [= <-] & Hb)]; [done|]. by rewrite E3 in Hb.
Qed.
End Logging.

(** * pkg/observability *)
Definition ServiceName : string := "peerdns".
(** Without the fields that nothing reads: [Exporter], [SampleRate] and the interval
    of the traces. *)
Record MetricsConfig := {
  mcfg_Enable : bool; mcfg_Endpoint : bytes; mcfg_Headers : gmap bytes bytes; mcfg_ExportInterval : Z }.
Record TracingConfig := {
  tcfg_Enable : bool; tcfg_Endpoint : bytes; tcfg_Headers : gmap bytes bytes;
  tcfg_Sampler : bytes; tcfg_SamplingRate : float64 }.
Record ObservabilityConfig := { obs_Metrics : MetricsConfig; obs_Tracing : TracingConfig }.

(** The library: exporters [X] and resources [R], each made by a call that can
    fail, the instrument [C] of a meter, and the shutdown of a provider. *)
Class Otel (X R C : Type) := {
  otlpmetric_New : bytes -> gmap bytes bytes -> res X;
  otlptrace_New : bytes -> gmap bytes bytes -> res X;
  resource_New : string -> res R;
  Int64Counter : string -> string -> option C * option error;
  provider_Shutdown : X -> R -> option error;
}.

Inductive Sampler := AlwaysSample | TraceIDRatioBased (rate : float64).
Section Providers.
Context {X R C : Type}.
Record MeterProvider := { mp_resource : R; mp_reader : X; mp_interval : Z }.
Record TracerProvider := { tp_batcher : X; tp_sampler : Sampler; tp_resource : R }.

(** [otel.Meter(name)] and [otel.Tracer(name)] are known by their names; the logger
    and the constant name of the service are left out. *)
Record Observability := { Meter : string; Tracer : string; obs_TracerProvider : option TracerProvider }.
Record SpanEvent := { span_service_type : bytes; span_previous_state : bytes; span_new_state : bytes }.

(** The variables of the package, the providers [otel] has, and what was given to
    the instrument and to the tracer. *)
Record Telemetry := {
  ServiceStateCounter : option C;
  otel_MeterProvider : option MeterProvider;
  otel_TracerProvider : option TracerProvider;
  obs_global : option Observability;
  t_counts : list (bytes * bytes);
  t_spans : list SpanEvent;
}.
Definition zero_Telemetry : Telemetry :=
  {| ServiceStateCounter := None; otel_MeterProvider := None; otel_TracerProvider := None;
     obs_global := None; t_counts := []; t_spans := [] |}.
Definition SetMeterProvider (mp : MeterProvider) : io Telemetry unit := fun t =>
  ({| ServiceStateCounter := ServiceStateCounter t; otel_MeterProvider := Some mp;
      otel_TracerProvider := otel_TracerProvider t; obs_global := obs_global t;
      t_counts := t_counts t; t_spans := t_spans t |}, Ok tt).
Definition SetTracerProvider (tp : TracerProvider) : io Telemetry unit := fun t =>
  ({| ServiceStateCounter := ServiceStateCounter t; otel_MeterProvider := otel_MeterProvider t;
      otel_TracerProvider := Some tp; obs_global := obs_global t;
      t_counts := t_counts t; t_spans := t_spans t |}, Ok tt).
Definition set_counter (c : option C) : io Telemetry unit := fun t =>
  ({| ServiceStateCounter := c; otel_MeterProvider := otel_MeterProvider t;
      otel_TracerProvider := otel_TracerProvider t; obs_global := obs_global t;
      t_counts := t_counts t; t_spans := t_spans t |}, Ok tt).
Definition set_obs (obs : Observability) : io Telemetry unit := fun t =>
  ({| ServiceStateCounter := ServiceStateCounter t; otel_MeterProvider := otel_MeterProvider t;
      otel_TracerProvider := otel_TracerProvider t; obs_global := Some obs;
      t_counts := t_counts t; t_spans := t_spans t |}, Ok tt).

Context `{Otel X R C}.

Definition InitMetrics (cfg : MetricsConfig) : io Telemetry string :=
  if negb (mcfg_Enable cfg) then mret "disabled"%string
  else
    exporter ← io_lift (otlpmetric_New (mcfg_Endpoint cfg) (mcfg_Headers cfg));
    res ← io_lift (resource_New ServiceName);
    _ ← SetMeterProvider {| mp_resource := res; mp_reader := exporter; mp_interval := mcfg_ExportInterval cfg |};
    let '(counter, err) := Int64Counter ServiceName "service_state_changes" in
    _ ← set_counter counter;
    match err with None => mret ServiceName | Some err => io_lift (Err err) end.
Definition InitializeMetricsInObservability (meter : string) : io Telemetry unit := mret tt.

Definition sampler_of (cfg : TracingConfig) : Sampler :=
  if decide (tcfg_Sampler cfg = str "always_on") then AlwaysSample
  else if decide (tcfg_Sampler cfg = str "probability") then TraceIDRatioBased (tcfg_SamplingRate cfg)
  else AlwaysSample.
Definition InitTracer (cfg : TracingConfig) : io Telemetry (string * option TracerProvider) :=
  if negb (tcfg_Enable cfg) then mret ("disabled"%string, None)
  else
    exporter ← io_lift (otlptrace_New (tcfg_Endpoint cfg) (tcfg_Headers cfg));
    res ← io_lift (resource_New ServiceName);
    let tp := {| tp_batcher := exporter; tp_sampler := sampler_of cfg; tp_resource := res |} in
    _ ← SetTracerProvider tp;
    mret (ServiceName, Some tp).

Definition New (cfg : ObservabilityConfig) : io Telemetry Observability :=
  meter ← (if mcfg_Enable (obs_Metrics cfg) then
             meter ← InitMetrics (obs_Metrics cfg);
             _ ← InitializeMetricsInObservability meter;
             mret meter
           else mret "disabled"%string);
  tracer ← (if tcfg_Enable (obs_Tracing cfg) then InitTracer (obs_Tracing cfg)
            else mret ("disabled"%string, None));
  mret {| Meter := meter; Tracer := tracer.1; obs_TracerProvider := tracer.2 |}.
Definition Initialize (cfg : ObservabilityConfig) : io Telemetry Observability :=
  obs ← New cfg; _ ← set_obs obs; mret obs.
Definition obs_G (t : Telemetry) : option Observability := obs_global t.

(** A nil [*Observability] may record, not emit. *)
Definition RecordServiceStateChange (o : option Observability) (serviceType state : bytes) : io Telemetry unit :=
  fun t =>
  match ServiceStateCounter t with
  | Some _ =>
      ({| ServiceStateCounter := ServiceStateCounter t; otel_MeterProvider := otel_MeterProvider t;
          otel_TracerProvider := otel_TracerProvider t; obs_global := obs_global t;
          t_counts := t_counts t ++ [(serviceType, state)]; t_spans := t_spans t |}, Ok tt)
  | None => (t, Ok tt)
  end.
Definition EmitServiceStateChangeTrace (o : option Observability) (serviceType previousState newState : bytes) :
    io Telemetry unit := fun t =>
  match o with
  | Some _ =>
      ({| ServiceStateCounter := ServiceStateCounter t; otel_MeterProvider := otel_MeterProvider t;
          otel_TracerProvider := otel_TracerProvider t; obs_global := obs_global t; t_counts := t_counts t;
          t_spans := t_spans t ++ [{| span_service_type := serviceType; span_previous_state := previousState;
                                      span_new_state := newState |}] |}, Ok tt)
  | None => (t, Panic)
  end.
(** [Shutdown]: the exporters that are closed and the error. *)
Definition Shutdown (o : Observability) : list X * option error :=
  match obs_TracerProvider o with
  | Some tp => ([tp_batcher tp], provider_Shutdown (tp_batcher tp) (tp_resource tp))
  | None => ([], None)
  end.

(** ** What is installed *)
(** The exporters that [otel] sends to. *)
Definition exporting (t : Telemetry) : list X :=
  option_list (mp_reader <$> otel_MeterProvider t) ++ option_list (tp_batcher <$> otel_TracerProvider t).

(** With both sections disabled nothing is called or installed and a shutdown does
    nothing.  A success installs a provider for each enabled section, set up as the
    section says, and the counter of state changes if the library made one.  A
    failure leaves the object of the process as it was, but a provider of metrics
    that was installed before it stays; and what [Shutdown] closes is the exporter of
    the traces alone, never that of the metrics. *)
Theorem Initialize_spec (cfg : ObservabilityConfig) :
  let m := obs_Metrics cfg in
  let tr := obs_Tracing cfg in
  match Initialize cfg zero_Telemetry with
  | (t, Ok obs) =>
      obs_G t = Some obs /\
      Meter obs = (if mcfg_Enable m then ServiceName else "disabled"%string) /\
      Tracer obs = (if tcfg_Enable tr then ServiceName else "disabled"%string) /\
      (is_Some (otel_MeterProvider t) <-> mcfg_Enable m = true) /\
      (forall mp, otel_MeterProvider t = Some mp ->
         otlpmetric_New (mcfg_Endpoint m) (mcfg_Headers m) = Ok (mp_reader mp) /\ mp_interval mp = mcfg_ExportInterval m) /\
      ServiceStateCounter t = (if mcfg_Enable m then (Int64Counter (Otel := H) ServiceName "service_state_changes").1 else None) /\
      otel_TracerProvider t = obs_TracerProvider obs /\ (is_Some (obs_TracerProvider obs) <-> tcfg_Enable tr = true) /\
      (forall tp, otel_TracerProvider t = Some tp ->
         otlptrace_New (tcfg_Endpoint tr) (tcfg_Headers tr) = Ok (tp_batcher tp) /\ tp_sampler tp = sampler_of tr) /\
      exporting t = option_list (mp_reader <$> otel_MeterProvider t) ++ (Shutdown obs).1
  | (t, _) =>
      obs_G t = None /\ otel_TracerProvider t = None /\
      (is_Some (otel_MeterProvider t) <->
         mcfg_Enable m = true /\ is_ok (otlpmetric_New (mcfg_Endpoint m) (mcfg_Headers m)) = true /\
         is_ok (resource_New ServiceName) = true) /\
      (mcfg_Enable m = true \/ tcfg_Enable tr = true)
  end.
Proof.
  cbv zeta. unfold Initialize, New, InitMetrics, InitTracer, InitializeMetricsInObservability, Shutdown, exporting, obs_G.
  cbv [mbind io_bind mret io_ret io_lift SetMeterProvider SetTracerProvider set_obs set_counter].
  destruct (mcfg_Enable _) eqn:Em; cbn.
  - destruct (otlpmetric_New _ _) as [x|e|] eqn:E1; cbn; try by (rewrite is_Some_alt; naive_solver).
    destruct (resource_New _) as [r|e|] eqn:E2; cbn; try by (rewrite is_Some_alt; naive_solver).
    destruct (Int64Counter _ _) as [c [e|]] eqn:E3; cbn; [naive_solver|].
    destruct (tcfg_Enable _) eqn:Et; cbn; [|naive_solver].
    destruct (otlptrace_New _ _) as [y|e|] eqn:E4; cbn; rewrite ?E2; cbn; naive_solver.
  - destruct (tcfg_Enable _) eqn:Et; cbn; [|naive_solver].
    destruct (otlptrace_New _ _) as [y|e|] eqn:E4; cbn; try by (rewrite is_Some_alt; naive_solver).
    destruct (resource_New _) as [r|e|] eqn:E2; cbn; try (rewrite is_Some_alt); naive_solver.
Qed.

(** A change of state is counted once after metrics were set up, with or without
    the object of the process, and not at all otherwise. *)
Lemma state_change_counted o t ty st :
  RecordServiceStateChange o ty st t =
    (t, Ok tt) /\ ServiceStateCounter t = None \/
  is_Some (ServiceStateCounter t) /\ exists t', RecordServiceStateChange o ty st t = (t', Ok tt) /\
    t_counts t' = t_counts t ++ [(ty, st)] /\ ServiceStateCounter t' = ServiceStateCounter t.
Proof. unfold RecordServiceStateChange. destruct (ServiceStateCounter t) as [c|] eqn:E; [right|by left]. split; [done|]. eauto. Qed.
End Providers.
Arguments Telemetry : clear implicits.
Arguments Observability : clear implicits.

(** * An example *)
(** The exporter of the traces cannot be made: the process has no observability, and
    the metrics go on being exported. *)
#[local] Instance no_traces : Otel string unit unit := {
  otlpmetric_New _ _ := Ok "metrics"%string;
  otlptrace_New _ _ := Err (ErrMsg "no endpoint");
  resource_New _ := Ok tt;
  Int64Counter _ _ := (Some tt, None);
  provider_Shutdown _ _ := None;
}.
Definition both_enabled : ObservabilityConfig :=
  {| obs_Metrics := {| mcfg_Enable := true; mcfg_Endpoint := []; mcfg_Headers := ∅; mcfg_ExportInterval := 5 |};
     obs_Tracing := {| tcfg_Enable := true; tcfg_Endpoint := []; tcfg_Headers := ∅;
                       tcfg_Sampler := str "always_on"; tcfg_SamplingRate := f_zero |} |}.
Example metrics_left : exists t, Initialize both_enabled zero_Telemetry = (t, Err (ErrMsg "no endpoint")) /\
  obs_G t = None /\ exporting t = ["metrics"%string] /\
  (RecordServiceStateChange None (str "node") (str "Started") t).1.(t_counts) = [(str "node", str "Started")] /\
  (EmitServiceStateChangeTrace None (str "node") [] (str "Started") t).2 = Panic.
Proof. eexists. split; [by vm_compute|]. by vm_compute. Qed.

(** The two runes whose lower case is an ASCII letter. *)
Example lower_case_names :
  level_of [xc4; xb0; x4e; x46; x4f] = Some InfoLevel /\ environment_of (str "PRODUCTION") = Some Production /\
  level_of (str "warning") = None.
Proof. by vm_compute. Qed.
