(* ===== verification/Services.v ===== *)
(** [services/*] and the [run] command of [cmd/runtime.go]: the seven services,
    their entry points, the base service, and the runtime of [Runtime.v] with
    exactly these services.

    The services use the node through the interface [NodeLib]; [PeerNode.v]
    implements it.  The world of the services is the node the chain service
    created and the global resources.  Five of the services only log. *)
From S2P Require Import Prelude Bytes StateManager Runtime ValidatorNode PeerNode Telemetry.
From S2P Require Import Storage Validators Consensus GraphStore Ledger Chain Accounts Signatures.

(** * What the services use of the node *)
(** A [node_Start] that fails has not started the node; the consensus service
    starts the validator of a node, which does not change the node's state. *)
Class NodeLib (N : Type) := {
  node_Start : N -> N * option error;
  node_StartValidator : N -> N * option error;
  node_Shutdown : N -> N * option error;
  node_started : N -> bool;
}.
Class NodeLaws (N : Type) `{NodeLib N} := {
  node_Start_Ok n n' : node_Start n = (n', None) -> node_started n' = true;
  node_Start_Err n n' e : node_started n = false -> node_Start n = (n', Some e) -> node_started n' = false;
  node_StartValidator_state n : node_started (node_StartValidator n).1 = node_started n;
}.

Inductive resource := RStorage | RIdentity | RObservability | RNode.
Inductive Service := ChainService | ConsensusService | DNSService | GatewayService | HealthService
  | RouterService | SequencerService.
#[export] Instance Service_eq_dec : EqDecision Service.
Proof. solve_decision. Defined.

Definition SequencerServiceType : ServiceType := "sequencer".
Definition DNSServiceType : ServiceType := "dns".
Definition RouterServiceType : ServiceType := "router".
Definition HealthServiceType : ServiceType := "health".
Definition GatewayServiceType : ServiceType := "gateway".

Definition NodeResource : string := "node".
Definition StorageResource : string := "storage".
Definition IdentityResource : string := "identity".
Definition ObservabilityResource : string := "observability".

Section Services.
Context {N : Type} `{NodeLib N}.

Record World := { w_node : option N; w_resources : Resources.Manager (Res := resource) }.
Definition set_node (w : World) (n : N) : World := {| w_node := Some n; w_resources := w_resources w |}.
Definition register (w : World) (ty : string) (r : resource) : World :=
  {| w_node := w_node w; w_resources := Resources.Register (w_resources w) ty r |}.

Local Abbreviation runtime := (Runtime (Svc := Service) (W := World)).

(** [AddShutdownCallback] of a handler, at the moment it gets the lock. *)
Definition add_callback (rt : runtime) (callback : World -> World * option error) : runtime :=
  {| rt_registry := rt_registry rt; rt_ssm := rt_ssm rt;
     rt_callbacks := rt_callbacks rt ++ [OtherCallback callback]; rt_phase := rt_phase rt;
     rt_cancelled := rt_cancelled rt; rt_world := rt_world rt; rt_events := rt_events rt |}.
Definition set_world (rt : runtime) (w : World) : runtime :=
  {| rt_registry := rt_registry rt; rt_ssm := rt_ssm rt; rt_callbacks := rt_callbacks rt;
     rt_phase := rt_phase rt; rt_cancelled := rt_cancelled rt; rt_world := w; rt_events := rt_events rt |}.

(** A method of the node; the services that have one were built after it. *)
Definition on_node (f : N -> N * option error) (w : World) : World * option error :=
  match w_node w with
  | Some n => let '(n, err) := f n in (set_node w n, err)
  | None => (w, None)
  end.

(** ** The services *)
(** [NewNode] is the outcome of [node.NewNode]. *)
Definition chain_NewService (NewNode : res N) (rt : runtime) : runtime * res Service :=
  match NewNode with
  | Ok dNode =>
      let rt := set_world rt (set_node (rt_world rt) dNode) in
      let rt := add_callback rt (on_node node_Shutdown) in
      (set_world rt (register (rt_world rt) NodeResource RNode), Ok ChainService)
  | Err dnErr => (rt, Err (ErrWrap "failed to initialize node" dnErr))
  | Panic => (rt, Panic)
  end.

(** The two goroutines: [dNode.Start] and the wait for its state; [in_time] is
    whether the state was set before the timeout of the wait. *)
Definition chain_Start (in_time : bool) (w : World) : World * option error :=
  match w_node w with
  | None => (w, None)
  | Some dNode =>
      let '(dNode, startErr) := node_Start dNode in
      let stateErr := if in_time && node_started dNode then None
                      else Some (ErrMsg "service %s did not reach state %s within %v") in
      (set_node w dNode,
       match stateErr with
       | Some stateErr => Some (ErrWrap "failed to wait for node state to started state" stateErr)
       | None => startErr
       end)
  end.
Definition chain_Stop (w : World) : World * option error := (w, None).
Definition chain_ServiceHandler (NewNode : res N) : RegisterHandlerFn :=
  Runtime.ServiceHandler ChainServiceType "Failed to create new chain service" "Failed to register chain service"
    (chain_NewService NewNode).

Definition consensus_NewService (rt : runtime) : runtime * res Service := (rt, Ok ConsensusService).
(** The service waits for the chain service in the state [ssm] it returns in. *)
Definition consensus_Start (ssm : ServiceStates.Manager) (w : World) : World * option error :=
  if bool_decide (ServiceStates.Get ssm ChainServiceType = ServiceStates.Started) then
    match Resources.R (fun r => match r with RNode => Some tt | _ => None end) tt (Some (w_resources w)) NodeResource with
    | Ok (_, true) => on_node node_StartValidator w
    | _ => (w, Some (ErrMsg "failure to discover global node resource"))
    end
  else (w, Some (ErrWrap "Consensus service cannot be started because the chain service is not started"
                   (ErrMsg "service %s did not reach state %s within %v"))).
Definition consensus_Stop (w : World) : World * option error := (w, None).
Definition consensus_ServiceHandler : RegisterHandlerFn :=
  Runtime.ServiceHandler ConsensusServiceType "Failed to create new consensus service" "Failed to register consensus service"
    consensus_NewService.

(** The other five: an error group without goroutines. *)
Definition dns_NewService (rt : runtime) : runtime * res Service := (rt, Ok DNSService).
Definition dns_Start (w : World) : World * option error := (w, None).
Definition dns_Stop (w : World) : World * option error := (w, None).
Definition dns_ServiceHandler : RegisterHandlerFn :=
  Runtime.ServiceHandler DNSServiceType "Failed to create new DNS service" "Failed to register DNS service"
    dns_NewService.
Definition gateway_NewService (rt : runtime) : runtime * res Service := (rt, Ok GatewayService).
Definition gateway_Start (w : World) : World * option error := (w, None).
Definition gateway_Stop (w : World) : World * option error := (w, None).
Definition gateway_ServiceHandler : RegisterHandlerFn :=
  Runtime.ServiceHandler GatewayServiceType "Failed to create new gateway service" "Failed to register gateway service - already loaded"
    gateway_NewService.
Definition health_NewService (rt : runtime) : runtime * res Service := (rt, Ok HealthService).
Definition health_Start (w : World) : World * option error := (w, None).
Definition health_Stop (w : World) : World * option error := (w, None).
Definition health_ServiceHandler : RegisterHandlerFn :=
  Runtime.ServiceHandler HealthServiceType "Failed to create new health service" "Failed to register health service - already loaded"
    health_NewService.
Definition router_NewService (rt : runtime) : runtime * res Service := (rt, Ok RouterService).
Definition router_Start (w : World) : World * option error := (w, None).
Definition router_Stop (w : World) : World * option error := (w, None).
Definition router_ServiceHandler : RegisterHandlerFn :=
  Runtime.ServiceHandler RouterServiceType "Failed to create new Router service" "Failed to register Router service - already loaded"
    router_NewService.
Definition sequencer_NewService (rt : runtime) : runtime * res Service := (rt, Ok SequencerService).
Definition sequencer_Start (w : World) : World * option error := (w, None).
Definition sequencer_Stop (w : World) : World * option error := (w, None).
Definition sequencer_ServiceHandler : RegisterHandlerFn :=
  Runtime.ServiceHandler SequencerServiceType "Failed to create new sequencer service" "Failed to register sequencer service - already loaded"
    sequencer_NewService.

Definition service_Start (in_time : bool) (s : Service) (ssm : ServiceStates.Manager) (w : World) :
    World * option error :=
  match s with
  | ChainService => chain_Start in_time w
  | ConsensusService => consensus_Start ssm w
  | DNSService => dns_Start w
  | GatewayService => gateway_Start w
  | HealthService => health_Start w
  | RouterService => router_Start w
  | SequencerService => sequencer_Start w
  end.
Definition service_Stop (s : Service) (w : World) : World * option error :=
  match s with
  | ChainService => chain_Stop w
  | ConsensusService => consensus_Stop w
  | DNSService => dns_Stop w
  | GatewayService => gateway_Stop w
  | HealthService => health_Stop w
  | RouterService => router_Stop w
  | SequencerService => sequencer_Stop w
  end.

(** The [init] functions of the entry points: a registration that is refused is
    a panic. *)
Fixpoint register_all (handlers : gmap ServiceType (RegisterHandlerFn (Svc := Service) (W := World)))
    (l : list (ServiceType * RegisterHandlerFn (Svc := Service) (W := World))) :
    res (gmap ServiceType (RegisterHandlerFn (Svc := Service) (W := World))) :=
  match l with
  | [] => Ok handlers
  | (service, handler) :: l =>
      let '(handlers, loaded) := RegisterHandler handlers service handler in
      if loaded then register_all handlers l else Panic
  end.
(** In the order the imports of [cmd/runtime.go] are initialised. *)
Definition entry_points (NewNode : res N) : list (ServiceType * RegisterHandlerFn (Svc := Service) (W := World)) :=
  [(ChainServiceType, chain_ServiceHandler NewNode); (ConsensusServiceType, consensus_ServiceHandler);
   (DNSServiceType, dns_ServiceHandler); (GatewayServiceType, gateway_ServiceHandler);
   (HealthServiceType, health_ServiceHandler); (RouterServiceType, router_ServiceHandler);
   (SequencerServiceType, sequencer_ServiceHandler)].
Definition default_services : list ServiceType :=
  [ChainServiceType; ConsensusServiceType; RouterServiceType; DNSServiceType; HealthServiceType;
   GatewayServiceType; SequencerServiceType].

(** ** The base service *)
(** [storage] and [identity] are the outcomes of [storage.NewManager] and
    [accounts.NewManager]. *)
Definition NewBaseService (storage identity : res unit) (rt : runtime) : runtime * res unit :=
  match storage with
  | Ok _ =>
      let rt := set_world rt (register (rt_world rt) StorageResource RStorage) in
      match identity with
      | Ok _ =>
          let w := register (rt_world rt) IdentityResource RIdentity in
          (set_world rt (register w ObservabilityResource RObservability), Ok tt)
      | imErr => (rt, imErr)
      end
  | err => (rt, err)
  end.
(** The states of the services start anew. *)
Definition InitializeBaseService (storage identity : res unit) (rt : runtime) : runtime * res unit :=
  NewBaseService storage identity (with_ssm rt ServiceStates.New).

(** ** The command *)
(** How far [run] comes: the process ends, an error is returned, or it waits for
    the signal with its services starting, or with the error that already
    closed the channel of the signal. *)
Inductive run_outcome :=
| Fatal
| Returned_ (e : error)
| Crashed
| Running (g : Group (Svc := Service) (W := World))
| NotStarted (e : error).

(** [obs] is the outcome of [observability.Initialize]: its error ends the process
    if the logger does, and otherwise the services run without observability.
    [ord] is the order in which the handlers are called. *)
Definition runtime_run {S} (gLog : Logger S) (obs storage identity : res unit) (NewNode : res N) (ord : list ServiceType)
    (services : list ServiceType) : run_outcome :=
  let rt := {| rt_registry := ∅; rt_ssm := ServiceStates.New; rt_callbacks := []; rt_phase := Idle;
               rt_cancelled := false; rt_world := {| w_node := None; w_resources := Resources.NewManager |};
               rt_events := [] |} in
  match register_all ∅ (entry_points NewNode), obs with
  | Ok handlers, (Ok _ | Err _) =>
      if negb (is_ok obs) && Fatal_ends gLog then Fatal else
      match InitializeBaseService storage identity rt with
      | (_, Err bsErr) => Returned_ (ErrWrap "failure to initialize runtime base service" bsErr)
      | (_, Panic) => Crashed
      | (rt, Ok _) =>
          match InjectServices handlers ord rt with
          | (_, Err err) => Returned_ (ErrWrap "failure to inject runtime service dependencies" err)
          | (_, Panic) => Crashed
          | (rt, Ok _) =>
              match Runtime.Start services rt with
              | Ok g => Running g
              | Err err => NotStarted err
              | Panic => Crashed
              end
          end
      end
  | _, _ => Crashed
  end.

Context {L : Type} (gLog : Logger L).

(** * The handlers *)
Definition kind (t : ServiceType) : option Service :=
  if decide (t = ChainServiceType) then Some ChainService
  else if decide (t = ConsensusServiceType) then Some ConsensusService
  else if decide (t = DNSServiceType) then Some DNSService
  else if decide (t = GatewayServiceType) then Some GatewayService
  else if decide (t = HealthServiceType) then Some HealthService
  else if decide (t = RouterServiceType) then Some RouterService
  else if decide (t = SequencerServiceType) then Some SequencerService
  else None.
Lemma kind_Some t : is_Some (kind t) <-> t ∈ default_services.
Proof.
  unfold kind, default_services. split.
  - intros [s Hs]. repeat case_decide; subst; try set_solver.
  - intros Ht. repeat case_decide; try by eexists. exfalso. set_solver.
Qed.
Lemma kind_chain t : kind t = Some ChainService -> t = ChainServiceType.
Proof. unfold kind. by repeat case_decide. Qed.

Definition add_service (rt : runtime) (t : ServiceType) (s : Service) : runtime :=
  {| rt_registry := <[t := s]> (rt_registry rt); rt_ssm := rt_ssm rt; rt_callbacks := rt_callbacks rt;
     rt_phase := rt_phase rt; rt_cancelled := rt_cancelled rt; rt_world := rt_world rt;
     rt_events := rt_events rt |}.
(** What the chain service adds. *)
Definition with_node (rt : runtime) (n : N) : runtime :=
  add_callback (set_world rt (register (set_node (rt_world rt) n) NodeResource RNode)) (on_node node_Shutdown).
(** What the handler of a service makes of the runtime. *)
Definition handled (NewNode : res N) (t : ServiceType) (s : Service) (rt : runtime) : runtime * res unit :=
  if decide (t = ChainServiceType) then
    match NewNode with
    | Ok n => (add_service (with_node rt n) t s, Ok tt)
    | Err e => (rt, Err (ErrWrap "Failed to create new chain service" (ErrWrap "failed to initialize node" e)))
    | Panic => (rt, Panic)
    end
  else (add_service rt t s, Ok tt).

Lemma register_all_spec l : forall h : gmap ServiceType (RegisterHandlerFn (Svc := Service) (W := World)),
  NoDup l.*1 -> (forall t, t ∈ l.*1 -> h !! t = None) ->
  exists h', register_all h l = Ok h' /\ forall t f, h' !! t = Some f <-> h !! t = Some f \/ (t, f) ∈ l.
Proof.
  induction l as [|[t f] l IH]; intros h Hnd Hn; cbn in *.
  { exists h. split; [done|]. intros. set_solver. }
  apply NoDup_cons in Hnd as [Ht Hnd]. unfold RegisterHandler. rewrite Hn by left.
  destruct (IH (<[t := f]> h)) as (h' & -> & Hh'); [done| |].
  { intros t' Ht'. rewrite lookup_insert_ne by (by intros ->). apply Hn. by right. }
  exists h'. split; [done|]. intros t' f'. rewrite Hh', lookup_insert_Some, elem_of_cons.
  assert (h !! t = None) as Hnone by (apply Hn; left). naive_solver.
Qed.

Lemma entry_point_handled NewNode t f rt :
  (t, f) ∈ entry_points NewNode -> rt_registry rt !! t = None ->
  exists s, kind t = Some s /\ f rt = handled NewNode t s rt.
Proof.
  unfold entry_points, handled. rewrite !elem_of_cons. intros Hin Hn.
  repeat destruct Hin as [[= -> ->]|Hin]; try by apply not_elem_of_nil in Hin.
  all: eexists; (split; [reflexivity|]).
  { unfold chain_ServiceHandler, Runtime.ServiceHandler, chain_NewService, Register.
    destruct NewNode as [n|e|]; cbn; [|done..]. by rewrite Hn. }
  all: unfold consensus_ServiceHandler, dns_ServiceHandler, gateway_ServiceHandler, health_ServiceHandler,
    router_ServiceHandler, sequencer_ServiceHandler, Runtime.ServiceHandler, Register; cbn; by rewrite Hn.
Qed.

Lemma entry_points_handlers NewNode :
  exists handlers, register_all ∅ (entry_points NewNode) = Ok handlers /\
    forall t rt, rt_registry rt !! t = None ->
      match kind t with
      | Some s => exists f, handlers !! t = Some f /\ f rt = handled NewNode t s rt
      | None => handlers !! t = None
      end.
Proof.
  destruct (register_all_spec (entry_points NewNode) ∅) as (handlers & Hr & Hh).
  - cbn. refine (bool_decide_eq_true_1 _ _). by vm_compute.
  - intros t _. apply lookup_empty.
  - exists handlers. split; [done|]. intros t rt Hn. destruct (handlers !! t) as [f|] eqn:Ef.
    + apply Hh in Ef as [Ef|Hin]; [by rewrite lookup_empty in Ef|].
      destruct (entry_point_handled NewNode t f rt Hin Hn) as (s & -> & Hf). eauto.
    + destruct (kind t) as [s|] eqn:Ek; [|done]. exfalso.
      assert (t ∈ (entry_points NewNode).*1) as ([t' f] & -> & Hin)%list_elem_of_fmap.
      { assert (is_Some (kind t)) as Ht by by eexists. apply kind_Some in Ht. unfold default_services in Ht. cbn. rewrite !elem_of_cons in *. tauto. }
      assert (handlers !! t' = Some f) as Hf by (apply Hh; by right). pose proof (eq_trans (eq_sym Ef) Hf). done.
Qed.

(** Without observability a process with a logger ends, and one whose logging is
    disabled runs all the same. *)
Lemma runtime_run_observability e storage identity NewNode ord services :
  runtime_run gLog (Err e) storage identity NewNode ord services =
    if Fatal_ends gLog then Fatal else runtime_run gLog (Ok tt) storage identity NewNode ord services.
Proof.
  destruct (entry_points_handlers NewNode) as (handlers & Hreg & _). unfold runtime_run. rewrite Hreg.
  by destruct gLog.
Qed.

(** * Injecting them *)
Lemma registry_insert (registry : Registry Service) t s t' :
  (<[t := s]> registry : Registry Service) !! t' = if decide (t' = t) then Some s else registry !! t'.
Proof.
  destruct (decide (t' = t)) as [->|Hne]; [apply (lookup_insert_eq (M := gmap ServiceType))|].
  apply (lookup_insert_ne (M := gmap ServiceType)). congruence.
Qed.

Section Inject.
Context (NewNode : res N) (handlers : gmap ServiceType (RegisterHandlerFn (Svc := Service) (W := World))).
Context (Hhandlers : forall t rt, rt_registry rt !! t = None ->
  match kind t with
  | Some s => exists f, handlers !! t = Some f /\ f rt = handled NewNode t s rt
  | None => handlers !! t = None
  end).

Lemma inject_cons t ord rt :
  t ∈ default_services -> rt_registry rt !! t = None ->
  exists s, kind t = Some s /\
  InjectServices handlers (t :: ord) rt =
    match handled NewNode t s rt with
    | (rt, Ok _) => InjectServices handlers ord rt
    | (rt, Err e) => (rt, Err (ErrWrap ("failed to register service " ++ t) e))
    | (rt, Panic) => (rt, Panic)
    end.
Proof.
  intros [s Hs]%kind_Some Hn. exists s. split; [done|]. specialize (Hhandlers t rt Hn). rewrite Hs in Hhandlers.
  destruct Hhandlers as (f & Hf & He). cbn. by rewrite Hf, He.
Qed.

Record injected (n : N) (ord : list ServiceType) (rt rt' : runtime) : Prop := {
  in_registry : forall t, rt_registry rt' !! t = if decide (t ∈ ord) then kind t else rt_registry rt !! t;
  in_ssm : rt_ssm rt' = rt_ssm rt;
  in_phase : rt_phase rt' = rt_phase rt;
  in_events : rt_events rt' = rt_events rt;
  in_callbacks : rt_callbacks rt' = rt_callbacks rt ++
    (if decide (ChainServiceType ∈ ord) then [OtherCallback (on_node node_Shutdown)] else []);
  in_world : rt_world rt' = if decide (ChainServiceType ∈ ord)
    then register (set_node (rt_world rt) n) NodeResource RNode else rt_world rt;
}.

Lemma inject_Ok n ord : NewNode = Ok n -> forall rt,
  NoDup ord -> (forall t, t ∈ ord -> t ∈ default_services /\ rt_registry rt !! t = None) ->
  exists rt', InjectServices handlers ord rt = (rt', Ok tt) /\ injected n ord rt rt'.
Proof.
  intros Hnode. induction ord as [|t ord IH]; intros rt Hnd Hord.
  { exists rt. split; [done|].
    split; intros; rewrite ?decide_False by apply not_elem_of_nil; rewrite ?app_nil_r; done. }
  apply NoDup_cons in Hnd as [Ht Hnd]. destruct (Hord t) as [Hd Hn]; [by left|].
  destruct (inject_cons t ord rt Hd Hn) as (s & Hs & ->). unfold handled. rewrite Hnode.
  assert (forall rt1 : runtime, rt_registry rt1 = <[t := s]> (rt_registry rt) ->
    forall t', t' ∈ ord -> t' ∈ default_services /\ rt_registry rt1 !! t' = None) as Hrest.
  { intros rt1 -> t' Ht'. split; [apply Hord; by right|].
    rewrite registry_insert, decide_False by (by intros ->). apply Hord; by right. }
  assert (forall t', (if decide (t' ∈ ord) then kind t' else <[t := s]> (rt_registry rt) !! t') =
    if decide (t' ∈ t :: ord) then kind t' else rt_registry rt !! t') as Hreg.
  { intros t'. rewrite registry_insert. destruct (decide (t' = t)) as [->|Ht'].
    - rewrite (decide_True _ _ (P := t ∈ t :: ord)) by left. by rewrite decide_False.
    - assert (t' ∈ t :: ord <-> t' ∈ ord) by (rewrite elem_of_cons; tauto). repeat case_decide; tauto. }
  destruct (decide (t = ChainServiceType)) as [->|Hne].
  - destruct (IH (add_service (with_node rt n) ChainServiceType s)) as (rt' & -> & [Hr ? ? ? Hc Hw]);
      [done|by apply Hrest|].
    exists rt'. split; [done|]. rewrite decide_False in Hc by done. rewrite decide_False in Hw by done.
    split; try done; rewrite ?(decide_True (P := _ ∈ ChainServiceType :: ord)) by left.
    + intros t'. rewrite Hr. apply Hreg.
    + rewrite Hc. cbn. by rewrite app_nil_r.
  - destruct (IH (add_service rt t s)) as (rt' & -> & [Hr ? ? ? Hc Hw]); [done|by apply Hrest|].
    exists rt'. split; [done|].
    assert ((ChainServiceType ∈ t :: ord) <-> ChainServiceType ∈ ord) as Hiff
      by (rewrite elem_of_cons; split; [intros [<-|]; done|by right]).
    split; try done.
    + intros t'. rewrite Hr. apply Hreg.
    + rewrite Hc. cbn. f_equal. repeat case_decide; tauto.
    + rewrite Hw. cbn. repeat case_decide; tauto.
Qed.

Definition node_failed (e : error) : error :=
  ErrWrap "failed to register service chain"
    (ErrWrap "Failed to create new chain service" (ErrWrap "failed to initialize node" e)).
Lemma inject_Err e ord : NewNode = Err e -> forall rt,
  NoDup ord -> (forall t, t ∈ ord -> t ∈ default_services /\ rt_registry rt !! t = None) ->
  ChainServiceType ∈ ord -> (InjectServices handlers ord rt).2 = Err (node_failed e).
Proof.
  intros Hnode. induction ord as [|t ord IH]; intros rt Hnd Hord Hin; [by apply not_elem_of_nil in Hin|].
  apply NoDup_cons in Hnd as [Ht Hnd]. destruct (Hord t) as [Hd Hn]; [by left|].
  destruct (inject_cons t ord rt Hd Hn) as (s & Hs & ->). unfold handled. rewrite Hnode.
  destruct (decide (t = ChainServiceType)) as [->|Hne]; [done|]. apply IH; [done| |set_solver].
  intros t' Ht'. split; [apply Hord; by right|]. cbn. rewrite registry_insert, decide_False by (by intros ->). apply Hord; by right.
Qed.
End Inject.

Definition all_resources : Resources.Manager :=
  <[NodeResource := RNode]> (<[ObservabilityResource := RObservability]>
    (<[IdentityResource := RIdentity]> {[StorageResource := RStorage]})).
(** The runtime the services start in: every service is registered, the node
    will be shut down by the first callback. *)
Record ready (n : N) (rt : runtime) : Prop := {
  rd_registry : forall t, rt_registry rt !! t = kind t;
  rd_ssm : rt_ssm rt = ServiceStates.New;
  rd_callbacks : rt_callbacks rt = [OtherCallback (on_node node_Shutdown)];
  rd_phase : rt_phase rt = Idle;
  rd_events : rt_events rt = [];
  rd_world : rt_world rt = {| w_node := Some n; w_resources := all_resources |};
}.

Lemma ord_default ord : ord ≡ₚ default_services -> NoDup ord.
Proof. intros ->. refine (bool_decide_eq_true_1 _ _). by vm_compute. Qed.

Lemma runtime_run_Ok n ord services :
  ord ≡ₚ default_services ->
  exists rt, ready n rt /\
    runtime_run gLog (Ok tt) (Ok tt) (Ok tt) (Ok n) ord services =
      match Runtime.Start services rt with Ok g => Running g | Err e => NotStarted e | Panic => Crashed end.
Proof.
  intros Hord. destruct (entry_points_handlers (Ok n)) as (handlers & Hreg & Hh).
  unfold runtime_run. rewrite Hreg. cbn [InitializeBaseService NewBaseService].
  match goal with |- context [InjectServices handlers ord ?rt1] =>
    destruct (inject_Ok (Ok n) handlers Hh n ord eq_refl rt1) as (rt & -> & [Hr Hs Hp He Hc Hw]) end.
  - by apply ord_default.
  - intros t Ht. split; [by rewrite <- Hord|apply (lookup_empty (M := gmap ServiceType))].
  - exists rt. split; [|done]. assert (ChainServiceType ∈ ord) by (rewrite Hord; left).
    split; [|done|by rewrite Hc, decide_True|done|done|by rewrite Hw, decide_True].
    intros t. rewrite Hr. destruct (decide (t ∈ ord)) as [|Hin]; [reflexivity|]. rewrite Hord, <- kind_Some in Hin. cbn.
    destruct (kind t); [|apply (lookup_empty (M := gmap ServiceType))]. exfalso. eauto.
Qed.

(** The [run] command starts exactly the program's seven services.
    Whatever the order of the handlers, when the node cannot be created the
    command returns its error in three layers; otherwise every service is
    registered, the node is among the resources, its shutdown is the first
    callback, and the services asked for begin to start, unless one of them is
    not one of the seven, in which case none does. *)
Theorem runtime_run_spec NewNode ord services :
  ord ≡ₚ default_services ->
  match NewNode with
  | Panic => True
  | Err e =>
      runtime_run gLog (Ok tt) (Ok tt) (Ok tt) NewNode ord services =
        Returned_ (ErrWrap "failure to inject runtime service dependencies" (node_failed e))
  | Ok n =>
      (Forall (fun t => t ∈ default_services) services -> exists rt, ready n rt /\
         runtime_run gLog (Ok tt) (Ok tt) (Ok tt) NewNode ord services =
           Running {| g_rt := rt; g_launches := (fun t => (t, Launched)) <$> services; g_err := None |}) /\
      (~ Forall (fun t => t ∈ default_services) services ->
         runtime_run gLog (Ok tt) (Ok tt) (Ok tt) NewNode ord services =
           NotStarted (ErrMsg "requested service %s cannot be started as it does not exist"))
  end.
Proof.
  intros Hord. destruct NewNode as [n|e|]; [|..|done].
  - destruct (runtime_run_Ok n ord services Hord) as (rt & Hrd & ->). pose proof Hrd as [Hr _ _ _ _ _].
    assert (Exists (rt_registry rt) services = None <-> Forall (fun t => t ∈ default_services) services) as He.
    { rewrite Exists_spec, list.Forall_forall. setoid_rewrite Hr. by setoid_rewrite kind_Some. }
    unfold Runtime.Start. destruct (Exists (rt_registry rt) services) as [t|]; split.
    + intros Hall. by apply He in Hall.
    + done.
    + intros _. exists rt. done.
    + intros Hn. exfalso. apply Hn. by apply He.
  - destruct (entry_points_handlers (Err e)) as (handlers & Hreg & Hh).
    unfold runtime_run. rewrite Hreg. cbn [InitializeBaseService NewBaseService].
    match goal with |- context [InjectServices handlers ord ?rt1] =>
      assert ((InjectServices handlers ord rt1).2 = Err (node_failed e)) as Hi end.
    { apply (inject_Err (Err e) handlers Hh e ord eq_refl).
      - by apply ord_default.
      - intros t Ht. split; [by rewrite <- Hord|apply (lookup_empty (M := gmap ServiceType))].
      - rewrite Hord. left. }
    destruct (InjectServices handlers ord _) as [rt r]. cbn in Hi. by subst r.
Qed.

(** * The node is started *)
Section Started.
Context `{!NodeLaws N} (in_time : bool).
Local Abbreviation step := (group_step (service_Start in_time) service_Stop).

Definition world_state (b : bool) (w : World) : Prop := exists n, w_node w = Some n /\ node_started n = b.
Definition timed_out : error :=
  ErrWrap "failed to wait for node state to started state"
    (ErrMsg "service %s did not reach state %s within %v").
(** The chain service returns nil with a started node, and else the error of
    its wait. *)
Lemma chain_Start_result w w' r :
  world_state false w -> chain_Start in_time w = (w', r) ->
  match r with None => world_state true w' | Some e => e = timed_out end.
Proof.
  unfold chain_Start, world_state. intros (n & -> & Hn). destruct (node_Start n) as [n' startErr] eqn:Es.
  intros [= <- <-]. destruct startErr as [e|].
  - apply (node_Start_Err _ _ _ Hn) in Es. rewrite Es. by destruct in_time.
  - apply node_Start_Ok in Es. rewrite Es. destruct in_time; [|done]. by exists n'.
Qed.

Lemma other_Start b s ssm w :
  s <> ChainService -> world_state b w -> world_state b (service_Start in_time s ssm w).1.
Proof.
  intros Hs. destruct s; try done. cbn. unfold consensus_Start.
  destruct (bool_decide _); [|done]. destruct (Resources.R _ _ _ _) as [[[] []]| |]; [|done..].
  unfold on_node, world_state. intros (n & -> & Hn).
  pose proof (node_StartValidator_state n) as Hv. destruct (node_StartValidator n) as [n' e]. cbn in *.
  exists n'. by rewrite Hv.
Qed.

Definition over (l : launch (Svc := Service)) : bool :=
  match l with Ran _ | Returned _ => true | _ => false end.
(** The chain service was started at most once, and with what result. *)
Record chain_inv (g : Group (Svc := Service) (W := World)) : Prop := {
  ci_registry : forall t, rt_registry (g_rt g) !! t = kind t;
  ci_once : forall s r, EStart ChainServiceType s r ∈ rt_events (g_rt g) ->
    (forall i l, g_launches g !! i = Some (ChainServiceType, l) -> over l = true) /\
    match r with None => world_state true (rt_world (g_rt g)) | Some e => e = timed_out end;
  ci_unique : forall s r s' r', EStart ChainServiceType s r ∈ rt_events (g_rt g) ->
    EStart ChainServiceType s' r' ∈ rt_events (g_rt g) -> r = r';
  ci_before : (forall s r, EStart ChainServiceType s r ∉ rt_events (g_rt g)) ->
    world_state false (rt_world (g_rt g));
}.

Lemma set_state_inv {A} (rt : runtime) t st (k : runtime -> option A) x :
  (Runtime.set_state rt t st ≫= k) = Some x -> exists sm, k (with_ssm rt sm) = Some x.
Proof. unfold Runtime.set_state. case_match; [|done..]. cbn. eauto. Qed.
(** A step of a goroutine that is not a call of [Start]. *)
Lemma launch_step_quiet (rt rt' : runtime) t l l' :
  (forall s, l <> Watched s) -> launch_step (service_Start in_time) rt t l = Some (rt', l') ->
  rt_world rt' = rt_world rt /\ rt_registry rt' = rt_registry rt /\ rt_events rt' = rt_events rt /\
  (over l = true -> over l' = true).
Proof.
  intros Hw. destruct l as [|s|s|s|[e|]|e]; cbn; try (by destruct (Hw s)); try done.
  - unfold Get. case_match; by intros [= <- <-].
  - by intros [sm [= <- <-]]%set_state_inv.
  - unfold AddShutdownCallback. case_match; [done|]. by intros [= <- <-].
  - by intros [sm [= <- <-]]%set_state_inv.
  - by intros [sm [= <- <-]]%set_state_inv.
Qed.

Lemma launch_chain_inv services g i t l rt' l' :
  NoDup services -> (g_launches g).*1 = services -> g_launches g !! i = Some (t, l) ->
  launch_ok (g_rt g) t l -> launch_step (service_Start in_time) (g_rt g) t l = Some (rt', l') ->
  chain_inv g ->
  chain_inv {| g_rt := rt'; g_launches := <[i := (t, l')]> (g_launches g); g_err := first_error g l' |}.
Proof.
  intros Hnd Hty Hi Hl Hstep [Hreg Honce Huni Hbefore].
  assert (forall j l1, t = ChainServiceType -> g_launches g !! j = Some (ChainServiceType, l1) -> j = i) as Huniq.
  { intros j l1 -> Hj. eapply (NoDup_lookup services); [done|..]; rewrite <- Hty, list_lookup_fmap; [by rewrite Hj|by rewrite Hi]. }
  assert ((exists s, l = Watched s) \/ forall s, l <> Watched s) as [[s ->]|Hq] by (destruct l; naive_solver).
  - cbn in Hl, Hstep. rewrite Hreg in Hl. destruct (service_Start in_time s _ _) as [w r] eqn:Es.
    injection Hstep as <- <-. destruct (decide (t = ChainServiceType)) as [->|Hne].
    + injection Hl as <-.
      assert (forall s r, EStart ChainServiceType s r ∉ rt_events (g_rt g)) as Hnone.
      { intros s' r' Hin. destruct (Honce s' r' Hin) as [Hover _]. by specialize (Hover i _ Hi). }
      pose proof (chain_Start_result _ _ _ (Hbefore Hnone) Es) as Hr.
      split; cbn; [done|..].
      * intros s' r' [Hin%Hnone|Hin%list_elem_of_singleton]%elem_of_app; [done|].
        injection Hin as -> ->. split; [|done]. intros j l1 Hj.
        apply list_lookup_insert_Some in Hj as [(_ & [= <-] & _)|[Hne Hj]]; [done|].
        destruct Hne. symmetry. by eapply Huniq.
      * intros s1 r1 s2 r2 [H1%Hnone|H1%list_elem_of_singleton]%elem_of_app; [done|].
        intros [H2%Hnone|H2%list_elem_of_singleton]%elem_of_app; [done|]. congruence.
      * intros Hno. destruct (Hno ChainService r). apply elem_of_app. right. by apply list_elem_of_singleton.
    + assert (s <> ChainService) as Hs by (intros ->; by apply Hne, kind_chain).
      assert (forall b, world_state b (rt_world (g_rt g)) -> world_state b w) as Hst.
      { intros b Hb. pose proof (other_Start b s (rt_ssm (g_rt g)) _ Hs Hb) as Hw. by rewrite Es in Hw. }
      split; cbn; [done|..].
      * intros s' r' [Hin|Hin%list_elem_of_singleton]%elem_of_app; [|by injection Hin as <- _ _].
        destruct (Honce s' r' Hin) as [Hover Hr]. split; [|by destruct r'; [|apply Hst]].
        intros j l1 [(_ & Heq & _)|[_ Hj]]%list_lookup_insert_Some; [by injection Heq as Heq _|by eapply Hover].
      * intros s1 r1 s2 r2 [H1|H1%list_elem_of_singleton]%elem_of_app; [|by injection H1 as <- _ _].
        intros [H2|H2%list_elem_of_singleton]%elem_of_app; [by eapply Huni|by injection H2 as <- _ _].
      * intros Hno. apply Hst, Hbefore. intros s' r' Hin. apply (Hno s' r'), elem_of_app. by left.
  - destruct (launch_step_quiet _ _ _ _ _ Hq Hstep) as (Hw & Hrg & He & Hov).
    split; cbn; rewrite ?Hw, ?Hrg, ?He; [done| |done..]. intros s r Hin. destruct (Honce s r Hin) as [Hover Hr].
    split; [|done]. intros j l1 [(<- & Heq & _)|[_ Hj]]%list_lookup_insert_Some; [|by eapply Hover].
    injection Heq as -> <-. by eapply Hov, Hover.
Qed.

Lemma act_chain_inv services g a g' :
  NoDup services -> group_ok g -> startup_ok services g -> rt_phase (g_rt g') = Idle ->
  act (service_Start in_time) service_Stop g a = Some g' -> chain_inv g -> chain_inv g'.
Proof.
  intros Hnd [[h Hm] _ _ _ _] [Hty _ Hla _] Hidle Ha Hinv. destruct a as [i| |st d p].
  - cbn in Ha. destruct (g_launches g !! i) as [[t l]|] eqn:Hi; [|done]. cbn in Ha.
    destruct (launch_step _ (g_rt g) t l) as [[rt' l']|] eqn:Hs; [|done]. injection Ha as <-.
    eapply launch_chain_inv; eauto.
  - by destruct (shutdown_not_idle _ _ _ _ Ha).
  - cbn in Ha. destruct (wait_step _ _ _ _ _) as [[sm p']|]; [|done]. injection Ha as <-. by destruct Hinv.
Qed.

Lemma ready_fresh n rt : ready n rt -> fresh rt.
Proof.
  intros [_ Hs Hc Hp He _]. split; [done|by rewrite Hc|done|]. rewrite Hs. exists [].
  split; cbn; intros *; rewrite ?lookup_empty; try done; set_solver.
Qed.

Lemma ready_chain_inv n rt services g :
  node_started n = false -> ready n rt -> NoDup services ->
  Runtime.Start services rt = Ok g -> forall g', rtc step g g' ->
  launched (service_Start in_time) service_Stop services rt g' /\
  (rt_phase (g_rt g') = Idle -> chain_inv g').
Proof.
  intros Hn Hrd Hnd Hs g' Hr. pose proof (ready_fresh _ _ Hrd) as Hf.
  revert Hr. apply (rtc_ind_r (fun g' => launched (service_Start in_time) service_Stop services rt g' /\
    (rt_phase (g_rt g') = Idle -> chain_inv g'))).
  - split; [by exists g|]. intros _. unfold Runtime.Start in Hs. destruct (Exists _ _); [done|].
    injection Hs as <-. destruct Hrd as [Hreg _ _ _ He Hw].
    split; cbn; [done|rewrite He; intros *; by intros ?%not_elem_of_nil..|]. rewrite Hw. by exists n.
  - intros g1 g2 H1 [a Ha] [Hl Hinv]. assert (launched (service_Start in_time) service_Stop services rt g2) as Hl2.
    { destruct Hl as (g0 & ? & ? & ?). exists g0. split_and!; [done..|]. eapply rtc_r; [done|by exists a]. }
    split; [done|]. intros Hidle. destruct (launched_startup _ _ services rt g1 Hnd Hl) as [Hok Hst].
    destruct (launched_startup _ _ services rt g2 Hnd Hl2) as [_ Hst2].
    pose proof (act_idle _ _ _ _ _ Hok Ha Hidle) as Hi1.
    eapply act_chain_inv; eauto.
Qed.

(** C21: The services start together.  Let a node be created that is not yet
    started, and let the command start a set of services with the chain
    service among them.  However the goroutines, the waiters and the callers
    interleave, as long as no signal arrives: the startup ends without an error
    only with a started node; and when the chain service fails, its error is
    that of its wait, whatever the error of the node was, and the startup does
    not end without one. *)
Theorem services_start_node n ord services g0 g :
  ord ≡ₚ default_services -> NoDup services -> ChainServiceType ∈ services -> node_started n = false ->
  runtime_run gLog (Ok tt) (Ok tt) (Ok tt) (Ok n) ord services = Running g0 ->
  rtc step g0 g -> rt_phase (g_rt g) = Idle ->
  (Runtime.Wait g = Some (Ok tt) -> world_state true (rt_world (g_rt g))) /\
  (forall s e, EStart ChainServiceType s (Some e) ∈ rt_events (g_rt g) ->
     e = timed_out /\ Runtime.Wait g <> Some (Ok tt)).
Proof.
  intros Hord Hnd Hin Hn Hrun Hr Hidle. destruct (runtime_run_Ok n ord services Hord) as (rt & Hrd & He).
  rewrite He in Hrun. destruct (Runtime.Start services rt) as [g1| |] eqn:Hs; [|done..]. injection Hrun as ->.
  destruct (ready_chain_inv _ _ _ _ Hn Hrd Hnd Hs g Hr) as [Hl Hinv]. destruct (Hinv Hidle) as [_ Honce Huni _].
  destruct (launched_startup _ _ services rt g Hnd Hl) as [Hok Hst].
  assert (Runtime.Wait g = Some (Ok tt) -> exists s, EStart ChainServiceType s None ∈ rt_events (g_rt g)) as Hw.
  { intros Hw. destruct (wait_started services g Hok (Hst Hidle) Hw _ Hin) as (s & Hev & _). eauto. }
  split.
  - intros [s Hev]%Hw. by destruct (Honce s None Hev).
  - intros s e Hev. destruct (Honce s _ Hev) as [_ ->]. split; [done|]. intros [s' Hev']%Hw.
    by pose proof (Huni _ _ _ _ Hev Hev').
Qed.
End Started.
End Services.

(** * The node *)
(** The node of [PeerNode.v] behind the interface; the outcomes of the network
    and of closing the databases are given.  A panic, which would end the
    process, counts as an error. *)
Section PeerNodeLib.
Context {P EP E : Type} `{!Provider P, !GraphLib P EP} `{Mdbx E}.
Definition outcome {A B} (x : A * res B) : A * option error :=
  (x.1, match x.2 with Ok _ => None | Err e => Some e | Panic => Some (ErrMsg "panic") end).
Definition peer_node (net netdown db : res unit) : NodeLib (PeerNode (P := P) (E := E)) := {|
  node_Start n := outcome (Node_Start net n);
  node_StartValidator n := outcome (on_validator ValidatorService.Start n);
  node_Shutdown n := outcome (Node_Shutdown netdown db n);
  node_started n := bool_decide (node_state n = NodeStates.Started) |}.

Lemma set_node_state_result ty st (n n' : PeerNode (P := P) (E := E)) r :
  set_node_state ty st n = (n', r) ->
  match r with
  | Ok _ => serviceStates (n_stateMgr n') = <[ty := st]> (serviceStates (n_stateMgr n))
  | _ => n' = n
  end.
Proof.
  unfold set_node_state, NodeStates.Set_. destruct (SetState _ _ _ _) as [sm|e|] eqn:Es; intros [= <- <-]; [|done..].
  by apply SetState_states in Es.
Qed.
Lemma on_validator_state {A} (m : io ValidatorService.Validator A) (n : PeerNode (P := P) (E := E)) :
  n_stateMgr (on_validator m n).1 = n_stateMgr n.
Proof. unfold on_validator. by destruct (m _). Qed.

(** Everything between the two changes of state leaves the states alone. *)
Definition keeps_states {A} (m : io (PeerNode (P := P) (E := E)) A) : Prop :=
  forall n, n_stateMgr (m n).1 = n_stateMgr n.
Lemma keeps_bind {A B} (m : io (PeerNode (P := P) (E := E)) A) (k : A -> io (PeerNode (P := P) (E := E)) B) :
  keeps_states m -> (forall a, keeps_states (k a)) -> keeps_states (m ≫= k).
Proof.
  intros Hm Hk n. cbv [mbind io_bind]. specialize (Hm n). destruct (m n) as [n1 [a|e|]]; cbn in *; [|done..].
  rewrite <- Hm. apply Hk.
Qed.
Lemma keeps_wrap {A} text (m : io (PeerNode (P := P) (E := E)) A) : keeps_states m -> keeps_states (io_wrap text m).
Proof. intros Hm n. unfold io_wrap. specialize (Hm n). by destruct (m n). Qed.
Lemma keeps_on_validator {A} (m : io ValidatorService.Validator A) : keeps_states (on_validator m).
Proof. intros n. apply on_validator_state. Qed.
Lemma keeps_node_lift {A} (r : res A) : keeps_states (io_lift r).
Proof. by intros n. Qed.
Lemma keeps_flags (f : PeerNode (P := P) (E := E) -> PeerNode) :
  (forall n, n_stateMgr (f n) = n_stateMgr n) -> keeps_states (set_flags f).
Proof. intros Hf n. apply Hf. Qed.

(** [Node_Start] between its first and its last line. *)
Lemma Node_Start_split net : exists m : io (PeerNode (P := P) (E := E)) unit, keeps_states m /\
  forall n, Node_Start net n =
    (_ ← set_node_state NodeStateType NodeStates.Starting; _ ← m; set_node_state NodeStateType NodeStates.Started) n.
Proof.
  exists (_ ← io_wrap "failure to start P2P network" (io_lift net);
    _ ← set_flags (fun n => with_flags n true (n_cancelled n) (n_storage_open n));
    _ ← io_wrap "failed to start validator" (on_validator ValidatorService.Start);
    io_wrap "failed to wait for validator started state" (await_validator ValidatorStates.Started)).
  split.
  - repeat (apply keeps_bind; intros); try apply keeps_wrap; try apply keeps_on_validator;
      try apply keeps_node_lift; by apply keeps_flags.
  - intros n. unfold Node_Start. cbv [mbind io_bind].
    repeat match goal with |- context [match ?x with (_, _) => _ end] => destruct x as [? [?|?|]]; [|done..] end.
    done.
Qed.

#[export] Instance peer_node_laws net netdown db : NodeLaws PeerNode (H := peer_node net netdown db).
Proof.
  destruct (Node_Start_split net) as (m & Hm & Hsplit).
  assert (forall n : PeerNode (P := P) (E := E), match Node_Start net n with
    | (n', Ok _) => node_state n' = NodeStates.Started
    | (n', _) => node_state n <> NodeStates.Started -> node_state n' <> NodeStates.Started
    end) as Hstart.
  { intros n. rewrite Hsplit. cbv [mbind io_bind]. unfold node_state, NodeStates.Get, GetState.
    destruct (set_node_state NodeStateType NodeStates.Starting n) as [n1 r1] eqn:E1.
    apply set_node_state_result in E1. destruct r1 as [[]|e|]; [|by subst n1..].
    specialize (Hm n1). destruct (m n1) as [n2 [[]|e|]]; cbn in Hm.
    2, 3: by rewrite Hm, E1, lookup_insert_eq.
    destruct (set_node_state NodeStateType NodeStates.Started n2) as [n3 r3] eqn:E3.
    apply set_node_state_result in E3. destruct r3 as [[]|e|].
    - by rewrite E3, lookup_insert_eq.
    - subst n3. by rewrite Hm, E1, lookup_insert_eq.
    - subst n3. by rewrite Hm, E1, lookup_insert_eq. }
  split; cbn; unfold outcome.
  - intros n n'. specialize (Hstart n). destruct (Node_Start net n) as [n1 [[]|e|]]; cbn; intros [= <-].
    by apply bool_decide_eq_true.
  - intros n n' e Hn%bool_decide_eq_false. specialize (Hstart n).
    destruct (Node_Start net n) as [n1 [[]|e1|]]; cbn; intros [= <- <-]; apply bool_decide_eq_false; auto.
  - intros n. unfold node_state. by rewrite on_validator_state.
Qed.
End PeerNodeLib.

(** * An example *)
(** A node that is whether it is started. *)
Definition toy_node : NodeLib bool := {|
  node_Start _ := (true, None); node_StartValidator n := (n, None); node_Shutdown _ := (false, None);
  node_started n := n |}.
#[export] Instance toy_node_laws : NodeLaws bool (H := toy_node).
Proof. split; cbn; [by intros n n' [= <-]|done..]. Qed.

Definition some_services : list ServiceType := [ChainServiceType; ConsensusServiceType; DNSServiceType].
Definition toy_run : run_outcome (N := bool) :=
  runtime_run (H := toy_node) (noOpLogger (S := unit)) (Ok tt) (Ok tt) (Ok tt) (Ok false) default_services some_services.
Definition toy_group : Group (Svc := Service) (W := World (N := bool)) :=
  match toy_run with
  | Running g => g
  | _ => {| g_rt := {| rt_registry := ∅; rt_ssm := ServiceStates.New; rt_callbacks := []; rt_phase := Idle;
                       rt_cancelled := false; rt_world := {| w_node := None; w_resources := ∅ |};
                       rt_events := [] |}; g_launches := []; g_err := None |}
  end.
Definition toy_steps : list action := repeat (ALaunch 2) 5 ++ repeat (ALaunch 0) 5 ++ repeat (ALaunch 1) 5.
Definition toy_started : Group (Svc := Service) (W := World (N := bool)) :=
  default toy_group (run (service_Start (H := toy_node) true) (service_Stop (N := bool)) toy_group toy_steps).

Lemma runtime_run_spec_witness :
  runtime_run (H := toy_node) (noOpLogger (S := unit)) (Ok tt) (Ok tt) (Ok tt) (Ok false) default_services ["mail"%string] =
    NotStarted (ErrMsg "requested service %s cannot be started as it does not exist").
Proof.
  refine (proj2 (runtime_run_spec (H := toy_node) (noOpLogger (S := unit)) (Ok false) default_services ["mail"%string] _) _); [done|].
  intros Hall%Forall_inv. by apply kind_Some in Hall as [s Hs].
Defined.

Lemma services_start_node_witness :
  Runtime.Wait toy_started = Some (Ok tt) /\ world_state (H := toy_node) true (rt_world (g_rt toy_started)).
Proof.
  assert (Runtime.Wait toy_started = Some (Ok tt)) as Hw by by vm_compute. split; [exact Hw|].
  refine (proj1 (services_start_node (H := toy_node) (noOpLogger (S := unit)) true false default_services some_services toy_group toy_started
    _ _ _ _ _ _ _) Hw).
  - done.
  - refine (bool_decide_eq_true_1 _ _). by vm_compute.
  - left.
  - done.
  - by vm_compute.
  - eapply (run_steps _ _ _ toy_steps). by vm_compute.
  - by vm_compute.
Defined.
