(* ===== verification/Program.v ===== *)
(** [pkg/certs], the [certs] command of [cmd/certs.go], and [main.go].

    The cryptography is a parameter: [CertLib] has the calls the code makes and
    [CertLaws] what reading back gives.  The file system keeps the mode and the
    contents of each file; [umask] is that of the process, and the outcomes of the
    writes are given.  [App.Run] of the command-line library is a parameter too. *)
From Stdlib Require Import Strings.Byte Strings.String.
From S2P Require Import Prelude Bytes Telemetry Config.

(** * pkg/certs/generator.go *)
Inductive KeyUsage := KeyUsageKeyEncipherment | KeyUsageDigitalSignature.
Inductive ExtKeyUsage := ExtKeyUsageServerAuth.
(** The fields of [x509.Certificate] that the template sets, and the names of the
    host, which it does not; times are in nanoseconds. *)
Record Certificate := {
  SerialNumber : Z;
  Organization : list bytes;
  NotBefore : Z;
  NotAfter : Z;
  crt_KeyUsage : list KeyUsage;
  crt_ExtKeyUsage : list ExtKeyUsage;
  BasicConstraintsValid : bool;
  DNSNames : list bytes;
}.

(** Private keys [K] and public keys [PK]; [signed_by c pk] is the check of the
    signature of an encoded certificate. *)
Class CertLib (K PK : Type) := {
  PublicKey : K -> PK;
  CreateCertificate : Certificate -> Certificate -> PK -> K -> res bytes;
  ParseCertificate : bytes -> res (Certificate * PK);
  signed_by : bytes -> PK -> bool;
  MarshalECPrivateKey : K -> res bytes;
  ParseECPrivateKey : bytes -> res K;
  EncodeToMemory : string -> bytes -> bytes;
  pem_Decode : bytes -> option (string * bytes);
}.
Class CertLaws (K PK : Type) `{CertLib K PK} := {
  CreateCertificate_parse t parent pk k c :
    CreateCertificate t parent pk k = Ok c -> ParseCertificate c = Ok (t, pk);
  CreateCertificate_signed t parent pk k c :
    CreateCertificate t parent pk k = Ok c -> signed_by c (PublicKey k) = true;
  MarshalECPrivateKey_parse k d : MarshalECPrivateKey k = Ok d -> ParseECPrivateKey d = Ok k;
  EncodeToMemory_decode ty d : pem_Decode (EncodeToMemory ty d) = Some (ty, d);
}.

Definition year : Z := 365 * 24 * 3600 * 10 ^ 9.
(** [fresh] is the outcome of [ecdsa.GenerateKey]; [now] and [now'] are the two
    readings of the clock. *)
Section Generator.
Context {K PK : Type} `{CertLib K PK}.

Definition template (now now' : Z) : Certificate :=
  {| SerialNumber := 1; Organization := [str "Example Organization"]; NotBefore := now; NotAfter := now' + year;
     crt_KeyUsage := [KeyUsageKeyEncipherment; KeyUsageDigitalSignature];
     crt_ExtKeyUsage := [ExtKeyUsageServerAuth]; BasicConstraintsValid := true; DNSNames := [] |}.
Definition GenerateSelfSignedCert (fresh : res K) (now now' : Z) : res (bytes * K) :=
  privKey ← fresh;
  let template := template now now' in
  certBytes ← CreateCertificate template template (PublicKey privKey) privKey;
  Ok (certBytes, privKey).
Definition generateSelfSignedCert (fresh : res K) (now now' : Z) : res (bytes * K) :=
  privKey ← fresh;
  let template := template now now' in
  certBytes ← CreateCertificate template template (PublicKey privKey) privKey;
  Ok (certBytes, privKey).

Record generated_tls_Config := { gen_Certificate : list bytes; gen_PrivateKey : K; NextProtos : list bytes }.
Definition GenerateTLSConfig (fresh : res K) (now now' : Z) : res generated_tls_Config :=
  match generateSelfSignedCert fresh now now' with
  | Ok (cert, privKey) =>
      Ok {| gen_Certificate := [cert]; gen_PrivateKey := privKey; NextProtos := [str "quic-example"] |}
  | _ => Panic
  end.

Definition ExportPEM (cert : bytes) (privKey : K) : res (bytes * bytes) :=
  let certPEM := EncodeToMemory "CERTIFICATE" cert in
  privBytes ← MarshalECPrivateKey privKey;
  Ok (certPEM, EncodeToMemory "EC PRIVATE KEY" privBytes).
End Generator.

(** * pkg/certs/certbot.go
    [run] is the external program: its output and its error. *)
Section Certbot.
Context (run : list bytes -> bytes * option error).
Definition certbot_call (args : list bytes) (failure : string) : res bytes :=
  match run args with
  | (output, None) => Ok output
  | (_, Some _) => Err (ErrMsg failure)
  end.
Definition CertbotCreateCertificate (domain email : bytes) : res bytes :=
  certbot_call [str "certbot"; str "certonly"; str "--non-interactive"; str "--agree-tos"; str "--email"; email;
                str "-d"; domain] "failed to create certificate: %s".
Definition CertbotRenewCertificate : res bytes :=
  certbot_call [str "certbot"; str "renew"] "failed to renew certificate: %s".
End Certbot.

(** * Files *)
Record File := { f_mode : Z; f_contents : bytes }.
Abbreviation Files := (gmap bytes File).
(** What a write leaves: a new file gets [perm] without the bits of the mask, one
    that is there keeps its mode. *)
Definition put_file (umask : Z) (name data : bytes) (perm : Z) (fs : Files) : Files :=
  <[name := {| f_mode := match fs !! name with Some f => f_mode f | None => Z.ldiff perm umask end;
               f_contents := data |}]> fs.
(** How a write ends: it is done, or it fails before or after the file is open, when
    some of the data may be in it. *)
Inductive write_outcome := Written | NotOpened (err : error) | Partly (data : bytes) (err : error).
Definition WriteFile (umask : Z) (outcome : write_outcome) (name data : bytes) (perm : Z) : io Files unit := fun fs =>
  match outcome with
  | Written => (put_file umask name data perm fs, Ok tt)
  | NotOpened err => (fs, Err err)
  | Partly part err => (put_file umask name part perm fs, Err err)
  end.

(** * cmd/certs.go *)
Section CertsCommand.
Context {K PK : Type} `{CertLib K PK} (umask : Z).

(** The actions of [create] and [renew] return nil. *)
Definition certs_create : io Files unit := mret tt.
Definition certs_renew : io Files unit := mret tt.
Definition certs_local (fresh : res K) (now now' : Z) (certOutput keyOutput : bytes) (w1 w2 : write_outcome) :
    io Files unit :=
  ck ← io_lift (wrap "failed to generate certificate" (GenerateSelfSignedCert fresh now now'));
  let '(cert, privKey) := ck in
  pems ← io_lift (wrap "failed to export certificate and key" (ExportPEM cert privKey));
  let '(certPEM, keyPEM) := pems in
  _ ← io_wrap "failed to write certificate file" (WriteFile umask w1 certOutput certPEM 420);
  io_wrap "failed to write private key file" (WriteFile umask w2 keyOutput keyPEM 384).

(** A file holds a certificate of a key: the template, self-signed. *)
Definition holds_certificate (fs : Files) (name : bytes) (now now' : Z) (k : K) : Prop :=
  exists f c, fs !! name = Some f /\ pem_Decode (f_contents f) = Some ("CERTIFICATE"%string, c) /\
    ParseCertificate c = Ok (template now now', PublicKey k) /\ signed_by c (PublicKey k) = true.
Definition holds_key (fs : Files) (name : bytes) (k : K) : Prop :=
  exists f d, fs !! name = Some f /\ pem_Decode (f_contents f) = Some ("EC PRIVATE KEY"%string, d) /\
    ParseECPrivateKey d = Ok k.
Definition mode_of (fs : Files) (name : bytes) : option Z := f_mode <$> fs !! name.

Lemma put_file_other name data perm fs p : p <> name -> put_file umask name data perm fs !! p = fs !! p.
Proof. intros Hp. by apply lookup_insert_ne. Qed.
Lemma put_file_mode name data perm fs :
  mode_of (put_file umask name data perm fs) name = Some (default (Z.ldiff perm umask) (mode_of fs name)).
Proof. unfold mode_of, put_file. rewrite lookup_insert_eq. by destruct (fs !! name). Qed.

Lemma generated (fresh : res K) now now' c k `{!CertLaws K PK} :
  GenerateSelfSignedCert fresh now now' = Ok (c, k) ->
  fresh = Ok k /\ ParseCertificate c = Ok (template now now', PublicKey k) /\ signed_by c (PublicKey k) = true.
Proof.
  unfold GenerateSelfSignedCert. destruct fresh as [k'|e|]; cbn; try done.
  destruct (CreateCertificate _ _ _ _) as [c'|e|] eqn:E; cbn; try done. intros [= -> ->]. split; [done|].
  split; [by eapply CreateCertificate_parse|by eapply CreateCertificate_signed].
Qed.

(** The command on every branch.  A success leaves a self-signed certificate and the
    key it belongs to in two files, if the two names differ; no other file changes.
    A failure before the writes changes nothing, a failed first write leaves the file
    of the key alone, and a failed second one leaves the new certificate there, without
    its key.  Files that exist keep their mode: a key written over a file that others
    can read can be read by them. *)
Theorem certs_local_spec `{!CertLaws K PK} (fresh : res K) now now' certOutput keyOutput w1 w2 fs :
  certOutput <> keyOutput ->
  let '(fs', r) := certs_local fresh now now' certOutput keyOutput w1 w2 fs in
  (forall p, p <> certOutput -> p <> keyOutput -> fs' !! p = fs !! p) /\
  match r with
  | Ok _ => exists k, fresh = Ok k /\ holds_certificate fs' certOutput now now' k /\ holds_key fs' keyOutput k /\
      mode_of fs' certOutput = Some (default (Z.ldiff 420 umask) (mode_of fs certOutput)) /\
      mode_of fs' keyOutput = Some (default (Z.ldiff 384 umask) (mode_of fs keyOutput))
  | Err _ =>
      fs' = fs \/
      w1 <> Written /\ fs' !! keyOutput = fs !! keyOutput \/
      w1 = Written /\ w2 <> Written /\ exists k, fresh = Ok k /\ holds_certificate fs' certOutput now now' k
  | Panic => fs' = fs
  end.
Proof.
  intros Hne. unfold certs_local. cbv [mbind io_bind io_lift].
  destruct (GenerateSelfSignedCert fresh now now') as [[c k]|e|] eqn:Eg; cbn [wrap]; [|by split; [|left]|done].
  apply generated in Eg as (Hk & Hp & Hs); [|done]. unfold ExportPEM. cbv [mbind res_bind].
  destruct (MarshalECPrivateKey k) as [d|e|] eqn:Em; cbn [wrap]; [|by split; [|left]|done].
  set (certPEM := EncodeToMemory _ c). set (keyPEM := EncodeToMemory _ d).
  assert (forall fs', fs' !! certOutput = put_file umask certOutput certPEM 420 fs !! certOutput ->
    holds_certificate fs' certOutput now now' k) as Hcert.
  { intros fs' Hf. unfold put_file in Hf. rewrite lookup_insert_eq in Hf. eexists _, c. split; [exact Hf|].
    split; [apply EncodeToMemory_decode|done]. }
  assert (forall data data' perm perm' p, p <> certOutput -> p <> keyOutput ->
    put_file umask keyOutput data' perm' (put_file umask certOutput data perm fs) !! p = fs !! p) as Hother.
  { intros. by rewrite !put_file_other. }
  unfold io_wrap, WriteFile. destruct w1 as [|e1|part e1]; cbn [wrap fst snd].
  - destruct w2 as [|e2|part e2]; cbn [wrap fst snd]; (split; [by auto using put_file_other|]).
    + exists k. split; [done|]. split; [by apply Hcert, put_file_other|].
      split; [eexists _, d; split; [apply lookup_insert_eq|split; [apply EncodeToMemory_decode|]];
              by apply MarshalECPrivateKey_parse|].
      split.
      * unfold mode_of at 1. rewrite put_file_other by done. apply put_file_mode.
      * rewrite put_file_mode. unfold mode_of at 1. by rewrite put_file_other.
    + right; right. split; [done|]. split; [done|]. exists k. auto.
    + right; right. split; [done|]. split; [done|]. exists k. split; [done|]. by apply Hcert, put_file_other.
  - split; [done|]. by left.
  - split; [intros; by apply put_file_other|]. right; left. split; [done|]. by apply put_file_other.
Qed.

(** With one name for both files the certificate is lost. *)
Lemma certs_local_same_file `{!CertLaws K PK} (fresh : res K) now now' output fs fs' :
  certs_local fresh now now' output output Written Written fs = (fs', Ok tt) ->
  exists k, holds_key fs' output k /\ forall k', ~ holds_certificate fs' output now now' k'.
Proof.
  unfold certs_local. cbv [mbind io_bind io_lift].
  destruct (GenerateSelfSignedCert fresh now now') as [[c k]|e|]; cbn [wrap]; [|done..].
  unfold ExportPEM. cbv [mbind res_bind].
  destruct (MarshalECPrivateKey k) as [d|e|] eqn:Em; cbn; [|done..]. intros [= <-]. exists k. split.
  - eexists _, d. split; [apply lookup_insert_eq|]. split; [apply EncodeToMemory_decode|].
    by apply MarshalECPrivateKey_parse.
  - intros k' (f & c' & Hf & Hd & _). unfold put_file at 1 in Hf. rewrite lookup_insert_eq in Hf.
    injection Hf as <-. cbn in Hd. by rewrite EncodeToMemory_decode in Hd.
Qed.

(** The certificate names no host, and the TLS configuration panics just when a
    certificate cannot be generated. *)
Lemma GenerateTLSConfig_spec `{!CertLaws K PK} (fresh : res K) now now' :
  match GenerateTLSConfig fresh now now' with
  | Ok cfg => exists c, gen_Certificate cfg = [c] /\
      exists t, ParseCertificate c = Ok (t, PublicKey (gen_PrivateKey cfg)) /\ DNSNames t = []
  | Err _ => False
  | Panic => is_ok (generateSelfSignedCert fresh now now') = false
  end.
Proof.
  unfold GenerateTLSConfig. change (@generateSelfSignedCert) with (@GenerateSelfSignedCert).
  destruct (GenerateSelfSignedCert fresh now now') as [[c k]|e|] eqn:E; [|done..].
  apply generated in E as (_ & Hp & _); [|done]. exists c. split; [done|]. eauto.
Qed.
End CertsCommand.

(** * main.go *)
(** An application of the command-line library: what it runs before and after the
    command, which gets the arguments that follow its name. *)
Record App (P : Type) := {
  app_Before : bytes -> io P unit;
  app_After : io P unit;
  app_Commands : list (string * (list bytes -> io P unit));
}.
Arguments app_Before {P} _.
Arguments app_After {P} _.
Arguments app_Commands {P} _.

(** [selects args]: the path of the configuration, the name of the command, and its
    arguments, of a command line that the library accepts. *)
Class Cli (P : Type) := {
  app_Run : App P -> list bytes -> io P unit;
  selects : list bytes -> option (bytes * string * list bytes);
}.
(** [Before] comes first, and its error prevents the command; [After] always comes
    last; an error of any of them is an error of the run. *)
Class CliLaws (P : Type) `{Cli P} := {
  run_not_before app args path name rest p p1 e :
    selects args = Some (path, name, rest) -> app_Before app path p = (p1, Err e) ->
    exists e', app_Run app args p = ((app_After app p1).1, Err e');
  run_command app args path name rest c p p1 p2 r :
    selects args = Some (path, name, rest) -> (name, c) ∈ app_Commands app -> NoDup (app_Commands app).*1 ->
    app_Before app path p = (p1, Ok tt) -> c rest p1 = (p2, r) -> r <> Panic -> (app_After app p2).2 <> Panic ->
    exists r', app_Run app args p = ((app_After app p2).1, r') /\ r' <> Panic /\
      is_ok r' = is_ok r && is_ok (app_After app p2).2;
}.

Section Main.
Context {O Node S W : Type} `{Yaml Node} `{Zap S} (logger_of : O -> LoggerConfig).
Context (ReadFile : bytes -> res bytes) (parse : bytes -> res Node)
  (decode_sections : Node -> res (MdbxConfig * Networking * list Pprof * O)).

(** The variables of [pkg/config] and [pkg/logger], and the rest of the process. *)
Record Process := { p_config : option (Config O); p_logger : option (Logger S); p_rest : W }.
(** The commands of [Keystore.v], the one above, and that of [Services.v]. *)
Context (KeystoreCommand CertsCommand RuntimeCommand : list bytes -> io Process unit).

Definition main_Before (path : bytes) : io Process unit := fun p =>
  match InitializeGlobalConfig ReadFile parse decode_sections path (p_config p) with
  | (g, Ok cfg) =>
      match InitializeGlobalLogger (logger_of (cfg_other cfg)) (p_logger p) with
      | (l, Ok _) => ({| p_config := g; p_logger := l; p_rest := p_rest p |}, Ok tt)
      | (l, Err e) => ({| p_config := g; p_logger := l; p_rest := p_rest p |},
                       Err (ErrWrap "failure to initialize logger" e))
      | (l, Panic) => ({| p_config := g; p_logger := l; p_rest := p_rest p |}, Panic)
      end
  | (g, Err e) => ({| p_config := g; p_logger := p_logger p; p_rest := p_rest p |},
                   Err (ErrWrap "failure to load main peerdns configuration file" e))
  | (g, Panic) => ({| p_config := g; p_logger := p_logger p; p_rest := p_rest p |}, Panic)
  end.
Definition main_After : io Process unit := fun p =>
  (p, match Sync (p_logger p) with Some err => Err err | None => Ok tt end).
Definition app : App Process :=
  {| app_Before := main_Before; app_After := main_After;
     app_Commands := [("keystore"%string, KeystoreCommand); ("certs"%string, CertsCommand);
                      ("runtime"%string, RuntimeCommand)] |}.

(** The status the process ends with: [log.Fatalf] makes it 1, a panic 2. *)
Definition main `{Cli Process} (args : list bytes) (p : Process) : Process * Z :=
  match app_Run app args p with
  | (p, Ok _) => (p, 0)
  | (p, Err _) => (p, 1)
  | (p, Panic) => (p, 2)
  end.

(** A command runs only after the configuration was loaded and its logger was made,
    and it finds both; the process succeeds exactly if the command does and the
    logger could be flushed.  When either is missing no command runs, the process
    ends with 1, and nothing but these two variables has changed. *)
Theorem main_spec `{CliLaws Process} args path name rest c p :
  selects args = Some (path, name, rest) -> (name, c) ∈ app_Commands app ->
  match LoadConfig ReadFile parse decode_sections path with
  | Ok cfg =>
      match Factory (logger_of (cfg_other cfg)) with
      | Ok l => forall p2 r,
          c rest {| p_config := Some cfg; p_logger := Some l; p_rest := p_rest p |} = (p2, r) -> r <> Panic ->
          main args p = (p2, if is_ok r && bool_decide (Sync (p_logger p2) = None) then 0 else 1)
      | Err _ => main args p = ({| p_config := Some cfg; p_logger := p_logger p; p_rest := p_rest p |}, 1)
      | Panic => True
      end
  | Err _ => main args p = ({| p_config := p_config p; p_logger := p_logger p; p_rest := p_rest p |}, 1)
  | Panic => True
  end.
Proof.
  intros Hsel Hc.
  destruct (main_Before path p) as [p1 r1] eqn:Hb. pose proof Hb as Hbefore.
  unfold main_Before, InitializeGlobalConfig, InitializeGlobalLogger in Hb. cbv [mbind io_bind io_lift] in Hb.
  assert (forall e, r1 = Err e -> main args p = (p1, 1)) as Hfail.
  { intros e ->. edestruct (run_not_before app args path name rest p p1) as [e' Hrun]; [done..|].
    unfold main. by rewrite Hrun. }
  destruct (LoadConfig _ _ _ _) as [cfg|e|]; [|injection Hb as <- <-; by eapply Hfail|done].
  destruct (Factory _) as [l|e|]; cbn in Hb; [|injection Hb as <- <-; by eapply Hfail|done].
  injection Hb as <- <-. intros p2 r Hr Hp.
  assert (NoDup (app_Commands app).*1) as Hnd by (apply (bool_decide_eq_true_1 (NoDup _)); by vm_compute).
  destruct (run_command _ _ _ _ _ _ _ _ _ _ Hsel Hc Hnd Hbefore Hr Hp) as (r' & Hrun & Hp' & Hok).
  - cbn. by destruct (Sync _).
  - unfold main. rewrite Hrun. cbn in Hok |- *.
    destruct (Sync (p_logger p2)); destruct r' as [[]|e1|], r as [[]|e2|]; by cbn in *.
Qed.
End Main.

(** * Instances *)
(** A command-line library that takes the path, the name of the command and its
    arguments. *)
Definition toy_select {P} (name : string) (l : list (string * (list bytes -> io P unit))) : list bytes -> io P unit :=
  match list_find (fun c => c.1 = name) l with Some (_, c) => c.2 | None => fun _ => mret tt end.
#[local] Instance toy_cli {P} : Cli P := {
  selects args :=
    match args with path :: name :: rest => Some (path, string_of_list_byte name, rest) | _ => None end;
  app_Run app args := fun p =>
    match args with
    | path :: name :: rest =>
        let '(p, r) := (_ ← app_Before app path; toy_select (string_of_list_byte name) (app_Commands app) rest) p in
        let '(p, r') := app_After app p in
        (p, match r with Ok _ => r' | _ => r end)
    | _ => (p, Ok tt)
    end;
}.
#[local] Instance toy_cli_laws {P} : CliLaws P.
Proof.
  split.
  - intros app [|path' [|name' rest']] path name rest p p1 e Hsel Hb; try done. injection Hsel as -> <- ->.
    exists e. cbn. cbv [mbind io_bind]. rewrite Hb. by destruct (app_After app p1).
  - intros app [|path' [|name' rest']] path name rest c p p1 p2 r Hsel Hin Hnd Hb Hc Hr Ha; try done.
    injection Hsel as -> Hname ->. cbn. cbv [mbind io_bind]. rewrite Hb, Hname.
    assert (toy_select name (app_Commands app) = c) as ->.
    { unfold toy_select. destruct (list_find _ _) as [[i [n c']]|] eqn:Ef.
      - apply list_find_Some in Ef as (Hi & Hn & _). cbn in *. subst n. apply list_elem_of_lookup in Hin as [j Hj].
        assert (i = j) as ->.
        { apply (NoDup_lookup _ i j name Hnd).
          - apply (f_equal (fmap fst)) in Hi. by rewrite <- list_lookup_fmap in Hi.
          - apply (f_equal (fmap fst)) in Hj. by rewrite <- list_lookup_fmap in Hj. }
        by pose proof (eq_trans (eq_sym Hi) Hj) as [= ->].
      - exfalso. eapply list_find_None, Forall_forall in Ef; [|exact Hin]. done. }
    rewrite Hc. destruct (app_After app p2) as [p3 r'] eqn:E. cbn in *.
    eexists. split; [done|]. destruct r as [[]|e|]; cbn; [|done|done]. by destruct r'.
Qed.

(** Certificates written as the two times and the key, which is its own public key;
    a type of a block before its bytes. *)
#[local] Instance Certificate_eq_dec : EqDecision Certificate.
Proof. intros c c'. destruct c, c'. assert (EqDecision KeyUsage) by solve_decision.
  assert (EqDecision ExtKeyUsage) by solve_decision. solve_decision. Defined.
Definition toy_parse (c : bytes) : Certificate * bytes :=
  (template (le_Z (take 8 c)) (le_Z (take 8 (drop 8 c))), drop 16 c).
Definition toy_create (t parent : Certificate) (pk k : bytes) : res bytes :=
  let c := le_bytes 8 (NotBefore t) ++ le_bytes 8 (NotAfter t - year) ++ pk in
  if decide (toy_parse c = (t, pk) /\ pk = k) then Ok c else Err (ErrMsg "unsupported certificate").
Fixpoint toy_encode (ty : bytes) (d : bytes) : bytes :=
  match ty with [] => x00 :: d | c :: ty => x01 :: c :: toy_encode ty d end.
Fixpoint toy_decode (d : bytes) : option (bytes * bytes) :=
  match d with
  | x00 :: d => Some ([], d)
  | x01 :: c :: d => '(ty, d) ← toy_decode d; Some (c :: ty, d)
  | _ => None
  end.
#[local] Instance toy_certs : CertLib bytes bytes := {
  PublicKey k := k;
  CreateCertificate := toy_create;
  ParseCertificate c := Ok (toy_parse c);
  signed_by c pk := bool_decide (drop 16 c = pk);
  MarshalECPrivateKey k := Ok k;
  ParseECPrivateKey d := Ok d;
  EncodeToMemory ty d := toy_encode (str ty) d;
  pem_Decode d := '(ty, d) ← toy_decode d; Some (string_of_list_byte ty, d);
}.
#[local] Instance toy_certs_laws : CertLaws bytes bytes.
Proof.
  split.
  - intros t parent pk k c Hc. change (toy_create t parent pk k = Ok c) in Hc. unfold toy_create in Hc.
    case_decide as Hd; [|done]. injection Hc as <-. exact (f_equal Ok (proj1 Hd)).
  - intros t parent pk k c Hc. change (toy_create t parent pk k = Ok c) in Hc. unfold toy_create in Hc.
    case_decide as Hd; [|done]. injection Hc as <-. destruct Hd as [Hp <-]. apply bool_decide_eq_true.
    exact (f_equal snd Hp).
  - intros k d [= <-]. done.
  - intros ty d. cbn. assert (forall l, toy_decode (toy_encode l d) = Some (l, d)) as Hl.
    { induction l as [|c l IH]; [done|]. cbn. by rewrite IH. }
    rewrite Hl. cbn. unfold str. by rewrite string_of_list_byte_of_string.
Qed.

Lemma certs_local_spec_witness :
  let '(fs, r) := certs_local 18 (Ok (str "key")) 5 7 (str "cert.pem") (str "key.pem") Written Written ∅ in
  r = Ok tt /\ (exists k, holds_certificate fs (str "cert.pem") 5 7 k /\ holds_key fs (str "key.pem") k) /\
  mode_of fs (str "key.pem") = Some 384.
Proof.
  pose proof (certs_local_spec 18 (Ok (str "key")) 5 7 (str "cert.pem") (str "key.pem") Written Written ∅) as Hs.
  destruct (certs_local _ _ _ _ _ _ _ _) as [fs r] eqn:E.
  assert (r = Ok tt) as -> by (apply (f_equal snd) in E; symmetry; etransitivity; [|exact E]; by vm_compute).
  destruct Hs as [_ (k & _ & Hc & Hk & _ & Hm)]; [done|]. split; [done|]. split; [eauto|].
  rewrite Hm. by vm_compute.
Defined.

(** An empty configuration file but for the section of the logger. *)
#[local] Instance empty_yaml : Yaml unit := {|
  zero_node := tt; node_null _ := true; node_field _ _ := Ok None; node_string _ := Ok []; node_bool _ := Ok false;
  node_int _ := Ok 0; node_list _ := Ok [] |}.
#[local] Instance toy_zap : Zap (Environment * Level) := {| Build env level := Ok (env, level); zap_Sync _ := Some EINVAL |}.
Definition example_logger : LoggerConfig :=
  {| log_Enabled := true; log_Environment := str "Production"; log_Level := str "WARN" |}.
Definition example_sections : MdbxConfig * Networking * list Pprof * LoggerConfig :=
  ({| mdbx_Enabled := false; mdbx_Nodes := [] |},
   {| ListenAddrs := []; ProtocolID := []; nt_PeerID := []; BootstrapPeers := []; BootstrapNode := false; EnableMDNS := false;
      EnableRelay := false; InterfaceName := [] |}, [], example_logger).
Definition example_config : Config LoggerConfig :=
  {| Transports := []; cfg_Mdbx := example_sections.1.1.1; cfg_Networking := example_sections.1.1.2;
     cfg_Pprof := []; cfg_other := example_logger |}.
(** A command that notes in the rest of the process whether it logs. *)
Definition example_command (_ : list bytes) :
    io (Process (O := LoggerConfig) (S := Environment * Level) (W := bool)) unit := fun p =>
  ({| p_config := p_config p; p_logger := p_logger p; p_rest := Fatal_ends (logger_G (p_logger p)) |}, Ok tt).
Definition example_process : Process (O := LoggerConfig) (S := Environment * Level) (W := bool) :=
  {| p_config := None; p_logger := None; p_rest := false |}.

Lemma main_spec_witness :
  main id (fun _ => Ok []) (fun _ => Ok tt) (fun _ => Ok example_sections) example_command example_command example_command
    [str "config.yaml"; str "certs"] example_process =
  ({| p_config := Some example_config; p_logger := Some (ZapLogger (Production, WarnLevel)); p_rest := true |}, 0).
Proof.
  pose proof (main_spec id (fun _ => Ok []) (fun _ => Ok tt) (fun _ => Ok example_sections) example_command
    example_command example_command [str "config.yaml"; str "certs"] (str "config.yaml") "certs"%string []
    example_command example_process) as Hm.
  exact (Hm eq_refl ltac:(right; left) _ (Ok tt) eq_refl ltac:(discriminate)).
Defined.
